(* ===== verification/_CoqProject ===== *)
-Q . S2P
Prelude.v
Wire.v
WireInstance.v
Schema.v
SchemaFacts.v
Encoder.v
EncoderFacts.v
ShardedMap.v
Balancer.v
Stream.v
Ctx.v
Alias.v
CallerMemory.v
Memory.v
MemoryFacts.v
Server.v
ServerFacts.v
ServerProcess.v
ServerIsolation.v
Batcher.v
Multiplexer.v
MultiplexerFacts.v
Client.v
ClientFacts.v
ClientLifecycle.v
ClientProtocol.v
ClientProtocolFacts.v
ClientProgress.v
ClientSimulation.v
EndToEnd.v
Pipeline.v
Float64.v
GoStrings.v
GoTime.v
GoTimeFacts.v
BenchConfig.v
Metrics.v
MetricsFacts.v
Loader.v
LoaderFacts.v
Netem.v
Scenarios.v
Heatmap.v
HeatmapFacts.v
Transport.v
BenchServers.v
BenchEndToEnd.v
StressMain.v
