(* ===== verification/Prelude.v ===== *)
(** * A verification development for qrpc

    qrpc (the directory src/) is a remote procedure call framework in Go over
    QUIC streams, with a benchmark that runs it under emulated network faults.
    This development models both as executable definitions and proves how the
    parts behave, alone and together.

    ** The program

    - A client (client.go) holds a number of QUIC connections, each with a
      multiplexer (transport/quic/client/multiplexer.go) that opens streams, gives
      them to a round-robin balancer (transport/quic/balancer.go) and runs a read
      cycle per stream.  [SendRequest] draws a random id, registers a pooled
      channel under it in a sharded map (internal/shardedmap.go), encodes the
      request into a frame (internal/encoder.go), writes the frame through a
      batcher (transport/quic/client/batcher.go) to the next stream and waits on
      the channel.  The read cycle decodes response frames and hands each to the
      channel registered under its id.
    - A server (server.go) runs a read cycle per accepted stream: it reads a frame,
      decodes the request, looks up the handler of its method, runs it with a
      pooled context (ctx.go) and writes the response frame.  Events are requests
      without an id and without an answer.
    - Messages are protobuf messages with generated code (protos/pb/gen).  A frame
      is a 4-byte big-endian length that counts the flag, a flag
      (transport/types/flag.go), and the message, compressed with zstd when it is
      longer than 16384 bytes and compression makes it shorter.
    - Messages, contexts, buffers and channels come from [sync.Pool]s.
    - The benchmark (stress_tester/) runs scenarios: main.go turns flags into a
      load configuration (internal/config), the runner (internal/scenarios)
      installs a network profile with the program tc (internal/netem), starts a
      load generator (internal/loader) whose workers call the benchmark server
      (internal/server) through qrpc or the gRPC baseline (internal/grpc), and
      makes and saves a report of the collected samples (internal/metrics).
    - runall_stress/main.go runs the benchmark for a matrix of configurations and
      draws the saved reports as a heat map.

    ** The files

    - Prelude: machine integers as [Z] with their wrap-around, bytes, the result
      type [outcome] of Go code (value, error, panic, exhausted fuel), programs over
      a state ([prog_on]), slices with bounds checks, [sync.Pool], tactics, hints.
    - Wire: varints and the blocks the generated decoder repeats.  The package
      protohelpers is the class [Protohelpers] with the laws [ProtohelpersOk];
      WireInstance has an instance.
    - Schema: [Request] and [Response] with [Reset], getters, [SizeVT], the marshal
      functions and [UnmarshalVT]; SchemaFacts: their theorems.
    - Encoder: [Buffer] and its pool, [encodeMessage], the three encoders; zstd is
      the class [Zstd] with the laws [ZstdOk]; EncoderFacts: their theorems and a
      run-length coder as an instance.
    - ShardedMap: the map of the waiting channels, with the interface [IdMap] and
      [IdMapOk] that the client side is stated against.
    - Balancer: the stream balancer, sequentially and as interleaved atomic actions.
    - Stream: reading and writing of a QUIC stream as the code uses it, and
      [readFrame], the part the two read cycles share.
    - Ctx: locals, contexts, handlers as programs over the context interface
      ([prog]), and the message pools.
    - Server: the handler tables, [streamReadCycle] with its request and event
      cases, the accept loops; ServerFacts: the specification [serve] and theorems.
    - Alias: the backing arrays of the bodies of pooled requests and responses, with
      concurrent stream cycles of a server; CallerMemory: the same with callers
      of a client in the process, whose slices get into the pool.
    - Memory: messages as records of slices over a store of arrays, the decoder that
      appends into the arrays of a released message, and handlers that pass slices
      around ([mprog]); [own] makes a handler over values into one that answers with
      memory of its own; MemoryFacts: who owns which array, and when the slices
      hold what the model over values says.
    - ServerProcess: all goroutines of a server, the accept loop, the cycles of
      the connections and of the streams, as a step relation together with the
      registration of handlers; the stream cycles share the pools and the store of
      Memory and take one access to them per step; ServerIsolation: its invariant.
    - Batcher: the write batcher, with its critical sections interleaved.
    - Multiplexer: [start], [GetBatcher], [readCycle] with its three cases;
      MultiplexerFacts: the specification [receive] and theorems.
    - Client: [NewClient], [sendRequestInternal], [sendEventInternal], [SendEvent],
      the release functions, [Close]; [SendRequest] up to its wait; ClientFacts:
      their theorems; ClientLifecycle: the client and its multiplexers from
      [NewClient] to the death of a stream.
    - ClientProtocol: callers of [SendRequest], read cycles and [Close] as a step
      relation over the shared map, channels and pool; ClientProtocolFacts: its
      invariants; ClientProgress: [Close] with the wait group, its waiter and its
      panics, and the calls after it;
      ClientSimulation: the protocol simulates the code of Client and Multiplexer.
    - EndToEnd: client, server and multiplexer composed, for one call; Pipeline:
      for a batch of calls that are sent before any answer is read.
    - Float64: [float64] as the binary64 rounding of rational numbers, and its
      formatting; GoStrings, GoTime: what the benchmark uses of the packages
      strings and time; GoTimeFacts: [ParseDuration] inverts [Duration.String].
    - BenchConfig: the tables of profiles and scenarios, JSON durations, profile
      files, the flags of "run" and the configuration they give.
    - Metrics: samples, the collector, the report with its percentiles and its
      distribution, the saved files; MetricsFacts: their theorems.
    - Loader: payloads, client initialisation, stream pool, knee points; the
      module [generator] is the load generator as a step relation over its worker
      loops, [Warmup] and [Run]; LoaderFacts: their theorems.
    - Netem: [Apply], [Clean], [Show]; tc is a parameter with the laws [TcLaws].
    - Scenarios: [runSingle] and [RunScenario] over the machine, the files and the
      schedules of the load generators.
    - Heatmap: the matrix, loading, grouping and rendering of the reports and the
      commands of the program; HeatmapFacts: their theorems.
    - Transport: the certificate and the TLS configurations of internal/tls, the
      QUIC configurations, [NewServer] and the dials of [NewClient]; the crypto
      packages are the class [Crypto] with the laws [CryptoLaws], the handshake
      has the laws [HandshakeLaws].
    - BenchServers: the two benchmark servers with their handlers, run by the model
      of Server, and the gRPC client and service (gRPC is the class [GrpcLaws]);
      BenchEndToEnd: a call of the load generator through all parts.
    - StressMain: the commands of the benchmark program and what they print.

    A pointer to a message is modelled by the value it points to, which is what the
    code does as long as no two messages share an array; the theorems about one
    stream (ServerFacts, EndToEnd) are about such values.  Alias, CallerMemory,
    Memory and ServerProcess are about the arrays behind the values: they show that
    handlers that answer with memory of their own never make messages share an
    array, and what happens with handlers that do.  What the environment decides (the
    object a pool hands out, the result of a write, random numbers, the clock) is a
    parameter of the definitions, and the theorems hold for all its values unless
    they say otherwise.

    ** What the theorems show

    - The codec: encoding and decoding are inverse for both messages
      ([Request_roundtrip], [Response_roundtrip]), decoding is total on arbitrary
      bytes ([UnmarshalVT_total]), [SizeVT] is exact ([Marshal_fills_buffer]),
      decoding is compositional ([Request_UnmarshalVT_app]), and
      re-encoding normalises ([Request_reencode]).
    - Frames: the encoders emit exactly the frame, from any pooled buffer
      ([encoders_emit_frames]); the framing is unambiguous ([readFrame_iff]).
    - The server: with messages as values the read cycle of one stream refines a
      specification without pools on arbitrary input ([streamReadCycle_refines]),
      always returns when the handlers do
      ([streamReadCycle_total]), answers each request once, in order and with its
      id ([server_answers]), and stops at a request without a handler
      ([unknown_method_ends_stream]); contexts leak nothing ([ctx_pool_no_leak]).
      With all stream cycles of a server interleaved on shared pools and arrays,
      and handlers that answer with memory of their own, each stream is answered as
      that specification says, and every round can be ended ([streams_isolated]).
    - The client: sending ([sendRequestInternal_sends], [sendEventInternal_sends],
      [closed_client_rejects]), construction ([NewClient_all_or_nothing],
      [start_opens_all]), delivery ([readCycle_refines], [readCycle_delivers]), the
      map ([shardedmap_refines_map]), the balancer ([GetStream_never_panics],
      [GetStream_round_robin], [GetStream_wrap_repeats]) and the batcher
      ([batcher_pass_through]).
    - Concurrency: without failures every call gets a response with its own id
      ([responses_match_requests]); [Close] waits for exactly the waiting callers
      ([pending_counts_waiters]); after [Close] every call and [Close] itself
      return unless the wait group panics, which it cannot when all calls that found
      the client open are inside [waitResponse] ([closed_calls_return]); the runs
      of the code are runs of the
      protocol these are about ([send_simulated], [response_simulated]); handlers
      that answer with memory of their own are safe under concurrent pooling
      ([computed_replies_correct]).
    - The whole: a call works from end to end ([rpc_end_to_end]), and pipelined
      calls over any number of connections and streams each get their own answer
      from a server whose stream cycles run concurrently ([pipelined_calls]).
    - The benchmark: the flags give a well-formed configuration or a message
      ([resolve_wf]); when its sizes can be allocated no payload panics, and after
      the cancellation every schedule of the workers ends
      ([cancelled_workers_finish]); the report counts
      the samples and its rounded percentiles are ordered between the minimum and
      the maximum ([report_correct], [report_distribution]); a scenario returns a
      report per profile and removes the emulation ([RunScenario_completes]);
      durations survive JSON ([Duration_json_roundtrip]); the command "run" ends
      with a summary ([runBenchmark_completes]); both benchmark servers answer
      every request so that it counts as a success ([bench_server_correct],
      [grpc_baseline_correct]); a call of the load generator to the benchmark
      server is recorded as a success ([bench_call_succeeds]); the TLS
      configurations of client and server agree ([quic_setup_agrees]); the runs of
      the matrix are valid ([matrix_valid]).
    - Defects, as theorems that exhibit the run: a cancelled call can make another
      call return its response ([cancellation_misdelivers]); a failed write leaves
      its map entry behind ([failed_write_leaks_entry]); the echo handler of the
      README can answer with another request's body ([echo_reply_corrupted]); after a
      handler that answers with the headers of its request, [SetHeader] overwrites
      the headers of a later request ([shared_headers_overwritten]); [Close] can make
      the wait group panic ([close_wait_panics]); a
      body slice that is sent twice corrupts other requests
      ([reused_body_corrupts]); a client cannot send before a stream is open in the
      background ([fresh_client_has_no_stream]) and goes on sending to streams
      that are dead ([dead_stream_still_chosen]); a request that arrives before
      its handler is registered can stop the server ([startup_race]); a
      header without a value and a request frame sent to a client make the process
      panic ([dangling_header_panics], [request_frame_panics]); [Run] need not wait
      for its workers ([run_returns_early]); the heat map never shows the runs with
      sixteen connections ([heatmap_drops_connections]); an interrupted scenario
      and a failed report leave network rules behind
      ([interrupted_keeps_emulation], [main_cleans_up]).

    ** Bounds and fuel

    Loops that are not structural take fuel and return [NoFuel] without it.  The
    decoder gets one unit per byte of input, each round consumes at least one;
    [GetHeader] one per header; the read cycles one per frame, and a frame has at
    least five bytes, so more fuel than the input has bytes is enough; [start] one
    per attempt to open a stream.  The theorems about results state that the run
    ends, never only that a result is right if there is one.  [int] has 64 bits.
    A slice is shorter than [2 ^ 63] bytes ([fits]); a frame is shorter than
    [2 ^ 32]; zstd decodes at most 64 GiB ([maxDecoded]), its documented default.
    [ParseDuration] gets one unit per character, each term consumes at least two;
    integers print with twenty digits at most, which is enough for 64 bits.  The
    theorems about reports bound each latency by [2 ^ 53] nanoseconds (104 days),
    where [float64] is exact, and their sum by [2 ^ 63].  A [float64] is finite:
    overflow to infinity, which needs values above [2 ^ 1023], and NaN are not
    modelled, and products and sums are rounded separately, not fused.

    ** What is not modelled

    - QUIC and TLS themselves, goroutine scheduling below the modelled atomic actions, logging,
      and time other than as a recorded number.
    - The reflection glue of schema.pb.go, which only calls the protobuf runtime.
    - Handlers that keep their context after they return.
    - [Request.unknownFields] set to an empty slice that is not nil is identified
      with nil, as the code never tells them apart on the wire.
    - In the benchmark: the forced exit at a second signal, log lines, and the
      texts of package flag and encoding/json: flags are a record, and a saved JSON
      file is the report it encodes.
    - Running out of memory: an allocation fails only above the limit of the runtime
      ([maxAlloc]).
    - Handlers that write into the slices their context returns, or append to them;
      in Memory a slice starts at the beginning of its array.
    - internal/errors.go, whose values nothing uses. *)

From Stdlib Require Export ZArith Lia.
From Stdlib Require Import Strings.Byte.
From stdpp Require Export prelude list gmap.

Declare Scope go_scope.
Delimit Scope go_scope with go.
#[global] Open Scope Z_scope.

(** ** Hint databases

    [go] holds the lemmas that close routine side conditions (ranges of bytes
    and machine integers); [go_len] is the rewriting database for lengths. *)
Create HintDb go.
Create Rewrite HintDb go_len.

(** ** Machine integers

    A w-bit Go integer is a [Z]; conversions write the wrap-around out. *)

Definition u8 (z : Z) : Z := z mod 2 ^ 8.
Definition u16 (z : Z) : Z := z mod 2 ^ 16.
Definition u32 (z : Z) : Z := z mod 2 ^ 32.
Definition u64 (z : Z) : Z := z mod 2 ^ 64.
Definition i32 (z : Z) : Z := (z + 2 ^ 31) mod 2 ^ 32 - 2 ^ 31.
(** [int] is 64 bits wide on the platforms the program targets. *)
Definition i64 (z : Z) : Z := (z + 2 ^ 63) mod 2 ^ 64 - 2 ^ 63.

Lemma u64_id z : 0 ≤ z < 2 ^ 64 → u64 z = z.
Proof. intros; unfold u64; by apply Z.mod_small. Qed.
Lemma u32_id z : 0 ≤ z < 2 ^ 32 → u32 z = z.
Proof. intros; unfold u32; by apply Z.mod_small. Qed.
Lemma i64_id z : - 2 ^ 63 ≤ z < 2 ^ 63 → i64 z = z.
Proof. intros; unfold i64; rewrite Z.mod_small; lia. Qed.
Lemma u32_range z : 0 ≤ u32 z < 2 ^ 32.
Proof. unfold u32; apply Z.mod_pos_bound; lia. Qed.
Lemma u64_range z : 0 ≤ u64 z < 2 ^ 64.
Proof. unfold u64; apply Z.mod_pos_bound; lia. Qed.
Lemma i64_range z : - 2 ^ 63 ≤ i64 z < 2 ^ 63.
Proof. unfold i64. pose proof (Z.mod_pos_bound (z + 2 ^ 63) (2 ^ 64)). lia. Qed.

(** The overflow test of the generated decoder: a sum of two non-negative [int]s
    that comes out non-negative did not wrap. *)
Lemma i64_add_nonneg x y :
  0 ≤ x < 2 ^ 63 → 0 ≤ y < 2 ^ 63 → 0 ≤ i64 (x + y) → i64 (x + y) = x + y ∧ x + y < 2 ^ 63.
Proof.
  intros Hx Hy. destruct (Z.lt_ge_cases (x + y) (2 ^ 63)) as [?|?].
  - rewrite i64_id; lia.
  - unfold i64. replace (x + y + 2 ^ 63) with (x + y - 2 ^ 63 + 1 * 2 ^ 64) by lia.
    rewrite Z.mod_add, Z.mod_small by lia. lia.
Qed.

#[export] Hint Resolve u32_range u64_range i64_range : go.

(** ** Bytes *)

#[export] Instance byte_eq_dec : EqDecision byte := Byte.byte_eq_dec.

Definition byte_to_Z (b : byte) : Z := Z.of_N (Byte.to_N b).
Definition byte_of_Z (z : Z) : byte := default x00 (Byte.of_N (Z.to_N (u8 z))).

Lemma byte_to_Z_range b : 0 ≤ byte_to_Z b < 256.
Proof. unfold byte_to_Z. pose proof (Byte.to_N_bounded b). lia. Qed.

Lemma byte_to_of_Z z : byte_to_Z (byte_of_Z z) = u8 z.
Proof.
  unfold byte_of_Z, byte_to_Z.
  assert (0 ≤ u8 z < 256) as Hr by (unfold u8; apply Z.mod_pos_bound; lia).
  destruct (Byte.of_N (Z.to_N (u8 z))) as [b|] eqn:E; simpl.
  - apply Byte.to_of_N in E. rewrite E. lia.
  - apply Byte.of_N_None_iff in E. lia.
Qed.

Lemma byte_of_to_Z b : byte_of_Z (byte_to_Z b) = b.
Proof. by destruct b. Qed.

Lemma byte_to_of_Z_small z : 0 ≤ z < 256 → byte_to_Z (byte_of_Z z) = z.
Proof. intros. rewrite byte_to_of_Z. unfold u8. by apply Z.mod_small. Qed.

#[export] Hint Resolve byte_to_Z_range : go.

#[export] Program Instance byte_countable : Countable byte :=
  inj_countable Byte.to_N Byte.of_N _.
Next Obligation. intros b; apply Byte.of_to_N. Qed.

(** A Go string is an immutable byte sequence. *)
Abbreviation gostring := (list byte).

(** ** Outcomes of Go code

    [Ok] is a normal return, [Err] a returned error value, [Panic] a run-time
    panic (index or slice bounds, nil dereference) and [NoFuel] the exhaustion
    of the fuel of a loop, which no execution of the source has. *)
Inductive outcome (E A : Type) : Type :=
| Ok (a : A)
| Err (e : E)
| Panic
| NoFuel.
Arguments Ok {E A} a.
Arguments Err {E A} e.
Arguments Panic {E A}.
Arguments NoFuel {E A}.

#[export] Instance outcome_ret E : MRet (outcome E) := λ A a, Ok a.
#[export] Instance outcome_bind E : MBind (outcome E) := λ A B f c,
  match c with
  | Ok a => f a
  | Err e => Err e
  | Panic => Panic
  | NoFuel => NoFuel
  end.

(** A run that neither panics nor runs out of fuel. *)
Definition safe {E A} (c : outcome E A) : Prop :=
  match c with Ok _ | Err _ => True | Panic | NoFuel => False end.

(** Changes the error value, as the code does when it wraps an error. *)
Definition map_err {E F A} (f : E → F) (c : outcome E A) : outcome F A :=
  match c with Ok a => Ok a | Err e => Err (f e) | Panic => Panic | NoFuel => NoFuel end.

Lemma bind_Ok {E A B} (a : A) (f : A → outcome E B) : (Ok a ≫= f) = f a.
Proof. done. Qed.

Lemma bind_assoc {E A B C} (c : outcome E A) (f : A → outcome E B) (g : B → outcome E C) :
  ((c ≫= f) ≫= g) = (c ≫= λ a, f a ≫= g).
Proof. by destruct c. Qed.

Lemma bind_Ok_inv {E A B} (c : outcome E A) (f : A → outcome E B) b :
  (c ≫= f) = Ok b → ∃ a, c = Ok a ∧ f a = Ok b.
Proof. destruct c; naive_solver. Qed.

Lemma bind_safe {E A B} (c : outcome E A) (f : A → outcome E B) :
  safe c → (∀ a, c = Ok a → safe (f a)) → safe (c ≫= f).
Proof. destruct c; simpl; auto. Qed.

Lemma map_err_safe {E F A} (f : E → F) (c : outcome E A) : safe c → safe (map_err f c).
Proof. by destruct c. Qed.

Lemma map_err_Ok {E F A} (f : E → F) (c : outcome E A) a :
  map_err f c = Ok a ↔ c = Ok a.
Proof. destruct c; simpl; naive_solver. Qed.

#[export] Hint Resolve map_err_safe : go.

(** Case analysis on the scrutinee of a match or an if, with its equation. *)
Ltac case_go :=
  match goal with
  | |- context [if ?b then _ else _] => destruct b eqn:?
  | H : context [if ?b then _ else _] |- _ => destruct b eqn:?
  | |- context [match ?x with _ => _ end] => destruct x eqn:?
  | H : context [match ?x with _ => _ end] |- _ => destruct x eqn:?
  end.

(** Turns the boolean comparisons of [Z] in the hypotheses into propositions. *)
Ltac z_bools :=
  repeat match goal with
  | H : (_ <? _) = true |- _ => apply Z.ltb_lt in H
  | H : (_ <? _) = false |- _ => apply Z.ltb_ge in H
  | H : (_ <=? _) = true |- _ => apply Z.leb_le in H
  | H : (_ <=? _) = false |- _ => apply Z.leb_gt in H
  | H : (_ =? _) = true |- _ => apply Z.eqb_eq in H
  | H : (_ =? _) = false |- _ => apply Z.eqb_neq in H
  | H : (_ && _) = true |- _ => apply andb_prop in H as [? ?]
  | H : (_ || _) = false |- _ => apply orb_false_elim in H as [? ?]
  | H : negb _ = true |- _ => apply negb_true_iff in H
  | H : negb _ = false |- _ => apply negb_false_iff in H
  end.

(** Splits a successful sequence of bound calls into its steps. *)
Ltac ok_inv :=
  repeat match goal with
  | H : (_ ≫= _) = Ok _ |- _ =>
      let E := fresh "E" in apply bind_Ok_inv in H as (? & E & H); simpl in H
  | H : Ok _ = Ok _ |- _ => injection H as H; subst
  | H : Err _ = Ok _ |- _ => discriminate H
  | H : Panic = Ok _ |- _ => discriminate H
  | H : NoFuel = Ok _ |- _ => discriminate H
  | x : _ * _ |- _ => destruct x
  | H : (_, _) = (_, _) |- _ => injection H as ? ?; subst
  end.

(** ** Stateful code

    [prog_on S E A] reads and changes a state [S] and ends like Go code; the
    changes made before an error or a panic stay. *)
Definition prog_on (S E A : Type) : Type := S → S * outcome E A.

#[export] Instance prog_on_ret S E : MRet (prog_on S E) := λ A a s, (s, Ok a).
#[export] Instance prog_on_bind S E : MBind (prog_on S E) := λ A B f c s,
  match c s with
  | (s, Ok a) => f a s
  | (s, Err e) => (s, Err e)
  | (s, Panic) => (s, Panic)
  | (s, NoFuel) => (s, NoFuel)
  end.

(** A return with an error value. *)
Definition throw {S E A} (e : E) : prog_on S E A := λ s, (s, Err e).
(** A computation that does not touch the state. *)
Definition lift {S E A} (c : outcome E A) : prog_on S E A := λ s, (s, c).
(** A panic or a value; no error. *)
Definition total {E A} (c : outcome Empty_set A) : outcome E A :=
  map_err (Empty_set_rect (λ _, E)) c.
Definition modify {S E} (f : S → S) : prog_on S E unit := λ s, (f s, Ok tt).
(** [if err != nil { h }; k]: both outcomes of a call are handled. *)
Definition with_err {S E F A B} (c : outcome F A) (h : F → prog_on S E B) (k : A → prog_on S E B) :
    prog_on S E B :=
  match c with
  | Ok a => k a
  | Err e => h e
  | Panic => λ s, (s, Panic)
  | NoFuel => λ s, (s, NoFuel)
  end.

Lemma prog_bind_Ok {S E A B} (c : prog_on S E A) (f : A → prog_on S E B) s s' a :
  c s = (s', Ok a) → (c ≫= f) s = f a s'.
Proof. intros H. unfold mbind, prog_on_bind. by rewrite H. Qed.

Lemma prog_bind_Err {S E A B} (c : prog_on S E A) (f : A → prog_on S E B) s s' e :
  c s = (s', Err e) → (c ≫= f) s = (s', Err e).
Proof. intros H. unfold mbind, prog_on_bind. by rewrite H. Qed.

Lemma prog_bind_Panic {S E A B} (c : prog_on S E A) (f : A → prog_on S E B) s s' :
  c s = (s', Panic) → (c ≫= f) s = (s', Panic).
Proof. intros H. unfold mbind, prog_on_bind. by rewrite H. Qed.

(** Runs the first call of the goal with the known result [E]. *)
Ltac run_call E := rewrite (prog_bind_Ok _ _ _ _ _ E); cbv beta zeta.

(** ** Lengths and slices

    A byte slice is the list of its elements: [nil] and the empty slice, which
    the modelled code never tells apart, are both [[]].  A slice operation
    whose bounds check fails is [Panic]. *)

Definition len {A} (l : list A) : Z := Z.of_nat (length l).

Lemma len_nonneg {A} (l : list A) : 0 ≤ len l.
Proof. unfold len; lia. Qed.
Lemma len_nil {A} : len (@nil A) = 0.
Proof. done. Qed.
Lemma len_cons {A} (x : A) l : len (x :: l) = 1 + len l.
Proof. unfold len; simpl; lia. Qed.
Lemma len_app {A} (l k : list A) : len (l ++ k) = len l + len k.
Proof. unfold len; rewrite length_app; lia. Qed.
Lemma len_take {A} (l : list A) (n : Z) : 0 ≤ n ≤ len l → len (take (Z.to_nat n) l) = n.
Proof. unfold len; intros; rewrite length_take; lia. Qed.
Lemma len_drop {A} (l : list A) (n : Z) : 0 ≤ n ≤ len l → len (drop (Z.to_nat n) l) = len l - n.
Proof. unfold len; intros; rewrite length_drop; lia. Qed.
Lemma len_replicate {A} (n : nat) (x : A) : len (replicate n x) = Z.of_nat n.
Proof. unfold len; by rewrite length_replicate. Qed.
Lemma len_0_nil {A} (l : list A) : len l = 0 → l = [].
Proof. destruct l; unfold len; simpl; [done|lia]. Qed.
Lemma to_nat_len {A} (l : list A) : Z.to_nat (len l) = length l.
Proof. unfold len; lia. Qed.

Lemma mjoin_fmap_cons {A B} (f : A → list B) x l : mjoin (f <$> x :: l) = f x ++ mjoin (f <$> l).
Proof. done. Qed.

#[export] Hint Resolve len_nonneg : go.
#[export] Hint Rewrite @len_nil @len_cons @len_app @len_replicate @to_nat_len : go_len.

Ltac len_simpl := autorewrite with go_len in *.
Ltac len_lia :=
  len_simpl;
  repeat match goal with
  | |- context [len ?l] =>
      lazymatch goal with
      | _ : 0 ≤ len l |- _ => fail
      | _ => pose proof (len_nonneg l)
      end
  | H : context [len ?l] |- _ =>
      lazymatch goal with
      | _ : 0 ≤ len l |- _ => fail
      | _ => pose proof (len_nonneg l)
      end
  end; lia.

(** [s[i]] *)
Definition index {E A} (l : list A) (i : Z) : outcome E A :=
  if i <? 0 then Panic
  else match l !! Z.to_nat i with Some x => Ok x | None => Panic end.

(** [s[i] = x] *)
Definition set_index {E A} (l : list A) (i : Z) (x : A) : outcome E (list A) :=
  if (0 <=? i) && (i <? len l) then Ok (<[Z.to_nat i := x]> l) else Panic.

(** [s[lo:hi]] with [hi] at most the length. *)
Definition slice {E A} (l : list A) (lo hi : Z) : outcome E (list A) :=
  if (0 <=? lo) && (lo <=? hi) && (hi <=? len l)
  then Ok (take (Z.to_nat (hi - lo)) (drop (Z.to_nat lo) l)) else Panic.

(** [copy(s[i:], src)] *)
Definition copy_at {E A} (l : list A) (i : Z) (src : list A) : outcome E (list A) :=
  if (0 <=? i) && (i <=? len l)
  then let n := Z.to_nat i in
       Ok (take n l ++ take (length l - n) src ++ drop (n + length src) l)
  else Panic.

Lemma index_app {E A} (a : list A) x b : @index E A (a ++ x :: b) (len a) = Ok x.
Proof.
  unfold index. rewrite (proj2 (Z.ltb_ge _ _)) by len_lia.
  rewrite to_nat_len. by rewrite list_lookup_middle.
Qed.

Lemma index_Ok {E A} (l : list A) i x :
  @index E A l i = Ok x ↔ 0 ≤ i ∧ l !! Z.to_nat i = Some x.
Proof.
  unfold index. repeat case_go; z_bools; split; intros; destruct_and?; simplify_eq; auto; lia.
Qed.

Lemma index_local {E A} (a d e : list A) i x :
  0 ≤ i → @index E A d i = Ok x → @index E A (a ++ d ++ e) (len a + i) = Ok x.
Proof.
  rewrite !index_Ok. intros Hi [_ H]. split; [len_lia|]. unfold len.
  rewrite lookup_app_r by lia. replace (_ - _)%nat with (Z.to_nat i) by lia.
  by apply lookup_app_l_Some.
Qed.

Lemma index_safe {E A} (l : list A) i : 0 ≤ i < len l → safe (@index E A l i).
Proof.
  intros Hi. unfold index, len in *. case_go; z_bools; [lia|].
  destruct (lookup_lt_is_Some_2 l (Z.to_nat i)) as [x ->]; [lia|done].
Qed.

Lemma slice_app {E A} (a b c : list A) lo hi :
  lo = len a → hi = len a + len b → @slice E A (a ++ b ++ c) lo hi = Ok b.
Proof.
  intros -> ->. unfold slice.
  rewrite (proj2 (Z.leb_le _ _)), (proj2 (Z.leb_le _ _)), (proj2 (Z.leb_le _ _)) by len_lia.
  simpl. f_equal. replace (len a + len b - len a) with (len b) by lia.
  rewrite !to_nat_len, drop_app_length. by rewrite take_app_length.
Qed.

Lemma slice_Ok {E A} (l : list A) lo hi r :
  @slice E A l lo hi = Ok r ↔
  0 ≤ lo ≤ hi ∧ hi ≤ len l ∧ r = take (Z.to_nat (hi - lo)) (drop (Z.to_nat lo) l).
Proof.
  unfold slice. case_go; z_bools; [split; intros; destruct_and?; simplify_eq; auto with lia|].
  split; [done|]. intros (?&?&?). rewrite !andb_false_iff, !Z.leb_gt in Heqb. lia.
Qed.

Lemma slice_len {E A} (l : list A) lo hi r : @slice E A l lo hi = Ok r → len r = hi - lo.
Proof.
  intros (?&?&->)%slice_Ok. unfold len in *. rewrite length_take, length_drop. lia.
Qed.

(** Writing [src] immediately before an already written suffix, the way the
    marshalling code fills its buffer from the end. *)
Lemma copy_at_back {E} (pre suf src : list byte) :
  len src ≤ len pre →
  @copy_at E _ (pre ++ suf) (len pre - len src) src =
    Ok (take (Z.to_nat (len pre - len src)) pre ++ src ++ suf).
Proof.
  intros H. unfold copy_at.
  rewrite (proj2 (Z.leb_le _ _)), (proj2 (Z.leb_le _ _)) by len_lia. simpl.
  unfold len in *. f_equal. f_equal.
  - rewrite take_app_le; [done|lia].
  - f_equal; [apply take_ge; rewrite length_app; lia|].
    replace (_ + length src)%nat with (length pre) by lia. apply drop_app_length.
Qed.

Lemma set_index_back {E} (pre suf : list byte) x :
  1 ≤ len pre →
  @set_index E _ (pre ++ suf) (len pre - 1) x =
    Ok (take (Z.to_nat (len pre - 1)) pre ++ x :: suf).
Proof.
  intros H. unfold set_index. unfold len in *.
  rewrite (proj2 (Z.leb_le _ _)), (proj2 (Z.ltb_lt _ _)) by (rewrite ?length_app; lia).
  destruct pre as [|y pre _] using rev_ind; [simpl in H; lia|].
  rewrite length_app; simpl. replace (Z.to_nat _) with (length pre) by lia.
  f_equal. rewrite <- (app_assoc pre). rewrite take_app_length, insert_app_r_alt by lia.
  by rewrite Nat.sub_diag.
Qed.

(** ** [sync.Pool]

    A pool is the multiset of the objects put back.  [Get] may return any of
    them or a new object: the index [k] is the runtime's choice, and a [k] out
    of range means that the pool calls [New]. *)
Definition pool_get {A} (new : A) (k : nat) (p : list A) : A * list A :=
  match p !! k with
  | Some a => (a, delete k p)
  | None => (new, p)
  end.

Definition pool_put {A} (a : A) (p : list A) : list A := a :: p.

Lemma pool_get_Forall {A} (P : A → Prop) new k p :
  P new → Forall P p → P (pool_get new k p).1 ∧ Forall P (pool_get new k p).2.
Proof.
  intros Hn Hp. unfold pool_get. destruct (p !! k) as [a|] eqn:E; [|done]; simpl.
  split; [by eapply Forall_lookup_1|by apply Forall_delete].
Qed.

Lemma pool_put_Forall {A} (P : A → Prop) a p : P a → Forall P p → Forall P (pool_put a p).
Proof. by constructor. Qed.

#[export] Hint Resolve pool_put_Forall : go.

(** ** Bit lemmas *)

(** Or-ing digits into disjoint positions adds them. *)
Lemma lor_shiftl_add a x s :
  0 ≤ s → 0 ≤ a < 2 ^ s → Z.lor a (Z.shiftl x s) = a + x * 2 ^ s.
Proof.
  intros Hs Ha. rewrite <- Z.shiftl_mul_pow2 by done.
  assert (Z.land a (Z.shiftl x s) = 0) as Hl.
  { apply Z.bits_inj'. intros n Hn. rewrite Z.land_spec, Z.bits_0.
    destruct (Z.lt_ge_cases n s) as [Hlt|Hge].
    - rewrite Z.shiftl_spec_low by done. by rewrite andb_false_r.
    - destruct (decide (a = 0)) as [->|]; [by rewrite Z.bits_0|].
      rewrite (Z.bits_above_log2 a n); [done|lia|].
      apply Z.log2_lt_pow2; [lia|]. pose proof (Z.pow_le_mono_r 2 s n ltac:(lia) Hge). lia. }
  pose proof (Z.add_lor_land a (Z.shiftl x s)). lia.
Qed.

Lemma lor_lt_pow2 n a b : 0 ≤ n → a < 2 ^ n → b < 2 ^ n → Z.lor a b < 2 ^ n.
Proof.
  intros Hn Ha Hb. pose proof (Z.pow_pos_nonneg 2 n ltac:(lia) Hn).
  destruct (Z.lt_ge_cases (Z.lor a b) 1) as [?|Hl]; [lia|].
  assert (0 ≤ a ∧ 0 ≤ b) as [Ha0 Hb0] by (apply Z.lor_nonneg; lia).
  apply Z.log2_lt_cancel. rewrite Z.log2_lor by done.
  destruct (decide (n = 0)) as [->|?]; [simpl in *; assert (a = 0 ∧ b = 0) as [-> ->] by lia; done|].
  rewrite Z.log2_pow2 by done.
  assert (∀ c, 0 ≤ c < 2 ^ n → Z.log2 c < n) as Hlog.
  { intros c Hc. destruct (decide (c = 0)) as [->|?]; [simpl; lia|]. apply Z.log2_lt_pow2; lia. }
  pose proof (Hlog a ltac:(lia)). pose proof (Hlog b ltac:(lia)). lia.
Qed.

Lemma land_127 b : Z.land b 127 = b mod 128.
Proof. apply (Z.land_ones b 7). lia. Qed.

(** ** Invariants of step relations *)

Lemma rtc_invariant {A} (R : relation A) (P : A → Prop) x y :
  P x → (∀ a b, R a b → P a → P b) → rtc R x y → P y.
Proof. intros Hx Hs H. revert Hx. induction H; eauto. Qed.
