(* ===== verification/Wire.v ===== *)
(** * The protobuf wire format: varints and the helper library

    The generated code of protos/pb/gen/schema_vtproto.pb.go decodes varints
    with a loop it inlines at every use and calls three functions of the package
    vtprotobuf/protohelpers, which is not part of the repository: they are the
    operations of the class [Protohelpers], and what the code relies on is the
    class [ProtohelpersOk].  [varint] is the base-128 encoding of the protobuf
    specification. *)

From S2P Require Import Prelude.
From Stdlib Require Import Strings.Byte.

(** ** Errors of the decoder *)

(** The errors [UnmarshalVT] returns: those of protohelpers, [io.ErrUnexpectedEOF]
    and the formatted ones with their arguments. *)
Inductive GoErr : Type :=
| ErrIntOverflow
| ErrInvalidLength
| ErrUnexpectedEndOfGroup
| ErrUnexpectedEOF
| ErrEndGroup
| ErrIllegalTag (fieldNum wire : Z)
| ErrWrongWireType (wireType field : Z)
| ErrIllegalWireType (wireType : Z).

#[export] Instance GoErr_eq_dec : EqDecision GoErr.
Proof. solve_decision. Defined.

(** ** The specification of varints *)

(** Base-128 digits of [v], least significant first, with the continuation bit
    set on all but the last.  Ten digits cover 64 bits. *)
Fixpoint varint_digits (fuel : nat) (v : Z) : list byte :=
  match fuel with
  | O => []
  | S fuel =>
      if v <? 128 then [byte_of_Z v]
      else byte_of_Z (v mod 128 + 128) :: varint_digits fuel (v / 128)
  end.

Definition varint (v : Z) : list byte := varint_digits 10 v.

Example varint_300 : varint 300 = [xac; x02].
Proof. reflexivity. Qed.

Lemma varint_digits_len fuel v : (0 < fuel)%nat → 1 ≤ len (varint_digits fuel v) ≤ Z.of_nat fuel.
Proof.
  revert v. induction fuel as [|fuel IH]; intros v Hf; [lia|]. cbn [varint_digits].
  case_go; [len_lia|]. len_simpl. destruct fuel as [|fuel]; [unfold len; simpl; lia|].
  specialize (IH (v / 128)). lia.
Qed.

Lemma varint_len v : 1 ≤ len (varint v) ≤ 10.
Proof. unfold varint. pose proof (varint_digits_len 10 v). lia. Qed.

(** ** The varint loop of the generated code *)

(** The body of [for shift := uint(0); ; shift += 7 { ... }] over the buffer
    [dAtA]: [conv] is the conversion to the type of the accumulator ([uint64],
    [int] or [uint32]), and on an error the accumulator is part of the result,
    because the loops over [m.RequestId] and [m.Code] update the message. *)
Fixpoint readVarint_loop (conv : Z → Z) (fuel : nat) (dAtA : list byte)
    (shift acc iNdEx : Z) : outcome (Z * GoErr) (Z * Z) :=
  match fuel with
  | O => NoFuel
  | S fuel =>
      if 64 <=? shift then Err (acc, ErrIntOverflow)
      else if len dAtA <=? iNdEx then Err (acc, ErrUnexpectedEOF)
      else b ← index dAtA iNdEx;
           let b := byte_to_Z b in
           let iNdEx := iNdEx + 1 in
           let acc := Z.lor acc (conv (Z.shiftl (conv (Z.land b 0x7F)) shift)) in
           if b <? 0x80 then Ok (acc, iNdEx)
           else readVarint_loop conv fuel dAtA (shift + 7) acc iNdEx
  end.

(** Shifts 0, 7, ..., 63 are ten rounds; the eleventh reports the overflow. *)
Definition readVarint (conv : Z → Z) (dAtA : list byte) (iNdEx : Z) :
    outcome (Z * GoErr) (Z * Z) :=
  readVarint_loop conv 11 dAtA 0 0 iNdEx.

(** Go slices are shorter than [2 ^ 63] bytes. *)
Definition fits {A} (l : list A) : Prop := len l < 2 ^ 63.

(** ** protohelpers *)

Class Protohelpers : Type := {
  (** [EncodeVarint dAtA offset v]: writes [v] so that it ends before [offset];
      the new contents of the buffer and the offset of the first byte. *)
  EncodeVarint : list byte → Z → Z → outcome GoErr (list byte * Z);
  SizeOfVarint : Z → Z;
  (** [Skip dAtA]: the length of the first record of [dAtA]. *)
  Skip : list byte → outcome GoErr Z
}.

(** What the generated code relies on, from the package's documentation. *)
Class ProtohelpersOk `{Protohelpers} : Prop := {
  (** the encoded value is written, and nothing else is changed *)
  EncodeVarint_spec pre suf v :
    0 ≤ v < 2 ^ 64 → len (varint v) ≤ len pre →
    EncodeVarint (pre ++ suf) (len pre) v =
      Ok (take (Z.to_nat (len pre - len (varint v))) pre ++ varint v ++ suf,
          len pre - len (varint v));
  SizeOfVarint_spec v : 0 ≤ v < 2 ^ 64 → SizeOfVarint v = len (varint v);
  (** a record has at least its tag, and its length is an [int] *)
  Skip_range d n : fits d → Skip d = Ok n → 0 < n < 2 ^ 63;
  (** the length of a record only depends on the bytes of the record *)
  Skip_local d e n : fits (d ++ e) → Skip d = Ok n → n ≤ len d → Skip (d ++ e) = Ok n;
  Skip_take d n : fits d → Skip d = Ok n → n ≤ len d → Skip (take (Z.to_nat n) d) = Ok n;
  (** a record contains its tag *)
  Skip_tag d n wire j : fits d → Skip d = Ok n → readVarint u64 d 0 = Ok (wire, j) → j ≤ n;
  (** it returns: no panic and no divergence *)
  Skip_safe d : fits d → safe (Skip d)
}.

Section readVarint.
Context (conv : Z → Z).

Lemma readVarint_loop_safe fuel d shift acc i :
  0 ≤ i → 71 ≤ shift + 7 * Z.of_nat fuel → (0 < fuel)%nat →
  safe (readVarint_loop conv fuel d shift acc i).
Proof.
  revert shift acc i. induction fuel as [|fuel IH]; intros shift acc i Hi Hf Hp; [lia|].
  cbn [readVarint_loop]. case_go; [done|]. case_go; [done|]. z_bools.
  apply bind_safe; [apply index_safe; lia|]. intros b _.
  case_go; [done|]. apply IH; lia.
Qed.

Lemma readVarint_safe d i : 0 ≤ i → safe (readVarint conv d i).
Proof. intros. apply readVarint_loop_safe; lia. Qed.

(** Reading moves forward and stays within the buffer. *)
Lemma readVarint_loop_bounds fuel d shift acc i v j :
  readVarint_loop conv fuel d shift acc i = Ok (v, j) → i < j ≤ len d.
Proof.
  revert shift acc i. induction fuel as [|fuel IH]; intros shift acc i H; [done|].
  cbn [readVarint_loop] in H. case_go; [done|]. case_go; [done|]. z_bools.
  apply bind_Ok_inv in H as (b & _ & H). simpl in H. case_go.
  - injection H as _ <-. lia.
  - apply IH in H. lia.
Qed.

(** The result only depends on the bytes read. *)
Lemma readVarint_loop_local fuel a d e shift acc i v j :
  0 ≤ i → readVarint_loop conv fuel d shift acc i = Ok (v, j) →
  readVarint_loop conv fuel (a ++ d ++ e) shift acc (len a + i) = Ok (v, len a + j).
Proof.
  revert shift acc i. induction fuel as [|fuel IH]; intros shift acc i Hi H; [done|].
  cbn [readVarint_loop] in *. case_go; [done|].
  destruct (len d <=? i) eqn:?; [done|]. z_bools.
  apply bind_Ok_inv in H as (b & Hb & H). simpl in H.
  rewrite (proj2 (Z.leb_gt _ _)) by len_lia.
  rewrite (index_local a d e i b) by done. rewrite bind_Ok.
  case_go.
  - injection H as <- <-. do 2 f_equal. lia.
  - rewrite <- (IH _ _ (i + 1) ltac:(lia) H). f_equal; lia.
Qed.

Lemma readVarint_local a d e i v j :
  0 ≤ i → readVarint conv d i = Ok (v, j) →
  readVarint conv (a ++ d ++ e) (len a + i) = Ok (v, len a + j).
Proof. apply readVarint_loop_local. Qed.

Lemma readVarint_bounds d i v j : readVarint conv d i = Ok (v, j) → i < j ≤ len d.
Proof. apply readVarint_loop_bounds. Qed.

(** Conversely, a varint that lies within a part of the buffer is the part's. *)
Lemma readVarint_loop_restrict fuel a d e shift acc i v j :
  0 ≤ i → readVarint_loop conv fuel (a ++ d ++ e) shift acc (len a + i) = Ok (v, len a + j) →
  j ≤ len d → readVarint_loop conv fuel d shift acc i = Ok (v, j).
Proof.
  revert shift acc i. induction fuel as [|fuel IH]; intros shift acc i Hi H Hj; [done|].
  pose proof (readVarint_loop_bounds _ _ _ _ _ _ _ H).
  cbn [readVarint_loop] in *. case_go; [done|].
  destruct (len (a ++ d ++ e) <=? len a + i) eqn:?; [done|]. z_bools.
  rewrite (proj2 (Z.leb_gt _ _)) by lia.
  apply bind_Ok_inv in H as (b & Hb & H). simpl in H.
  assert (index d i = Ok b) as ->.
  { apply index_Ok in Hb as [_ Hb]. apply index_Ok. split; [done|]. unfold len in *.
    rewrite lookup_app_r, lookup_app_l in Hb by lia. rewrite <- Hb. f_equal. lia. }
  rewrite bind_Ok. case_go; [injection H as <- ?; do 2 f_equal; lia|].
  apply IH; [lia| |done]. rewrite <- H. f_equal. lia.
Qed.

Lemma readVarint_restrict a d e i v j :
  0 ≤ i → readVarint conv (a ++ d ++ e) (len a + i) = Ok (v, len a + j) → j ≤ len d →
  readVarint conv d i = Ok (v, j).
Proof. apply readVarint_loop_restrict. Qed.

(** ** Decoding what [varint] encodes *)

Context (bound : Z) (conv_id : ∀ z, 0 ≤ z < bound → conv z = z).

Lemma readVarint_varint_loop n fuel v shift acc :
  (n < fuel)%nat → 0 ≤ v < 2 ^ (7 * Z.of_nat n) → 0 ≤ shift ≤ 63 →
  0 ≤ acc < 2 ^ shift → v * 2 ^ shift < bound → 128 ≤ bound → 
  shift + 7 * Z.of_nat n ≤ 70 → (0 < n)%nat →
  ∀ pre suf, readVarint_loop conv fuel (pre ++ varint_digits n v ++ suf) shift acc (len pre)
    = Ok (acc + v * 2 ^ shift, len pre + len (varint_digits n v)).
Proof.
  revert fuel v shift acc.
  induction n as [|n IH]; intros fuel v shift acc Hn Hv Hs Hacc Hb Hb' Hr Hp pre suf; [lia|].
  destruct fuel as [|fuel]; [lia|]. cbn [readVarint_loop varint_digits].
  rewrite (proj2 (Z.leb_gt _ _)) by lia.
  assert (0 < 2 ^ shift) by (apply Z.pow_pos_nonneg; lia).
  assert (v < bound) by nia.
  assert (∀ x, 0 ≤ x ≤ v → conv (Z.shiftl x shift) = Z.shiftl x shift) as Hconv.
  { intros x Hx. apply conv_id. rewrite Z.shiftl_mul_pow2 by lia. nia. }
  destruct (v <? 128) eqn:E; z_bools.
  - rewrite (proj2 (Z.leb_gt _ _)) by len_lia. cbn [app]. rewrite index_app, bind_Ok.
    rewrite byte_to_of_Z_small by lia. rewrite (proj2 (Z.ltb_lt _ _)) by lia.
    rewrite land_127, Z.mod_small, (conv_id v), Hconv, lor_shiftl_add by lia. done.
  - destruct n as [|n]; [simpl in Hv; lia|].
    pose proof (Z.mod_pos_bound v 128 ltac:(lia)).
    pose proof (Z.div_mod v 128 ltac:(lia)).
    rewrite (proj2 (Z.leb_gt _ _)) by len_lia. cbn [app]. rewrite index_app, bind_Ok.
    rewrite byte_to_of_Z_small by lia. rewrite (proj2 (Z.ltb_ge _ _)) by lia.
    rewrite land_127. replace ((v mod 128 + 128) mod 128) with (v mod 128).
    2: { rewrite <- Z.add_mod_idemp_r, Z.mod_same, Z.add_0_r, Z.mod_mod by lia. done. }
    rewrite (conv_id (v mod 128)), Hconv, lor_shiftl_add by lia.
    replace (len pre + 1) with (len (pre ++ [byte_of_Z (v mod 128 + 128)])) by len_lia.
    change (pre ++ byte_of_Z (v mod 128 + 128) :: varint_digits (S n) (v / 128) ++ suf)
      with (pre ++ [byte_of_Z (v mod 128 + 128)] ++ varint_digits (S n) (v / 128) ++ suf).
    rewrite (app_assoc pre).
    assert (2 ^ (shift + 7) = 2 ^ shift * 128) as Hp7 by (rewrite Z.pow_add_r by lia; done).
    assert (2 ^ (7 * Z.of_nat (S (S n))) = 128 * 2 ^ (7 * Z.of_nat (S n))) as Hpn.
    { replace (7 * Z.of_nat (S (S n))) with (7 + 7 * Z.of_nat (S n)) by lia.
      rewrite Z.pow_add_r by lia. done. }
    assert (0 ≤ v / 128 < 2 ^ (7 * Z.of_nat (S n))) by
      (split; [apply Z.div_pos|apply Z.div_lt_upper_bound]; lia).
    rewrite IH by (rewrite ?Hp7; first [lia|nia]).
    rewrite Hp7. do 2 f_equal; [nia|len_lia].
Qed.

(** The loop decodes every value that fits the accumulator. *)
Lemma readVarint_varint v pre suf :
  0 ≤ v < 2 ^ 64 → v < bound → 128 ≤ bound →
  readVarint conv (pre ++ varint v ++ suf) (len pre) = Ok (v, len pre + len (varint v)).
Proof.
  intros. unfold readVarint, varint. rewrite (readVarint_varint_loop 10) by lia.
  do 2 f_equal. lia.
Qed.
End readVarint.

(** ** What the loop can return *)

(** [k] digits suffice below [2 ^ (7 * k)]. *)
Lemma varint_digits_min fuel k v :
  1 ≤ k → v < 2 ^ (7 * k) → len (varint_digits fuel v) ≤ k.
Proof.
  revert k v. induction fuel as [|fuel IH]; intros k v Hk Hv; cbn [varint_digits]; [len_lia|].
  case_go; z_bools; [len_lia|]. len_simpl.
  destruct (decide (k = 1)) as [->|?]; [simpl in Hv; lia|].
  enough (len (varint_digits fuel (v / 128)) ≤ k - 1) by lia.
  apply IH; [lia|]. apply Z.div_lt_upper_bound; [lia|].
  replace (7 * k) with (7 + 7 * (k - 1)) in Hv by lia. by rewrite Z.pow_add_r in Hv by lia.
Qed.

Lemma varint_min k v : 1 ≤ k → v < 2 ^ (7 * k) → len (varint v) ≤ k.
Proof. apply varint_digits_min. Qed.

(** Each byte read contributes seven bits. *)
Lemma readVarint_lt conv d i v j :
  (∀ z, 0 ≤ z → conv z ≤ z) → (∀ z, 0 ≤ z < 128 → conv z = z) →
  readVarint conv d i = Ok (v, j) → v < 2 ^ (7 * (j - i)).
Proof.
  intros Hconv Hsmall. unfold readVarint.
  enough (∀ fuel shift acc i, 0 ≤ shift → acc < 2 ^ shift →
    readVarint_loop conv fuel d shift acc i = Ok (v, j) → v < 2 ^ (shift + 7 * (j - i))) as Hl.
  { intros E. by apply Hl in E. }
  clear i. induction fuel as [|fuel IH]; intros shift acc i Hs Hacc H; [done|].
  pose proof (readVarint_loop_bounds _ _ _ _ _ _ _ _ H) as Hb.
  cbn [readVarint_loop] in H. case_go; [done|]. case_go; [done|].
  apply bind_Ok_inv in H as (b & _ & H). simpl in H.
  pose proof (Z.mod_pos_bound (byte_to_Z b) 128 ltac:(lia)) as Hm.
  lazymatch type of H with
  | context [Z.lor acc ?x] => assert (Z.lor acc x < 2 ^ (shift + 7)) as Hor
  end.
  { apply lor_lt_pow2; [lia|rewrite Z.pow_add_r by lia; lia|].
    eapply Z.le_lt_trans; [apply Hconv, Z.shiftl_nonneg|]; rewrite land_127, Hsmall; [lia..| |lia].
    rewrite Z.shiftl_mul_pow2, Z.pow_add_r, Z.mul_comm by lia.
    apply Z.mul_lt_mono_pos_l; [by apply Z.pow_pos_nonneg|simpl; lia]. }
  case_go.
  - injection H as <- <-. by replace (shift + 7 * (i + 1 - i)) with (shift + 7) by lia.
  - apply IH in H; [|lia|done]. by replace (shift + 7 * (j - i)) with (shift + 7 + 7 * (j - (i + 1))) by lia.
Qed.

(** An unsigned accumulator has its width. *)
Lemma readVarint_range conv n d i v j :
  0 ≤ n → (∀ z, 0 ≤ conv z < 2 ^ n) → readVarint conv d i = Ok (v, j) → 0 ≤ v < 2 ^ n.
Proof.
  intros Hn Hconv. unfold readVarint.
  enough (∀ fuel shift acc i, 0 ≤ acc < 2 ^ n →
    readVarint_loop conv fuel d shift acc i = Ok (v, j) → 0 ≤ v < 2 ^ n) as Hl.
  { apply Hl. split; [done|]. by apply Z.pow_pos_nonneg. }
  clear i. induction fuel as [|fuel IH]; intros shift acc i Hacc H; [done|].
  cbn [readVarint_loop] in H. case_go; [done|]. case_go; [done|].
  apply bind_Ok_inv in H as (b & _ & H). simpl in H.
  lazymatch type of H with
  | context [Z.lor acc ?x] => assert (0 ≤ Z.lor acc x < 2 ^ n) as Hor
  end.
  { split; [apply Z.lor_nonneg|apply lor_lt_pow2]; [split; [lia|apply Hconv]|done|lia|apply Hconv]. }
  case_go; [by injection H as <- _|by eapply IH in H].
Qed.

(** An [int] accumulator stays within the range of [int]. *)
Lemma readVarint_i64_lt d i v j : readVarint i64 d i = Ok (v, j) → v < 2 ^ 63.
Proof.
  unfold readVarint. assert (0 < 2 ^ 63) as Hacc by done. revert Hacc.
  generalize 0 at 1 3. generalize 0, 11%nat. intros shift fuel acc. revert shift acc i.
  induction fuel as [|fuel IH]; intros shift acc i Hacc H; [done|].
  cbn [readVarint_loop] in H. case_go; [done|]. case_go; [done|].
  apply bind_Ok_inv in H as (b & _ & H). simpl in H.
  lazymatch type of H with
  | context [Z.lor acc ?x] => assert (Z.lor acc x < 2 ^ 63) as Hl
  end.
  { apply lor_lt_pow2; [done|done|apply i64_range]. }
  case_go; [by injection H as <- _|by eapply IH in H].
Qed.

(** ** The blocks the generated code repeats for every field *)

(** The tag: field number and wire type, with the checks that precede the
    [switch] over the field number. *)
Definition readTag (dAtA : list byte) (iNdEx : Z) : outcome GoErr (Z * Z * Z) :=
  '(wire, iNdEx) ← map_err snd (readVarint u64 dAtA iNdEx);
  let fieldNum := i32 (Z.shiftr wire 3) in
  let wireType := i64 (Z.land wire 0x7) in
  if wireType =? 4 then Err ErrEndGroup
  else if fieldNum <=? 0 then Err (ErrIllegalTag fieldNum wire)
  else Ok (fieldNum, wireType, iNdEx).

(** A length-delimited value: its bytes and the index after it. *)
Definition readBytes (dAtA : list byte) (iNdEx : Z) : outcome GoErr (list byte * Z) :=
  '(byteLen, iNdEx) ← map_err snd (readVarint i64 dAtA iNdEx);
  if byteLen <? 0 then Err ErrInvalidLength
  else let postIndex := i64 (iNdEx + byteLen) in
       if postIndex <? 0 then Err ErrInvalidLength
       else if len dAtA <? postIndex then Err ErrUnexpectedEOF
       else v ← slice dAtA iNdEx postIndex;
            Ok (v, postIndex).

(** The [default] case: the whole record, from its tag, is kept as unknown. *)
Definition readUnknown `{Protohelpers} (dAtA : list byte) (preIndex : Z) :
    outcome GoErr (list byte * Z) :=
  let iNdEx := preIndex in
  rest ← slice dAtA iNdEx (len dAtA);
  skippy ← Skip rest;
  if (skippy <? 0) || (i64 (iNdEx + skippy) <? 0) then Err ErrInvalidLength
  else if len dAtA <? i64 (iNdEx + skippy) then Err ErrUnexpectedEOF
  else v ← slice dAtA iNdEx (i64 (iNdEx + skippy));
       Ok (v, i64 (iNdEx + skippy)).

(** A reader that, from an index of the buffer, never panics, moves forward
    within the buffer and only looks at the bytes it consumes. *)
Record reader_ok {A} (read : list byte → Z → outcome GoErr (A * Z)) : Prop := {
  reader_safe d i : fits d → 0 ≤ i ≤ len d → safe (read d i);
  reader_bounds d i v j : fits d → 0 ≤ i ≤ len d → read d i = Ok (v, j) → i < j ≤ len d;
  reader_local a d e i v j : fits (a ++ d ++ e) → 0 ≤ i ≤ len d →
    read d i = Ok (v, j) → read (a ++ d ++ e) (len a + i) = Ok (v, len a + j)
}.

Lemma slice_local {E A} (a d e : list A) lo hi v :
  @slice E A d lo hi = Ok v → @slice E A (a ++ d ++ e) (len a + lo) (len a + hi) = Ok v.
Proof.
  rewrite !slice_Ok. intros (?&?&->). split_and!; [len_lia..|].
  unfold len in *. rewrite drop_app_ge by lia. replace (_ - length a)%nat with (Z.to_nat lo) by lia.
  rewrite drop_app_le, take_app_le by (rewrite ?length_drop; lia). f_equal. lia.
Qed.

Lemma slice_safe {E A} (d : list A) lo hi :
  0 ≤ lo ≤ hi → hi ≤ len d → safe (@slice E A d lo hi).
Proof.
  intros. unfold slice. rewrite !(proj2 (Z.leb_le _ _)) by lia. done.
Qed.

Lemma fits_mid {A} (a d e : list A) : fits (a ++ d ++ e) → fits d.
Proof. unfold fits. len_lia. Qed.

Section readers.
Lemma readVarint_ok conv : reader_ok (λ d i, map_err snd (readVarint conv d i)).
Proof.
  split.
  - intros. apply map_err_safe, readVarint_safe. lia.
  - intros d i v j _ _ H%map_err_Ok. by eapply readVarint_bounds.
  - intros a d e i v j _ Hi H%map_err_Ok. apply map_err_Ok, readVarint_local; [lia|done].
Qed.

Lemma readTag_ok : reader_ok readTag.
Proof.
  destruct (readVarint_ok u64) as [Hs Hb Hl]. unfold readTag. split.
  - intros d i Hf Hi. apply bind_safe; [by apply Hs|]. intros [w j] _. by repeat case_go.
  - intros d i v j Hf Hi H. ok_inv. apply Hb in E; try done. repeat case_go; ok_inv; lia.
  - intros a d e i v j Hf Hi H. ok_inv. rewrite (Hl _ _ _ _ _ _ Hf Hi E), bind_Ok.
    repeat case_go; by ok_inv.
Qed.

Lemma readBytes_ok : reader_ok readBytes.
Proof.
  destruct (readVarint_ok i64) as [Hs Hb Hl]. unfold readBytes. split.
  - intros d i Hf Hi. apply bind_safe; [by apply Hs|]. intros [w j] E.
    pose proof (Hb _ _ _ _ Hf Hi E). apply map_err_Ok, readVarint_i64_lt in E.
    unfold fits in *. repeat (case_go; [done|]). z_bools.
    destruct (i64_add_nonneg j w) as [Hw ?]; [lia..|].
    apply bind_safe; [|done]. apply slice_safe; lia.
  - intros d i v j Hf Hi H. ok_inv. pose proof (Hb _ _ _ _ Hf Hi E).
    apply map_err_Ok, readVarint_i64_lt in E. unfold fits in *. repeat case_go; ok_inv; z_bools.
    destruct (i64_add_nonneg z0 z) as [Hw ?]; lia.
  - intros a d e i v j Hf Hi H. ok_inv. pose proof (Hb _ _ _ _ (fits_mid _ _ _ Hf) Hi E).
    rewrite (Hl _ _ _ _ _ _ Hf Hi E), bind_Ok. apply map_err_Ok, readVarint_i64_lt in E.
    unfold fits in *. len_simpl.
    destruct (z <? 0) eqn:?; [done|]. destruct (i64 (z0 + z) <? 0) eqn:?; [done|].
    destruct (len d <? i64 (z0 + z)) eqn:?; [done|]. z_bools. ok_inv.
    destruct (i64_add_nonneg z0 z) as [Hw ?]; [len_lia..|]. rewrite Hw in *.
    rewrite i64_id by len_lia. rewrite !(proj2 (Z.ltb_ge _ _)) by len_lia.
    rewrite <- Z.add_assoc, (slice_local _ _ _ _ _ _ E0). done.
Qed.

Context `{Protohelpers, !ProtohelpersOk}.

Lemma readUnknown_ok : reader_ok readUnknown.
Proof.
  unfold readUnknown. split.
  - intros d i Hf Hi. apply bind_safe; [apply slice_safe; lia|]. intros r Hr.
    assert (fits r) as Hfr by (apply slice_len in Hr; unfold fits in *; lia).
    apply bind_safe; [by apply Skip_safe|]. intros n Hn%Skip_range; [|done]. unfold fits in *.
    repeat (case_go; [done|]). z_bools. destruct (i64_add_nonneg i n) as [Hw ?]; [lia..|].
    apply bind_safe; [|done]. apply slice_safe; lia.
  - intros d i v j Hf Hi H'. ok_inv. pose proof (slice_len _ _ _ _ E).
    unfold fits in *. apply Skip_range in E0; [|unfold fits; lia].
    repeat case_go; ok_inv; z_bools. destruct (i64_add_nonneg i x0) as [Hw ?]; lia.
  - intros a d e i v j Hf Hi H'. unfold fits in *. len_simpl. ok_inv.
    pose proof (slice_len _ _ _ _ E).
    pose proof (Skip_range x x0 ltac:(unfold fits; len_lia) E0) as Hn.
    destruct (_ || _) eqn:?; [done|]. destruct (len d <? i64 (i + x0)) eqn:?; [done|].
    z_bools. ok_inv. destruct (i64_add_nonneg i x0) as [Hw ?]; [len_lia..|]. rewrite Hw in *.
    assert (@slice GoErr _ (a ++ d ++ e) (len a + i) (len a + (len d + len e)) =
      Ok (x ++ e)) as ->.
    { apply slice_Ok in E as (?&?&->). apply slice_Ok. split_and!; [len_lia..|].
      unfold len in *. rewrite drop_app_ge by lia.
      replace (_ - length a)%nat with (Z.to_nat i) by lia.
      rewrite drop_app_le by lia. rewrite !take_ge; [done|..];
        rewrite ?length_app, length_drop; lia. }
    rewrite bind_Ok. erewrite Skip_local; [|unfold fits; len_lia|done|lia]. rewrite bind_Ok.
    rewrite i64_id by len_lia. rewrite !(proj2 (Z.ltb_ge _ _)) by len_lia. simpl.
    by rewrite <- Z.add_assoc, (slice_local _ _ _ _ _ _ E1).
Qed.
End readers.

(** ** The loop of [UnmarshalVT]

    [for iNdEx < l { ... }] over the records of the buffer; the body, which
    depends on the message type, is [step]. *)

Section message_loop.
Context {M : Type} (step : list byte → M → Z → outcome (M * GoErr) (M * Z)).

Fixpoint unmarshal_loop (fuel : nat) (dAtA : list byte) (m : M) (iNdEx : Z) :
    outcome (M * GoErr) M :=
  if iNdEx <? len dAtA then
    match fuel with
    | O => NoFuel
    | S fuel =>
        '(m, iNdEx) ← step dAtA m iNdEx;
        unmarshal_loop fuel dAtA m iNdEx
    end
  else if len dAtA <? iNdEx then Err (m, ErrUnexpectedEOF)
  else Ok m.

(** What the loop needs of its body: the reader conditions, for a step that
    updates the message. *)
Record step_ok : Prop := {
  step_safe d m i : fits d → 0 ≤ i < len d → safe (step d m i);
  step_bounds d m i m' j :
    fits d → 0 ≤ i < len d → step d m i = Ok (m', j) → i < j ≤ len d;
  step_local a d e m i m' j : fits (a ++ d ++ e) → 0 ≤ i < len d →
    step d m i = Ok (m', j) → step (a ++ d ++ e) m (len a + i) = Ok (m', len a + j)
}.

(** An invariant of the body, in which the index may occur, is an invariant
    of the loop. *)
Lemma unmarshal_loop_inv (P : M → Z → Prop) fuel d m i m' :
  (∀ m i m' j, P m i → 0 ≤ i < len d → step d m i = Ok (m', j) → P m' j ∧ 0 ≤ j) →
  P m i → 0 ≤ i → unmarshal_loop fuel d m i = Ok m' → P m' (len d).
Proof.
  intros Hinv. revert m i. induction fuel as [|fuel IH]; intros m i Hm Hi H;
    cbn [unmarshal_loop] in H; case_go; z_bools; try done.
  2: { apply bind_Ok_inv in H as ([m1 j] & E & H). apply Hinv in E as [? ?]; [|done|lia].
       by eapply IH in H. }
  all: case_go; [done|]; injection H as <-; z_bools; by replace (len d) with i by lia.
Qed.

Context (Hstep : step_ok).

(** One unit of fuel per byte left is enough. *)
Lemma unmarshal_loop_safe fuel d m i :
  fits d → 0 ≤ i ≤ len d → len d - i ≤ Z.of_nat fuel → safe (unmarshal_loop fuel d m i).
Proof.
  intros Hd. revert m i. induction fuel as [|fuel IH]; intros m i Hi Hf;
    cbn [unmarshal_loop]; case_go; z_bools; [lia|by case_go| |by case_go].
  apply bind_safe; [apply step_safe; auto; lia|]. intros [m' j] E.
  apply step_bounds in E; auto; [|lia]. apply IH; lia.
Qed.

(** More fuel does not change the result of a run that had enough. *)
Lemma unmarshal_loop_fuel fuel fuel' d m i m' :
  unmarshal_loop fuel d m i = Ok m' → (fuel ≤ fuel')%nat → unmarshal_loop fuel' d m i = Ok m'.
Proof.
  revert fuel' m i. induction fuel as [|fuel IH]; intros fuel' m i H Hf; cbn [unmarshal_loop] in H.
  - destruct fuel'; cbn [unmarshal_loop]; by case_go.
  - destruct fuel' as [|fuel']; [lia|]. cbn [unmarshal_loop]. case_go; [|done].
    apply bind_Ok_inv in H as ([m1 j] & E & H). rewrite E, bind_Ok. apply IH; [done|lia].
Qed.

(** A successful run over a part of a buffer can be replayed in the buffer. *)
Lemma unmarshal_loop_app fuel a d e m i m' m'' :
  fits (a ++ d ++ e) → 0 ≤ i ≤ len d →
  unmarshal_loop fuel d m i = Ok m' →
  ∀ fuel', unmarshal_loop fuel' (a ++ d ++ e) m' (len a + len d) = Ok m'' →
  unmarshal_loop (fuel + fuel') (a ++ d ++ e) m (len a + i) = Ok m''.
Proof.
  intros Hf. revert m i. induction fuel as [|fuel IH]; intros m i Hi H fuel' H';
    cbn [unmarshal_loop] in H; case_go; z_bools; try done.
  - case_go; [done|]. injection H as ->. z_bools. by replace i with (len d) by lia.
  - apply bind_Ok_inv in H as ([m1 j] & E & H).
    pose proof (step_bounds Hstep d m i m1 j (fits_mid _ _ _ Hf) ltac:(lia) E).
    cbn [Nat.add unmarshal_loop]. rewrite (proj2 (Z.ltb_lt _ _)) by len_lia.
    rewrite (step_local Hstep a d e m i m1 j Hf ltac:(lia) E), bind_Ok. apply IH; [lia|done..].
  - case_go; [done|]. injection H as ->. z_bools. replace i with (len d) by lia.
    eapply unmarshal_loop_fuel; [done|lia].
Qed.

(** [UnmarshalVT] with the fuel that is always enough. *)
Definition unmarshal (m : M) (dAtA : list byte) : outcome (M * GoErr) M :=
  unmarshal_loop (length dAtA) dAtA m 0.

Lemma unmarshal_safe m d : fits d → safe (unmarshal m d).
Proof. intros. apply unmarshal_loop_safe; [done|unfold len; lia..]. Qed.

(** Decoding a concatenation decodes the parts in sequence. *)
Lemma unmarshal_app m d e m' m'' :
  fits (d ++ e) → unmarshal m d = Ok m' → unmarshal m' e = Ok m'' →
  unmarshal m (d ++ e) = Ok m''.
Proof.
  intros Hf Hd He. unfold unmarshal in *. rewrite length_app.
  eapply (unmarshal_loop_app _ [] d e m 0); [done|len_lia|done|].
  pose proof (unmarshal_loop_app (length e) d e [] m' 0 m'' m'') as Happ.
  rewrite app_nil_r, Z.add_0_r in Happ. rewrite <- (Nat.add_0_r (length e)).
  apply Happ; [done|len_lia|done|].
  cbn [unmarshal_loop]. rewrite !(proj2 (Z.ltb_ge _ _)) by len_lia. done.
Qed.

(** A single record: one step that consumes the whole buffer. *)
Lemma unmarshal_record m d m' :
  0 < len d → step d m 0 = Ok (m', len d) → unmarshal m d = Ok m'.
Proof.
  intros Hl E. unfold unmarshal. destruct d as [|b d]; [done|]. cbn [length unmarshal_loop].
  rewrite (proj2 (Z.ltb_lt _ _)) by done. rewrite E, bind_Ok.
  destruct (length d); cbn [unmarshal_loop]; by rewrite !(proj2 (Z.ltb_ge _ _)) by lia.
Qed.
End message_loop.
