(* ===== verification/WireInstance.v ===== *)
(** * A concrete instance of the helper interface

    Functions that satisfy [ProtohelpersOk]: they show that the hypotheses on
    the helper package can hold together and let the witnesses evaluate the
    model.  They are not a translation of the package. *)

From S2P Require Import Prelude Wire.
From Stdlib Require Import Strings.Byte.

Definition ref_EncodeVarint (dAtA : list byte) (offset v : Z) : outcome GoErr (list byte * Z) :=
  let w := varint v in
  let base := offset - len w in
  if (0 <=? base) && (offset <=? len dAtA)
  then Ok (take (Z.to_nat base) dAtA ++ w ++ drop (Z.to_nat offset) dAtA, base)
  else Panic.

Definition ref_SizeOfVarint (v : Z) : Z := len (varint v).

(** The end of a record at index [n], which must be a positive [int]. *)
Definition record_end (n : Z) : outcome GoErr Z :=
  if 0 <? i64 n then Ok (i64 n) else Err ErrInvalidLength.

(** Records of wire types 0, 1, 2 and 5; groups are rejected. *)
Definition ref_Skip (dAtA : list byte) : outcome GoErr Z :=
  '(wire, i) ← map_err snd (readVarint u64 dAtA 0);
  let wireType := Z.land wire 0x7 in
  if wireType =? 0 then
    '(_, j) ← map_err snd (readVarint u64 dAtA i);
    record_end (j + 0)
  else if wireType =? 1 then record_end (i + 8)
  else if wireType =? 2 then
    '(length, j) ← map_err snd (readVarint i64 dAtA i);
    if length <? 0 then Err ErrInvalidLength else record_end (j + length)
  else if wireType =? 5 then record_end (i + 4)
  else if wireType =? 4 then Err ErrUnexpectedEndOfGroup
  else Err (ErrIllegalWireType wireType).

#[export] Instance ref_protohelpers : Protohelpers := {
  EncodeVarint := ref_EncodeVarint;
  SizeOfVarint := ref_SizeOfVarint;
  Skip := ref_Skip
}.

Lemma record_end_Ok j k n : 0 ≤ j < 2 ^ 63 → 0 ≤ k < 2 ^ 63 →
  record_end (j + k) = Ok n → n = j + k ∧ 0 < n < 2 ^ 63.
Proof.
  unfold record_end. intros. case_go; [|done]. injection H1 as <-. z_bools.
  destruct (i64_add_nonneg j k) as [Hw ?]; [lia..|]. rewrite Hw in *. lia.
Qed.

(** A successful [ref_Skip] has read the tag, and for two wire types a second
    varint; [n] is the end of the last one plus the size of the value. *)
Lemma ref_Skip_inv d n : fits d → ref_Skip d = Ok n →
  ∃ wire i, readVarint u64 d 0 = Ok (wire, i) ∧ i ≤ n ∧ 0 < n < 2 ^ 63 ∧
  ((Z.land wire 7 = 1 ∧ n = i + 8) ∨ (Z.land wire 7 = 5 ∧ n = i + 4) ∨
   (Z.land wire 7 = 0 ∧ ∃ v, readVarint u64 d i = Ok (v, n)) ∨
   (Z.land wire 7 = 2 ∧ ∃ v j, readVarint i64 d i = Ok (v, j) ∧ 0 ≤ v ∧ n = j + v ∧ j ≤ n)).
Proof.
  intros Hf H. unfold ref_Skip, fits in *.
  apply bind_Ok_inv in H as ([wire i] & E%map_err_Ok & H).
  pose proof (readVarint_bounds _ _ _ _ _ E) as Hi. exists wire, i.
  destruct (Z.land wire 7 =? 0) eqn:?; [|destruct (Z.land wire 7 =? 1) eqn:?;
    [|destruct (Z.land wire 7 =? 2) eqn:?; [|destruct (Z.land wire 7 =? 5) eqn:?]]]; z_bools.
  - apply bind_Ok_inv in H as ([v j] & E'%map_err_Ok & H).
    pose proof (readVarint_bounds _ _ _ _ _ E'). apply record_end_Ok in H as [-> ?]; [|lia..].
    rewrite Z.add_0_r in *. split_and!; [done|lia..|]. right; right; left. eauto.
  - apply record_end_Ok in H as [-> ?]; [|lia..]. split_and!; [done|lia..|]. auto.
  - apply bind_Ok_inv in H as ([v j] & E'%map_err_Ok & H).
    pose proof (readVarint_bounds _ _ _ _ _ E'). pose proof (readVarint_i64_lt _ _ _ _ E').
    case_go; [done|]. z_bools. apply record_end_Ok in H as [-> ?]; [|lia..].
    split_and!; [done|lia..|]. right; right; right. split; [done|]. exists v, j. split_and!; auto; lia.
  - apply record_end_Ok in H as [-> ?]; [|lia..]. split_and!; [done|lia..|]. auto.
  - by repeat case_go.
Qed.

Lemma record_end_eq n : 0 < n < 2 ^ 63 → record_end n = Ok n.
Proof. intros. unfold record_end. rewrite i64_id by lia. by rewrite (proj2 (Z.ltb_lt _ _)) by lia. Qed.

(** Any buffer with the same varints is skipped the same way. *)
Lemma ref_Skip_same d d' n : fits d →
  (∀ conv i v j, 0 ≤ i → j ≤ n → readVarint conv d i = Ok (v, j) → readVarint conv d' i = Ok (v, j)) →
  ref_Skip d = Ok n → ref_Skip d' = Ok n.
Proof.
  intros Hf Hsame (wire & i & E & Hi & Hn & Hcase)%ref_Skip_inv; [|done].
  pose proof (readVarint_bounds _ _ _ _ _ E). unfold ref_Skip.
  rewrite (Hsame u64 0 wire i ltac:(lia) Hi E). cbn [map_err]. rewrite bind_Ok.
  destruct Hcase as [[-> ->]|[[-> ->]|[[-> [v Ev]]|[-> (v & j & Ev & Hv & -> & Hj)]]]]; simpl.
  - by apply record_end_eq.
  - by apply record_end_eq.
  - rewrite (Hsame u64 i v n ltac:(lia) ltac:(lia) Ev). cbn [map_err].
    rewrite bind_Ok, Z.add_0_r. by apply record_end_eq.
  - rewrite (Hsame i64 i v j ltac:(lia) Hj Ev). cbn [map_err].
    rewrite bind_Ok, (proj2 (Z.ltb_ge _ _)) by lia. by apply record_end_eq.
Qed.

#[export] Instance ref_protohelpers_ok : ProtohelpersOk.
Proof.
  split; simpl.
  - intros pre suf v Hv Hl. pose proof (varint_len v). unfold ref_EncodeVarint.
    rewrite !(proj2 (Z.leb_le _ _)) by len_lia. simpl. rewrite to_nat_len, drop_app_length.
    rewrite take_app_le by (unfold len in *; lia). done.
  - done.
  - intros d n Hf (?&?&?&?&?&?)%ref_Skip_inv; done.
  - intros d e n Hf H Hn. eapply ref_Skip_same; [by eapply (fits_mid []); apply Hf| |done].
    intros conv i v j Hi Hj E. by apply (readVarint_local _ [] d e i v j).
  - intros d n Hf H Hn. pose proof H as (?&?&?&?&?&?)%ref_Skip_inv; [|done].
    eapply ref_Skip_same; [done| |done].
    intros conv i v j Hi Hj E. apply (readVarint_restrict _ [] _ (drop (Z.to_nat n) d)); [done| |].
    + by rewrite take_drop.
    + rewrite len_take; lia.
  - intros d n wire j Hf (?&?&E&?&?&?)%ref_Skip_inv Hr; [|done]. rewrite E in Hr. by simplify_eq.
  - intros d Hf. unfold ref_Skip. apply bind_safe; [apply map_err_safe, readVarint_safe; lia|].
    intros [wire i] E%map_err_Ok. apply readVarint_bounds in E. unfold record_end.
    repeat (case_go; try done); apply bind_safe;
      try (apply map_err_safe, readVarint_safe; lia); intros [v j] _; by repeat case_go.
Qed.
