(* ===== verification/Schema.v ===== *)
(** * The messages [Request] and [Response] and their generated code

    Models protos/pb/gen/schema.pb.go (the structs, [Reset] and the getters) and
    protos/pb/gen/schema_vtproto.pb.go ([SizeVT], [MarshalToSizedBufferVT],
    [MarshalToVT], [MarshalVT] and [UnmarshalVT]).  A pointer that may be nil is
    an [option]; the fields [state] and [sizeCache], which only the reflection
    runtime uses, are left out.  [Request_wire] and [Response_wire] are the
    specification: the byte sequence a message is encoded as. *)

From S2P Require Import Prelude Wire.
From Stdlib Require Import Strings.Byte.

Record Request : Type := mkRequest {
  req_RequestId : Z;
  req_Headers : list (list byte);
  req_Method : list byte;
  req_Body : list byte;
  req_unknownFields : list byte
}.

Record Response : Type := mkResponse {
  resp_RequestId : Z;
  resp_Code : Z;
  resp_Headers : list (list byte);
  resp_Method : list byte;
  resp_Body : list byte;
  resp_unknownFields : list byte
}.

#[export] Instance Request_eq_dec : EqDecision Request.
Proof. solve_decision. Defined.
#[export] Instance Response_eq_dec : EqDecision Response.
Proof. solve_decision. Defined.

(** [Reset]: [*x = Request{}]. *)
Definition Request_Reset (x : Request) : Request := mkRequest 0 [] [] [] [].
Definition Response_Reset (x : Response) : Response := mkResponse 0 0 [] [] [] [].

(** ** Field updates *)

Definition set_req_RequestId (v : Z) (m : Request) : Request :=
  mkRequest v (req_Headers m) (req_Method m) (req_Body m) (req_unknownFields m).
Definition set_req_Headers (v : list (list byte)) (m : Request) : Request :=
  mkRequest (req_RequestId m) v (req_Method m) (req_Body m) (req_unknownFields m).
Definition set_req_Method (v : list byte) (m : Request) : Request :=
  mkRequest (req_RequestId m) (req_Headers m) v (req_Body m) (req_unknownFields m).
Definition set_req_Body (v : list byte) (m : Request) : Request :=
  mkRequest (req_RequestId m) (req_Headers m) (req_Method m) v (req_unknownFields m).
Definition set_req_unknownFields (v : list byte) (m : Request) : Request :=
  mkRequest (req_RequestId m) (req_Headers m) (req_Method m) (req_Body m) v.

Definition set_resp_RequestId (v : Z) (m : Response) : Response :=
  mkResponse v (resp_Code m) (resp_Headers m) (resp_Method m) (resp_Body m) (resp_unknownFields m).
Definition set_resp_Code (v : Z) (m : Response) : Response :=
  mkResponse (resp_RequestId m) v (resp_Headers m) (resp_Method m) (resp_Body m) (resp_unknownFields m).
Definition set_resp_Headers (v : list (list byte)) (m : Response) : Response :=
  mkResponse (resp_RequestId m) (resp_Code m) v (resp_Method m) (resp_Body m) (resp_unknownFields m).
Definition set_resp_Method (v : list byte) (m : Response) : Response :=
  mkResponse (resp_RequestId m) (resp_Code m) (resp_Headers m) v (resp_Body m) (resp_unknownFields m).
Definition set_resp_Body (v : list byte) (m : Response) : Response :=
  mkResponse (resp_RequestId m) (resp_Code m) (resp_Headers m) (resp_Method m) v (resp_unknownFields m).
Definition set_resp_unknownFields (v : list byte) (m : Response) : Response :=
  mkResponse (resp_RequestId m) (resp_Code m) (resp_Headers m) (resp_Method m) (resp_Body m) v.

(** ** Getters, which accept a nil receiver *)

Definition Request_GetRequestId (x : option Request) : Z :=
  match x with Some x => req_RequestId x | None => 0 end.
Definition Request_GetHeaders (x : option Request) : list (list byte) :=
  match x with Some x => req_Headers x | None => [] end.
Definition Request_GetMethod (x : option Request) : list byte :=
  match x with Some x => req_Method x | None => [] end.
Definition Request_GetBody (x : option Request) : list byte :=
  match x with Some x => req_Body x | None => [] end.
Definition Response_GetRequestId (x : option Response) : Z :=
  match x with Some x => resp_RequestId x | None => 0 end.
Definition Response_GetCode (x : option Response) : Z :=
  match x with Some x => resp_Code x | None => 0 end.
Definition Response_GetHeaders (x : option Response) : list (list byte) :=
  match x with Some x => resp_Headers x | None => [] end.
Definition Response_GetMethod (x : option Response) : list byte :=
  match x with Some x => resp_Method x | None => [] end.
Definition Response_GetBody (x : option Response) : list byte :=
  match x with Some x => resp_Body x | None => [] end.

Section generated.
Context `{Protohelpers}.

(** ** [SizeVT] *)

(** [n += 1 + l + protohelpers.SizeOfVarint(uint64(l))] *)
Definition size_bytes (v : list byte) : Z := 1 + len v + SizeOfVarint (u64 (len v)).

Definition Request_SizeVT (m : option Request) : Z :=
  match m with
  | None => 0
  | Some m =>
      let n := 0 in
      let n := if 0 <? len (req_Headers m)
               then fold_left (λ n b, n + size_bytes b) (req_Headers m) n else n in
      let n := if 0 <? len (req_Method m) then n + size_bytes (req_Method m) else n in
      let n := if negb (req_RequestId m =? 0)
               then n + (1 + SizeOfVarint (u64 (req_RequestId m))) else n in
      let n := if 0 <? len (req_Body m) then n + size_bytes (req_Body m) else n in
      n + len (req_unknownFields m)
  end.

Definition Response_SizeVT (m : option Response) : Z :=
  match m with
  | None => 0
  | Some m =>
      let n := 0 in
      let n := if 0 <? len (resp_Headers m)
               then fold_left (λ n b, n + size_bytes b) (resp_Headers m) n else n in
      let n := if 0 <? len (resp_Method m) then n + size_bytes (resp_Method m) else n in
      let n := if negb (resp_RequestId m =? 0)
               then n + (1 + SizeOfVarint (u64 (resp_RequestId m))) else n in
      let n := if 0 <? len (resp_Body m) then n + size_bytes (resp_Body m) else n in
      let n := if negb (resp_Code m =? 0)
               then n + (1 + SizeOfVarint (u64 (resp_Code m))) else n in
      n + len (resp_unknownFields m)
  end.

(** ** [MarshalToSizedBufferVT]

    The buffer is filled from its end; the state of the code is the buffer
    [dAtA] and the index [i] of the first byte written.  The test
    [m.unknownFields != nil] is modelled as a test for a non-empty slice: for
    an empty one that is not nil the block copies no byte. *)
Abbreviation wstate := (list byte * Z)%type.

(** [i -= len(v); copy(dAtA[i:], v)] *)
Definition put_raw (v : list byte) (st : wstate) : outcome GoErr wstate :=
  let '(dAtA, i) := st in
  let i := i - len v in
  dAtA ← copy_at dAtA i v;
  Ok (dAtA, i).

(** [i--; dAtA[i] = tag] *)
Definition put_tag (tag : byte) (st : wstate) : outcome GoErr wstate :=
  let '(dAtA, i) := st in
  let i := i - 1 in
  dAtA ← set_index dAtA i tag;
  Ok (dAtA, i).

(** A length-delimited field: the value, its length, its tag. *)
Definition put_bytes (tag : byte) (v : list byte) (st : wstate) : outcome GoErr wstate :=
  '(dAtA, i) ← put_raw v st;
  st ← EncodeVarint dAtA i (u64 (len v));
  put_tag tag st.

(** A varint field. *)
Definition put_varint (tag : byte) (v : Z) (st : wstate) : outcome GoErr wstate :=
  let '(dAtA, i) := st in
  st ← EncodeVarint dAtA i (u64 v);
  put_tag tag st.

(** [for iNdEx := len(m.Headers) - 1; iNdEx >= 0; iNdEx--]: from the last. *)
Fixpoint put_headers (hs : list (list byte)) (st : wstate) : outcome GoErr wstate :=
  match hs with
  | [] => Ok st
  | h :: hs => st ← put_headers hs st; put_bytes x0a h st
  end.

Definition Request_MarshalToSizedBufferVT (m : option Request) (dAtA : list byte) :
    outcome GoErr (list byte * Z) :=
  match m with
  | None => Ok (dAtA, 0)
  | Some m =>
      let st := (dAtA, len dAtA) in
      st ← (if 0 <? len (req_unknownFields m) then put_raw (req_unknownFields m) st else Ok st);
      st ← (if 0 <? len (req_Body m) then put_bytes x22 (req_Body m) st else Ok st);
      st ← (if negb (req_RequestId m =? 0) then put_varint x18 (req_RequestId m) st else Ok st);
      st ← (if 0 <? len (req_Method m) then put_bytes x12 (req_Method m) st else Ok st);
      '(dAtA, i) ← (if 0 <? len (req_Headers m) then put_headers (req_Headers m) st else Ok st);
      Ok (dAtA, len dAtA - i)
  end.

Definition Response_MarshalToSizedBufferVT (m : option Response) (dAtA : list byte) :
    outcome GoErr (list byte * Z) :=
  match m with
  | None => Ok (dAtA, 0)
  | Some m =>
      let st := (dAtA, len dAtA) in
      st ← (if 0 <? len (resp_unknownFields m) then put_raw (resp_unknownFields m) st else Ok st);
      st ← (if negb (resp_Code m =? 0) then put_varint x28 (resp_Code m) st else Ok st);
      st ← (if 0 <? len (resp_Body m) then put_bytes x22 (resp_Body m) st else Ok st);
      st ← (if negb (resp_RequestId m =? 0) then put_varint x18 (resp_RequestId m) st else Ok st);
      st ← (if 0 <? len (resp_Method m) then put_bytes x12 (resp_Method m) st else Ok st);
      '(dAtA, i) ← (if 0 <? len (resp_Headers m) then put_headers (resp_Headers m) st else Ok st);
      Ok (dAtA, len dAtA - i)
  end.

(** [MarshalToVT]: into the first [SizeVT] bytes of the buffer. *)
Definition Request_MarshalToVT (m : option Request) (dAtA : list byte) :
    outcome GoErr (list byte * Z) :=
  let size := Request_SizeVT m in
  head ← slice dAtA 0 size;
  '(head, n) ← Request_MarshalToSizedBufferVT m head;
  Ok (head ++ drop (Z.to_nat size) dAtA, n).

Definition Response_MarshalToVT (m : option Response) (dAtA : list byte) :
    outcome GoErr (list byte * Z) :=
  let size := Response_SizeVT m in
  head ← slice dAtA 0 size;
  '(head, n) ← Response_MarshalToSizedBufferVT m head;
  Ok (head ++ drop (Z.to_nat size) dAtA, n).

(** [MarshalVT]: into a new buffer. *)
Definition Request_MarshalVT (m : option Request) : outcome GoErr (list byte) :=
  match m with
  | None => Ok []
  | Some _ =>
      let size := Request_SizeVT m in
      '(dAtA, n) ← Request_MarshalToSizedBufferVT m (replicate (Z.to_nat size) x00);
      slice dAtA 0 n
  end.

Definition Response_MarshalVT (m : option Response) : outcome GoErr (list byte) :=
  match m with
  | None => Ok []
  | Some _ =>
      let size := Response_SizeVT m in
      '(dAtA, n) ← Response_MarshalToSizedBufferVT m (replicate (Z.to_nat size) x00);
      slice dAtA 0 n
  end.

(** ** [UnmarshalVT]

    Decoding updates the message in place, so an error comes with the message
    as the code has left it. *)

(** The [switch fieldNum] of [Request]. *)
Definition Request_field (dAtA : list byte) (m : Request)
    (preIndex iNdEx fieldNum wireType : Z) : outcome (Request * GoErr) (Request * Z) :=
  if fieldNum =? 1 then
    if negb (wireType =? 2) then Err (m, ErrWrongWireType wireType 1)
    else '(v, iNdEx) ← map_err (pair m) (readBytes dAtA iNdEx);
         Ok (set_req_Headers (req_Headers m ++ [v]) m, iNdEx)
  else if fieldNum =? 2 then
    if negb (wireType =? 2) then Err (m, ErrWrongWireType wireType 2)
    else '(v, iNdEx) ← map_err (pair m) (readBytes dAtA iNdEx);
         Ok (set_req_Method v m, iNdEx)
  else if fieldNum =? 3 then
    if negb (wireType =? 0) then Err (m, ErrWrongWireType wireType 3)
    else '(v, iNdEx) ← map_err (λ e, (set_req_RequestId e.1 m, e.2)) (readVarint u64 dAtA iNdEx);
         Ok (set_req_RequestId v m, iNdEx)
  else if fieldNum =? 4 then
    if negb (wireType =? 2) then Err (m, ErrWrongWireType wireType 4)
    else '(v, iNdEx) ← map_err (pair m) (readBytes dAtA iNdEx);
         Ok (set_req_Body v m, iNdEx)
  else
    '(v, iNdEx) ← map_err (pair m) (readUnknown dAtA preIndex);
    Ok (set_req_unknownFields (req_unknownFields m ++ v) m, iNdEx).

(** The [switch fieldNum] of [Response]. *)
Definition Response_field (dAtA : list byte) (m : Response)
    (preIndex iNdEx fieldNum wireType : Z) : outcome (Response * GoErr) (Response * Z) :=
  if fieldNum =? 1 then
    if negb (wireType =? 2) then Err (m, ErrWrongWireType wireType 1)
    else '(v, iNdEx) ← map_err (pair m) (readBytes dAtA iNdEx);
         Ok (set_resp_Headers (resp_Headers m ++ [v]) m, iNdEx)
  else if fieldNum =? 2 then
    if negb (wireType =? 2) then Err (m, ErrWrongWireType wireType 2)
    else '(v, iNdEx) ← map_err (pair m) (readBytes dAtA iNdEx);
         Ok (set_resp_Method v m, iNdEx)
  else if fieldNum =? 3 then
    if negb (wireType =? 0) then Err (m, ErrWrongWireType wireType 3)
    else '(v, iNdEx) ← map_err (λ e, (set_resp_RequestId e.1 m, e.2)) (readVarint u64 dAtA iNdEx);
         Ok (set_resp_RequestId v m, iNdEx)
  else if fieldNum =? 4 then
    if negb (wireType =? 2) then Err (m, ErrWrongWireType wireType 4)
    else '(v, iNdEx) ← map_err (pair m) (readBytes dAtA iNdEx);
         Ok (set_resp_Body v m, iNdEx)
  else if fieldNum =? 5 then
    if negb (wireType =? 0) then Err (m, ErrWrongWireType wireType 5)
    else '(v, iNdEx) ← map_err (λ e, (set_resp_Code e.1 m, e.2)) (readVarint u32 dAtA iNdEx);
         Ok (set_resp_Code v m, iNdEx)
  else
    '(v, iNdEx) ← map_err (pair m) (readUnknown dAtA preIndex);
    Ok (set_resp_unknownFields (resp_unknownFields m ++ v) m, iNdEx).

(** One round of the loop: the tag, then the field. *)
Definition Request_step (dAtA : list byte) (m : Request) (iNdEx : Z) :
    outcome (Request * GoErr) (Request * Z) :=
  let preIndex := iNdEx in
  '(fieldNum, wireType, iNdEx) ← map_err (pair m) (readTag dAtA iNdEx);
  Request_field dAtA m preIndex iNdEx fieldNum wireType.

Definition Response_step (dAtA : list byte) (m : Response) (iNdEx : Z) :
    outcome (Response * GoErr) (Response * Z) :=
  let preIndex := iNdEx in
  '(fieldNum, wireType, iNdEx) ← map_err (pair m) (readTag dAtA iNdEx);
  Response_field dAtA m preIndex iNdEx fieldNum wireType.

Definition Request_UnmarshalVT (m : Request) (dAtA : list byte) :
    outcome (Request * GoErr) Request := unmarshal Request_step m dAtA.

Definition Response_UnmarshalVT (m : Response) (dAtA : list byte) :
    outcome (Response * GoErr) Response := unmarshal Response_step m dAtA.
End generated.

(** ** Specification: the encoding of a message *)

Definition bytes_field (tag : byte) (v : list byte) : list byte := tag :: varint (len v) ++ v.
Definition varint_field (tag : byte) (v : Z) : list byte := tag :: varint v.

(** Proto3 leaves out a field that has its default value. *)
Definition opt_bytes (tag : byte) (v : list byte) : list byte :=
  if 0 <? len v then bytes_field tag v else [].
Definition opt_varint (tag : byte) (v : Z) : list byte :=
  if negb (v =? 0) then varint_field tag v else [].

Definition headers_wire (hs : list (list byte)) : list byte := mjoin (bytes_field x0a <$> hs).

Definition Request_wire (m : Request) : list byte :=
  headers_wire (req_Headers m) ++ opt_bytes x12 (req_Method m) ++
  opt_varint x18 (req_RequestId m) ++ opt_bytes x22 (req_Body m) ++ req_unknownFields m.

Definition Response_wire (m : Response) : list byte :=
  headers_wire (resp_Headers m) ++ opt_bytes x12 (resp_Method m) ++
  opt_varint x18 (resp_RequestId m) ++ opt_bytes x22 (resp_Body m) ++
  opt_varint x28 (resp_Code m) ++ resp_unknownFields m.

(** Well-formed messages: the numbers have their width and the encoding is
    shorter than the largest slice. *)
Record Request_wf (m : Request) : Prop := {
  wf_req_RequestId : 0 ≤ req_RequestId m < 2 ^ 64;
  wf_req_fits : fits (Request_wire m)
}.

Record Response_wf (m : Response) : Prop := {
  wf_resp_RequestId : 0 ≤ resp_RequestId m < 2 ^ 64;
  wf_resp_Code : 0 ≤ resp_Code m < 2 ^ 32;
  wf_resp_fits : fits (Response_wire m)
}.
