(* ===== verification/SchemaFacts.v ===== *)
(** * Correctness of the generated message code

    [MarshalToSizedBufferVT] writes exactly [Request_wire] (or [Response_wire])
    at the end of the buffer and [SizeVT] is its length; [UnmarshalVT] is total,
    inverts the encoding, decodes concatenations in sequence and keeps unknown
    fields. *)

From S2P Require Import Prelude Wire WireInstance Schema.
From Stdlib Require Import Strings.Byte.

(** ** Encoding *)

Lemma len_bytes_field tag v : len (bytes_field tag v) = 1 + len (varint (len v)) + len v.
Proof. unfold bytes_field. len_lia. Qed.
Lemma len_varint_field tag v : len (varint_field tag v) = 1 + len (varint v).
Proof. unfold varint_field. len_lia. Qed.

Lemma bytes_field_pos tag v : 0 < len (bytes_field tag v).
Proof. unfold bytes_field. len_lia. Qed.
Lemma varint_field_pos tag v : 0 < len (varint_field tag v).
Proof. unfold varint_field. len_lia. Qed.

Lemma headers_wire_cons h hs : headers_wire (h :: hs) = bytes_field x0a h ++ headers_wire hs.
Proof. done. Qed.

Lemma fits_app_l {A} (a b : list A) : fits (a ++ b) → fits a.
Proof. unfold fits. len_lia. Qed.
Lemma fits_app_r {A} (a b : list A) : fits (a ++ b) → fits b.
Proof. unfold fits. len_lia. Qed.
Lemma fits_bytes_field tag v : fits (bytes_field tag v) → fits v.
Proof. unfold fits. rewrite len_bytes_field. pose proof (varint_len (len v)). lia. Qed.
Lemma fits_opt_bytes tag v : fits (opt_bytes tag v) → fits v.
Proof.
  unfold opt_bytes. case_go; z_bools; [apply fits_bytes_field|]. unfold fits. len_lia.
Qed.

(** Splits the hypotheses on the size of a concatenation. *)
Ltac fits_split :=
  repeat match goal with
  | H : fits (?a ++ ?b) |- _ =>
      lazymatch goal with
      | _ : fits a, _ : fits b |- _ => fail
      | _ => pose proof (fits_app_l _ _ H); pose proof (fits_app_r _ _ H)
      end
  end.

#[export] Hint Resolve fits_bytes_field fits_opt_bytes : go.

Section encode.
Context `{Protohelpers, !ProtohelpersOk}.

(** [f] writes [w] immediately before what is already written, if there is
    room, and leaves the rest of the buffer alone. *)
Definition puts (f : list byte * Z → outcome GoErr (list byte * Z)) (w : list byte) : Prop :=
  ∀ pre suf, len w ≤ len pre →
    f (pre ++ suf, len pre) =
      Ok (take (Z.to_nat (len pre - len w)) pre ++ w ++ suf, len pre - len w).

Lemma puts_ret : puts Ok [].
Proof.
  intros pre suf _. rewrite len_nil, Z.sub_0_r, to_nat_len, firstn_all. done.
Qed.

Lemma puts_bind f g w1 w2 : puts f w1 → puts g w2 → puts (λ st, f st ≫= g) (w2 ++ w1).
Proof.
  intros Hf Hg pre suf Hl. len_simpl. pose proof (len_nonneg w2). pose proof (len_nonneg w1).
  rewrite Hf, bind_Ok by lia.
  assert (len (take (Z.to_nat (len pre - len w1)) pre) = len pre - len w1) as Hp
    by (apply len_take; lia).
  rewrite <- Hp at 2. rewrite Hg by lia. rewrite Hp, take_take, <- app_assoc.
  f_equal. f_equal; [|lia]. f_equal. f_equal. lia.
Qed.

Lemma puts_if b f w : puts f w → puts (λ st, if b : bool then f st else Ok st) (if b then w else []).
Proof. intros. destruct b; [done|apply puts_ret]. Qed.

Lemma puts_raw v : puts (put_raw v) v.
Proof.
  intros pre suf Hl. unfold put_raw. rewrite copy_at_back by done. by rewrite bind_Ok.
Qed.

Lemma puts_tag tag : puts (put_tag tag) [tag].
Proof.
  intros pre suf Hl. len_simpl. unfold put_tag. rewrite set_index_back by lia.
  rewrite bind_Ok. rewrite Z.add_0_r. done.
Qed.

Lemma puts_EncodeVarint v : 0 ≤ v < 2 ^ 64 →
  puts (λ st, EncodeVarint st.1 st.2 (u64 v)) (varint v).
Proof. intros Hv pre suf Hl. simpl. rewrite u64_id by done. by apply EncodeVarint_spec. Qed.

Lemma puts_bytes tag v : fits v → puts (put_bytes tag v) (bytes_field tag v).
Proof.
  intros Hv pre suf Hl. unfold bytes_field in *.
  change (tag :: varint (len v) ++ v) with (([tag] ++ varint (len v)) ++ v) in *.
  assert (0 ≤ len v < 2 ^ 64) by (unfold fits in *; len_lia).
  pose proof (puts_bind _ _ _ _ (puts_raw v)
    (puts_bind _ _ _ _ (puts_EncodeVarint (len v) ltac:(done)) (puts_tag tag)) pre suf Hl) as Hp.
  rewrite <- Hp. unfold put_bytes. by destruct (put_raw v _) as [[]| | |].
Qed.

Lemma puts_varint tag v : 0 ≤ v < 2 ^ 64 → puts (put_varint tag v) (varint_field tag v).
Proof.
  intros Hv pre suf Hl. unfold varint_field in *.
  exact (puts_bind _ _ _ [tag] (puts_EncodeVarint v Hv) (puts_tag tag) pre suf Hl).
Qed.

Lemma puts_headers hs : fits (headers_wire hs) → puts (put_headers hs) (headers_wire hs).
Proof.
  induction hs as [|h hs IH]; intros Hf; [apply puts_ret|].
  rewrite headers_wire_cons in *. fits_split.
  apply (puts_bind (put_headers hs)); [auto|]. apply puts_bytes. eauto with go.
Qed.

Lemma puts_headers_if hs : fits (headers_wire hs) →
  puts (λ st, if 0 <? len hs then put_headers hs st else Ok st) (headers_wire hs).
Proof.
  intros Hf pre suf Hl. destruct (0 <? len hs) eqn:E; [exact (puts_headers hs Hf pre suf Hl)|].
  z_bools. destruct hs as [|h hs]; [exact (puts_ret pre suf Hl)|exfalso; len_lia].
Qed.

Lemma puts_raw_if v : puts (λ st, if 0 <? len v then put_raw v st else Ok st) v.
Proof.
  intros pre suf Hl. destruct (0 <? len v) eqn:E; [exact (puts_raw v pre suf Hl)|].
  z_bools. destruct v as [|b v]; [exact (puts_ret pre suf Hl)|exfalso; len_lia].
Qed.

Lemma puts_opt_bytes tag v : fits (opt_bytes tag v) →
  puts (λ st, if 0 <? len v then put_bytes tag v st else Ok st) (opt_bytes tag v).
Proof. intros Hf. apply puts_if, puts_bytes. eauto with go. Qed.

Lemma puts_opt_varint tag v : 0 ≤ v < 2 ^ 64 →
  puts (λ st, if negb (v =? 0) then put_varint tag v st else Ok st) (opt_varint tag v).
Proof. intros Hf. by apply puts_if, puts_varint. Qed.

(** From a sequence of [puts] to the result of the marshalling function. *)
Lemma puts_marshal f w dAtA :
  puts f w → len w ≤ len dAtA →
  ('(d, i) ← f (dAtA, len dAtA); Ok (d, len d - i)) =
    Ok (take (Z.to_nat (len dAtA - len w)) dAtA ++ w, len w) :> outcome GoErr _.
Proof.
  intros Hf Hl. specialize (Hf dAtA [] Hl). rewrite !app_nil_r in Hf. rewrite Hf, bind_Ok.
  do 2 f_equal. len_simpl. rewrite len_take by len_lia. lia.
Qed.

Lemma Request_Marshal_wire m dAtA :
  Request_wf m → len (Request_wire m) ≤ len dAtA →
  Request_MarshalToSizedBufferVT (Some m) dAtA =
    Ok (take (Z.to_nat (len dAtA - len (Request_wire m))) dAtA ++ Request_wire m,
        len (Request_wire m)).
Proof.
  intros [Hid Hfit] Hl. unfold Request_wire in *.
  unshelve epose proof (puts_marshal _ _ _ (puts_bind _ _ _ _ (puts_bind _ _ _ _
    (puts_bind _ _ _ _ (puts_bind _ _ _ _ (puts_raw_if _)
    (puts_opt_bytes _ _ _)) (puts_opt_varint _ _ _))
    (puts_opt_bytes _ _ _)) (puts_headers_if _ _)) Hl) as Hm; [fits_split; assumption..|].
  cbv beta in Hm. rewrite !bind_assoc in Hm. exact Hm.
Qed.

Lemma Response_Marshal_wire m dAtA :
  Response_wf m → len (Response_wire m) ≤ len dAtA →
  Response_MarshalToSizedBufferVT (Some m) dAtA =
    Ok (take (Z.to_nat (len dAtA - len (Response_wire m))) dAtA ++ Response_wire m,
        len (Response_wire m)).
Proof.
  intros [Hid Hcode Hfit] Hl. unfold Response_wire in *.
  assert (0 ≤ resp_Code m < 2 ^ 64) by lia.
  unshelve epose proof (puts_marshal _ _ _ (puts_bind _ _ _ _ (puts_bind _ _ _ _
    (puts_bind _ _ _ _ (puts_bind _ _ _ _ (puts_bind _ _ _ _ (puts_raw_if _)
    (puts_opt_varint _ _ _)) (puts_opt_bytes _ _ _)) (puts_opt_varint _ _ _))
    (puts_opt_bytes _ _ _)) (puts_headers_if _ _)) Hl) as Hm; [fits_split; assumption..|].
  cbv beta in Hm. rewrite !bind_assoc in Hm. exact Hm.
Qed.

(** ** [SizeVT] *)

Lemma size_bytes_spec tag v : fits v → size_bytes v = len (bytes_field tag v).
Proof.
  unfold fits, size_bytes. intros Hf. rewrite len_bytes_field.
  rewrite u64_id, SizeOfVarint_spec by len_lia. lia.
Qed.

Lemma size_headers hs n : fits (headers_wire hs) →
  (if 0 <? len hs then fold_left (λ n b, n + size_bytes b) hs n else n) = n + len (headers_wire hs).
Proof.
  intros Hf. assert (fold_left (λ n b, n + size_bytes b) hs n = n + len (headers_wire hs)) as ->.
  { revert n Hf. induction hs as [|h hs IH]; intros n Hf; [unfold len; simpl; lia|].
    rewrite headers_wire_cons in *. fits_split. cbn [fold_left]. rewrite IH by done.
    rewrite (size_bytes_spec x0a) by eauto with go. len_lia. }
  case_go; z_bools; [done|]. destruct hs; [unfold len; simpl; lia|len_lia].
Qed.

Lemma size_opt_bytes tag v n : fits (opt_bytes tag v) →
  (if 0 <? len v then n + size_bytes v else n) = n + len (opt_bytes tag v).
Proof.
  intros Hf%fits_opt_bytes. unfold opt_bytes. case_go; [by rewrite (size_bytes_spec tag)|len_lia].
Qed.

Lemma size_opt_varint tag v n : 0 ≤ v < 2 ^ 64 →
  (if negb (v =? 0) then n + (1 + SizeOfVarint (u64 v)) else n) = n + len (opt_varint tag v).
Proof.
  intros Hv. unfold opt_varint. case_go; [|len_lia].
  by rewrite len_varint_field, u64_id, SizeOfVarint_spec.
Qed.

Lemma Request_SizeVT_wire m : Request_wf m → Request_SizeVT (Some m) = len (Request_wire m).
Proof.
  intros [Hid Hfit]. unfold Request_wire in *. cbn [Request_SizeVT]. fits_split.
  rewrite (size_headers (req_Headers m)), (size_opt_bytes x12 (req_Method m)),
    (size_opt_varint x18 (req_RequestId m)), (size_opt_bytes x22 (req_Body m)) by done. len_lia.
Qed.

Lemma Response_SizeVT_wire m : Response_wf m → Response_SizeVT (Some m) = len (Response_wire m).
Proof.
  intros [Hid Hcode Hfit]. unfold Response_wire in *. cbn [Response_SizeVT]. fits_split.
  assert (0 ≤ resp_Code m < 2 ^ 64) by lia.
  rewrite (size_headers (resp_Headers m)), (size_opt_bytes x12 (resp_Method m)),
    (size_opt_varint x18 (resp_RequestId m)), (size_opt_bytes x22 (resp_Body m)),
    (size_opt_varint x28 (resp_Code m)) by done. len_lia.
Qed.
End encode.

(** ** Decoding: the body of the loop *)

Section decode.
Context `{Protohelpers, !ProtohelpersOk}.

(** Both messages have a step made of the tag and one reader per field, so
    that the loop conditions follow from the readers'. *)
Ltac solve_step_ok :=
  destruct readTag_ok as [Ts Tb Tl]; destruct readBytes_ok as [Bs Bb Bl];
  destruct readUnknown_ok as [Us Ub Ul]; split;
  [ intros d m i Hf Hi; apply bind_safe; [apply map_err_safe, Ts; auto; lia|];
    intros [[fn wt] j] E%map_err_Ok; apply Tb in E; [|auto; lia..];
    repeat (case_go; try done); (apply bind_safe; [|by intros []]); apply map_err_safe;
    first [apply Bs; auto; lia | apply Us; auto; lia | apply readVarint_safe; lia]
  | intros d m i m' j Hf Hi H'; apply bind_Ok_inv in H' as ([[fn wt] k] & E%map_err_Ok & H');
    apply Tb in E; [|auto; lia..];
    repeat (case_go; try done); apply bind_Ok_inv in H' as ([v k'] & E'%map_err_Ok & H');
    injection H' as <- <-; first [apply Bb in E'; [lia|auto; lia..]
      | apply Ub in E'; [lia|auto; lia..] | apply readVarint_bounds in E'; lia]
  | intros a d e m i m' j Hf Hi H'; pose proof (fits_mid _ _ _ Hf) as Hd;
    apply bind_Ok_inv in H' as ([[fn wt] k] & E%map_err_Ok & H');
    pose proof (Tb d i _ _ Hd ltac:(lia) E); apply (Tl a d e) in E; [|auto; lia..];
    rewrite (proj2 (map_err_Ok _ _ _) E), bind_Ok;
    repeat (case_go; try done); apply bind_Ok_inv in H' as ([v k'] & E'%map_err_Ok & H');
    injection H' as <- <-;
    first [apply (Bl a d e) in E' | apply (Ul a d e) in E' | apply (readVarint_local _ a d e) in E'];
    try lia; try done; by rewrite (proj2 (map_err_Ok _ _ _) E'), bind_Ok ].

Lemma Request_step_ok : step_ok Request_step.
Proof. unfold Request_step, Request_field. solve_step_ok. Qed.

Lemma Response_step_ok : step_ok Response_step.
Proof. unfold Response_step, Response_field. solve_step_ok. Qed.

(** ** Decoding one field *)

Lemma readTag_byte d tag fn wt :
  head d = Some tag → byte_to_Z tag = 8 * fn + wt → 0 < fn < 16 → 0 ≤ wt < 8 → wt ≠ 4 →
  readTag d 0 = Ok (fn, wt, 1).
Proof.
  destruct d as [|tag' rest]; [done|]. intros [= ->] Ht Hf Hw Hn. unfold readTag.
  pose proof (readVarint_varint u64 (2 ^ 64) u64_id (byte_to_Z tag) [] rest) as Hv.
  assert (varint (byte_to_Z tag) = [tag]) as Hd.
  { unfold varint. cbn [varint_digits]. rewrite (proj2 (Z.ltb_lt _ _)) by lia.
    by rewrite byte_of_to_Z. }
  rewrite Hd in Hv. cbn [app] in Hv. change (len []) with 0 in Hv.
  rewrite Hv by lia. cbn [map_err]. rewrite bind_Ok, Ht.
  assert (Z.shiftr (8 * fn + wt) 3 = fn) as ->.
  { rewrite Z.shiftr_div_pow2 by lia. change (2 ^ 3) with 8.
    Z.to_euclidean_division_equations; lia. }
  assert (Z.land (8 * fn + wt) 7 = wt) as ->.
  { change 7 with (Z.ones 3). rewrite Z.land_ones by lia. change (2 ^ 3) with 8.
    Z.to_euclidean_division_equations; lia. }
  rewrite i64_id by lia. unfold i32. rewrite Z.mod_small by lia.
  replace (fn + 2 ^ 31 - 2 ^ 31) with fn by lia.
  rewrite (proj2 (Z.eqb_neq _ _)), (proj2 (Z.leb_gt _ _)) by lia. done.
Qed.

Lemma readBytes_field tag v : fits (bytes_field tag v) →
  readBytes (bytes_field tag v) 1 = Ok (v, len (bytes_field tag v)).
Proof.
  unfold fits. rewrite len_bytes_field. intros Hf. pose proof (varint_len (len v)).
  pose proof (len_nonneg v). unfold bytes_field, readBytes.
  pose proof (readVarint_varint i64 (2 ^ 63) ltac:(intros; apply i64_id; lia) (len v) [tag] v) as Hv.
  change ([tag] ++ varint (len v) ++ v) with (tag :: varint (len v) ++ v) in Hv.
  change (len [tag]) with 1 in Hv. rewrite Hv by lia. cbn [map_err]. rewrite bind_Ok.
  rewrite i64_id by lia. rewrite !(proj2 (Z.ltb_ge _ _)) by len_lia.
  change (tag :: varint (len v) ++ v) with ((tag :: varint (len v)) ++ v).
  pose proof (@slice_app GoErr _ (tag :: varint (len v)) v []) as Hs.
  rewrite app_nil_r in Hs. rewrite Hs by len_lia. rewrite bind_Ok. do 2 f_equal; len_lia.
Qed.

Lemma readVarint_field conv bound tag v :
  (∀ z, 0 ≤ z < bound → conv z = z) → 0 ≤ v < 2 ^ 64 → v < bound → 128 ≤ bound →
  readVarint conv (varint_field tag v) 1 = Ok (v, len (varint_field tag v)).
Proof.
  intros Hc Hv Hb Hb'. rewrite len_varint_field. unfold varint_field.
  pose proof (readVarint_varint conv bound Hc v [tag] []) as Hr. rewrite app_nil_r in Hr.
  by apply Hr.
Qed.

(** Evaluates the step on a record that is one field with a one-byte tag. *)
Ltac field_step tag fn wt :=
  apply unmarshal_record; [first [apply bytes_field_pos|apply varint_field_pos]|];
  unfold Request_step, Response_step; rewrite (readTag_byte _ tag fn wt) by done;
  cbn [map_err]; rewrite bind_Ok; simpl;
  unfold Request_field, Response_field; simpl;
  first [rewrite readBytes_field by done | erewrite readVarint_field by eauto using u64_id, u32_id with lia];
  done.

Lemma Request_read_header m v : fits (bytes_field x0a v) →
  Request_UnmarshalVT m (bytes_field x0a v) = Ok (set_req_Headers (req_Headers m ++ [v]) m).
Proof. intros. field_step x0a 1 2. Qed.

Lemma Request_read_method m v : fits (bytes_field x12 v) →
  Request_UnmarshalVT m (bytes_field x12 v) = Ok (set_req_Method v m).
Proof. intros. field_step x12 2 2. Qed.

Lemma Request_read_id m v : 0 ≤ v < 2 ^ 64 →
  Request_UnmarshalVT m (varint_field x18 v) = Ok (set_req_RequestId v m).
Proof. intros. field_step x18 3 0. Qed.

Lemma Request_read_body m v : fits (bytes_field x22 v) →
  Request_UnmarshalVT m (bytes_field x22 v) = Ok (set_req_Body v m).
Proof. intros. field_step x22 4 2. Qed.

Lemma Response_read_header m v : fits (bytes_field x0a v) →
  Response_UnmarshalVT m (bytes_field x0a v) = Ok (set_resp_Headers (resp_Headers m ++ [v]) m).
Proof. intros. field_step x0a 1 2. Qed.

Lemma Response_read_method m v : fits (bytes_field x12 v) →
  Response_UnmarshalVT m (bytes_field x12 v) = Ok (set_resp_Method v m).
Proof. intros. field_step x12 2 2. Qed.

Lemma Response_read_id m v : 0 ≤ v < 2 ^ 64 →
  Response_UnmarshalVT m (varint_field x18 v) = Ok (set_resp_RequestId v m).
Proof. intros. field_step x18 3 0. Qed.

Lemma Response_read_body m v : fits (bytes_field x22 v) →
  Response_UnmarshalVT m (bytes_field x22 v) = Ok (set_resp_Body v m).
Proof. intros. field_step x22 4 2. Qed.

Lemma Response_read_code m v : 0 ≤ v < 2 ^ 32 →
  Response_UnmarshalVT m (varint_field x28 v) = Ok (set_resp_Code v m).
Proof. intros. field_step x28 5 0. Qed.

(** ** Unknown fields

    A sequence of whole records whose field numbers the message does not
    know: what [UnmarshalVT] collects and [MarshalToSizedBufferVT] emits. *)

Definition Request_known (fn : Z) : bool := (fn =? 1) || (fn =? 2) || (fn =? 3) || (fn =? 4).
Definition Response_known (fn : Z) : bool := Request_known fn || (fn =? 5).

Definition unknown_record (known : Z → bool) (r : list byte) : Prop :=
  Skip r = Ok (len r) ∧ ∃ fn wt j, readTag r 0 = Ok (fn, wt, j) ∧ known fn = false.

Inductive unknown_ok (known : Z → bool) : list byte → Prop :=
| unknown_nil : unknown_ok known []
| unknown_snoc u r : unknown_ok known u → unknown_record known r → unknown_ok known (u ++ r).

Lemma readUnknown_record known r : fits r → unknown_record known r →
  readUnknown r 0 = Ok (r, len r).
Proof.
  intros Hf [Hs _]. pose proof (Skip_range _ _ Hf Hs). unfold fits, readUnknown in *.
  assert (@slice GoErr _ r 0 (len r) = Ok r) as Hr.
  { pose proof (@slice_app GoErr _ [] r []) as Ha. rewrite app_nil_r in Ha. by apply Ha. }
  rewrite Hr, bind_Ok, Hs, bind_Ok, Z.add_0_l, i64_id by lia.
  rewrite !(proj2 (Z.ltb_ge _ _)) by lia. simpl. by rewrite Hr.
Qed.

Lemma Request_read_unknown m r : fits r → unknown_record Request_known r →
  Request_UnmarshalVT m r = Ok (set_req_unknownFields (req_unknownFields m ++ r) m).
Proof.
  intros Hf Hr. pose proof (readUnknown_record _ _ Hf Hr) as Hu.
  destruct Hr as [Hs (fn & wt & j & Ht & Hk)]. apply Skip_range in Hs; [|done].
  apply unmarshal_record; [lia|]. unfold Request_step. rewrite Ht. cbn [map_err]. rewrite bind_Ok.
  unfold Request_field, Request_known in *. z_bools.
  rewrite !(proj2 (Z.eqb_neq _ _)) by done. by rewrite Hu.
Qed.

Lemma Response_read_unknown m r : fits r → unknown_record Response_known r →
  Response_UnmarshalVT m r = Ok (set_resp_unknownFields (resp_unknownFields m ++ r) m).
Proof.
  intros Hf Hr. pose proof (readUnknown_record _ _ Hf Hr) as Hu.
  destruct Hr as [Hs (fn & wt & j & Ht & Hk)]. apply Skip_range in Hs; [|done].
  apply unmarshal_record; [lia|]. unfold Response_step. rewrite Ht. cbn [map_err]. rewrite bind_Ok.
  unfold Response_field, Response_known, Request_known in *. z_bools.
  rewrite !(proj2 (Z.eqb_neq _ _)) by done. by rewrite Hu.
Qed.

(** ** Decoding an encoded message merges it into the receiver *)

Definition Request_merge (m0 m : Request) : Request :=
  mkRequest (if req_RequestId m =? 0 then req_RequestId m0 else req_RequestId m)
    (req_Headers m0 ++ req_Headers m)
    (if 0 <? len (req_Method m) then req_Method m else req_Method m0)
    (if 0 <? len (req_Body m) then req_Body m else req_Body m0)
    (req_unknownFields m0 ++ req_unknownFields m).

Definition Response_merge (m0 m : Response) : Response :=
  mkResponse (if resp_RequestId m =? 0 then resp_RequestId m0 else resp_RequestId m)
    (if resp_Code m =? 0 then resp_Code m0 else resp_Code m)
    (resp_Headers m0 ++ resp_Headers m)
    (if 0 <? len (resp_Method m) then resp_Method m else resp_Method m0)
    (if 0 <? len (resp_Body m) then resp_Body m else resp_Body m0)
    (resp_unknownFields m0 ++ resp_unknownFields m).

(** An optional field is decoded by its record or leaves the message alone. *)
Lemma unmarshal_opt {M} (step : list byte → M → Z → outcome (M * GoErr) (M * Z))
    (b : bool) m m' w :
  (b = true → fits w → unmarshal step m w = Ok m') → fits (if b then w else []) →
  unmarshal step m (if b then w else []) = Ok (if b then m' else m).
Proof. destruct b; auto. Qed.

Lemma Request_read_headers m hs : fits (headers_wire hs) →
  Request_UnmarshalVT m (headers_wire hs) = Ok (set_req_Headers (req_Headers m ++ hs) m).
Proof.
  revert m. induction hs as [|h hs IH]; intros m Hf.
  { rewrite app_nil_r. by destruct m. }
  rewrite headers_wire_cons in *. fits_split.
  eapply unmarshal_app; [apply Request_step_ok|done|by apply Request_read_header|].
  etransitivity; [by apply IH|]. cbn. by rewrite <- app_assoc.
Qed.

Lemma Response_read_headers m hs : fits (headers_wire hs) →
  Response_UnmarshalVT m (headers_wire hs) = Ok (set_resp_Headers (resp_Headers m ++ hs) m).
Proof.
  revert m. induction hs as [|h hs IH]; intros m Hf.
  { rewrite app_nil_r. by destruct m. }
  rewrite headers_wire_cons in *. fits_split.
  eapply unmarshal_app; [apply Response_step_ok|done|by apply Response_read_header|].
  etransitivity; [by apply IH|]. cbn. by rewrite <- app_assoc.
Qed.

Lemma Request_read_unknowns m u : fits u → unknown_ok Request_known u →
  Request_UnmarshalVT m u = Ok (set_req_unknownFields (req_unknownFields m ++ u) m).
Proof.
  intros Hf Hu. revert Hf. induction Hu as [|u r Hu IH Hr]; intros Hf.
  { rewrite app_nil_r. by destruct m. }
  fits_split.
  eapply unmarshal_app; [apply Request_step_ok|done|by apply IH|].
  etransitivity; [by apply Request_read_unknown|]. cbn. by rewrite <- app_assoc.
Qed.

Lemma Response_read_unknowns m u : fits u → unknown_ok Response_known u →
  Response_UnmarshalVT m u = Ok (set_resp_unknownFields (resp_unknownFields m ++ u) m).
Proof.
  intros Hf Hu. revert Hf. induction Hu as [|u r Hu IH Hr]; intros Hf.
  { rewrite app_nil_r. by destruct m. }
  fits_split.
  eapply unmarshal_app; [apply Response_step_ok|done|by apply IH|].
  etransitivity; [by apply Response_read_unknown|]. cbn. by rewrite <- app_assoc.
Qed.

Lemma Request_unmarshal_wire m0 m :
  Request_wf m → unknown_ok Request_known (req_unknownFields m) →
  Request_UnmarshalVT m0 (Request_wire m) = Ok (Request_merge m0 m).
Proof.
  intros [Hid Hfit] Hu. unfold Request_wire in *. fits_split.
  pose proof Request_step_ok as Hs.
  eapply unmarshal_app; [done..|by apply Request_read_headers|].
  eapply unmarshal_app; [done..|by apply unmarshal_opt; [intros _; apply Request_read_method|]|].
  eapply unmarshal_app; [done..|by apply unmarshal_opt; [intros _ _; by apply Request_read_id|]|].
  eapply unmarshal_app; [done..|by apply unmarshal_opt; [intros _; apply Request_read_body|]|].
  etransitivity; [by apply Request_read_unknowns|].
  unfold Request_merge. by destruct (0 <? len (req_Method m)), (req_RequestId m =? 0), (0 <? len (req_Body m)).
Qed.

Lemma Response_unmarshal_wire m0 m :
  Response_wf m → unknown_ok Response_known (resp_unknownFields m) →
  Response_UnmarshalVT m0 (Response_wire m) = Ok (Response_merge m0 m).
Proof.
  intros [Hid Hcode Hfit] Hu. unfold Response_wire in *. fits_split.
  pose proof Response_step_ok as Hs.
  eapply unmarshal_app; [done..|by apply Response_read_headers|].
  eapply unmarshal_app; [done..|by apply unmarshal_opt; [intros _; apply Response_read_method|]|].
  eapply unmarshal_app; [done..|by apply unmarshal_opt; [intros _ _; by apply Response_read_id|]|].
  eapply unmarshal_app; [done..|by apply unmarshal_opt; [intros _; apply Response_read_body|]|].
  eapply unmarshal_app; [done..|by apply unmarshal_opt; [intros _ _; by apply Response_read_code|]|].
  etransitivity; [by apply Response_read_unknowns|].
  unfold Response_merge. by destruct (0 <? len (resp_Method m)), (resp_RequestId m =? 0),
    (0 <? len (resp_Body m)), (resp_Code m =? 0).
Qed.

(** Into an empty message, the merge is the message itself. *)
Lemma Request_merge_empty m x : Request_merge (Request_Reset x) m = m.
Proof.
  destruct m as [id hs me bo un]. unfold Request_merge; simpl.
  repeat case_go; z_bools; subst; try done; f_equal; symmetry; apply len_0_nil; len_lia.
Qed.

Lemma Response_merge_empty m x : Response_merge (Response_Reset x) m = m.
Proof.
  destruct m as [id co hs me bo un]. unfold Response_merge; simpl.
  repeat case_go; z_bools; subst; try done; f_equal; symmetry; apply len_0_nil; len_lia.
Qed.

(** ** What decoding produces *)

Lemma readBytes_len d i v j : fits d → 0 ≤ i ≤ len d →
  readBytes d i = Ok (v, j) → len (varint (len v)) + len v ≤ j - i ∧ fits v.
Proof.
  intros Hf Hi H'. unfold readBytes, fits in *. ok_inv. apply map_err_Ok in E.
  pose proof (readVarint_bounds _ _ _ _ _ E). pose proof (readVarint_i64_lt _ _ _ _ E).
  apply readVarint_lt in E; cycle 1.
  { intros w Hw. unfold i64. pose proof (Z.mod_le (w + 2 ^ 63) (2 ^ 64)). lia. }
  { intros w Hw. apply i64_id. lia. }
  repeat case_go; ok_inv; z_bools. destruct (i64_add_nonneg z0 z) as [Hw ?]; [lia..|].
  rewrite Hw in *. apply slice_len in E0. rewrite E0. replace (z0 + z - z0) with z by lia.
  pose proof (varint_min (z0 - i) z). lia.
Qed.

Lemma readUnknown_spec known d i v j fn wt k : fits d → 0 ≤ i < len d →
  readTag d i = Ok (fn, wt, k) → known fn = false → readUnknown d i = Ok (v, j) →
  unknown_record known v ∧ len v = j - i.
Proof.
  intros Hf Hi Ht Hk Hu. unfold readUnknown, fits in *.
  ok_inv. pose proof (slice_len _ _ _ _ E) as Hx.
  assert (fits x) as Hfx by (unfold fits; lia). pose proof (Skip_range _ _ Hfx E0).
  destruct (_ || _) eqn:?; [done|]. destruct (len d <? i64 (i + x0)) eqn:?; [done|].
  z_bools. ok_inv. destruct (i64_add_nonneg i x0) as [Hw ?]; [lia..|]. rewrite Hw in *.
  pose proof (slice_len _ _ _ _ E1) as Hv.
  apply slice_Ok in E as (_ & _ & ->), E1 as (_ & _ & ->).
  rewrite (take_ge (drop _ d)) in * by (rewrite length_drop; unfold len in *; lia).
  replace (i + x0 - i) with x0 in * by lia. split; [|lia].
  set (v := take (Z.to_nat x0) (drop (Z.to_nat i) d)) in *.
  assert (d = take (Z.to_nat i) d ++ v ++ drop (Z.to_nat x0) (drop (Z.to_nat i) d)) as Hd
    by (unfold v; by rewrite !take_drop).
  assert (len (take (Z.to_nat i) d) = i) as Hl by (apply len_take; lia).
  split; [rewrite Hv; apply Skip_take; [done..|lia]|].
  unfold readTag in Ht |- *. apply bind_Ok_inv in Ht as ([z k'] & E%map_err_Ok & Ht).
  destruct (i64 (Z.land z 7) =? 4) eqn:Hwt; [done|].
  destruct (i32 (Z.shiftr z 3) <=? 0) eqn:Hfn; [done|]. injection Ht as <- <- <-.
  exists (i32 (Z.shiftr z 3)), (i64 (Z.land z 7)), (k' - i). split; [|done].
  assert (readVarint u64 (drop (Z.to_nat i) d) 0 = Ok (z, k' - i)) as Hrest.
  { pose proof (readVarint_bounds _ _ _ _ _ E).
    apply (readVarint_restrict _ (take (Z.to_nat i) d) _ []); [done| |rewrite len_drop; lia].
    rewrite app_nil_r, take_drop, Hl, Z.add_0_r, E. do 2 f_equal. lia. }
  pose proof (Skip_tag _ _ _ _ Hfx E0 Hrest) as Hkn.
  assert (readVarint u64 v 0 = Ok (z, k' - i)) as ->.
  { apply (readVarint_restrict _ [] _ (drop (Z.to_nat x0) (drop (Z.to_nat i) d))); [done| |lia].
    unfold v. by rewrite take_drop. }
  cbn [map_err]. rewrite bind_Ok. by rewrite Hwt, Hfn.
Qed.

Lemma readVarint_len conv n d i v j : 7 ≤ n → (∀ z, conv z = z mod 2 ^ n) →
  readVarint conv d i = Ok (v, j) → len (varint v) ≤ j - i ∧ 0 ≤ v < 2 ^ n.
Proof.
  intros Hn Hconv E. pose proof (readVarint_bounds _ _ _ _ _ E).
  pose proof (Z.pow_le_mono_r 2 7 n ltac:(lia) Hn) as H7. change (2 ^ 7) with 128 in H7. split.
  - apply varint_min; [lia|]. eapply readVarint_lt; [..|done]; intros z Hz; rewrite Hconv.
    + apply Z.mod_le; lia.
    + apply Z.mod_small. lia.
  - eapply readVarint_range; [lia| |done]. intros z. rewrite Hconv. apply Z.mod_pos_bound. lia.
Qed.

Lemma opt_bytes_le tag v : 0 ≤ len (opt_bytes tag v) ≤ 1 + len (varint (len v)) + len v.
Proof. unfold opt_bytes. case_go; rewrite ?len_bytes_field; pose proof (varint_len (len v)); len_lia. Qed.
Lemma opt_varint_le tag v : 0 ≤ len (opt_varint tag v) ≤ 1 + len (varint v).
Proof. unfold opt_varint. case_go; rewrite ?len_varint_field; pose proof (varint_len v); len_lia. Qed.
Lemma headers_wire_snoc hs h : headers_wire (hs ++ [h]) = headers_wire hs ++ bytes_field x0a h.
Proof. unfold headers_wire. rewrite fmap_app, join_app. cbn. by rewrite app_nil_r. Qed.

(** The invariant of decoding: numbers keep their width and the collected
    unknown fields are whole unknown records. *)
Definition Request_decoded (m : Request) : Prop :=
  0 ≤ req_RequestId m < 2 ^ 64 ∧ unknown_ok Request_known (req_unknownFields m).
Definition Response_decoded (m : Response) : Prop :=
  0 ≤ resp_RequestId m < 2 ^ 64 ∧ 0 ≤ resp_Code m < 2 ^ 32 ∧
  unknown_ok Response_known (resp_unknownFields m).

(** The bytes a step consumes pay for the growth of the encoding. *)
Ltac solve_step_decoded :=
  repeat match goal with
  | H : readBytes _ _ = Ok _ |- _ => apply readBytes_len in H as [? ?]; [|done|lia]
  | H : readVarint u64 _ _ = Ok _ |- _ => apply (readVarint_len _ 64) in H as [? ?]; [|lia|done]
  | H : readVarint u32 _ _ = Ok _ |- _ => apply (readVarint_len _ 32) in H as [? ?]; [|lia|done]
  end;
  split; [unfold Request_decoded, Response_decoded; split_and?; simpl;
    first [done | lia | by constructor]|];
  unfold Request_wire, Response_wire; simpl;
  rewrite ?headers_wire_snoc; len_simpl; rewrite ?len_bytes_field;
  repeat match goal with
  | |- context [len (opt_bytes ?t ?v)] =>
      pose proof (opt_bytes_le t v); generalize dependent (len (opt_bytes t v)); intros
  | |- context [len (opt_varint ?t ?v)] =>
      pose proof (opt_varint_le t v); generalize dependent (len (opt_varint t v)); intros
  end; lia.

Lemma Request_step_decoded d m i m' j : fits d → 0 ≤ i < len d → Request_decoded m →
  Request_step d m i = Ok (m', j) →
  Request_decoded m' ∧ len (Request_wire m') ≤ len (Request_wire m) + (j - i).
Proof.
  intros Hf Hi [Hid Hu] H'. unfold Request_step in H'.
  apply bind_Ok_inv in H' as ([[fn wt] k] & Ht%map_err_Ok & H').
  pose proof (reader_bounds _ readTag_ok d i (fn, wt) k Hf ltac:(lia) Ht) as Hk.
  unfold Request_field in H'.
  destruct (fn =? 1) eqn:E1; [|destruct (fn =? 2) eqn:E2; [|destruct (fn =? 3) eqn:E3;
    [|destruct (fn =? 4) eqn:E4]]]; try (case_go; [done|]);
    apply bind_Ok_inv in H' as ([v k'] & Hr%map_err_Ok & H'); injection H' as <- <-;
    [solve_step_decoded..|].
  eapply (readUnknown_spec Request_known) in Hr as [? ?]; [|done|done|done|].
  2: { unfold Request_known. by rewrite E1, E2, E3, E4. }
  solve_step_decoded.
Qed.

Lemma Response_step_decoded d m i m' j : fits d → 0 ≤ i < len d → Response_decoded m →
  Response_step d m i = Ok (m', j) →
  Response_decoded m' ∧ len (Response_wire m') ≤ len (Response_wire m) + (j - i).
Proof.
  intros Hf Hi (Hid & Hc & Hu) H'. unfold Response_step in H'.
  apply bind_Ok_inv in H' as ([[fn wt] k] & Ht%map_err_Ok & H').
  pose proof (reader_bounds _ readTag_ok d i (fn, wt) k Hf ltac:(lia) Ht) as Hk.
  unfold Response_field in H'.
  destruct (fn =? 1) eqn:E1; [|destruct (fn =? 2) eqn:E2; [|destruct (fn =? 3) eqn:E3;
    [|destruct (fn =? 4) eqn:E4; [|destruct (fn =? 5) eqn:E5]]]]; try (case_go; [done|]);
    apply bind_Ok_inv in H' as ([v k'] & Hr%map_err_Ok & H'); injection H' as <- <-;
    [solve_step_decoded..|].
  eapply (readUnknown_spec Response_known) in Hr as [? ?]; [|done|done|done|].
  2: { unfold Response_known, Request_known. by rewrite E1, E2, E3, E4, E5. }
  solve_step_decoded.
Qed.

Lemma Request_unmarshal_decoded m d m' : fits d → Request_decoded m →
  Request_UnmarshalVT m d = Ok m' →
  Request_decoded m' ∧ len (Request_wire m') ≤ len (Request_wire m) + len d.
Proof.
  intros Hf Hm H'. eapply (unmarshal_loop_inv _ (λ m1 i, Request_decoded m1 ∧
    len (Request_wire m1) ≤ len (Request_wire m) + i)) in H'; [done| |split; [done|lia]|done].
  intros m1 i m2 j [H1 H2] Hi E. pose proof (step_bounds _ Request_step_ok _ _ _ _ _ Hf Hi E).
  apply Request_step_decoded in E as [? ?]; [|done..]. split; [split; [done|lia]|lia].
Qed.

Lemma Response_unmarshal_decoded m d m' : fits d → Response_decoded m →
  Response_UnmarshalVT m d = Ok m' →
  Response_decoded m' ∧ len (Response_wire m') ≤ len (Response_wire m) + len d.
Proof.
  intros Hf Hm H'. eapply (unmarshal_loop_inv _ (λ m1 i, Response_decoded m1 ∧
    len (Response_wire m1) ≤ len (Response_wire m) + i)) in H'; [done| |split; [done|lia]|done].
  intros m1 i m2 j [H1 H2] Hi E. pose proof (step_bounds _ Response_step_ok _ _ _ _ _ Hf Hi E).
  apply Response_step_decoded in E as [? ?]; [|done..]. split; [split; [done|lia]|lia].
Qed.
End decode.

(** ** The properties *)

Section properties.
Context `{Protohelpers, !ProtohelpersOk}.

Lemma Request_MarshalVT_wire m : Request_wf m → Request_MarshalVT (Some m) = Ok (Request_wire m).
Proof.
  intros Hm. unfold Request_MarshalVT. pose proof (len_nonneg (Request_wire m)).
  rewrite Request_SizeVT_wire, Request_Marshal_wire by (rewrite ?len_replicate; done || lia).
  rewrite bind_Ok, len_replicate. replace (Z.to_nat _) with 0%nat by lia. simpl.
  pose proof (@slice_app GoErr _ [] (Request_wire m) []) as Hs. rewrite app_nil_r in Hs. by apply Hs.
Qed.

Lemma Response_MarshalVT_wire m : Response_wf m → Response_MarshalVT (Some m) = Ok (Response_wire m).
Proof.
  intros Hm. unfold Response_MarshalVT. pose proof (len_nonneg (Response_wire m)).
  rewrite Response_SizeVT_wire, Response_Marshal_wire by (rewrite ?len_replicate; done || lia).
  rewrite bind_Ok, len_replicate. replace (Z.to_nat _) with 0%nat by lia. simpl.
  pose proof (@slice_app GoErr _ [] (Response_wire m) []) as Hs. rewrite app_nil_r in Hs. by apply Hs.
Qed.

Lemma empty_Request_decoded x : Request_decoded (Request_Reset x).
Proof. split; [done|constructor]. Qed.
Lemma empty_Response_decoded x : Response_decoded (Response_Reset x).
Proof. split_and!; [done..|constructor]. Qed.

(** C8: encoding a request and decoding the bytes into an empty request gives
    the request back: ids, headers in order, method, body and unknown fields. *)
Theorem Request_roundtrip m x :
  Request_wf m → unknown_ok Request_known (req_unknownFields m) →
  ∃ w, Request_MarshalVT (Some m) = Ok w ∧
       Request_UnmarshalVT (Request_Reset x) w = Ok m.
Proof.
  intros Hm Hu. exists (Request_wire m). split; [by apply Request_MarshalVT_wire|].
  by rewrite Request_unmarshal_wire, Request_merge_empty.
Qed.

(** C9: encoding a response and decoding the bytes into an empty response gives
    the response back. *)
Theorem Response_roundtrip m x :
  Response_wf m → unknown_ok Response_known (resp_unknownFields m) →
  ∃ w, Response_MarshalVT (Some m) = Ok w ∧
       Response_UnmarshalVT (Response_Reset x) w = Ok m.
Proof.
  intros Hm Hu. exists (Response_wire m). split; [by apply Response_MarshalVT_wire|].
  by rewrite Response_unmarshal_wire, Response_merge_empty.
Qed.

(** C10: on every byte sequence, whatever it contains, and every receiver, both
    decoders return: they never index out of range, and the loop ends within
    one round per byte. *)
Theorem UnmarshalVT_total (d : list byte) (m : Request) (r : Response) :
  fits d → safe (Request_UnmarshalVT m d) ∧ safe (Response_UnmarshalVT r d).
Proof.
  intros Hf. split; apply unmarshal_safe; auto using Request_step_ok, Response_step_ok.
Qed.

(** [SizeVT] is exactly the room the encoder needs: in any buffer of at
    least that size the encoder succeeds, returns [SizeVT], fills the end of the
    buffer with the encoding and leaves the bytes before it unchanged. *)
Theorem Marshal_fills_buffer (m : Request) (r : Response) (dAtA : list byte) :
  Request_wf m → Response_wf r →
  (Request_SizeVT (Some m) ≤ len dAtA →
   let n := Request_SizeVT (Some m) in
   Request_MarshalToSizedBufferVT (Some m) dAtA =
     Ok (take (Z.to_nat (len dAtA - n)) dAtA ++ Request_wire m, n)) ∧
  (Response_SizeVT (Some r) ≤ len dAtA →
   let n := Response_SizeVT (Some r) in
   Response_MarshalToSizedBufferVT (Some r) dAtA =
     Ok (take (Z.to_nat (len dAtA - n)) dAtA ++ Response_wire r, n)).
Proof.
  intros Hm Hr. rewrite Request_SizeVT_wire, Response_SizeVT_wire by done.
  split; intros Hl; [by apply Request_Marshal_wire|by apply Response_Marshal_wire].
Qed.

(** Decoding is a homomorphism: decoding a concatenation of two accepted
    inputs decodes the second into the result of the first, so repeated scalar
    fields take the last value and headers accumulate. *)
Theorem Request_UnmarshalVT_app m d e m1 m2 :
  fits (d ++ e) → Request_UnmarshalVT m d = Ok m1 → Request_UnmarshalVT m1 e = Ok m2 →
  Request_UnmarshalVT m (d ++ e) = Ok m2.
Proof. apply unmarshal_app, Request_step_ok. Qed.

(** Any accepted input, canonical or not, is normalised by re-encoding:
    the request it decodes to can be encoded, the encoding is no longer than
    the input and decodes to the same request. *)
Theorem Request_reencode x d m :
  fits d → Request_UnmarshalVT (Request_Reset x) d = Ok m →
  ∃ w, Request_MarshalVT (Some m) = Ok w ∧ len w ≤ len d ∧
       Request_UnmarshalVT (Request_Reset x) w = Ok m.
Proof.
  intros Hf Hd. apply Request_unmarshal_decoded in Hd as [[Hid Hu] Hl];
    [|done|apply empty_Request_decoded].
  change (len (Request_wire (Request_Reset x))) with 0 in Hl.
  assert (Request_wf m) as Hm by (split; [done|unfold fits in *; lia]).
  exists (Request_wire m). split_and!; [by apply Request_MarshalVT_wire|lia|].
  by rewrite Request_unmarshal_wire, Request_merge_empty.
Qed.
End properties.

(** ** Witnesses *)

Definition sample_request : Request :=
  mkRequest 300 [[x6b]; [x76]] [x65; x63; x68; x6f] [x01; x02] [x30; x07].
Definition sample_response : Response := mkResponse 300 200 [] [] [x6f; x6b] [].

Lemma sample_request_wf : Request_wf sample_request.
Proof. split; vm_compute; intuition congruence. Qed.
Lemma sample_response_wf : Response_wf sample_response.
Proof. split; vm_compute; intuition congruence. Qed.
Lemma sample_request_unknown : unknown_ok Request_known (req_unknownFields sample_request).
Proof.
  apply (unknown_snoc _ []); [constructor|]. split; [reflexivity|]. by exists 6, 0, 1.
Qed.

Lemma Request_roundtrip_witness :
  ∃ w, Request_MarshalVT (Some sample_request) = Ok w ∧
       Request_UnmarshalVT (Request_Reset sample_request) w = Ok sample_request.
Proof.
  exact (Request_roundtrip sample_request sample_request sample_request_wf sample_request_unknown).
Defined.

Lemma Response_roundtrip_witness :
  ∃ w, Response_MarshalVT (Some sample_response) = Ok w ∧
       Response_UnmarshalVT (Response_Reset sample_response) w = Ok sample_response.
Proof.
  apply (Response_roundtrip sample_response sample_response sample_response_wf). constructor.
Defined.

Lemma UnmarshalVT_total_witness :
  safe (Request_UnmarshalVT sample_request [xff; xff]) ∧
  safe (Response_UnmarshalVT sample_response [xff; xff]).
Proof. apply (UnmarshalVT_total [xff; xff] sample_request sample_response). reflexivity. Defined.

Lemma Marshal_fills_buffer_witness :
  Response_MarshalToSizedBufferVT (Some sample_response) (replicate 20 x55) =
    Ok (replicate 10 x55 ++ Response_wire sample_response, 10).
Proof.
  etransitivity; [apply (proj2 (Marshal_fills_buffer sample_request sample_response
    (replicate 20 x55) sample_request_wf sample_response_wf)); vm_compute; discriminate|].
  vm_compute. reflexivity.
Defined.

Lemma Request_UnmarshalVT_app_witness :
  Request_UnmarshalVT sample_request ([x18; x05] ++ [x18; x07]) =
    Ok (set_req_RequestId 7 sample_request).
Proof.
  apply (Request_UnmarshalVT_app _ _ _ (set_req_RequestId 5 sample_request)); reflexivity.
Defined.

(** An id encoded in three bytes instead of one. *)
Lemma Request_reencode_witness :
  ∃ w, Request_MarshalVT (Some (mkRequest 5 [] [] [] [])) = Ok w ∧ len w ≤ 4 ∧
       Request_UnmarshalVT (Request_Reset sample_request) w = Ok (mkRequest 5 [] [] [] []).
Proof.
  apply (Request_reencode sample_request [x18; x85; x80; x00]); reflexivity.
Defined.
