(* ===== verification/Encoder.v ===== *)
(** * The frame encoder

    Models internal/encoder.go: the pooled [Buffer], [getBuffer], [encodeMessage]
    and the three encoders, and the flags of transport/types/flag.go.  zstd
    (klauspost/compress) is the interface [Zstd].  [frame] is the specification of
    what is put on the wire. *)

From S2P Require Import Prelude Wire WireInstance Schema SchemaFacts.
From Stdlib Require Import Strings.Byte.

(** ** transport/types/flag.go *)

Definition REQUEST_FLAG : byte := x01.
Definition RESPONSE_FLAG : byte := x02.
Definition EVENT_FLAG : byte := x03.
Definition REQUEST_ZSTD_FLAG : byte := x04.
Definition RESPONSE_ZSTD_FLAG : byte := x05.
Definition EVENT_ZSTD_FLAG : byte := x06.

(** ** Big-endian words (encoding/binary) *)

Definition be32 (v : Z) : list byte :=
  [byte_of_Z (Z.shiftr v 24); byte_of_Z (Z.shiftr v 16); byte_of_Z (Z.shiftr v 8); byte_of_Z v].

(** [binary.BigEndian.Uint32]: panics on a slice shorter than four bytes. *)
Definition be32_read {E} (b : list byte) : outcome E Z :=
  match b with
  | b0 :: b1 :: b2 :: b3 :: _ =>
      Ok (Z.lor (byte_to_Z b3) (Z.lor (Z.shiftl (byte_to_Z b2) 8)
           (Z.lor (Z.shiftl (byte_to_Z b1) 16) (Z.shiftl (byte_to_Z b0) 24))))
  | _ => Panic
  end.

(** ** zstd *)

Class Zstd : Type := {
  EncodeAll : list byte → list byte;
  DecodeAll : list byte → option (list byte)   (* [None]: an error is returned *)
}.

(** Decompression inverts compression, up to the 64 GiB the decoder accepts by
    default, and what it returns respects that limit. *)
Definition maxDecoded : Z := 2 ^ 36.

Class ZstdOk `{Zstd} : Prop := {
  DecodeAll_EncodeAll src : len src ≤ maxDecoded → DecodeAll (EncodeAll src) = Some src;
  DecodeAll_limit src d : DecodeAll src = Some d → len d ≤ maxDecoded
}.

Inductive EncodeErr : Type :=
| EncMarshal (e : GoErr)
| EncZstd.

(** [EncodeAll] reports no error, so [CompressZstd] returns none. *)
Definition CompressZstd `{Zstd} (src : list byte) : outcome EncodeErr (list byte) :=
  Ok (EncodeAll src).

Definition DecompressZstd `{Zstd} (src : list byte) : outcome EncodeErr (list byte) :=
  match DecodeAll src with Some d => Ok d | None => Err EncZstd end.

(** ** [Buffer] *)

Definition headerSize : Z := 5.
Definition defaultBufSize : Z := 1024.
Definition compressionThreshold : Z := 16384.

(** The slice [data] is its backing array, whose length is the capacity, and
    its length. *)
Record Buffer : Type := mkBuffer {
  buf_array : list byte;
  buf_len : Z;
  buf_used : Z
}.

Definition Buffer_cap (b : Buffer) : Z := len (buf_array b).

(** [b.data[:b.used]] *)
Definition Buffer_Bytes {E} (b : Buffer) : outcome E (list byte) := slice (buf_array b) 0 (buf_used b).

(** [bufferPool.New] *)
Definition new_Buffer : Buffer := mkBuffer (replicate (Z.to_nat defaultBufSize) x00) defaultBufSize 0.

(** [Release]: nil is allowed; the pool gets the buffer at its full capacity. *)
Definition Buffer_Release (b : option Buffer) (pool : list Buffer) : list Buffer :=
  match b with
  | None => pool
  | Some b => pool_put (mkBuffer (buf_array b) (Buffer_cap b) 0) pool
  end.

(** [k] is the choice of [bufferPool.Get]. *)
Definition getBuffer (size : Z) (k : nat) (pool : list Buffer) : Buffer * list Buffer :=
  let '(b, pool) := pool_get new_Buffer k pool in
  if Buffer_cap b <? size
  then (mkBuffer (replicate (Z.to_nat size) x00) size 0, pool)
  else (mkBuffer (buf_array b) size (buf_used b), pool).

(** ** [encodeMessage] *)

Section encoder.
Context `{Protohelpers, Zstd}.

(** What follows the call of [marshal]: [b] has the payload of [n] bytes. *)
Definition finishMessage (n : Z) (flag zstdFlag : byte) (b : Buffer) : outcome EncodeErr Buffer :=
  '(useFlag, payloadLen, data) ←
    (if compressionThreshold <? n then
       src ← slice (buf_array b) headerSize (headerSize + n);
       compressed ← CompressZstd src;
       if len compressed <? n then
         data ← copy_at (buf_array b) headerSize compressed;
         Ok (zstdFlag, len compressed, data)
       else Ok (flag, n, buf_array b)
     else Ok (flag, n, buf_array b));
  data ← set_index data 4 useFlag;
  data ← copy_at data 0 (be32 (u32 (1 + payloadLen)));
  Ok (mkBuffer data (buf_len b) (headerSize + payloadLen)).

Definition encodeMessage (payloadSize : Z) (flag zstdFlag : byte)
    (marshal : list byte → outcome GoErr (list byte * Z)) (k : nat) (pool : list Buffer) :
    list Buffer * outcome EncodeErr Buffer :=
  let totalSize := headerSize + payloadSize in
  let '(b, pool) := getBuffer totalSize k pool in
  match slice (buf_array b) headerSize (buf_len b) with
  | Ok payload =>
      match marshal payload with
      | Ok (payload, n) =>
          let b := mkBuffer (take (Z.to_nat headerSize) (buf_array b) ++ payload ++
                             drop (Z.to_nat (buf_len b)) (buf_array b)) (buf_len b) (buf_used b) in
          match finishMessage n flag zstdFlag b with
          | Err e => (Buffer_Release (Some b) pool, Err e)
          | r => (pool, r)
          end
      | Err e => (Buffer_Release (Some b) pool, Err (EncMarshal e))
      | Panic => (pool, Panic)
      | NoFuel => (pool, NoFuel)
      end
  | Err e => (pool, Err e)
  | Panic => (pool, Panic)
  | NoFuel => (pool, NoFuel)
  end.

Definition EncodeRequest (req : option Request) : nat → list Buffer → list Buffer * outcome EncodeErr Buffer :=
  encodeMessage (Request_SizeVT req) REQUEST_FLAG REQUEST_ZSTD_FLAG
    (Request_MarshalToSizedBufferVT req).

Definition EncodeResponse (resp : option Response) : nat → list Buffer → list Buffer * outcome EncodeErr Buffer :=
  encodeMessage (Response_SizeVT resp) RESPONSE_FLAG RESPONSE_ZSTD_FLAG
    (Response_MarshalToSizedBufferVT resp).

Definition EncodeEvent (req : option Request) : nat → list Buffer → list Buffer * outcome EncodeErr Buffer :=
  encodeMessage (Request_SizeVT req) EVENT_FLAG EVENT_ZSTD_FLAG
    (Request_MarshalToSizedBufferVT req).

(** ** Specification *)

(** The payload that is sent and its flag. *)
Definition pack (flag zstdFlag : byte) (w : list byte) : byte * list byte :=
  if (compressionThreshold <? len w) && (len (EncodeAll w) <? len w)
  then (zstdFlag, EncodeAll w) else (flag, w).

(** [4 bytes length, big-endian][1 byte flag][payload]; the length counts the
    flag and is a [uint32]. *)
Definition frame (fp : byte * list byte) : list byte :=
  be32 (u32 (1 + len fp.2)) ++ [fp.1] ++ fp.2.
End encoder.

(** The invariant of a buffer, and of the pool: capacity for a header, and a
    length within the capacity. *)
Definition Buffer_wf (b : Buffer) : Prop := 0 ≤ buf_len b ≤ Buffer_cap b ∧ 0 ≤ buf_used b.
