(* ===== verification/EncoderFacts.v ===== *)
(** * Correctness of the frame encoder

    Whatever buffer the pool hands out and whatever bytes it still holds, the
    encoded frame is [frame (pack flag zstdFlag w)] for the encoding [w] of the
    message, and the pool only ever holds well-formed buffers. *)

From S2P Require Import Prelude Wire WireInstance Schema SchemaFacts Encoder.
From Stdlib Require Import Strings.Byte.

Lemma be32_len v : len (be32 v) = 4.
Proof. done. Qed.
#[export] Hint Rewrite be32_len : go_len.

(** Reading back a written length. *)
Lemma be32_read_be32 {E} v rest : 0 ≤ v < 2 ^ 32 → @be32_read E (be32 v ++ rest) = Ok v.
Proof.
  intros Hv. unfold be32_read, be32. cbn [app]. f_equal.
  rewrite !byte_to_of_Z. unfold u8. change (2 ^ 8) with 256.
  rewrite !Z.shiftr_div_pow2 by lia. change (2 ^ 24) with 16777216.
  change (2 ^ 16) with 65536. change (2 ^ 8) with 256. change (2 ^ 32) with 4294967296 in Hv.
  pose proof (Z.mod_pos_bound (v / 16777216) 256 eq_refl).
  pose proof (Z.mod_pos_bound (v / 65536) 256 eq_refl).
  pose proof (Z.mod_pos_bound (v / 256) 256 eq_refl). pose proof (Z.mod_pos_bound v 256 eq_refl).
  rewrite !Z.lor_assoc.
  rewrite (lor_shiftl_add (v mod 256)) by lia.
  rewrite (lor_shiftl_add _ ((v / 65536) mod 256)), (lor_shiftl_add _ ((v / 16777216) mod 256)) by lia.
  simpl. Z.to_euclidean_division_equations; lia.
Qed.

Section facts.
Context `{Protohelpers, !ProtohelpersOk, Zstd}.

(** The two header writes, in the order of the code. *)
Lemma header_writes (h rest : list byte) f v : len h = 5 →
  (data ← set_index (h ++ rest) 4 f; copy_at data 0 (be32 v)) =
    Ok (be32 v ++ [f] ++ rest) :> outcome EncodeErr _.
Proof.
  intros Hh. unfold set_index. rewrite (proj2 (Z.ltb_lt _ _)) by len_lia.
  do 6 (destruct h as [|? h]; try (unfold len in Hh; simpl in Hh; lia)). simpl.
  unfold copy_at. rewrite (proj2 (Z.leb_le _ _)) by len_lia. done.
Qed.

Lemma copy_at_front (h w t c : list byte) : len h = 5 → len c ≤ len w →
  copy_at (h ++ w ++ t) headerSize c =
    Ok (h ++ c ++ drop (length c) w ++ t) :> outcome EncodeErr _.
Proof.
  intros Hh Hc. unfold copy_at, headerSize. rewrite !(proj2 (Z.leb_le _ _)) by len_lia. cbn [andb].
  replace (Z.to_nat 5) with (length h) by (unfold len in Hh; lia). cbv zeta.
  rewrite take_app_length. f_equal. f_equal. unfold len in *. f_equal.
  - apply take_ge. rewrite !length_app. lia.
  - rewrite drop_app_add. by rewrite drop_app_le by lia.
Qed.

(** The array [h ++ w ++ t] holds the payload [w] after the header room [h]. *)
Lemma finishMessage_spec (h w t : list byte) flag zstdFlag l u : len h = 5 →
  ∃ data n, finishMessage (len w) flag zstdFlag (mkBuffer (h ++ w ++ t) l u) =
    Ok (mkBuffer data l n) ∧ 0 ≤ n ∧ len data = len (h ++ w ++ t) ∧
    slice data 0 n = Ok (frame (pack flag zstdFlag w)) :> outcome EncodeErr _.
Proof.
  intros Hh. unfold finishMessage, pack, CompressZstd. cbn [buf_array buf_len].
  assert (@slice EncodeErr _ (h ++ w ++ t) headerSize (headerSize + len w) = Ok w) as Hs
    by (apply slice_app; rewrite Hh; done).
  rewrite Hs.
  assert (∀ f p t', len (p ++ t') = len (w ++ t) → ∃ data n,
    (data ← set_index (h ++ p ++ t') 4 f; data ← copy_at data 0 (be32 (u32 (1 + len p)));
     Ok (mkBuffer data l (headerSize + len p))) = @Ok EncodeErr _ (mkBuffer data l n) ∧ 0 ≤ n ∧
    len data = len (h ++ w ++ t) ∧
    slice data 0 n = Ok (frame (f, p)) :> outcome EncodeErr _) as Hfin.
  { intros f p t' Hl. rewrite <- bind_assoc, header_writes by done. eexists _, _.
    split; [done|]. unfold headerSize. split; [len_lia|]. split; [len_lia|].
    unfold frame; simpl fst; simpl snd.
    pose proof (@slice_app EncodeErr _ [] (be32 (u32 (1 + len p)) ++ [f] ++ p) t') as Ha.
    cbn [app] in Ha. rewrite <- !app_assoc in Ha. apply Ha; len_lia. }
  destruct (compressionThreshold <? len w) eqn:Et; cbn [andb].
  - rewrite !bind_Ok. destruct (len (EncodeAll w) <? len w) eqn:El; z_bools.
    + rewrite copy_at_front, !bind_Ok by (done || lia). apply Hfin.
      unfold len in *. rewrite !length_app, length_drop. lia.
    + rewrite !bind_Ok. by apply Hfin.
  - rewrite !bind_Ok. by apply Hfin.
Qed.

Lemma getBuffer_spec size k pool : 0 ≤ size → ∃ arr u,
  getBuffer size k pool = (mkBuffer arr size u, (pool_get new_Buffer k pool).2) ∧ size ≤ len arr.
Proof.
  intros Hs. unfold getBuffer. destruct (pool_get new_Buffer k pool) as [b p]; simpl.
  case_go; z_bools; eexists _, _; split; try done. rewrite len_replicate. lia.
Qed.

(** A marshaller that fills a buffer of the announced size with [w]. *)
Lemma encodeMessage_spec w flag zstdFlag marshal k pool :
  (∀ payload, len payload = len w → marshal payload = Ok (w, len w)) →
  ∃ b, encodeMessage (len w) flag zstdFlag marshal k pool =
         ((pool_get new_Buffer k pool).2, Ok b) ∧
    Buffer_wf b ∧ Buffer_Bytes b = Ok (frame (pack flag zstdFlag w)) :> outcome EncodeErr _.
Proof.
  intros Hm. unfold encodeMessage. unfold headerSize at 1.
  destruct (getBuffer_spec (5 + len w) k pool) as (arr & u & -> & Hl); [len_lia|].
  cbn [buf_array buf_len buf_used].
  assert (∃ payload, @slice EncodeErr _ arr headerSize (5 + len w) = Ok payload) as [pl Hpl].
  { destruct (slice arr headerSize (5 + len w)) as [x| | |] eqn:E; [by exists x|..];
      unfold slice, headerSize in E; by rewrite !(proj2 (Z.leb_le _ _)) in E by len_lia. }
  rewrite Hpl. apply slice_len in Hpl. unfold headerSize in Hpl.
  rewrite Hm by lia. unfold headerSize.
  assert (len (take (Z.to_nat 5) arr) = 5) as H5 by (apply len_take; len_lia).
  destruct (finishMessage_spec (take (Z.to_nat 5) arr) w (drop (Z.to_nat (5 + len w)) arr)
    flag zstdFlag (5 + len w) u H5) as (data & n & -> & Hn & Hd & Hs).
  eexists. split; [done|]. split; [|done]. unfold Buffer_wf, Buffer_cap; cbn [buf_array buf_len buf_used].
  rewrite Hd. len_simpl. rewrite H5, len_drop by len_lia. len_lia.
Qed.

Lemma EncodeRequest_spec m k pool : Request_wf m →
  ∃ b, EncodeRequest (Some m) k pool = ((pool_get new_Buffer k pool).2, Ok b) ∧ Buffer_wf b ∧
    Buffer_Bytes b = Ok (frame (pack REQUEST_FLAG REQUEST_ZSTD_FLAG (Request_wire m))) :> outcome EncodeErr _.
Proof.
  intros Hm. unfold EncodeRequest. rewrite Request_SizeVT_wire by done. apply encodeMessage_spec.
  intros pl Hpl. rewrite Request_Marshal_wire by (done || lia). by rewrite Hpl, Z.sub_diag.
Qed.

Lemma EncodeEvent_spec m k pool : Request_wf m →
  ∃ b, EncodeEvent (Some m) k pool = ((pool_get new_Buffer k pool).2, Ok b) ∧ Buffer_wf b ∧
    Buffer_Bytes b = Ok (frame (pack EVENT_FLAG EVENT_ZSTD_FLAG (Request_wire m))) :> outcome EncodeErr _.
Proof.
  intros Hm. unfold EncodeEvent. rewrite Request_SizeVT_wire by done. apply encodeMessage_spec.
  intros pl Hpl. rewrite Request_Marshal_wire by (done || lia). by rewrite Hpl, Z.sub_diag.
Qed.

Lemma EncodeResponse_spec m k pool : Response_wf m →
  ∃ b, EncodeResponse (Some m) k pool = ((pool_get new_Buffer k pool).2, Ok b) ∧ Buffer_wf b ∧
    Buffer_Bytes b = Ok (frame (pack RESPONSE_FLAG RESPONSE_ZSTD_FLAG (Response_wire m))) :> outcome EncodeErr _.
Proof.
  intros Hm. unfold EncodeResponse. rewrite Response_SizeVT_wire by done. apply encodeMessage_spec.
  intros pl Hpl. rewrite Response_Marshal_wire by (done || lia). by rewrite Hpl, Z.sub_diag.
Qed.
End facts.

(** ** Properties *)

Section properties.
Context `{Protohelpers, !ProtohelpersOk, Zstd}.

(** C16: for every pool state and every choice of pooled buffer, the three
    encoders return a buffer whose bytes are exactly the frame of the message:
    big-endian length, the plain or the zstd flag, and the plain encoding or,
    above the threshold and only when it is shorter, its compression.  Nothing
    of an earlier message that is still in the buffer is sent. *)
Theorem encoders_emit_frames m r k pool : Request_wf m → Response_wf r →
  (∃ b, EncodeRequest (Some m) k pool = ((pool_get new_Buffer k pool).2, Ok b) ∧ Buffer_wf b ∧
     Buffer_Bytes b = Ok (frame (pack REQUEST_FLAG REQUEST_ZSTD_FLAG (Request_wire m))) :> outcome EncodeErr _) ∧
  (∃ b, EncodeEvent (Some m) k pool = ((pool_get new_Buffer k pool).2, Ok b) ∧ Buffer_wf b ∧
     Buffer_Bytes b = Ok (frame (pack EVENT_FLAG EVENT_ZSTD_FLAG (Request_wire m))) :> outcome EncodeErr _) ∧
  (∃ b, EncodeResponse (Some r) k pool = ((pool_get new_Buffer k pool).2, Ok b) ∧ Buffer_wf b ∧
     Buffer_Bytes b = Ok (frame (pack RESPONSE_FLAG RESPONSE_ZSTD_FLAG (Response_wire r))) :> outcome EncodeErr _).
Proof.
  intros Hm Hr. split_and!; [by apply EncodeRequest_spec|by apply EncodeEvent_spec|by apply EncodeResponse_spec].
Qed.
End properties.

(** ** A concrete instance of the compressor

    Run-length coding of constant inputs: a lossless compressor that does shrink
    some inputs, for the witnesses. *)

Definition rle_EncodeAll (src : list byte) : list byte :=
  match src with
  | b :: _ =>
      if decide (src = replicate (length src) b ∧ len src < 2 ^ 32)
      then x01 :: b :: be32 (len src) else x00 :: src
  | [] => [x00]
  end.

Definition rle_DecodeAll (src : list byte) : option (list byte) :=
  match src with
  | x00 :: d => if len d <=? maxDecoded then Some d else None
  | x01 :: b :: n =>
      match @be32_read unit n with
      | Ok v => if v <=? maxDecoded then Some (replicate (Z.to_nat v) b) else None
      | _ => None
      end
  | _ => None
  end.

#[export] Instance rle_zstd : Zstd := { EncodeAll := rle_EncodeAll; DecodeAll := rle_DecodeAll }.

#[export] Instance rle_zstd_ok : ZstdOk.
Proof.
  split.
  - intros [|b src] Hm; [done|]. cbn [EncodeAll DecodeAll rle_zstd rle_EncodeAll].
    case_decide as Hd; cbn [rle_DecodeAll].
    + destruct Hd as [Hr Hl]. rewrite <- (app_nil_r (be32 _)), be32_read_be32 by len_lia.
      rewrite (proj2 (Z.leb_le _ _)) by done. by rewrite to_nat_len, <- Hr.
    + by rewrite (proj2 (Z.leb_le _ _)).
  - intros src d. cbn [DecodeAll rle_zstd]. unfold rle_DecodeAll. intros Hd.
    destruct src as [|[] src]; try done; repeat case_go; try done; injection Hd as <-; z_bools; [done|].
    rewrite len_replicate. unfold maxDecoded in *. lia.
Qed.


(** The pool hands out a buffer full of stale bytes. *)
Lemma encoders_emit_frames_witness :
  ∃ b, EncodeRequest (Some sample_request) 0 [mkBuffer (replicate 64 xaa) 64 0] = ([], Ok b) ∧
    Buffer_wf b ∧
    Buffer_Bytes b = Ok (frame (pack REQUEST_FLAG REQUEST_ZSTD_FLAG (Request_wire sample_request))) :> outcome EncodeErr _.
Proof.
  exact (proj1 (encoders_emit_frames sample_request sample_response 0
    [mkBuffer (replicate 64 xaa) 64 0] sample_request_wf sample_response_wf)).
Defined.
