(* ===== verification/ShardedMap.v ===== *)
(** * The sharded map from request ids to waiting channels

    Models internal/shardedmap.go.  Every operation of the source holds the
    mutex of the one shard it touches, so an operation is one atomic step.  The
    interface [IdMap] is what the client and the multiplexer rely on; their
    models are stated against it, and [sharded_idmap] discharges it. *)

From S2P Require Import Prelude.

(** ** What the map promises *)

(** A map from 64-bit ids that refines a finite map: [view] is the abstraction
    and [inv] the invariant of the representation. *)
Class IdMap (M V : Type) : Type := {
  im_new : M;
  im_Store : Z → V → M → M;
  im_LoadAndDelete : Z → M → option V * M;
  im_Delete : Z → M → M;
  im_view : M → gmap Z V;
  im_inv : M → Prop
}.

Class IdMapOk (M V : Type) `{IdMap M V} : Prop := {
  im_new_ok : im_inv im_new ∧ im_view im_new = ∅;
  im_Store_ok k v m : 0 ≤ k < 2 ^ 64 → im_inv m →
    im_inv (im_Store k v m) ∧ im_view (im_Store k v m) = <[k := v]> (im_view m);
  im_LoadAndDelete_ok k m : 0 ≤ k < 2 ^ 64 → im_inv m →
    (im_LoadAndDelete k m).1 = im_view m !! k ∧ im_inv (im_LoadAndDelete k m).2 ∧
    im_view (im_LoadAndDelete k m).2 = delete k (im_view m);
  im_Delete_ok k m : 0 ≤ k < 2 ^ 64 → im_inv m →
    im_inv (im_Delete k m) ∧ im_view (im_Delete k m) = delete k (im_view m)
}.

(** ** The implementation *)

Definition shardCount : Z := 256.

Section sharded.
Context {V : Type}.

Definition shard : Type := gmap Z V.

Record ShardedMap : Type := mkShardedMap { shards : list (gmap Z V) }.

Definition NewShardedMap : ShardedMap := mkShardedMap (replicate (Z.to_nat shardCount) ∅).

(** [key%shardCount] *)
Definition shard_index (key : Z) : nat := Z.to_nat (key mod shardCount).

Definition Store (key : Z) (value : V) (sm : ShardedMap) : ShardedMap :=
  mkShardedMap (alter (insert key value) (shard_index key) (shards sm)).

Definition LoadAndDelete (key : Z) (sm : ShardedMap) : option V * ShardedMap :=
  let items := default ∅ (shards sm !! shard_index key) in
  match items !! key with
  | Some v => (Some v, mkShardedMap (alter (delete key) (shard_index key) (shards sm)))
  | None => (None, sm)
  end.

Definition Delete (key : Z) (sm : ShardedMap) : ShardedMap :=
  mkShardedMap (alter (delete key) (shard_index key) (shards sm)).

(** ** Abstraction and invariant *)

Definition view (sm : ShardedMap) : gmap Z V := foldr (∪) ∅ (shards sm).

Record sm_inv (sm : ShardedMap) : Prop := {
  sm_length : length (shards sm) = Z.to_nat shardCount;
  sm_home i items k : shards sm !! i = Some items → is_Some (items !! k) → shard_index k = i
}.

Lemma shard_index_lt key : (shard_index key < Z.to_nat shardCount)%nat.
Proof. unfold shard_index, shardCount. pose proof (Z.mod_pos_bound key 256). lia. Qed.

(** The value of a key is the one in the shard the key belongs to. *)
Lemma foldr_union_lookup (l : list (gmap Z V)) i items k :
  l !! i = Some items → (∀ j items', l !! j = Some items' → is_Some (items' !! k) → j = i) →
  foldr (∪) ∅ l !! k = items !! k.
Proof.
  revert i. induction l as [|x l IH]; intros i Hi Hh; [done|]. destruct i as [|i]; simpl in *.
  - simplify_eq. apply option_eq. intros v. rewrite lookup_union.
    assert (foldr (∪) ∅ l !! k = None) as ->; [|by destruct (items !! k)].
    clear IH. induction l as [|y l IH]; [done|]. simpl. rewrite lookup_union.
    destruct (y !! k) eqn:E; [specialize (Hh 1%nat y eq_refl ltac:(eauto)); lia|].
    rewrite IH; [done|]. intros j z Hj Hz. destruct j as [|j]; [done|].
    specialize (Hh (S (S j)) z Hj Hz). lia.
  - rewrite lookup_union. destruct (x !! k) eqn:E; [specialize (Hh 0%nat x eq_refl ltac:(eauto)); lia|].
    rewrite (IH i Hi); [by destruct (items !! k)|].
    intros j items' Hj Hs. specialize (Hh (S j) items' Hj Hs). lia.
Qed.

Lemma view_lookup sm k : sm_inv sm →
  ∃ items, shards sm !! shard_index k = Some items ∧ view sm !! k = items !! k.
Proof.
  intros [Hl Hh]. destruct (lookup_lt_is_Some_2 (shards sm) (shard_index k)) as [items Hi].
  { rewrite Hl. apply shard_index_lt. }
  exists items. split; [done|]. eapply foldr_union_lookup; [done|].
  intros j items' Hj Hs. symmetry. by eapply Hh.
Qed.

(** An update of the home shard of [key] that only concerns [key]. *)
Lemma alter_home f key sm : sm_inv sm →
  (∀ items k, k ≠ key → (f items : gmap Z V) !! k = items !! k) →
  sm_inv (mkShardedMap (alter f (shard_index key) (shards sm))) ∧
  ∀ k, view (mkShardedMap (alter f (shard_index key) (shards sm))) !! k =
       if decide (k = key) then f (default ∅ (shards sm !! shard_index key)) !! key
       else view sm !! k.
Proof.
  intros Hinv Hf. assert (sm_inv (mkShardedMap (alter f (shard_index key) (shards sm)))) as Hinv'.
  { destruct Hinv as [Hl Hh]. split; simpl; [by rewrite length_alter|].
    intros i items k Hi Hs. destruct (decide (k = key)) as [->|Hne].
    - destruct (decide (i = shard_index key)) as [->|Hi']; [done|].
      rewrite list_lookup_alter_ne in Hi by done. by eapply Hh.
    - destruct (decide (i = shard_index key)) as [->|Hi'].
      + rewrite list_lookup_alter_eq in Hi. apply fmap_Some in Hi as (it & Hi & ->).
        rewrite Hf in Hs by done. by eapply Hh.
      + rewrite list_lookup_alter_ne in Hi by done. by eapply Hh. }
  split; [done|]. intros k.
  destruct (view_lookup _ k Hinv') as (items & Hi & ->). destruct (view_lookup _ k Hinv) as (it & Hit & ->).
  simpl in Hi. destruct (decide (shard_index k = shard_index key)) as [Heq|Hne].
  - rewrite Heq in *. rewrite list_lookup_alter_eq, Hit in Hi. simpl in Hi. simplify_eq.
    rewrite Hit. simpl. case_decide; [by subst|by rewrite Hf].
  - rewrite list_lookup_alter_ne, Hit in Hi by done. simplify_eq.
    case_decide; [by subst|done].
Qed.
End sharded.
Arguments ShardedMap V : clear implicits.

(** ** The implementation keeps the promise *)

#[export] Instance sharded_idmap V : IdMap (ShardedMap V) V := {
  im_new := NewShardedMap; im_Store := Store; im_LoadAndDelete := LoadAndDelete;
  im_Delete := Delete; im_view := view; im_inv := sm_inv
}.

Section refinement.
Context {V : Type}.
Implicit Types sm : ShardedMap V.

Lemma new_refines : sm_inv (@NewShardedMap V) ∧ view (@NewShardedMap V) = ∅.
Proof.
  split; [|vm_compute; reflexivity]. split; [by vm_compute|].
  intros i items k Hi [v Hv]. apply lookup_replicate in Hi as [-> _]. done.
Qed.

Lemma Store_refines k v sm : sm_inv sm → sm_inv (Store k v sm) ∧ view (Store k v sm) = <[k := v]> (view sm).
Proof.
  intros Hinv. destruct (alter_home (insert k v) k sm Hinv) as [? Hv].
  { intros. by rewrite lookup_insert_ne. }
  split; [done|]. apply map_eq. intros j. unfold Store. rewrite Hv.
  destruct (decide (j = k)) as [->|?]; by simplify_map_eq.
Qed.

Lemma Delete_refines k sm : sm_inv sm → sm_inv (Delete k sm) ∧ view (Delete k sm) = delete k (view sm).
Proof.
  intros Hinv. destruct (alter_home (delete k) k sm Hinv) as [? Hv].
  { intros. by rewrite lookup_delete_ne. }
  split; [done|]. apply map_eq. intros j. unfold Delete. rewrite Hv.
  destruct (decide (j = k)) as [->|?]; by simplify_map_eq.
Qed.

Lemma LoadAndDelete_refines k sm : sm_inv sm →
  (LoadAndDelete k sm).1 = view sm !! k ∧ sm_inv (LoadAndDelete k sm).2 ∧
  view (LoadAndDelete k sm).2 = delete k (view sm).
Proof.
  intros Hinv. destruct (view_lookup _ k Hinv) as (items & Hi & Hv).
  destruct (Delete_refines k sm Hinv) as [Hinv' Hd]. unfold LoadAndDelete. rewrite Hi. simpl.
  destruct (items !! k) as [v|] eqn:E; simpl; [done|].
  split_and!; [done..|]. by rewrite delete_id.
Qed.

#[export] Instance sharded_idmap_ok : IdMapOk (ShardedMap V) V.
Proof.
  split; simpl; intros.
  - apply new_refines.
  - by apply Store_refines.
  - by apply LoadAndDelete_refines.
  - by apply Delete_refines.
Qed.

(** C19: the 256 shards behave as one map: starting from the empty map, every
    operation on any key acts on the union of the shards as the corresponding
    map operation, [LoadAndDelete] returns the stored value and removes it, and
    the invariant that a key only occurs in the shard of its residue is kept. *)
Theorem shardedmap_refines_map k v sm : sm_inv sm →
  (sm_inv (@NewShardedMap V) ∧ view (@NewShardedMap V) = ∅) ∧
  (sm_inv (Store k v sm) ∧ view (Store k v sm) = <[k := v]> (view sm)) ∧
  ((LoadAndDelete k sm).1 = view sm !! k ∧ sm_inv (LoadAndDelete k sm).2 ∧
   view (LoadAndDelete k sm).2 = delete k (view sm)) ∧
  (sm_inv (Delete k sm) ∧ view (Delete k sm) = delete k (view sm)).
Proof.
  intros Hinv. split; [apply new_refines|]. split; [by apply Store_refines|].
  split; [by apply LoadAndDelete_refines|by apply Delete_refines].
Qed.
End refinement.

(** Keys 1 and 257 share a shard and are kept apart. *)
Lemma shardedmap_refines_map_witness :
  view (Store 257 20 (Store 1 10 NewShardedMap)) = <[257 := 20]> (view (Store 1 10 NewShardedMap)).
Proof.
  apply (shardedmap_refines_map 257 20 (Store 1 10 NewShardedMap)).
  apply Store_refines, new_refines.
Defined.
