(* ===== verification/Balancer.v ===== *)
(** * The round-robin stream balancer

    Models transport/quic/balancer.go.  A stream is a pointer into the QUIC
    library and is kept abstract.  [GetStream], [AddStream] and [Reset] are the
    sequential operations; [bstep] is the interleaving of their atomic actions:
    [GetStream] loads the snapshot and then draws a ticket without a lock, and
    [Reset] stores the counter and then swaps the snapshot under the mutex. *)

From S2P Require Import Prelude.

Inductive BalancerErr : Type := StreamsListIsEmpty.

Section balancer.
Context {stream : Type}.

Record BalancerImpl : Type := mkBalancer { snapshot : list stream; counter : Z }.

Definition NewBalancer : BalancerImpl := mkBalancer [] 0.

(** [idx := b.counter.Add(1) - 1], in [uint32]. *)
Definition ticket (c : Z) : Z * Z := let c' := u32 (c + 1) in (u32 (c' - 1), c').

(** [streams[idx%uint32(len(streams))]]: the division by zero and the index
    are checked. *)
Definition pick (streams : list stream) (idx : Z) : outcome BalancerErr stream :=
  let n := u32 (len streams) in
  if n =? 0 then Panic else index streams (idx mod n).

Definition GetStream (b : BalancerImpl) : outcome BalancerErr stream * BalancerImpl :=
  let streams := snapshot b in
  if len streams =? 0 then (Err StreamsListIsEmpty, b)
  else let '(idx, c) := ticket (counter b) in
       (pick streams idx, mkBalancer streams c).

Definition AddStream (s : stream) (b : BalancerImpl) : BalancerImpl :=
  let n := length (snapshot b) in
  let newStreams := take n (snapshot b) ++ [s] in
  mkBalancer newStreams (counter b).

(** The streams [Close] is called on (a panic of [Close] is recovered), and
    the new state. *)
Definition Reset (b : BalancerImpl) : list stream * BalancerImpl :=
  (snapshot b, mkBalancer [] 0).

(** [k] calls of [GetStream] in a row. *)
Fixpoint GetStreams (k : nat) (b : BalancerImpl) : list (outcome BalancerErr stream) * BalancerImpl :=
  match k with
  | O => ([], b)
  | S k => let '(r, b) := GetStream b in
           let '(rs, b) := GetStreams k b in (r :: rs, b)
  end.

(** ** Sequential behaviour *)

Lemma ticket_eq c : 0 ≤ c < 2 ^ 32 → ticket c = (c, u32 (c + 1)).
Proof.
  intros Hc. unfold ticket, u32. f_equal.
  rewrite Zminus_mod_idemp_l. replace (c + 1 - 1) with c by lia. by apply Z.mod_small.
Qed.

Lemma pick_Ok (streams : list stream) idx : 0 < len streams < 2 ^ 32 → 0 ≤ idx →
  ∃ s, pick streams idx = Ok s ∧ streams !! Z.to_nat (idx mod len streams) = Some s.
Proof.
  intros Hl Hi. unfold pick. rewrite u32_id by lia. rewrite (proj2 (Z.eqb_neq _ _)) by lia.
  pose proof (Z.mod_pos_bound idx (len streams) ltac:(lia)).
  destruct (lookup_lt_is_Some_2 streams (Z.to_nat (idx mod len streams))) as [s Hs].
  { unfold len in *. lia. }
  exists s. split; [|done]. apply index_Ok. split; [lia|done].
Qed.

Lemma GetStreams_spec k (streams : list stream) c : 0 < len streams < 2 ^ 32 → 0 ≤ c →
  c + Z.of_nat k ≤ 2 ^ 32 → c < 2 ^ 32 →
  ∃ ss, (GetStreams k (mkBalancer streams c)).1 = Ok <$> ss ∧ length ss = k ∧
    ∀ i, (i < k)%nat → ss !! i = streams !! Z.to_nat ((c + Z.of_nat i) mod len streams).
Proof.
  intros Hl. revert c. induction k as [|k IH]; intros c Hc Hk Hlt; [exists []; split_and!; [done..|lia]|].
  cbn [GetStreams]. unfold GetStream at 1. cbn [snapshot counter].
  rewrite (proj2 (Z.eqb_neq _ _)) by lia. rewrite ticket_eq by lia.
  destruct (pick_Ok streams c Hl Hc) as (s & Hs & Hss).
  destruct k as [|k].
  { exists [s]. rewrite Hs. split; [reflexivity|]. split; [reflexivity|]. intros [|i] Hi; [|lia].
    simpl. by rewrite Z.add_0_r. }
  rewrite u32_id by lia. specialize (IH (c + 1) ltac:(lia) ltac:(lia) ltac:(lia)) as (ss & E & Hlen & Hi).
  destruct (GetStreams (S k) (mkBalancer streams (c + 1))) as [rs b] eqn:Eg. cbn [fst] in *. subst rs.
  exists (s :: ss). rewrite Hs. split_and!; [done|simpl; lia|].
  intros [|i] Hlt'; simpl; [by rewrite Z.add_0_r|]. rewrite Hi by lia. do 3 f_equal. lia.
Qed.

(** Reading a list cyclically from an offset is a rotation. *)
Lemma rotation (l ss : list stream) c : 0 < len l → 0 ≤ c → length ss = length l →
  (∀ i, (i < length l)%nat → ss !! i = l !! Z.to_nat ((c + Z.of_nat i) mod len l)) →
  ss = drop (Z.to_nat (c mod len l)) l ++ take (Z.to_nat (c mod len l)) l.
Proof.
  intros Hl Hc Hlen Hi. pose proof (Z.mod_pos_bound c (len l) Hl) as Hr.
  pose proof (Z.div_mod c (len l) ltac:(lia)) as Hdm. set (r := c mod len l) in *.
  apply list_eq. intros i. destruct (decide (i < length l)%nat) as [Hlt|Hge].
  - rewrite Hi by done. unfold len in *.
    assert ((c + Z.of_nat i) mod Z.of_nat (length l) = (r + Z.of_nat i) mod Z.of_nat (length l)) as ->.
    { rewrite Hdm. replace (Z.of_nat (length l) * (c / Z.of_nat (length l)) + r + Z.of_nat i)
        with (r + Z.of_nat i + c / Z.of_nat (length l) * Z.of_nat (length l)) by lia.
      by rewrite Z.mod_add by lia. }
    destruct (decide (r + Z.of_nat i < Z.of_nat (length l))) as [Hs|Hs].
    + rewrite Z.mod_small by lia. rewrite lookup_app_l by (rewrite length_drop; lia).
      rewrite lookup_drop. f_equal. lia.
    + replace (r + Z.of_nat i) with (r + Z.of_nat i - Z.of_nat (length l) + 1 * Z.of_nat (length l)) by lia.
      rewrite Z.mod_add, Z.mod_small by lia. rewrite lookup_app_r by (rewrite length_drop; lia).
      rewrite length_drop, lookup_take_lt by lia. f_equal. lia.
  - rewrite !lookup_ge_None_2; [done|rewrite length_app, length_drop, length_take; unfold len in *; lia|lia].
Qed.

(** ** Interleavings *)

(** A caller of [GetStream] after its load, or finished. *)
Inductive caller : Type :=
| Loaded (streams : list stream)
| Returned (r : outcome BalancerErr stream).

(** [resetting] is true while [Reset] holds the mutex between its two stores. *)
Record bconfig : Type := mkBConfig {
  bal : BalancerImpl;
  resetting : bool;
  callers : gmap nat caller;
  closed : list stream
}.

Definition binit : bconfig := mkBConfig NewBalancer false ∅ [].

Inductive bstep : bconfig → bconfig → Prop :=
| step_load b l cs cl t : cs !! t = None →
    bstep (mkBConfig b l cs cl)
      (mkBConfig b l (<[t := if len (snapshot b) =? 0 then Returned (Err StreamsListIsEmpty)
                             else Loaded (snapshot b)]> cs) cl)
| step_ticket b l cs cl t streams : cs !! t = Some (Loaded streams) →
    bstep (mkBConfig b l cs cl)
      (mkBConfig (mkBalancer (snapshot b) (ticket (counter b)).2) l
         (<[t := Returned (pick streams (ticket (counter b)).1)]> cs) cl)
| step_add b cs cl s : len (snapshot b) < 2 ^ 32 - 1 →
    bstep (mkBConfig b false cs cl) (mkBConfig (AddStream s b) false cs cl)
| step_reset_counter b cs cl :
    bstep (mkBConfig b false cs cl) (mkBConfig (mkBalancer (snapshot b) 0) true cs cl)
| step_reset_swap b cs cl :
    bstep (mkBConfig b true cs cl)
      (mkBConfig (mkBalancer [] (counter b)) false cs (cl ++ snapshot b)).

(** The two actions of [Reset] in a row are the sequential [Reset]. *)
Lemma reset_actions b cs cl :
  rtc bstep (mkBConfig b false cs cl)
    (mkBConfig (Reset b).2 false cs (cl ++ (Reset b).1)).
Proof. eapply rtc_l; [apply step_reset_counter|]. eapply rtc_l; [apply step_reset_swap|]. done. Qed.

Record binv (g : bconfig) : Prop := {
  binv_counter : 0 ≤ counter (bal g) < 2 ^ 32;
  binv_snapshot : len (snapshot (bal g)) < 2 ^ 32;
  binv_loaded t streams : callers g !! t = Some (Loaded streams) → 0 < len streams < 2 ^ 32;
  binv_returned t r : callers g !! t = Some (Returned r) →
    r = Err StreamsListIsEmpty ∨ ∃ s, r = Ok s
}.

Lemma binv_init : binv binit.
Proof. by split; try (intros; simpl in *; simplify_map_eq). Qed.

Lemma binv_step g g' : bstep g g' → binv g → binv g'.
Proof.
  intros Hs [Hc Hn Hl Hr].
  destruct Hs; cbn [bal callers snapshot counter] in *; split;
    cbn [bal callers snapshot counter] in *; auto.
  - intros t' ss Ht. destruct (decide (t' = t)) as [->|?]; simplify_map_eq; [|by eapply Hl].
    case_go; simplify_eq. z_bools. pose proof (len_nonneg (snapshot b)). lia.
  - intros t' r Ht. destruct (decide (t' = t)) as [->|?]; simplify_map_eq; [|by eapply Hr].
    case_go; simplify_eq. by left.
  - unfold ticket. apply u32_range.
  - intros t' ss Ht. destruct (decide (t' = t)) as [->|?]; simplify_map_eq. by eapply Hl.
  - intros t' r Ht. destruct (decide (t' = t)) as [->|?]; [|simplify_map_eq; by eapply Hr].
    rewrite lookup_insert_eq in Ht. injection Ht as <-.
    destruct (pick_Ok streams (u32 (u32 (counter b + 1) - 1))) as (s & -> & _);
      [by eapply Hl|apply u32_range|eauto].
  - unfold AddStream. simpl. rewrite firstn_all. len_lia.
  - lia.
  - rewrite len_nil. lia.
Qed.

(** C20: however the lock-free readers interleave with additions and resets,
    a call of [GetStream] never panics: it returns a stream or the error for
    the empty list. *)
Theorem GetStream_never_panics g t r :
  rtc bstep binit g → callers g !! t = Some (Returned r) →
  r = Err StreamsListIsEmpty ∨ ∃ s, r = Ok s.
Proof.
  intros Hg. eapply binv_returned, rtc_invariant; eauto using binv_init, binv_step.
Qed.

(** C21: with [n] streams and no wrap of the ticket counter, [n] consecutive
    calls return every stream exactly once, in order from the position of the
    counter. *)
Theorem GetStream_round_robin (streams : list stream) c :
  0 < len streams < 2 ^ 32 → 0 ≤ c → c + len streams ≤ 2 ^ 32 →
  (GetStreams (length streams) (mkBalancer streams c)).1 =
    Ok <$> (drop (Z.to_nat (c mod len streams)) streams ++
            take (Z.to_nat (c mod len streams)) streams).
Proof.
  intros Hl Hc Hw. destruct (GetStreams_spec (length streams) streams c) as (ss & -> & Hlen & Hi);
    [done..|unfold len in *; lia|lia|]. f_equal. apply rotation; [lia|done..].
Qed.
End balancer.
Arguments BalancerImpl stream : clear implicits.
Arguments bconfig stream : clear implicits.

(** Two callers, of which one loads before a reset and draws its ticket after it. *)
Lemma GetStream_never_panics_witness :
  @Ok BalancerErr Z 7 = Err StreamsListIsEmpty ∨ ∃ s, @Ok BalancerErr Z 7 = Ok s.
Proof.
  apply (GetStream_never_panics
    (mkBConfig (mkBalancer [] 1) false (<[0%nat := Returned (Ok 7)]> ∅) [7]) 0%nat); [|done].
  eapply rtc_l; [apply (step_add _ _ _ 7); reflexivity|].
  eapply rtc_l; [apply (step_load _ _ _ _ 0%nat); reflexivity|]. simpl.
  eapply rtc_l; [apply step_reset_counter|]. eapply rtc_l; [apply step_reset_swap|].
  eapply rtc_l; [eapply (step_ticket _ _ _ _ 0%nat); reflexivity|].
  rewrite insert_insert_eq. apply rtc_refl.
Defined.

Lemma GetStream_round_robin_witness :
  (GetStreams 3 (mkBalancer [10; 20; 30] 4)).1 = Ok <$> [20; 30; 10].
Proof. apply (GetStream_round_robin [10; 20; 30] 4); vm_compute; intuition congruence. Defined.

(** At the wrap of the 32-bit counter the rotation is broken when the number
      of streams is not a power of two: with three streams the first one is
      returned twice in a row. *)
Theorem GetStream_wrap_repeats (s0 s1 s2 : Z) :
  (GetStreams 2 (mkBalancer [s0; s1; s2] (2 ^ 32 - 1))).1 = [Ok s0; Ok s0].
Proof. reflexivity. Qed.
