(* ===== verification/Stream.v ===== *)
(** * QUIC streams as the code uses them, and the frame reader

    A stream (aquic-go) is seen through [io.ReadFull] and [Write].  The input of
    a read cycle is the whole sequence of bytes the peer sends before the stream
    ends, and the error the stream ends with.  [readFrame] is the part of the
    loop body that the two read cycles share ([streamReadCycle] of server.go and
    [readCycle] of transport/quic/client/multiplexer.go); they differ in how a
    read error is reported, which is a parameter. *)

From S2P Require Import Prelude Encoder EncoderFacts.
From Stdlib Require Import Strings.Byte.

(** The errors a stream operation returns, as far as the code tells them apart:
    [errors.As] recognises an idle timeout and an application error. *)
Inductive IOErr : Type :=
| IoEOF
| IoUnexpectedEOF
| IoIdleTimeout
| IoApplication
| IoOther (code : Z).

#[export] Instance IOErr_eq_dec : EqDecision IOErr.
Proof. solve_decision. Defined.

Definition IsTimeoutErr (err : IOErr) : bool :=
  match err with IoIdleTimeout => true | _ => false end.

Definition isApplicationErr (err : IOErr) : bool :=
  match err with IoApplication => true | _ => false end.

(** ** Reading *)

Record instream : Type := mkIn { arriving : list byte; ended : IOErr }.

(** [io.ReadFull(s, buf)] with [len(buf) = n]: all of [n] bytes, or an error;
    an end of file in the middle is [ErrUnexpectedEOF]. *)
Definition ReadFull (s : instream) (n : Z) : outcome IOErr (list byte * instream) :=
  if n <=? len (arriving s) then
    Ok (take (Z.to_nat n) (arriving s), mkIn (drop (Z.to_nat n) (arriving s)) (ended s))
  else if (0 <? len (arriving s)) && bool_decide (ended s = IoEOF) then Err IoUnexpectedEOF
  else Err (ended s).

(** Why a read cycle returns: what it logs. *)
Inductive stop : Type :=
| PeerDisconnected
| ClosedByPeer
| HeaderReadError (e : IOErr)
| InvalidFrameLength (length : Z)
| FlagReadError (e : IOErr)
| PayloadReadError (e : IOErr)
| FlushError (e : IOErr)
| HandlerNotFound (method : list byte)
| ResponseWriteError (e : IOErr)
| AcceptError (e : IOErr).

#[export] Instance stop_eq_dec : EqDecision stop.
Proof. solve_decision. Defined.

(** A read cycle in progress: the stream and the backing array of [reqBuff],
    whose length is its capacity. *)
Record cycle : Type := mkCycle { input : instream; reqBuff : list byte }.

Section frames.
(** How an error while reading the header, the flag and the payload ends the
    cycle. *)
Variables onHeader onFlag onPayload : IOErr → stop.

Definition readFrame (c : cycle) : outcome stop (byte * list byte * cycle) :=
  '(headerLengthBuff, s) ← map_err onHeader (ReadFull (input c) 4);
  length ← be32_read headerLengthBuff;
  if length <? 1 then Err (InvalidFrameLength length) else
  '(flagBuff, s) ← map_err onFlag (ReadFull s 1);
  let payloadLen := i64 length - 1 in
  let buff := if len (reqBuff c) <? payloadLen
              then replicate (Z.to_nat payloadLen) x00 else reqBuff c in
  '(payload, s) ← map_err onPayload (ReadFull s payloadLen);
  buff ← copy_at buff 0 payload;
  data ← slice buff 0 payloadLen;
  flag ← index flagBuff 0;
  Ok (flag, data, mkCycle s buff).

(** ** What a frame read is *)

Lemma ReadFull_app (a rest : list byte) e n : n = len a →
  ReadFull (mkIn (a ++ rest) e) n = Ok (a, mkIn rest e).
Proof.
  intros ->. unfold ReadFull; cbn [arriving ended]. rewrite (proj2 (Z.leb_le _ _)) by len_lia.
  by rewrite to_nat_len, take_app_length, drop_app_length.
Qed.

Lemma ReadFull_inv s n a s' : 0 ≤ n → ReadFull s n = Ok (a, s') →
  arriving s = a ++ arriving s' ∧ len a = n ∧ ended s' = ended s.
Proof.
  intros Hn. unfold ReadFull. repeat case_go; try done. intros [= <- <-]. z_bools. cbn.
  split_and!; [by rewrite take_drop|by apply len_take|done].
Qed.

Lemma ReadFull_safe s n : safe (ReadFull s n).
Proof. unfold ReadFull. by repeat case_go. Qed.

Lemma be32_read_inv {E} (h : list byte) v : len h = 4 → @be32_read E h = Ok v →
  h = be32 v ∧ 0 ≤ v < 2 ^ 32.
Proof.
  intros Hl Hr. destruct h as [|b0 [|b1 [|b2 [|b3 [|]]]]]; try (len_lia || done).
  cbn [be32_read] in Hr. injection Hr as <-.
  pose proof (byte_to_Z_range b0). pose proof (byte_to_Z_range b1).
  pose proof (byte_to_Z_range b2). pose proof (byte_to_Z_range b3).
  rewrite !Z.lor_assoc.
  rewrite (lor_shiftl_add (byte_to_Z b3)) by lia.
  rewrite (lor_shiftl_add _ (byte_to_Z b1)), (lor_shiftl_add _ (byte_to_Z b0)) by lia.
  split; [|lia]. unfold be32. rewrite !Z.shiftr_div_pow2 by lia.
  repeat f_equal; (etransitivity; [symmetry; apply byte_of_to_Z|]); unfold byte_of_Z, u8; do 3 f_equal;
    simpl; Z.to_euclidean_division_equations; lia.
Qed.

(** The buffer of the cycle is reused when it is large enough; what the
    earlier frames left in it does not show. *)
Lemma buffer_reuse {E} (buff payload : list byte) :
  let arr := if len buff <? len payload then replicate (Z.to_nat (len payload)) x00 else buff in
  ∃ buff', @copy_at E _ arr 0 payload = Ok buff' ∧
    @slice E _ buff' 0 (len payload) = Ok payload ∧ len buff ≤ len buff'.
Proof.
  intros arr. assert (len payload ≤ len arr ∧ len buff ≤ len arr) as [Ha Hb].
  { subst arr. unfold len in *. case_go; z_bools; rewrite ?length_replicate; lia. }
  unfold copy_at. rewrite !(proj2 (Z.leb_le _ _)) by len_lia. cbn [andb Z.to_nat Nat.add take app].
  eexists. split; [done|]. rewrite (take_ge payload) by (unfold len in *; lia). split.
  - by apply (slice_app [] payload).
  - len_simpl. unfold len in *. rewrite length_drop. lia.
Qed.

Lemma readFrame_frame flag payload rest e buff : 1 + len payload < 2 ^ 32 →
  ∃ buff', readFrame (mkCycle (mkIn (frame (flag, payload) ++ rest) e) buff) =
    Ok (flag, payload, mkCycle (mkIn rest e) buff') ∧ len buff ≤ len buff'.
Proof.
  intros Hl. pose proof (len_nonneg payload). unfold readFrame, frame. cbn [input reqBuff fst snd].
  rewrite u32_id by lia. rewrite <- !app_assoc.
  rewrite ReadFull_app by done. cbn [map_err]. rewrite bind_Ok.
  rewrite <- (app_nil_r (be32 _)), be32_read_be32, bind_Ok by lia.
  rewrite (proj2 (Z.ltb_ge _ _)) by lia. rewrite ReadFull_app by done. cbn [map_err]. rewrite bind_Ok.
  rewrite i64_id by lia. replace (1 + len payload - 1) with (len payload) by lia.
  rewrite ReadFull_app by done. cbn [map_err]. rewrite bind_Ok.
  destruct (@buffer_reuse stop buff payload) as (buff' & -> & Hs & Hb). rewrite bind_Ok, Hs, bind_Ok.
  eauto.
Qed.

Lemma readFrame_inv c flag payload c' : readFrame c = Ok (flag, payload, c') →
  arriving (input c) = frame (flag, payload) ++ arriving (input c') ∧
  1 + len payload < 2 ^ 32 ∧ ended (input c') = ended (input c).
Proof.
  intros Hr. unfold readFrame in Hr.
  apply bind_Ok_inv in Hr as ([h s1] & Hh%map_err_Ok & Hr). apply ReadFull_inv in Hh as (E1 & Hh & Ee1); [|lia].
  apply bind_Ok_inv in Hr as (l & Hl & Hr). apply be32_read_inv in Hl as [-> Hl]; [|done].
  destruct (l <? 1) eqn:Hl1; [done|]. z_bools.
  apply bind_Ok_inv in Hr as ([f s2] & Hf%map_err_Ok & Hr). apply ReadFull_inv in Hf as (E2 & Hf & Ee2); [|lia].
  rewrite i64_id in Hr by lia.
  apply bind_Ok_inv in Hr as ([p s3] & Hp%map_err_Ok & Hr). apply ReadFull_inv in Hp as (E3 & Hp & Ee3); [|lia].
  destruct (@buffer_reuse stop (reqBuff c) p) as (b' & Hc & Hs & _). rewrite Hp in Hc, Hs.
  rewrite Hc, bind_Ok, Hs, bind_Ok in Hr.
  destruct f as [|f0 [|]]; try (len_lia || done). cbn in Hr. injection Hr as <- <- <-. cbn [input].
  split_and!; [|lia|congruence]. unfold frame; cbn [fst snd]. rewrite u32_id by lia.
  replace (1 + len p) with l by lia. rewrite E1, E2, E3, <- !app_assoc. done.
Qed.

Lemma frame_len fp : len (frame fp) = 5 + len fp.2.
Proof. destruct fp. unfold frame. len_simpl. cbn [fst snd]. lia. Qed.

(** Reading a frame never panics, whatever arrives. *)
Lemma readFrame_safe c : safe (readFrame c).
Proof.
  unfold readFrame. apply bind_safe; [apply map_err_safe, ReadFull_safe|].
  intros [h s1] Hh%map_err_Ok. apply ReadFull_inv in Hh as (_ & Hh & _); [|lia].
  destruct h as [|b0 [|b1 [|b2 [|b3 [|]]]]]; try (len_lia || done).
  destruct (@be32_read stop [b0; b1; b2; b3]) as [l| | |] eqn:Hl; try done. rewrite bind_Ok.
  apply be32_read_inv in Hl as [_ Hl]; [|done].
  case_go; [done|]. z_bools. apply bind_safe; [apply map_err_safe, ReadFull_safe|].
  intros [f s2] Hf%map_err_Ok. apply ReadFull_inv in Hf as (_ & Hf & _); [|lia].
  rewrite i64_id by lia. apply bind_safe; [apply map_err_safe, ReadFull_safe|].
  intros [p s3] Hp%map_err_Ok. apply ReadFull_inv in Hp as (_ & Hp & _); [|lia].
  destruct (@buffer_reuse stop (reqBuff c) p) as (b' & Hc & Hs & _). rewrite Hp in Hc, Hs.
  rewrite Hc, bind_Ok, Hs, bind_Ok. destruct f as [|f0 f]; [len_lia|done].
Qed.

(** C17: the framing is unambiguous: a read cycle takes a frame with a given
    flag and payload from its stream exactly when the bytes that arrive begin
    with that frame, and then leaves the bytes after it; the reused buffer of the
    cycle, whatever it holds, has no influence. *)
Theorem readFrame_iff c flag payload rest :
  (∃ c', readFrame c = Ok (flag, payload, c') ∧ arriving (input c') = rest) ↔
  arriving (input c) = frame (flag, payload) ++ rest ∧ 1 + len payload < 2 ^ 32.
Proof.
  split.
  - intros (c' & (Ha & Hl & _)%readFrame_inv & <-). done.
  - destruct c as [[a e] buff]. cbn [input arriving]. intros [-> Hl].
    destruct (readFrame_frame flag payload rest e buff Hl) as (buff' & -> & _). eauto.
Qed.

(** Whether and why reading fails does not depend on the buffer. *)
Lemma readFrame_Err_any i buff buff' st :
  readFrame (mkCycle i buff) = Err st → readFrame (mkCycle i buff') = Err st.
Proof.
  unfold readFrame. cbn [input reqBuff]. destruct (map_err onHeader _) as [[h s1]| | |]; [|done..].
  rewrite !bind_Ok. destruct (be32_read h) as [l| | |] eqn:Hl; [|done..]. rewrite !bind_Ok.
  case_go; [done|]. destruct (map_err onFlag _) as [[f s2]| | |]; [|done..]. rewrite !bind_Ok.
  destruct (map_err onPayload _) as [[p s3]| | |] eqn:Hp; [|done..]. rewrite !bind_Ok.
  apply map_err_Ok in Hp. destruct (Z.lt_ge_cases (i64 l - 1) 0) as [Hneg|Hpos].
  - unfold slice. rewrite (proj2 (Z.leb_gt 0 (i64 l - 1))) by done. cbn [andb].
    destruct (copy_at _ 0 p) as [b| | |] eqn:Hc; [done| |done..].
    unfold copy_at in Hc. by destruct (_ && _) in Hc.
  - apply ReadFull_inv in Hp as (_ & Hp & _); [|done]. rewrite <- Hp.
    destruct (@buffer_reuse stop buff p) as (b1 & -> & Hs1 & _).
    destruct (@buffer_reuse stop buff' p) as (b2 & -> & Hs2 & _).
    rewrite !bind_Ok, Hs1, Hs2, !bind_Ok. by destruct (index f 0).
Qed.

(** Every input is a sequence of frames followed by bytes that end the cycle. *)
Lemma split_frames bs e : ∃ fps tail st, bs = mjoin (frame <$> fps) ++ tail ∧
  Forall (λ fp, 1 + len fp.2 < 2 ^ 32) fps ∧ (5 * length fps ≤ length bs)%nat ∧
  ∀ buff, readFrame (mkCycle (mkIn tail e) buff) = Err st.
Proof.
  induction bs as [bs IH] using (induction_ltof1 _ length). unfold ltof in IH.
  destruct (readFrame (mkCycle (mkIn bs e) [])) as [[[flag payload] c']|st| |] eqn:Hr.
  - apply readFrame_inv in Hr as (Ha & Hl & He). cbn [input arriving ended] in Ha, He.
    pose proof (frame_len (flag, payload)) as Hfl. unfold len in Hfl. cbn [snd] in Hfl.
    assert (length bs = length (frame (flag, payload)) + length (arriving (input c')))%nat as Hb
      by (rewrite Ha; apply length_app).
    destruct (IH (arriving (input c'))) as (fps & tail & st & E & Hf & Hn & Ht); [lia|].
    exists ((flag, payload) :: fps), tail, st. split_and!; [|by constructor|simpl; lia|done].
    rewrite mjoin_fmap_cons, <- app_assoc. congruence.
  - exists [], bs, st. split_and!; [done|constructor|simpl; lia|]. intros. by eapply readFrame_Err_any.
  - pose proof (readFrame_safe (mkCycle (mkIn bs e) [])). by rewrite Hr in H.
  - pose proof (readFrame_safe (mkCycle (mkIn bs e) [])). by rewrite Hr in H.
Qed.

(** At the end of the stream the cycle returns. *)
Lemma readFrame_end e buff : readFrame (mkCycle (mkIn [] e) buff) = Err (onHeader e).
Proof. done. Qed.
End frames.

(** ** Writing *)

(** The result of a [Write]: everything, or an error after some bytes. *)
Inductive wres : Type :=
| Written
| Failed (n : nat) (e : IOErr).

Definition sent (r : wres) (data : list byte) : list byte :=
  match r with Written => data | Failed n _ => take n data end.

Definition werr (r : wres) : option IOErr :=
  match r with Written => None | Failed _ e => Some e end.

Lemma sent_nil r : sent r [] = [].
Proof. destruct r as [|n e]; [done|]. apply take_nil. Qed.
