(* ===== verification/Ctx.v ===== *)
(** * Handler contexts, locals and the message pools

    Models ctx.go (the locals, the contexts handed to the handlers and to the
    callers of the client, and their pools) and the message pools of
    transport/quic/client/multiplexer.go.  A context holds pointers to a request
    and a response that the server owns; the record holds their values, and the
    server takes the response back from the context when the handler returns.
    Values are what the slices of the messages hold as long as no two messages
    share an array; Memory.v has the same operations on slices.  A
    handler [func(Ctx)] or [func(EventCtx)] is a program over the operations of the
    interface it is given ([prog]). *)

From S2P Require Import Prelude Wire Schema SchemaFacts.
From Stdlib Require Import Strings.Byte.

(** The ways a handler or a method of a context panics. *)
Abbreviation go A := (outcome Empty_set A).

(** ** bytesToString, stringToBytes

    Both convert without a copy and treat the empty sequence apart. *)

Definition bytesToString (b : list byte) : gostring := if len b =? 0 then [] else b.
Definition stringToBytes (s : gostring) : list byte := if len s =? 0 then [] else s.

Lemma bytesToString_id b : bytesToString b = b.
Proof. unfold bytesToString. case_go; [|done]. z_bools. symmetry. by apply len_0_nil. Qed.
Lemma stringToBytes_id s : stringToBytes s = s.
Proof. unfold stringToBytes. case_go; [|done]. z_bools. symmetry. by apply len_0_nil. Qed.

Section ctx.
(** The values of type [any] a handler keeps in the locals; a missing one is nil. *)
Context {any : Type}.

(** ** Locals *)

Record LocalsImpl : Type := mkLocals {
  anyes : gmap gostring any;
  strings : gmap gostring gostring
}.

Definition NewLocals : LocalsImpl := mkLocals ∅ ∅.

Definition SetString (key value : gostring) (l : LocalsImpl) : LocalsImpl :=
  mkLocals (anyes l) (<[key := value]> (strings l)).
Definition GetString (key : gostring) (l : LocalsImpl) : gostring :=
  default [] (strings l !! key).
Definition Locals_Get (key : gostring) (l : LocalsImpl) : option any := anyes l !! key.
Definition Locals_Set (key : gostring) (value : any) (l : LocalsImpl) : LocalsImpl :=
  mkLocals (<[key := value]> (anyes l)) (strings l).
(** [clear] of both maps. *)
Definition Locals_Reset (l : LocalsImpl) : LocalsImpl := mkLocals ∅ ∅.

(** ** [CtxImpl] *)

Record CtxImpl : Type := mkCtx {
  ctx_req : option Request;
  ctx_resp : option Response;
  ctx_locals : option LocalsImpl
}.

(** [ctxPool.New] *)
Definition new_Ctx : CtxImpl := mkCtx None None None.

(** [k] is the choice of [ctxPool.Get]. *)
Definition NewCtx (req : option Request) (resp : option Response) (k : nat) (pool : list CtxImpl) :
    CtxImpl * list CtxImpl :=
  let '(ctx, pool) := pool_get new_Ctx k pool in
  (mkCtx req resp (Some (default NewLocals (ctx_locals ctx))), pool).

(** [ctx.locals.Reset()] panics on a nil [Locals]. *)
Definition ReleaseCtx (ctx : CtxImpl) (pool : list CtxImpl) : go (list CtxImpl) :=
  match ctx_locals ctx with
  | Some l => Ok (pool_put (mkCtx None None (Some (Locals_Reset l))) pool)
  | None => Panic
  end.

(** [c.req.f] and [c.resp.f = v]: a nil pointer panics. *)
Definition deref {A} (p : option A) : go A :=
  match p with Some a => Ok a | None => Panic end.

Definition Ctx_Body (c : CtxImpl) : go (list byte) := req ← deref (ctx_req c); Ok (req_Body req).
Definition Ctx_Headers (c : CtxImpl) : go (list (list byte)) := req ← deref (ctx_req c); Ok (req_Headers req).
Definition Ctx_Method (c : CtxImpl) : go (list byte) := req ← deref (ctx_req c); Ok (req_Method req).

(** The loop of [GetHeader] from index [i]; one round per pair. *)
Fixpoint GetHeader_loop (fuel : nat) (headers : list (list byte)) (i : Z) (bytesKey : list byte)
    (defaultValue : gostring) : go gostring :=
  if i <? len headers then
    match fuel with
    | O => NoFuel
    | S fuel =>
        h ← index headers i;
        if bool_decide (h = bytesKey) then
          v ← index headers (i + 1);
          Ok (bytesToString v)
        else GetHeader_loop fuel headers (i + 2) bytesKey defaultValue
    end
  else Ok defaultValue.

Definition GetHeader (key defaultValue : gostring) (c : CtxImpl) : go gostring :=
  req ← deref (ctx_req c);
  GetHeader_loop (length (req_Headers req)) (req_Headers req) 0 (stringToBytes key) defaultValue.

Definition upd_resp (f : Response → Response) (c : CtxImpl) : go CtxImpl :=
  resp ← deref (ctx_resp c);
  Ok (mkCtx (ctx_req c) (Some (f resp)) (ctx_locals c)).

Definition SetBody (buff : list byte) : CtxImpl → go CtxImpl := upd_resp (set_resp_Body buff).
Definition SetHeaders (buff : list (list byte)) : CtxImpl → go CtxImpl := upd_resp (set_resp_Headers buff).
Definition SetCode (code : Z) : CtxImpl → go CtxImpl := upd_resp (set_resp_Code (u32 code)).
Definition SetHeader (key value : gostring) : CtxImpl → go CtxImpl :=
  upd_resp (λ r, set_resp_Headers (resp_Headers r ++ [stringToBytes key; stringToBytes value]) r).

Definition upd_locals (f : LocalsImpl → LocalsImpl) (c : CtxImpl) : go CtxImpl :=
  l ← deref (ctx_locals c);
  Ok (mkCtx (ctx_req c) (ctx_resp c) (Some (f l))).

(** ** Handlers

    [prog true] is a [func(Ctx)], [prog false] a [func(EventCtx)], which has no
    setters of the response.  A handler may do anything between the calls; what
    it does next depends on what the calls return. *)
Inductive prog : bool → Type :=
| Return {r} : prog r
| Crash {r} : prog r
| CallBody {r} (k : list byte → prog r) : prog r
| CallHeaders {r} (k : list (list byte) → prog r) : prog r
| CallMethod {r} (k : list byte → prog r) : prog r
| CallGetHeader {r} (key defaultValue : gostring) (k : gostring → prog r) : prog r
| CallLocalsSetString {r} (key value : gostring) (k : prog r) : prog r
| CallLocalsGetString {r} (key : gostring) (k : gostring → prog r) : prog r
| CallLocalsSet {r} (key : gostring) (value : any) (k : prog r) : prog r
| CallLocalsGet {r} (key : gostring) (k : option any → prog r) : prog r
| CallLocalsReset {r} (k : prog r) : prog r
| CallSetBody (buff : list byte) (k : prog true) : prog true
| CallSetHeaders (buff : list (list byte)) (k : prog true) : prog true
| CallSetHeader (key value : gostring) (k : prog true) : prog true
| CallSetCode (code : Z) (k : prog true) : prog true.

(** [handler(ctx)] *)
Fixpoint run {r} (p : prog r) (c : CtxImpl) : go CtxImpl :=
  match p with
  | Return => Ok c
  | Crash => Panic
  | CallBody k => b ← Ctx_Body c; run (k b) c
  | CallHeaders k => h ← Ctx_Headers c; run (k h) c
  | CallMethod k => m ← Ctx_Method c; run (k m) c
  | CallGetHeader key d k => v ← GetHeader key d c; run (k v) c
  | CallLocalsSetString key v k => c ← upd_locals (SetString key v) c; run k c
  | CallLocalsGetString key k => l ← deref (ctx_locals c); run (k (GetString key l)) c
  | CallLocalsSet key v k => c ← upd_locals (Locals_Set key v) c; run k c
  | CallLocalsGet key k => l ← deref (ctx_locals c); run (k (Locals_Get key l)) c
  | CallLocalsReset k => c ← upd_locals Locals_Reset c; run k c
  | CallSetBody b k => c ← SetBody b c; run k c
  | CallSetHeaders b k => c ← SetHeaders b c; run k c
  | CallSetHeader key v k => c ← SetHeader key v c; run k c
  | CallSetCode code k => c ← SetCode code c; run k c
  end.

(** ** [RequestImpl], the request handed to a caller of the client *)

Record RequestImpl : Type := mkRequestImpl {
  ri_req : option Request;
  ri_locals : option LocalsImpl
}.

Definition new_RequestImpl : RequestImpl := mkRequestImpl None None.

Definition NewRequest (req : option Request) (k : nat) (pool : list RequestImpl) :
    RequestImpl * list RequestImpl :=
  let '(ctx, pool) := pool_get new_RequestImpl k pool in
  (mkRequestImpl req (Some (default NewLocals (ri_locals ctx))), pool).

Definition ReleaseRequestImpl (ctx : RequestImpl) (pool : list RequestImpl) : go (list RequestImpl) :=
  match ri_locals ctx with
  | Some l => Ok (pool_put (mkRequestImpl None (Some (Locals_Reset l))) pool)
  | None => Panic
  end.

Definition ri_upd (f : Request → Request) (c : RequestImpl) : go RequestImpl :=
  req ← deref (ri_req c);
  Ok (mkRequestImpl (Some (f req)) (ri_locals c)).

Definition ri_SetBody (b : list byte) : RequestImpl → go RequestImpl := ri_upd (set_req_Body b).
Definition ri_SetHeaders (h : list (list byte)) : RequestImpl → go RequestImpl := ri_upd (set_req_Headers h).
Definition ri_SetMethod (m : list byte) : RequestImpl → go RequestImpl := ri_upd (set_req_Method m).
Definition ri_Body (c : RequestImpl) : go (list byte) := req ← deref (ri_req c); Ok (req_Body req).
Definition ri_Headers (c : RequestImpl) : go (list (list byte)) := req ← deref (ri_req c); Ok (req_Headers req).
Definition ri_Method (c : RequestImpl) : go (list byte) := req ← deref (ri_req c); Ok (req_Method req).
Definition ri_RequestId (c : RequestImpl) : go Z := req ← deref (ri_req c); Ok (req_RequestId req).
Definition ri_Req (c : RequestImpl) : option Request := ri_req c.

(** ** [ResponseImpl], the response handed to a caller of the client *)

Record ResponseImpl : Type := mkResponseImpl { rs_resp : option Response }.

Definition new_ResponseImpl : ResponseImpl := mkResponseImpl None.

Definition NewResponse (resp : option Response) (k : nat) (pool : list ResponseImpl) :
    ResponseImpl * list ResponseImpl :=
  let '(ctx, pool) := pool_get new_ResponseImpl k pool in
  (mkResponseImpl resp, pool).

Definition ReleaseResponseImpl (ctx : ResponseImpl) (pool : list ResponseImpl) : list ResponseImpl :=
  pool_put (mkResponseImpl None) pool.

Definition rs_Body (c : ResponseImpl) : go (list byte) := r ← deref (rs_resp c); Ok (resp_Body r).
Definition rs_Headers (c : ResponseImpl) : go (list (list byte)) := r ← deref (rs_resp c); Ok (resp_Headers r).
Definition rs_Code (c : ResponseImpl) : go Z := r ← deref (rs_resp c); Ok (resp_Code r).
Definition rs_RequestId (c : ResponseImpl) : go Z := r ← deref (rs_resp c); Ok (resp_RequestId r).
Definition rs_Resp (c : ResponseImpl) : option Response := rs_resp c.
End ctx.
Arguments LocalsImpl any : clear implicits.
Arguments CtxImpl any : clear implicits.
Arguments prog any r : clear implicits.
Arguments RequestImpl any : clear implicits.

(** ** The message pools of transport/quic/client/multiplexer.go

    The released message keeps the capacity of its slices and nothing else; the
    released value is returned too, because the caller still holds the pointer. *)

Definition GetRequest (k : nat) (requests : list Request) : Request * list Request :=
  pool_get (mkRequest 0 [] [] [] []) k requests.

Definition GetResponse (k : nat) (responses : list Response) : Response * list Response :=
  pool_get (mkResponse 0 0 [] [] [] []) k responses.

Definition ReleaseRequest (req : Request) (requests : list Request) : Request * list Request :=
  let headers := take 0 (req_Headers req) in
  let method := take 0 (req_Method req) in
  let body := take 0 (req_Body req) in
  let req := Request_Reset req in
  let req := set_req_Body body (set_req_Method method (set_req_Headers headers req)) in
  (req, pool_put req requests).

Definition ReleaseResponse (resp : Response) (responses : list Response) : Response * list Response :=
  let headers := take 0 (resp_Headers resp) in
  let method := take 0 (resp_Method resp) in
  let body := take 0 (resp_Body resp) in
  let resp := Response_Reset resp in
  let resp := set_resp_Body body (set_resp_Method method (set_resp_Headers headers resp)) in
  (resp, pool_put resp responses).

(** ** Facts *)

Definition empty_Request : Request := mkRequest 0 [] [] [] [].
Definition empty_Response : Response := mkResponse 0 0 [] [] [] [].

Lemma GetRequest_clean k pool : Forall (eq empty_Request) pool →
  (GetRequest k pool).1 = empty_Request ∧ Forall (eq empty_Request) (GetRequest k pool).2.
Proof. intros Hp. destruct (pool_get_Forall (eq empty_Request) empty_Request k pool) as [? ?]; auto. Qed.

Lemma GetResponse_clean k pool : Forall (eq empty_Response) pool →
  (GetResponse k pool).1 = empty_Response ∧ Forall (eq empty_Response) (GetResponse k pool).2.
Proof. intros Hp. destruct (pool_get_Forall (eq empty_Response) empty_Response k pool) as [? ?]; auto. Qed.

Lemma ReleaseRequest_clean req pool : Forall (eq empty_Request) pool →
  Forall (eq empty_Request) (ReleaseRequest req pool).2.
Proof. by constructor. Qed.

Lemma ReleaseResponse_clean resp pool : Forall (eq empty_Response) pool →
  Forall (eq empty_Response) (ReleaseResponse resp pool).2.
Proof. by constructor. Qed.

#[export] Hint Resolve ReleaseRequest_clean ReleaseResponse_clean : go.

(** Decoding into an empty message. *)
Section decode_empty.
Context `{Protohelpers, !ProtohelpersOk}.

Lemma decode_Request m : Request_wf m → unknown_ok Request_known (req_unknownFields m) →
  Request_UnmarshalVT empty_Request (Request_wire m) = Ok m.
Proof. intros. rewrite Request_unmarshal_wire by done. f_equal. apply (Request_merge_empty m m). Qed.

Lemma decode_Response m : Response_wf m → unknown_ok Response_known (resp_unknownFields m) →
  Response_UnmarshalVT empty_Response (Response_wire m) = Ok m.
Proof. intros. rewrite Response_unmarshal_wire by done. f_equal. apply (Response_merge_empty m m). Qed.
End decode_empty.

Section facts.
Context {any : Type}.
Implicit Types c : CtxImpl any.

(** What every context in the pool is: no message, and locals that are absent
    or empty. *)
Record ctx_clean c : Prop := {
  clean_req : ctx_req c = None;
  clean_resp : ctx_resp c = None;
  clean_locals : default NewLocals (ctx_locals c) = NewLocals
}.

Lemma NewCtx_clean req resp k pool : Forall ctx_clean pool →
  (NewCtx req resp k pool).1 = mkCtx req resp (Some NewLocals) ∧
  Forall ctx_clean (NewCtx req resp k pool).2.
Proof.
  intros Hp. destruct (pool_get_Forall ctx_clean new_Ctx k pool) as [Hc Hf]; [done..|].
  unfold NewCtx. destruct (pool_get new_Ctx k pool) as [c p]. simpl in *.
  split; [|done]. by rewrite (clean_locals _ Hc).
Qed.

Lemma ReleaseCtx_clean c pool : is_Some (ctx_locals c) → Forall ctx_clean pool →
  ∃ pool', ReleaseCtx c pool = Ok pool' ∧ Forall ctx_clean pool'.
Proof.
  intros [l Hl] Hp. unfold ReleaseCtx. rewrite Hl. eexists. split; [done|]. by constructor.
Qed.

(** ** What a handler can change *)

(** The request, the presence of a response and its id, method and unknown
    fields; the locals stay allocated. *)
Record ctx_kept (c c' : CtxImpl any) : Prop := {
  kept_req : ctx_req c' = ctx_req c;
  kept_locals : is_Some (ctx_locals c) → is_Some (ctx_locals c');
  kept_none : ctx_resp c = None → ctx_resp c' = None;
  kept_resp r : ctx_resp c = Some r → ∃ r', ctx_resp c' = Some r' ∧
    resp_RequestId r' = resp_RequestId r ∧ resp_Method r' = resp_Method r ∧
    resp_unknownFields r' = resp_unknownFields r ∧
    (0 ≤ resp_Code r < 2 ^ 32 → 0 ≤ resp_Code r' < 2 ^ 32)
}.

#[export] Instance ctx_kept_preorder : PreOrder ctx_kept.
Proof.
  split.
  - intros c. split; eauto 10.
  - intros c1 c2 c3 [Hq1 Hl1 Hn1 Hr1] [Hq2 Hl2 Hn2 Hr2]. split; [congruence|auto|auto|].
    intros r Hr. destruct (Hr1 r Hr) as (r2 & Er2 & ?&?&?&?). destruct (Hr2 r2 Er2) as (r3 & Er3 & ?&?&?&?).
    exists r3. split_and!; [done|congruence..|auto].
Qed.

Lemma upd_resp_kept f c c' :
  (∀ r, resp_RequestId (f r) = resp_RequestId r ∧ resp_Method (f r) = resp_Method r ∧
        resp_unknownFields (f r) = resp_unknownFields r ∧
        (0 ≤ resp_Code r < 2 ^ 32 → 0 ≤ resp_Code (f r) < 2 ^ 32)) →
  upd_resp f c = Ok c' → ctx_kept c c'.
Proof.
  intros Hf H. unfold upd_resp in H. destruct c as [q [r|] l]; [|done]. cbn in H. injection H as <-.
  split; cbn; [done|done|done|]. intros r0 [= <-]. eexists; split; [done|]. apply Hf.
Qed.

Lemma upd_locals_kept f c c' : upd_locals f c = Ok c' → ctx_kept c c'.
Proof.
  unfold upd_locals. destruct c as [q r [l|]]; [|done]. cbn. intros [= <-]. split; cbn; eauto 10.
Qed.

Lemma run_kept {r} (p : prog any r) c c' : run p c = Ok c' → ctx_kept c c'.
Proof.
  revert c. induction p; intros c H'; cbn [run] in H'; simpl in H'; try done;
    try (injection H' as <-; reflexivity);
    apply bind_Ok_inv in H' as (? & E & H');
    try (by eapply H);
    (etransitivity; [|by eapply IHp]);
    try (by eapply upd_locals_kept); (eapply upd_resp_kept; [|exact E]);
    intros; cbn; split_and!; auto using u32_range.
Qed.
End facts.

(** ** Headers as key-value pairs *)

(** The reference: the headers are pairs, the first pair with the key wins; a
    last header without a value is a key that must not be asked for. *)
Fixpoint find_header (hs : list (list byte)) (key : list byte) (defaultValue : gostring) : go gostring :=
  match hs with
  | k :: v :: hs => if bool_decide (k = key) then Ok v else find_header hs key defaultValue
  | [k] => if bool_decide (k = key) then Panic else Ok defaultValue
  | [] => Ok defaultValue
  end.

Lemma list_two_ind {A} (P : list A → Prop) :
  P [] → (∀ x, P [x]) → (∀ x y l, P l → P (x :: y :: l)) → ∀ l, P l.
Proof.
  intros H0 H1 H2 l. enough (P l ∧ ∀ x, P (x :: l)) by tauto.
  induction l as [|x l [IH1 IH2]]; auto.
Qed.

Lemma GetHeader_loop_find key d post pre fuel : (length post ≤ fuel)%nat →
  GetHeader_loop fuel (pre ++ post) (len pre) key d = find_header post key d.
Proof.
  revert pre fuel. induction post as [|k|k v post IH] using list_two_ind; intros pre fuel Hf.
  - destruct fuel; cbn [GetHeader_loop]; by rewrite (proj2 (Z.ltb_ge _ _)) by len_lia.
  - destruct fuel as [|fuel]; [simpl in Hf; lia|]. cbn [GetHeader_loop find_header].
    rewrite (proj2 (Z.ltb_lt _ _)) by len_lia. rewrite index_app, bind_Ok.
    case_bool_decide.
    + unfold index. rewrite (proj2 (Z.ltb_ge _ _)) by len_lia.
      by rewrite (lookup_ge_None_2 (pre ++ [k])) by (rewrite length_app; unfold len; simpl; lia).
    + destruct fuel; cbn [GetHeader_loop]; by rewrite (proj2 (Z.ltb_ge _ _)) by len_lia.
  - destruct fuel as [|fuel]; [simpl in Hf; lia|]. cbn [GetHeader_loop find_header].
    rewrite (proj2 (Z.ltb_lt _ _)) by len_lia. rewrite index_app, bind_Ok.
    replace (len pre + 1) with (len (pre ++ [k])) by len_lia.
    replace (len pre + 2) with (len (pre ++ [k; v])) by len_lia.
    case_bool_decide.
    + replace (pre ++ k :: v :: post) with ((pre ++ [k]) ++ v :: post) by (by rewrite <- app_assoc).
      by rewrite index_app, bind_Ok, bytesToString_id.
    + replace (pre ++ k :: v :: post) with ((pre ++ [k; v]) ++ post) by (by rewrite <- app_assoc).
      apply IH. simpl in Hf. lia.
Qed.

Lemma GetHeader_find {any} key d (c : CtxImpl any) req : ctx_req c = Some req →
  GetHeader key d c = find_header (req_Headers req) key d.
Proof.
  intros Hr. unfold GetHeader. rewrite Hr. cbn [deref]. rewrite bind_Ok, stringToBytes_id.
  by apply (GetHeader_loop_find key d _ []).
Qed.

Lemma find_header_even hs key d : Nat.Even (length hs) → safe (find_header hs key d).
Proof.
  induction hs as [|k|k v hs IH] using list_two_ind; cbn [find_header]; intros He; [done| |].
  - by apply Nat.even_spec in He.
  - case_bool_decide; [done|]. apply IH. apply Nat.even_spec. by apply Nat.even_spec in He.
Qed.

(** C31: [GetHeader] finds the value of the first pair with the key, or the
    default, and with an even number of headers it never panics. *)
Theorem GetHeader_pairs {any} key d (c : CtxImpl any) req : ctx_req c = Some req →
  GetHeader key d c = find_header (req_Headers req) key d ∧
  (Nat.Even (length (req_Headers req)) → safe (GetHeader key d c)).
Proof.
  intros Hr. rewrite (GetHeader_find _ _ _ _ Hr). split; [done|]. apply find_header_even.
Qed.

Lemma GetHeader_pairs_witness :
  GetHeader [x6b] [] (mkCtx (any:=unit) (Some sample_request) None None) = Ok [x76].
Proof.
  etransitivity; [apply (proj1 (GetHeader_pairs (any:=unit) [x6b] []
    (mkCtx (Some sample_request) None None) sample_request eq_refl))|]. reflexivity.
Defined.

(** C30: the context pool leaks nothing from one request to the next: whatever a
    handler does with its context and its locals, the pool it is released to
    only hands out contexts with exactly the given messages and empty locals. *)
Theorem ctx_pool_no_leak {any r} (p : prog any r) req resp k (pool : list (CtxImpl any)) c' :
  Forall ctx_clean pool → run p (NewCtx req resp k pool).1 = Ok c' →
  ∃ pool', ReleaseCtx c' (NewCtx req resp k pool).2 = Ok pool' ∧ Forall ctx_clean pool' ∧
    ∀ req' resp' k', (NewCtx req' resp' k' pool').1 = mkCtx req' resp' (Some NewLocals).
Proof.
  intros Hp Hr. destruct (NewCtx_clean req resp k pool Hp) as [Hc Hp'].
  destruct (ReleaseCtx_clean c' _ (kept_locals _ _ (run_kept _ _ _ Hr) ltac:(by rewrite Hc)) Hp')
    as (pool' & Hpool & Hclean).
  exists pool'. split_and!; [done..|]. intros. by apply NewCtx_clean.
Qed.

(** A handler that leaves a secret in the locals. *)
Definition leaving_handler : prog unit false := CallLocalsSetString [x6b] [x73] Return.

Lemma ctx_pool_no_leak_witness :
  ∃ pool', ReleaseCtx (mkCtx (any:=unit) (Some sample_request) None
             (Some (mkLocals ∅ {[ [x6b] := [x73] ]}))) [] = Ok pool' ∧ Forall ctx_clean pool' ∧
    ∀ req' resp' k', (NewCtx req' resp' k' pool').1 = mkCtx req' resp' (Some NewLocals).
Proof.
  apply (ctx_pool_no_leak leaving_handler (Some sample_request) None 0 []); [constructor|reflexivity].
Defined.
