(* ===== verification/Alias.v ===== *)
(** * Shared memory between pooled messages

    A released request keeps the backing array of its body (ReleaseRequest of
    transport/quic/client/multiplexer.go), the decoder appends into that array
    (UnmarshalVT of schema_vtproto.pb.go), and a response may share it
    (SetBody(c.Body()) in ctx.go).  The other files treat messages as values; this
    one models the arrays, for the bodies, and the stream cycles of a server
    (streamReadCycle of server.go) that run concurrently and share the pool. *)

From S2P Require Import Prelude.
From Stdlib Require Import Strings.Byte.

(** ** Slices over a heap of arrays *)

Abbreviation loc := nat.
Abbreviation heap := (gmap loc (list byte)).

(** A slice starts at the beginning of its array, whose length is its capacity;
    [None] is the nil slice. *)
Record goslice : Type := mkSlice { sl_arr : option loc; sl_len : nat }.

Definition nil_slice : goslice := mkSlice None 0.

Definition array (h : heap) (s : goslice) : list byte :=
  match sl_arr s with Some l => default [] (h !! l) | None => [] end.

(** The bytes of a slice. *)
Definition contents (h : heap) (s : goslice) : list byte := take (sl_len s) (array h s).

(** [s[:0]] *)
Definition cut (s : goslice) : goslice := mkSlice (sl_arr s) 0.

(** [append(s, data...)]: in place when the capacity is enough, else into a new
    array at [fresh] with [extra] bytes to spare. *)
Definition goappend (fresh : loc) (extra : nat) (s : goslice) (data : list byte) (h : heap) : heap * goslice :=
  let arr := array h s in
  let n := (sl_len s + length data)%nat in
  if (length data =? 0)%nat then (h, s)
  else if (n <=? length arr)%nat then
    match sl_arr s with
    | Some l => (<[l := take (sl_len s) arr ++ data ++ drop n arr]> h, mkSlice (Some l) n)
    | None => (h, s)
    end
  else (<[fresh := take (sl_len s) arr ++ data ++ replicate extra x00]> h, mkSlice (Some fresh) n).

(** [m.Body = append(m.Body[:0], dAtA[iNdEx:postIndex]...)] *)
Definition decodeBody (fresh : loc) (extra : nat) (body : goslice) (data : list byte) (h : heap) : heap * goslice :=
  goappend fresh extra (cut body) data h.

(** [body := req.Body[:0]; req.Reset(); req.Body = body; requests.Put(req)] *)
Definition releaseBody (body : goslice) (pool : list goslice) : list goslice := pool_put (cut body) pool.

(** ** Stream cycles *)

(** A handler that sets the body of its response: to the body of the request
    itself, or to a slice of its own computed from it. *)
Inductive body_handler : Type :=
| Echo
| Compute (f : list byte → list byte).

Definition answer (h : body_handler) (b : list byte) : list byte :=
  match h with Echo => b | Compute f => f b end.

(** The handling of one request whose frame carries the body [b]. *)
Inductive apc : Type :=
| Taken (b : list byte) (req : goslice)                 (* after [GetRequest] *)
| Decoded (b : list byte) (req : goslice)               (* after [UnmarshalVT] *)
| Handled (b : list byte) (req resp : goslice)          (* after [handler(ctx)] *)
| Released (b : list byte) (resp : goslice)             (* after [ReleaseRequest] *)
| Replied (b sent : list byte).                         (* after [EncodeResponse] *)

Record aconfig : Type := mkA {
  a_heap : heap;
  a_next : loc;
  a_pool : list goslice;
  a_streams : gmap nat apc
}.

Definition ainit : aconfig := mkA ∅ 0 [] ∅.

Inductive astep (hd : body_handler) : aconfig → aconfig → Prop :=
| a_get h n pool ts t b k : ts !! t = None →
    astep hd (mkA h n pool ts)
      (mkA h n (pool_get nil_slice k pool).2 (<[t := Taken b (pool_get nil_slice k pool).1]> ts))
| a_decode h n pool ts t b req extra : ts !! t = Some (Taken b req) →
    astep hd (mkA h n pool ts)
      (mkA (decodeBody n extra req b h).1 (S n) pool (<[t := Decoded b (decodeBody n extra req b h).2]> ts))
| a_echo h n pool ts t b req : hd = Echo → ts !! t = Some (Decoded b req) →
    astep hd (mkA h n pool ts) (mkA h n pool (<[t := Handled b req req]> ts))
| a_compute h n pool ts t b req f : hd = Compute f → ts !! t = Some (Decoded b req) →
    astep hd (mkA h n pool ts)
      (mkA (<[n := f (contents h req)]> h) (S n) pool
         (<[t := Handled b req (mkSlice (Some n) (length (f (contents h req))))]> ts))
| a_release h n pool ts t b req resp : ts !! t = Some (Handled b req resp) →
    astep hd (mkA h n pool ts) (mkA h n (releaseBody req pool) (<[t := Released b resp]> ts))
| a_reply h n pool ts t b resp : ts !! t = Some (Released b resp) →
    astep hd (mkA h n pool ts) (mkA h n pool (<[t := Replied b (contents h resp)]> ts)).

(** ** A response that shares nothing *)

(** The arrays a stream cycle will still read or write. *)
Definition uses (p : apc) : list loc :=
  match p with
  | Taken _ s | Decoded _ s | Released _ s => option_list (sl_arr s)
  | Handled _ s r => option_list (sl_arr s) ++ option_list (sl_arr r)
  | Replied _ _ => []
  end.

(** What it will find there. *)
Definition sound (f : list byte → list byte) (h : heap) (p : apc) : Prop :=
  match p with
  | Taken _ _ => True
  | Decoded b s => contents h s = b
  | Handled b _ r | Released b r => contents h r = f b
  | Replied b sent => sent = f b
  end.

(** The arrays of the released requests. *)
Definition pool_arrs (pool : list goslice) : list loc := omap sl_arr pool.
#[local] Arguments pool_arrs : simpl never.
#[local] Arguments releaseBody : simpl never.

Lemma releaseBody_arrs req pool : pool_arrs (releaseBody req pool) = option_list (sl_arr req) ++ pool_arrs pool.
Proof. unfold pool_arrs, releaseBody, pool_put. cbn. by destruct (sl_arr req). Qed.

(** Every array has at most one owner: a stream cycle, in one place, or a
    released request. *)
Record ainv (f : list byte → list byte) (g : aconfig) : Prop := {
  ai_lt t p l : a_streams g !! t = Some p → l ∈ uses p → (l < a_next g)%nat;
  ai_pool_lt l : l ∈ pool_arrs (a_pool g) → (l < a_next g)%nat;
  ai_once t p : a_streams g !! t = Some p → NoDup (uses p ++ pool_arrs (a_pool g));
  ai_pool_once : NoDup (pool_arrs (a_pool g));
  ai_apart t t' p p' l : a_streams g !! t = Some p → a_streams g !! t' = Some p' →
    l ∈ uses p → l ∈ uses p' → t = t';
  ai_sound t p : a_streams g !! t = Some p → sound f (a_heap g) p
}.

Lemma ainv_init f : ainv f ainit.
Proof. split; cbn; intros; simplify_map_eq; try set_solver. constructor. Qed.

Lemma contents_frame h h' s : (∀ l, sl_arr s = Some l → h' !! l = h !! l) → contents h' s = contents h s.
Proof. intros Hl. unfold contents, array. destruct (sl_arr s) as [l|]; [by rewrite Hl|done]. Qed.

Lemma sound_frame f h h' p : (∀ l, l ∈ uses p → h' !! l = h !! l) → sound f h p → sound f h' p.
Proof.
  intros Hl. assert (∀ s, (∀ l, sl_arr s = Some l → l ∈ uses p) → contents h' s = contents h s) as Hc.
  { intros s Hs. apply contents_frame. eauto. }
  destruct p as [b s|b s|b s r|b r|b c]; cbn; intros H; try done;
    (rewrite Hc; [done|]); intros l E; cbn; rewrite ?E; set_solver.
Qed.

(** The arrays of a cycle that may not have started. *)
Definition uses_of (p : option apc) : list loc := match p with Some p => uses p | None => [] end.

(** A step of one cycle: it redistributes its own arrays, those of the pool and
    new ones, and writes only to its own and to new ones. *)
Lemma ainv_change f h n pool ts t q h' n' pool' : ainv f (mkA h n pool ts) →
  (∀ l, l ∈ uses q ++ pool_arrs pool' → l ∈ uses_of (ts !! t) ++ pool_arrs pool ∨ (n ≤ l < n')%nat) →
  (∀ l, l ∈ pool_arrs pool' → l ∈ uses_of (ts !! t) ++ pool_arrs pool) →
  NoDup (uses q ++ pool_arrs pool') → (n ≤ n')%nat →
  (∀ l, (l < n)%nat → l ∉ uses_of (ts !! t) → h' !! l = h !! l) →
  sound f h' q → ainv f (mkA h' n' pool' (<[t := q]> ts)).
Proof.
  intros [Hlt Hplt Hon Hpo Hap Hso] Hsub Hpsub Hnd Hn Hframe Hq. cbn in *.
  assert (∀ l, l ∈ uses_of (ts !! t) ++ pool_arrs pool → (l < n)%nat) as Hold.
  { intros l [Hl|Hl]%elem_of_app; [|eauto]. destruct (ts !! t) as [p|] eqn:E; [eauto|set_solver]. }
  assert (∀ t' p l, t' ≠ t → ts !! t' = Some p → l ∈ uses p → l ∉ uses_of (ts !! t) ++ pool_arrs pool) as Hoth.
  { intros t' p l Hne Ht' Hl [Hl'|Hl']%elem_of_app.
    - destruct (ts !! t) as [p0|] eqn:E; [|set_solver]. eauto.
    - pose proof (Hon _ _ Ht') as (_ & Hd & _)%NoDup_app. by eapply Hd. }
  assert (∀ l, l ∈ uses q ++ pool_arrs pool' → (l < n')%nat) as Hnew.
  { intros l [Hl%Hold|?]%Hsub; lia. }
  split; cbn.
  - intros t' p l. destruct (decide (t' = t)) as [->|Hne]; intros Ht' Hl; simplify_map_eq.
    + apply Hnew. set_solver.
    + pose proof (Hlt _ _ _ Ht' Hl). lia.
  - intros l Hl. apply Hnew. set_solver.
  - intros t' p Ht'. destruct (decide (t' = t)) as [->|Hne]; simplify_map_eq; [done|].
    pose proof (Hon _ _ Ht') as (? & _ & _)%NoDup_app. apply NoDup_app in Hnd as (_ & _ & ?).
    apply NoDup_app. split_and!; [done| |done]. intros l Hl Hl'%Hpsub. by eapply Hoth.
  - by apply NoDup_app in Hnd as (_ & _ & ?).
  - assert (∀ t' p l, t' ≠ t → ts !! t' = Some p → l ∈ uses p → l ∈ uses q → False) as Hq'.
    { intros t' p l Hne Ht' Hl Hlq. destruct (Hsub l) as [?|?]; [set_solver|by eapply Hoth|].
      pose proof (Hlt _ _ _ Ht' Hl). lia. }
    intros t1 t2 p1 p2 l. destruct (decide (t1 = t)) as [->|?], (decide (t2 = t)) as [->|?];
      intros H1 H2 Hl1 Hl2; simplify_map_eq; try done; [exfalso; eauto..|eauto].
  - intros t' p Ht'. destruct (decide (t' = t)) as [->|Hne]; simplify_map_eq; [done|].
    eapply sound_frame; [|by eapply Hso]. intros l Hl. apply Hframe; [eauto|].
    pose proof (Hoth _ _ _ Hne Ht' Hl). set_solver.
Qed.

Lemma pool_get_arrs k pool :
  option_list (sl_arr (pool_get nil_slice k pool).1) ++ pool_arrs (pool_get nil_slice k pool).2 ≡ₚ pool_arrs pool.
Proof.
  unfold pool_get, pool_arrs. destruct (pool !! k) as [s|] eqn:E; [|done]. cbn.
  rewrite (delete_Permutation _ _ _ E) at 2. cbn. by destruct (sl_arr s).
Qed.

(** Decoding gives exactly the new bytes, whatever the array held, and touches
    only the array of the request or a new one. *)
Lemma decodeBody_spec n extra req b h :
  contents (decodeBody n extra req b h).1 (decodeBody n extra req b h).2 = b ∧
  (sl_arr (decodeBody n extra req b h).2 = sl_arr req ∨ sl_arr (decodeBody n extra req b h).2 = Some n) ∧
  ∀ l, l ≠ n → sl_arr req ≠ Some l → (decodeBody n extra req b h).1 !! l = h !! l.
Proof.
  unfold decodeBody, goappend. cbn. destruct (length b =? 0)%nat eqn:E0; cbn.
  { apply Nat.eqb_eq, nil_length_inv in E0 as ->. split_and!; [done|by left|done]. }
  destruct (_ <=? _)%nat eqn:E1; cbn.
  - unfold array in E1 |- *. cbn in E1 |- *. destruct (sl_arr req) as [l|]; cbn.
    + split_and!; [|by left|intros; by rewrite lookup_insert_ne by congruence].
      unfold contents, array. cbn. rewrite lookup_insert_eq. cbn. by rewrite take_0, app_nil_l, take_app_length.
    + apply Nat.leb_le in E1. apply Nat.eqb_neq in E0. simpl in E1. lia.
  - split_and!; [|by right|intros; by rewrite lookup_insert_ne].
    unfold contents, array. cbn. rewrite lookup_insert_eq. cbn. by rewrite take_0, app_nil_l, take_app_length.
Qed.

Lemma ainv_step f g g' : astep (Compute f) g g' → ainv f g → ainv f g'.
Proof.
  intros Hs Hg. pose proof Hg as [Hlt Hplt Hon Hpo Hap Hso].
  destruct Hs as [h n pool ts t b k Ht|h n pool ts t b req extra Ht|?|h n pool ts t b req f' [= <-] Ht|
    h n pool ts t b req resp Ht|h n pool ts t b resp Ht]; try done; cbn in *;
    apply (ainv_change f h n pool ts); try done; rewrite ?Ht; cbn; try lia.
  - intros l. rewrite pool_get_arrs. auto.
  - intros l Hl. rewrite <- (pool_get_arrs k pool). set_solver.
  - by rewrite pool_get_arrs.
  - destruct (decodeBody_spec n extra req b h) as (_ & [->| ->] & _); [auto|].
    intros l [->%list_elem_of_singleton|?]%elem_of_app; [right; lia|set_solver].
  - set_solver.
  - pose proof (Hon _ _ Ht) as Hnd. cbn in Hnd.
    destruct (decodeBody_spec n extra req b h) as (_ & [->| ->] & _); [done|]. cbn.
    constructor; [intros Hl%Hplt; lia|done].
  - intros l Hl Hni. apply decodeBody_spec; [lia|]. intros E. rewrite E in Hni. set_solver.
  - apply decodeBody_spec.
  - intros l. rewrite <- app_assoc. intros [?|[->%list_elem_of_singleton|?]%elem_of_app]%elem_of_app;
      [set_solver|right; lia|set_solver].
  - set_solver.
  - pose proof (Hon _ _ Ht) as Hnd. cbn in Hnd. rewrite <- app_assoc, (Permutation_app_swap_app _ [n]). cbn.
    constructor; [|done]. intros [Hl|Hl%Hplt]%elem_of_app; [|lia]. pose proof (Hlt _ _ _ Ht Hl). lia.
  - intros l Hl _. rewrite lookup_insert_ne by lia. done.
  - assert (contents h req = b) as Hc by exact (Hso _ _ Ht). rewrite Hc.
    unfold contents, array. cbn. rewrite lookup_insert_eq. cbn. by rewrite take_ge.
  - intros l. rewrite releaseBody_arrs. set_solver.
  - intros l. rewrite releaseBody_arrs. set_solver.
  - rewrite releaseBody_arrs. pose proof (Hon _ _ Ht) as Hnd. cbn in Hnd.
    by rewrite app_assoc, (Permutation_app_comm (option_list (sl_arr resp))).
  - exact (Hso _ _ Ht).
  - set_solver.
  - set_solver.
  - exact (Hso _ _ Ht).
Qed.

(** C18: when the handler answers with memory of its own, concurrent stream
    cycles cannot disturb each other through the pooled messages: in every
    interleaving, every reply is the answer to the body of its own request. *)
Theorem computed_replies_correct f g t b sent :
  rtc (astep (Compute f)) ainit g → a_streams g !! t = Some (Replied b sent) → sent = answer (Compute f) b.
Proof.
  intros Hg Ht. apply (rtc_invariant _ (ainv f)) in Hg; [|apply ainv_init|apply ainv_step].
  exact (ai_sound _ _ Hg _ _ Ht).
Qed.

(** Decoding a body that fits writes into the array of the released request. *)
Lemma decodeBody_in_place n extra l k b h arr : h !! l = Some arr → length b ≠ 0%nat → length b = length arr →
  decodeBody n extra (mkSlice (Some l) k) b h = (<[l := b]> h, mkSlice (Some l) (length b)).
Proof.
  intros Hl H0 Hlen. unfold decodeBody, goappend, array. cbn. rewrite (proj2 (Nat.eqb_neq _ _)) by lia.
  rewrite Hl. cbn. rewrite (proj2 (Nat.leb_le _ _)) by lia.
  by rewrite take_0, (drop_ge arr), app_nil_r by lia.
Qed.

(** C33: the echo handler of the README is not safe: its response shares the
    array of the request, the request is released before the response is
    encoded, and another stream that takes the released request overwrites the
    body in between.  For any two different bodies of the same length there is a
    run in which a request is answered with the body of another one. *)
Theorem echo_reply_corrupted b1 b2 : length b1 = length b2 → b1 ≠ b2 →
  ∃ g, rtc (astep Echo) ainit g ∧ a_streams g !! 0%nat = Some (Replied b1 b2) ∧ b2 ≠ answer Echo b1.
Proof.
  intros Hlen Hne. assert (length b1 ≠ 0%nat) as H0.
  { intros E. apply Hne. rewrite E in Hlen. symmetry in Hlen. by rewrite (nil_length_inv _ E), (nil_length_inv _ Hlen). }
  assert (decodeBody 0 0 nil_slice b1 ∅ = (<[0%nat := b1 ++ []]> ∅, mkSlice (Some 0%nat) (length b1))) as E1.
  { unfold decodeBody, goappend. cbn. rewrite (proj2 (Nat.eqb_neq _ _)) by done. by destruct b1. }
  assert (decodeBody 1 0 (mkSlice (Some 0%nat) 0) b2 (<[0%nat := b1 ++ []]> ∅) =
    (<[0%nat := b2]> (<[0%nat := b1 ++ []]> ∅), mkSlice (Some 0%nat) (length b2))) as E2.
  { apply (decodeBody_in_place _ _ _ _ _ _ (b1 ++ [])); [apply lookup_insert_eq|lia|by rewrite app_nil_r]. }
  eexists. split.
  - eapply rtc_l; [apply (a_get _ _ _ _ _ 0 b1 0); reflexivity|]. cbn.
    eapply rtc_l; [apply (a_decode _ _ _ _ _ 0 b1 nil_slice 0); reflexivity|]. rewrite E1. cbn [fst snd].
    eapply rtc_l; [eapply (a_echo _ _ _ _ _ 0); [done|apply lookup_insert_eq]|].
    eapply rtc_l; [eapply (a_release _ _ _ _ _ 0); apply lookup_insert_eq|].
    eapply rtc_l; [apply (a_get _ _ _ _ _ 1 b2 0); by rewrite !lookup_insert_ne|]. cbn [pool_get releaseBody pool_put].
    eapply rtc_l; [apply (a_decode _ _ _ _ _ 1 b2 (mkSlice (Some 0%nat) 0) 0); apply lookup_insert_eq|].
    rewrite E2. cbn [fst snd].
    eapply rtc_l; [eapply (a_reply _ _ _ _ _ 0); rewrite !lookup_insert_ne by done; apply lookup_insert_eq|]. apply rtc_refl.
  - cbn. rewrite lookup_insert_eq. unfold contents, array. cbn. rewrite lookup_insert_eq. cbn.
    by rewrite take_ge by lia.
Qed.

Lemma computed_replies_correct_witness : [x02; x02] = answer (Compute (λ b, b ++ b)) [x02].
Proof.
  apply (computed_replies_correct (λ b, b ++ b)
    (mkA {[ 0%nat := [x02]; 1%nat := [x02; x02] ]} 2 [mkSlice (Some 0%nat) 0] {[ 0%nat := Replied [x02] [x02; x02] ]}) 0%nat);
    [|reflexivity].
  eapply rtc_l; [apply (a_get _ _ _ _ _ 0 [x02] 0); reflexivity|].
  eapply rtc_l; [apply (a_decode _ _ _ _ _ 0 [x02] nil_slice 0); reflexivity|].
  eapply rtc_l; [eapply (a_compute _ _ _ _ _ 0); reflexivity|].
  eapply rtc_l; [eapply (a_release _ _ _ _ _ 0); reflexivity|].
  eapply rtc_l; [eapply (a_reply _ _ _ _ _ 0); reflexivity|]. apply rtc_refl.
Defined.

Lemma echo_reply_corrupted_witness :
  ∃ g, rtc (astep Echo) ainit g ∧ a_streams g !! 0%nat = Some (Replied [x01] [x02]) ∧ [x02] ≠ answer Echo [x01].
Proof. apply (echo_reply_corrupted [x01] [x02]); [reflexivity|discriminate]. Defined.
