(* ===== verification/CallerMemory.v ===== *)
(** * The memory of the callers

    [SetBody] of a request stores the slice of the caller in a pooled message, and
    [ReleaseRequest], which a send calls, keeps the array of that slice in the
    pool of requests: it then belongs to the caller and to the pool.  This file
    adds callers of a client to the stream cycles of Alias.v, which take their
    requests from the same pool when client and server are in one process. *)

From S2P Require Import Prelude Alias.
From Stdlib Require Import Strings.Byte.

(** The slices that the callers hold. *)
Abbreviation callers := (gmap nat goslice).

Inductive mstep (hd : body_handler) : aconfig * callers → aconfig * callers → Prop :=
(** A stream cycle. *)
| m_server g g' cs : astep hd g g' → mstep hd (g, cs) (g', cs)
(** A caller makes a slice with the bytes [b]. *)
| m_make h n pool ts cs t b : cs !! t = None →
    mstep hd (mkA h n pool ts, cs) (mkA (<[n := b]> h) (S n) pool ts, <[t := mkSlice (Some n) (length b)]> cs)
(** A caller sends its slice: [NewRequest], which takes a message from the pool,
    [SetBody], and the send, which encodes the body and releases the message. *)
| m_send h n pool ts cs t s k : cs !! t = Some s →
    mstep hd (mkA h n pool ts, cs) (mkA h n (releaseBody s (pool_get nil_slice k pool).2) ts, cs).

(** C40: a caller cannot use a slice that it has passed to [SetBody] again, not
    even to send the same body twice.  In a process with a client and a server,
    there is a run in which a caller sends one slice twice, and then two
    concurrent stream cycles decode their requests into its array: the bytes of
    the caller change, and the first request is answered with the answer to the
    second one, although the handler answers with memory of its own. *)
Theorem reused_body_corrupts f (b0 b1 b2 : list byte) : length b0 = length b1 → length b1 = length b2 → b0 ≠ [] → f b1 ≠ f b2 →
  ∃ g cs s, rtc (mstep (Compute f)) (ainit, ∅) (g, cs) ∧
    cs !! 0%nat = Some s ∧ contents (a_heap g) s = b2 ∧
    a_streams g !! 1%nat = Some (Replied b1 (f b2)) ∧ f b2 ≠ answer (Compute f) b1.
Proof.
  intros H01 H12 Hne Hf. assert (length b0 ≠ 0%nat) as H0 by (by destruct b0).
  set (s0 := mkSlice (Some 0%nat) (length b0)). set (s := mkSlice (Some 0%nat) 0).
  assert (∀ n h arr b, h !! 0%nat = Some arr → length b = length arr → length b = length b0 →
    decodeBody n 0 s b h = (<[0%nat := b]> h, mkSlice (Some 0%nat) (length b))) as Hdec.
  { intros n h arr b Hh Hl Hb. eapply decodeBody_in_place; [done|lia|done]. }
  eexists _, _, s0. split; [|split].
  - eapply rtc_l; [by apply (m_make _ _ _ _ _ _ 0 b0)|].
    eapply rtc_l; [apply (m_send _ _ _ _ _ _ 0 s0 0), lookup_insert_eq|].
    eapply rtc_l; [apply (m_send _ _ _ _ _ _ 0 s0 1), lookup_insert_eq|]. cbn.
    eapply rtc_l; [apply m_server, (a_get _ _ _ _ _ 1 b1 0); reflexivity|]. cbn.
    eapply rtc_l; [apply m_server, (a_get _ _ _ _ _ 2 b2 0); by rewrite lookup_insert_ne|]. cbn.
    eapply rtc_l; [apply m_server, (a_decode _ _ _ _ _ 1 b1 s 0); by rewrite lookup_insert_ne, lookup_insert_eq|].
    rewrite (Hdec _ _ b0 b1) by (done || apply lookup_insert_eq). cbn [fst snd].
    eapply rtc_l; [apply m_server, (a_decode _ _ _ _ _ 2 b2 s 0); by rewrite lookup_insert_ne, lookup_insert_eq|].
    rewrite (Hdec _ _ b1 b2) by (lia || apply lookup_insert_eq). cbn [fst snd].
    eapply rtc_l; [apply m_server; eapply (a_compute _ _ _ _ _ 1); [done|by rewrite lookup_insert_ne, lookup_insert_eq]|].
    eapply rtc_l; [apply m_server; eapply (a_release _ _ _ _ _ 1), lookup_insert_eq|].
    eapply rtc_l; [apply m_server; eapply (a_reply _ _ _ _ _ 1), lookup_insert_eq|]. apply rtc_refl.
  - apply lookup_insert_eq.
  - unfold contents, array. cbn. rewrite lookup_insert_ne, lookup_insert_eq by done. cbn.
    split; [by rewrite take_ge by lia|]. rewrite !lookup_insert_eq. cbn.
    rewrite !take_ge by lia. done.
Qed.

Lemma reused_body_corrupts_witness : ∃ g cs s, rtc (mstep (Compute (λ b, b))) (ainit, ∅) (g, cs) ∧
  cs !! 0%nat = Some s ∧ contents (a_heap g) s = [x02] ∧
  a_streams g !! 1%nat = Some (Replied [x01] [x02]) ∧ [x02] ≠ answer (Compute (λ b, b)) [x01].
Proof. apply (reused_body_corrupts (λ b, b) [x00] [x01] [x02]); [reflexivity..|discriminate|discriminate]. Defined.
