(* ===== verification/Memory.v ===== *)
(** * The memory behind the messages

    A released message keeps the backing arrays of its headers, its method and its
    body (transport/quic/client/multiplexer.go), the decoder appends into them
    (schema_vtproto.pb.go), and a handler reads the arrays of its request and gives
    slices to its response (ctx.go).  The other files treat messages as values;
    here a message is a record of slices over a store of arrays, as in Go: the
    array of a [[][]byte] holds slices.  Handlers are programs that pass slices
    around ([mprog], run step by step by [mstep]); [own] turns a program over
    values into the handler that answers with memory of its own.  MemoryFacts.v
    says when the values are what one reads in the store. *)

From S2P Require Import Prelude Wire Schema SchemaFacts Ctx Alias.
From Stdlib Require Import Strings.Byte.

(** ** Slices of any type *)

Section slices.
Context {A : Type}.
Implicit Types (h : gmap loc (list A)) (s : goslice).

Definition backing h s : list A := match sl_arr s with Some l => default [] (h !! l) | None => [] end.
Definition elems h s : list A := take (sl_len s) (backing h s).

(** [append(s, data...)], as [goappend] of Alias. *)
Definition gappend (zero : A) (fresh : loc) (extra : nat) (s : goslice) (data : list A) h : gmap loc (list A) * goslice :=
  let arr := backing h s in
  let n := (sl_len s + length data)%nat in
  if (length data =? 0)%nat then (h, s)
  else if (n <=? length arr)%nat then
    match sl_arr s with
    | Some l => (<[l := take (sl_len s) arr ++ data ++ drop n arr]> h, mkSlice (Some l) n)
    | None => (h, s)
    end
  else (<[fresh := take (sl_len s) arr ++ data ++ replicate extra zero]> h, mkSlice (Some fresh) n).

Lemma elems_frame h h' s : (∀ l, sl_arr s = Some l → h' !! l = h !! l) → elems h' s = elems h s.
Proof. intros Hl. unfold elems, backing. destruct (sl_arr s) as [l|]; [by rewrite Hl|done]. Qed.

Lemma elems_cut h s : elems h (cut s) = [].
Proof. done. Qed.

(** Appending gives the old elements and the new ones, in the same array or in a
    new one, and touches no other array. *)
Lemma gappend_spec zero fresh extra s data h : length (elems h s) = sl_len s →
  let '(h', s') := gappend zero fresh extra s data h in
  elems h' s' = elems h s ++ data ∧ sl_len s' = (sl_len s + length data)%nat ∧
  (sl_arr s' = sl_arr s ∨ sl_arr s' = Some fresh) ∧
  ∀ l, l ≠ fresh → sl_arr s ≠ Some l → h' !! l = h !! l.
Proof.
  intros Hwf. unfold gappend. destruct (length data =? 0)%nat eqn:E0.
  { apply Nat.eqb_eq, nil_length_inv in E0 as ->. rewrite app_nil_r. cbn. split_and!; [done|lia|by left|done]. }
  assert (∀ arr, length (take (sl_len s) arr) = sl_len s →
    take (sl_len s + length data) (take (sl_len s) arr ++ data ++ drop (sl_len s + length data) arr) = take (sl_len s) arr ++ data) as Htake.
  { intros arr Hl. rewrite app_assoc, take_app_le by (rewrite length_app; lia). apply take_ge. rewrite length_app. lia. }
  destruct (_ <=? _)%nat eqn:E1.
  - unfold elems, backing in *. destruct (sl_arr s) as [l|].
    + cbn. rewrite lookup_insert_eq. cbn. split_and!; [by apply Htake|done|by left|].
      intros l' _ Hl'. apply lookup_insert_ne. congruence.
    + apply Nat.leb_le in E1. apply Nat.eqb_neq in E0. cbn in E1. lia.
  - unfold elems, backing in *. cbn. rewrite lookup_insert_eq. cbn.
    split_and!; [|done|by right|intros l Hl _; by apply lookup_insert_ne].
    rewrite app_assoc, take_app_le by (rewrite length_app; lia). apply take_ge. rewrite length_app. lia.
Qed.
End slices.

(** ** The store *)

Record store : Type := mkStore {
  s_bytes : gmap loc (list byte);        (* the arrays of bytes *)
  s_hdrs : gmap loc (list goslice);      (* the arrays of slices of bytes *)
  s_next : loc
}.

Section memory.
Context (grow : loc → nat).              (* the spare capacity of a new array *)

Definition new_bytes (b : list byte) (σ : store) : store * goslice :=
  (mkStore (<[s_next σ := b]> (s_bytes σ)) (s_hdrs σ) (S (s_next σ)), mkSlice (Some (s_next σ)) (length b)).
Definition new_headers (l : list goslice) (σ : store) : store * goslice :=
  (mkStore (s_bytes σ) (<[s_next σ := l]> (s_hdrs σ)) (S (s_next σ)), mkSlice (Some (s_next σ)) (length l)).
Definition append_bytes (s : goslice) (data : list byte) (σ : store) : store * goslice :=
  let '(h, s) := gappend x00 (s_next σ) (grow (s_next σ)) s data (s_bytes σ) in
  (mkStore h (s_hdrs σ) (S (s_next σ)), s).
Definition append_headers (s : goslice) (data : list goslice) (σ : store) : store * goslice :=
  let '(h, s) := gappend nil_slice (s_next σ) (grow (s_next σ)) s data (s_hdrs σ) in
  (mkStore (s_bytes σ) h (S (s_next σ)), s).

(** ** Messages *)

(** The slices of a request or a response. *)
Record parts : Type := mkParts { p_Headers : goslice; p_Method : goslice; p_Body : goslice }.

(** [unknownFields] is not kept when a message is released, so nothing shares it. *)
Record mrequest : Type := mkMReq { mq_RequestId : Z; mq_parts : parts; mq_unknown : list byte }.
Record mresponse : Type := mkMResp { mr_RequestId : Z; mr_Code : Z; mr_parts : parts; mr_unknown : list byte }.

Definition set_p_Headers (s : goslice) (p : parts) : parts := mkParts s (p_Method p) (p_Body p).
Definition set_p_Method (s : goslice) (p : parts) : parts := mkParts (p_Headers p) s (p_Body p).
Definition set_p_Body (s : goslice) (p : parts) : parts := mkParts (p_Headers p) (p_Method p) s.

(** What one reads in the store. *)
Definition hdrs (σ : store) (p : parts) : list goslice := elems (s_hdrs σ) (p_Headers p).
Definition vHeaders (σ : store) (p : parts) : list (list byte) := elems (s_bytes σ) <$> hdrs σ p.
Definition vMethod (σ : store) (p : parts) : list byte := elems (s_bytes σ) (p_Method p).
Definition vBody (σ : store) (p : parts) : list byte := elems (s_bytes σ) (p_Body p).
Definition req_value (σ : store) (m : mrequest) : Request :=
  mkRequest (mq_RequestId m) (vHeaders σ (mq_parts m)) (vMethod σ (mq_parts m)) (vBody σ (mq_parts m)) (mq_unknown m).
Definition resp_value (σ : store) (m : mresponse) : Response :=
  mkResponse (mr_RequestId m) (mr_Code m) (vHeaders σ (mr_parts m)) (vMethod σ (mr_parts m)) (vBody σ (mr_parts m)) (mr_unknown m).

Definition nil_parts : parts := mkParts nil_slice nil_slice nil_slice.
Definition cut_parts (p : parts) : parts := mkParts (cut (p_Headers p)) (cut (p_Method p)) (cut (p_Body p)).

(** [new(gen.Request)], [new(gen.Response)], and what [ReleaseRequest] and
    [ReleaseResponse] put into the pool. *)
Definition new_mrequest : mrequest := mkMReq 0 nil_parts [].
Definition new_mresponse : mresponse := mkMResp 0 0 nil_parts [].
Definition release_mrequest (m : mrequest) : mrequest := mkMReq 0 (cut_parts (mq_parts m)) [].
Definition release_mresponse (m : mresponse) : mresponse := mkMResp 0 0 (cut_parts (mr_parts m)) [].

(** ** [UnmarshalVT] of a request *)

(** [m.Headers = append(m.Headers, make([]byte, n)); copy(...)] *)
Definition decode_header (v : list byte) (p : parts) (σ : store) : store * parts :=
  let '(σ, s) := new_bytes v σ in
  let '(σ, hs) := append_headers (p_Headers p) [s] σ in
  (σ, set_p_Headers hs p).
(** [m.Method = append(m.Method[:0], ...)] and the same for the body. *)
Definition decode_method (v : list byte) (p : parts) (σ : store) : store * parts :=
  let '(σ, s) := append_bytes (cut (p_Method p)) v σ in (σ, set_p_Method s p).
Definition decode_body (v : list byte) (p : parts) (σ : store) : store * parts :=
  let '(σ, s) := append_bytes (cut (p_Body p)) v σ in (σ, set_p_Body s p).

Context `{Protohelpers}.

(** The message and the store it lives in. *)
Abbreviation mstate := (store * mrequest)%type.
Definition upd_parts (f : parts → store → store * parts) (st : mstate) : mstate :=
  let '(σ, p) := f (mq_parts st.2) st.1 in (σ, mkMReq (mq_RequestId st.2) p (mq_unknown st.2)).
Definition upd_RequestId (v : Z) (st : mstate) : mstate := (st.1, mkMReq v (mq_parts st.2) (mq_unknown st.2)).
Definition upd_unknown (v : list byte) (st : mstate) : mstate :=
  (st.1, mkMReq (mq_RequestId st.2) (mq_parts st.2) (mq_unknown st.2 ++ v)).

Definition mRequest_field (dAtA : list byte) (st : mstate) (preIndex iNdEx fieldNum wireType : Z) :
    outcome (mstate * GoErr) (mstate * Z) :=
  if fieldNum =? 1 then
    if negb (wireType =? 2) then Err (st, ErrWrongWireType wireType 1)
    else '(v, iNdEx) ← map_err (pair st) (readBytes dAtA iNdEx);
         Ok (upd_parts (decode_header v) st, iNdEx)
  else if fieldNum =? 2 then
    if negb (wireType =? 2) then Err (st, ErrWrongWireType wireType 2)
    else '(v, iNdEx) ← map_err (pair st) (readBytes dAtA iNdEx);
         Ok (upd_parts (decode_method v) st, iNdEx)
  else if fieldNum =? 3 then
    if negb (wireType =? 0) then Err (st, ErrWrongWireType wireType 3)
    else '(v, iNdEx) ← map_err (λ e, (upd_RequestId e.1 st, e.2)) (readVarint u64 dAtA iNdEx);
         Ok (upd_RequestId v st, iNdEx)
  else if fieldNum =? 4 then
    if negb (wireType =? 2) then Err (st, ErrWrongWireType wireType 4)
    else '(v, iNdEx) ← map_err (pair st) (readBytes dAtA iNdEx);
         Ok (upd_parts (decode_body v) st, iNdEx)
  else
    '(v, iNdEx) ← map_err (pair st) (readUnknown dAtA preIndex);
    Ok (upd_unknown v st, iNdEx).

Definition mRequest_step (dAtA : list byte) (st : mstate) (iNdEx : Z) : outcome (mstate * GoErr) (mstate * Z) :=
  let preIndex := iNdEx in
  '(fieldNum, wireType, iNdEx) ← map_err (pair st) (readTag dAtA iNdEx);
  mRequest_field dAtA st preIndex iNdEx fieldNum wireType.

Definition mRequest_UnmarshalVT (st : mstate) (dAtA : list byte) : outcome (mstate * GoErr) mstate :=
  unmarshal mRequest_step st dAtA.

(** ** Handlers *)

Context {any : Type}.

(** What a handler passes to a setter: a slice that it has got from its context,
    or bytes of its own, for which it makes a new array.  A string is the same:
    [stringToBytes] does not copy. *)
Inductive bytes_arg : Type := New (b : list byte) | Use (s : goslice).
Inductive headers_arg : Type := NewHeaders (l : list bytes_arg) | UseHeaders (s : goslice).

Definition eval_bytes (a : bytes_arg) (σ : store) : store * goslice :=
  match a with New b => new_bytes b σ | Use s => (σ, s) end.
Fixpoint eval_all (l : list bytes_arg) (σ : store) : store * list goslice :=
  match l with
  | [] => (σ, [])
  | a :: l => let '(σ, s) := eval_bytes a σ in let '(σ, ss) := eval_all l σ in (σ, s :: ss)
  end.
Definition eval_headers (a : headers_arg) (σ : store) : store * goslice :=
  match a with
  | NewHeaders l => let '(σ, ss) := eval_all l σ in new_headers ss σ
  | UseHeaders s => (σ, s)
  end.

(** The programs of Ctx over slices: a call that returns a slice gives the handler
    the slice and what it reads there. *)
Inductive mprog : bool → Type :=
| MReturn {r} : mprog r
| MCrash {r} : mprog r
| MBody {r} (k : goslice → list byte → mprog r) : mprog r
| MHeaders {r} (k : goslice → list (list byte) → mprog r) : mprog r
| MMethod {r} (k : goslice → list byte → mprog r) : mprog r
| MGetHeader {r} (key defaultValue : gostring) (k : gostring → mprog r) : mprog r
| MLocalsSetString {r} (key value : gostring) (k : mprog r) : mprog r
| MLocalsGetString {r} (key : gostring) (k : gostring → mprog r) : mprog r
| MLocalsSet {r} (key : gostring) (value : any) (k : mprog r) : mprog r
| MLocalsGet {r} (key : gostring) (k : option any → mprog r) : mprog r
| MLocalsReset {r} (k : mprog r) : mprog r
| MSetBody (buff : bytes_arg) (k : mprog true) : mprog true
| MSetHeaders (buff : headers_arg) (k : mprog true) : mprog true
| MSetHeader (key value : bytes_arg) (k : mprog true) : mprog true
| MSetCode (code : Z) (k : mprog true) : mprog true.

(** [CtxImpl] *)
Record mctx : Type := mkMCtx {
  m_req : option mrequest;
  m_resp : option mresponse;
  m_locals : option (LocalsImpl any)
}.

Definition mNewCtx (req : option mrequest) (resp : option mresponse) (k : nat) (pool : list mctx) : mctx * list mctx :=
  let '(c, pool) := pool_get (mkMCtx None None None) k pool in
  (mkMCtx req resp (Some (default NewLocals (m_locals c))), pool).
Definition mReleaseCtx (c : mctx) (pool : list mctx) : go (list mctx) :=
  l ← deref (m_locals c); Ok (pool_put (mkMCtx None None (Some (Locals_Reset l))) pool).

Definition set_mr_parts (p : parts) (m : mresponse) : mresponse := mkMResp (mr_RequestId m) (mr_Code m) p (mr_unknown m).
Definition set_mr_Code (v : Z) (m : mresponse) : mresponse := mkMResp (mr_RequestId m) v (mr_parts m) (mr_unknown m).
Definition set_mr_RequestId (v : Z) (m : mresponse) : mresponse := mkMResp v (mr_Code m) (mr_parts m) (mr_unknown m).

(** [SetBody], [SetHeaders] and [SetHeader] on the slices of the response: the
    first two store the slice they are given, the third appends to the array
    that is there. *)
Definition mSetBody (a : bytes_arg) (p : parts) (σ : store) : store * parts :=
  let '(σ, s) := eval_bytes a σ in (σ, set_p_Body s p).
Definition mSetHeaders (a : headers_arg) (p : parts) (σ : store) : store * parts :=
  let '(σ, s) := eval_headers a σ in (σ, set_p_Headers s p).
Definition mSetHeader (key value : bytes_arg) (p : parts) (σ : store) : store * parts :=
  let '(σ, ss) := eval_all [key; value] σ in
  let '(σ, hs) := append_headers (p_Headers p) ss σ in
  (σ, set_p_Headers hs p).

Definition upd_mresp (f : parts → store → store * parts) (c : mctx) (σ : store) : go (store * mctx) :=
  m ← deref (m_resp c);
  let '(σ, p) := f (mr_parts m) σ in
  Ok (σ, mkMCtx (m_req c) (Some (set_mr_parts p m)) (m_locals c)).
Definition upd_mlocals (f : LocalsImpl any → LocalsImpl any) (c : mctx) : go mctx :=
  l ← deref (m_locals c); Ok (mkMCtx (m_req c) (m_resp c) (Some (f l))).

(** One call of a handler that has not returned. *)
Definition mstep {r} (p : mprog r) (c : mctx) (σ : store) : go (store * mctx * mprog r) :=
  match p in mprog r return go (store * mctx * mprog r) with
  | MReturn => Ok (σ, c, MReturn)
  | MCrash => Panic
  | MBody k => m ← deref (m_req c); Ok (σ, c, k (p_Body (mq_parts m)) (vBody σ (mq_parts m)))
  | MHeaders k => m ← deref (m_req c); Ok (σ, c, k (p_Headers (mq_parts m)) (vHeaders σ (mq_parts m)))
  | MMethod k => m ← deref (m_req c); Ok (σ, c, k (p_Method (mq_parts m)) (vMethod σ (mq_parts m)))
  | MGetHeader key d k =>
      m ← deref (m_req c);
      let headers := vHeaders σ (mq_parts m) in
      v ← GetHeader_loop (length headers) headers 0 (stringToBytes key) d;
      Ok (σ, c, k v)
  | MLocalsSetString key v k => c ← upd_mlocals (SetString key v) c; Ok (σ, c, k)
  | MLocalsGetString key k => l ← deref (m_locals c); Ok (σ, c, k (GetString key l))
  | MLocalsSet key v k => c ← upd_mlocals (Locals_Set key v) c; Ok (σ, c, k)
  | MLocalsGet key k => l ← deref (m_locals c); Ok (σ, c, k (Locals_Get key l))
  | MLocalsReset k => c ← upd_mlocals Locals_Reset c; Ok (σ, c, k)
  | MSetBody b k => '(σ, c) ← upd_mresp (mSetBody b) c σ; Ok (σ, c, k)
  | MSetHeaders b k => '(σ, c) ← upd_mresp (mSetHeaders b) c σ; Ok (σ, c, k)
  | MSetHeader key v k => '(σ, c) ← upd_mresp (mSetHeader key v) c σ; Ok (σ, c, k)
  | MSetCode code k =>
      m ← deref (m_resp c);
      Ok (σ, mkMCtx (m_req c) (Some (set_mr_Code (u32 code) m)) (m_locals c), k)
  end.

Definition returned {r} (p : mprog r) : bool := match p with MReturn => true | _ => false end.

(** A handler that gives its response memory of its own: what it sets are new
    arrays, whatever it has read. *)
Fixpoint own {r} (p : prog any r) : mprog r :=
  match p with
  | Return => MReturn
  | Crash => MCrash
  | CallBody k => MBody (λ _ b, own (k b))
  | CallHeaders k => MHeaders (λ _ h, own (k h))
  | CallMethod k => MMethod (λ _ m, own (k m))
  | CallGetHeader key d k => MGetHeader key d (λ v, own (k v))
  | CallLocalsSetString key v k => MLocalsSetString key v (own k)
  | CallLocalsGetString key k => MLocalsGetString key (λ v, own (k v))
  | CallLocalsSet key v k => MLocalsSet key v (own k)
  | CallLocalsGet key k => MLocalsGet key (λ v, own (k v))
  | CallLocalsReset k => MLocalsReset (own k)
  | CallSetBody b k => MSetBody (New b) (own k)
  | CallSetHeaders l k => MSetHeaders (NewHeaders (New <$> l)) (own k)
  | CallSetHeader key v k => MSetHeader (New key) (New v) (own k)
  | CallSetCode code k => MSetCode code (own k)
  end.
End memory.
Arguments mprog any r : clear implicits.
Arguments mctx any : clear implicits.
