(* ===== verification/MemoryFacts.v ===== *)
(** * Who owns which array

    The arrays a message reaches are its footprint.  As long as the footprints of
    the messages are disjoint, an operation on one of them changes no other, and
    the operations on slices compute what the operations on values do: decoding
    ([mRequest_unmarshal_sim]) and the calls of a handler that answers with memory
    of its own ([mstep_sim]). *)

From S2P Require Import Prelude Wire Schema SchemaFacts Ctx Alias Memory.
From Stdlib Require Import Strings.Byte.

(** ** Footprints *)

Definition arr_list (s : goslice) : list loc := option_list (sl_arr s).

Definition foot (σ : store) (p : parts) : list loc :=
  arr_list (p_Method p) ++ arr_list (p_Body p) ++ arr_list (p_Headers p) ++ omap sl_arr (hdrs σ p).

Record parts_ok (σ : store) (p : parts) : Prop := {
  po_once : NoDup (foot σ p);
  po_lt : Forall (λ l, l < s_next σ)%nat (foot σ p);
  po_len : length (hdrs σ p) = sl_len (p_Headers p)
}.

(** The store has not changed at [l]. *)
Definition agree (σ σ' : store) (l : loc) : Prop :=
  s_bytes σ' !! l = s_bytes σ !! l ∧ s_hdrs σ' !! l = s_hdrs σ !! l.

Lemma parts_frame σ σ' p : (∀ l, l ∈ foot σ p → agree σ σ' l) →
  hdrs σ' p = hdrs σ p ∧ foot σ' p = foot σ p ∧
  vHeaders σ' p = vHeaders σ p ∧ vMethod σ' p = vMethod σ p ∧ vBody σ' p = vBody σ p.
Proof.
  intros Ha. unfold foot in Ha.
  assert (hdrs σ' p = hdrs σ p) as Hh.
  { apply elems_frame. intros l Hl. apply Ha. unfold arr_list. rewrite Hl. set_solver. }
  split; [done|]. unfold foot, vHeaders. rewrite Hh. split; [done|]. split_and!.
  - apply list_fmap_ext. intros i s Hs. apply elems_frame. intros l Hl. apply Ha.
    rewrite !elem_of_app, list_elem_of_omap. right; right; right. exists s. eauto using list_elem_of_lookup_2.
  - apply elems_frame. intros l Hl. apply Ha. unfold arr_list. rewrite Hl. set_solver.
  - apply elems_frame. intros l Hl. apply Ha. unfold arr_list. rewrite (Hl : sl_arr (p_Body p) = _). set_solver.
Qed.

(** A change of the store by someone who owns the arrays [A] before and [A']
    afterwards: it writes to its own arrays and to new ones only. *)
Record evolves (σ : store) (A : list loc) (σ' : store) (A' : list loc) : Prop := {
  ev_next : (s_next σ ≤ s_next σ')%nat;
  ev_frame l : (l < s_next σ)%nat → l ∉ A → agree σ σ' l;
  ev_sub l : l ∈ A' → l ∈ A ∨ (s_next σ ≤ l < s_next σ')%nat;
  ev_once : NoDup A'
}.

Lemma evolves_id σ A A' : NoDup A → A' ≡ₚ A → evolves σ A σ A'.
Proof. intros Hn Hp. split; [done|done| |by rewrite Hp]. intros l. rewrite Hp. auto. Qed.

Lemma evolves_trans σ1 A1 σ2 A2 σ3 A3 :
  evolves σ1 A1 σ2 A2 → evolves σ2 A2 σ3 A3 → evolves σ1 A1 σ3 A3.
Proof.
  intros [Hn1 Hf1 Hs1 _] [Hn2 Hf2 Hs2 Hd]. split; [lia| |intros l Hl|done].
  - intros l Hl Hni. destruct (Hf1 l Hl Hni) as [E1 E2]. destruct (Hf2 l) as [E3 E4]; [lia| |split; congruence].
    intros Hl2. destruct (Hs1 l Hl2); [done|lia].
  - destruct (Hs2 l Hl) as [Hl2|?]; [|lia]. destruct (Hs1 l Hl2); [auto|lia].
Qed.

Lemma evolves_lt σ A σ' A' : evolves σ A σ' A' → Forall (λ l, l < s_next σ)%nat A → Forall (λ l, l < s_next σ')%nat A'.
Proof.
  rewrite !Forall_forall. intros [Hn _ Hs _] Hlt l Hl.
  destruct (Hs l Hl) as [Hl'|?]; [specialize (Hlt l Hl'); lia|lia].
Qed.

(** What the others own stays theirs. *)
Lemma evolves_app σ A σ' A' F : evolves σ A σ' A' → NoDup (A ++ F) → Forall (λ l, l < s_next σ)%nat F →
  evolves σ (A ++ F) σ' (A' ++ F).
Proof.
  rewrite Forall_forall. intros [Hn Hf Hs Hd] (_ & Hdis & HF)%NoDup_app Hlt. split; [done| | |].
  - intros l Hl Hni. apply Hf; set_solver.
  - intros l [Hl|Hl]%elem_of_app; [destruct (Hs l Hl); set_solver|set_solver].
  - apply NoDup_app. split_and!; [done| |done]. intros l Hl HlF.
    destruct (Hs l Hl) as [?|?]; [by eapply Hdis|]. specialize (Hlt l HlF). lia.
Qed.

Lemma evolves_perm σ A B σ' A' B' : A ≡ₚ B → A' ≡ₚ B' → evolves σ A σ' A' → evolves σ B σ' B'.
Proof.
  intros HA HB [Hn Hf Hs Hd]. split; [done| | |by rewrite <- HB].
  - intros l. rewrite <- HA. auto.
  - intros l. rewrite <- HA, <- HB. auto.
Qed.

Lemma evolves_frame σ A σ' A' F l : evolves σ A σ' A' → NoDup (A ++ F) → Forall (λ l, l < s_next σ)%nat F →
  l ∈ F → agree σ σ' l.
Proof.
  rewrite Forall_forall. intros Hev (_ & Hdis & _)%NoDup_app Hlt Hl. apply (ev_frame _ _ _ _ Hev); [auto|].
  intros HlA. by eapply Hdis.
Qed.

Lemma evolves_ok σ p σ' p' : parts_ok σ p → evolves σ (foot σ p) σ' (foot σ' p') →
  length (hdrs σ' p') = sl_len (p_Headers p') → parts_ok σ' p'.
Proof. intros [Hn Hlt _] Hev Hl. split; [apply Hev|by eapply evolves_lt|done]. Qed.

(** Some arrays are kept and the others are new. *)
Lemma NoDup_fresh (n : nat) A A0 F A' : NoDup A → Forall (λ l, l < n)%nat A → A0 ⊆+ A → NoDup F →
  Forall (λ l, n ≤ l)%nat F → A' ≡ₚ A0 ++ F → NoDup A'.
Proof.
  rewrite !Forall_forall. intros HA Hlt Hsub HF Hge ->.
  destruct (submseteq_Permutation _ _ Hsub) as [k Hk]. rewrite Hk in HA.
  apply NoDup_app. split_and!; [by apply NoDup_app in HA as (? & _)| |done].
  intros l Hl HlF. specialize (Hlt l (elem_of_submseteq _ _ _ Hl Hsub)). specialize (Hge l HlF). lia.
Qed.

Lemma evolves_fresh σ σ' A A0 F A' : NoDup A → Forall (λ l, l < s_next σ)%nat A → (s_next σ ≤ s_next σ')%nat →
  A0 ⊆+ A → NoDup F → Forall (λ l, s_next σ ≤ l < s_next σ')%nat F → A' ≡ₚ A0 ++ F →
  (∀ l, (l < s_next σ)%nat → l ∉ A → agree σ σ' l) → evolves σ A σ' A'.
Proof.
  intros HA Hlt Hn Hsub HF Hge HA' Hfr. split; [done|done| |].
  - intros l. rewrite HA', elem_of_app. intros [Hl|Hl]; [left; by eapply elem_of_submseteq|right].
    by apply (proj1 (Forall_forall _ _) Hge).
  - apply (NoDup_fresh (s_next σ) A A0 F A'); [done..| |done]. eapply Forall_impl; [done|]. cbn. lia.
Qed.

(** ** The operations on one message *)

Section operations.
Context (grow : loc → nat).
Implicit Types (σ : store) (p : parts).

(** The message [p] has become [p'], with the given values. *)
Record wrote (op : store * parts) σ p (hs : list (list byte)) (m b : list byte) : Prop := {
  wr_ev : evolves σ (foot σ p) op.1 (foot op.1 op.2);
  wr_ok : parts_ok op.1 op.2;
  wr_headers : vHeaders op.1 op.2 = hs;
  wr_method : vMethod op.1 op.2 = m;
  wr_body : vBody op.1 op.2 = b
}.

(** [append] on a byte slice that was cut. *)
Lemma append_bytes_spec s v σ :
  let '(σ', s') := append_bytes grow (cut s) v σ in
  elems (s_bytes σ') s' = v ∧ s_next σ' = S (s_next σ) ∧ s_hdrs σ' = s_hdrs σ ∧
  (sl_arr s' = sl_arr s ∨ sl_arr s' = Some (s_next σ)) ∧
  ∀ l, l ≠ s_next σ → sl_arr s ≠ Some l → s_bytes σ' !! l = s_bytes σ !! l.
Proof.
  unfold append_bytes. pose proof (gappend_spec x00 (s_next σ) (grow (s_next σ)) (cut s) v (s_bytes σ) eq_refl) as Hg.
  destruct (gappend _ _ _ _ _ _) as [h s']. cbn in *. tauto.
Qed.

(** The slice at one place is replaced by one with the same array or a new one. *)
Lemma arr_list_replace s s' n A : sl_arr s' = sl_arr s ∨ sl_arr s' = Some n → NoDup (arr_list s ++ A) →
  Forall (λ l, l < n)%nat (arr_list s ++ A) →
  NoDup (arr_list s' ++ A) ∧ ∀ l, l ∈ arr_list s' ++ A → l ∈ arr_list s ++ A ∨ l = n.
Proof.
  rewrite Forall_forall. unfold arr_list. intros [-> | ->] Hn Hlt; [by auto|]. cbn. split.
  - constructor; [intros Hl; specialize (Hlt n ltac:(set_solver)); lia|by apply NoDup_app in Hn as (_ & _ & ?)].
  - set_solver.
Qed.

Lemma slot_evolves s s' R σ σ' : NoDup (arr_list s ++ R) → Forall (λ l, l < s_next σ)%nat (arr_list s ++ R) →
  s_next σ' = S (s_next σ) → s_hdrs σ' = s_hdrs σ → sl_arr s' = sl_arr s ∨ sl_arr s' = Some (s_next σ) →
  (∀ l, l ≠ s_next σ → sl_arr s ≠ Some l → s_bytes σ' !! l = s_bytes σ !! l) →
  evolves σ (arr_list s ++ R) σ' (arr_list s' ++ R) ∧ ∀ l, l ∈ R → agree σ σ' l.
Proof.
  intros Hn Hlt Hnx Hh Harr Hfr. destruct (arr_list_replace _ _ _ _ Harr Hn Hlt) as [Hn' Hsub].
  rewrite Forall_forall in Hlt. split.
  - split; [lia| | |done].
    + intros l Hl Hni. split; [|by rewrite Hh]. apply Hfr; [lia|]. intros E. apply Hni. unfold arr_list. rewrite E. set_solver.
    + intros l Hl. destruct (Hsub l Hl) as [?| ->]; [auto|lia].
  - intros l Hl. split; [|by rewrite Hh]. apply NoDup_app in Hn as (_ & Hd & _). apply Hfr.
    + specialize (Hlt l ltac:(set_solver)). lia.
    + intros E. apply (Hd l); [|done]. unfold arr_list. rewrite E. set_solver.
Qed.

Lemma foot_Body σ p : foot σ p ≡ₚ arr_list (p_Body p) ++ arr_list (p_Method p) ++ arr_list (p_Headers p) ++ omap sl_arr (hdrs σ p).
Proof. unfold foot. apply Permutation_app_swap_app. Qed.

(** The values of the parts whose arrays have not changed. *)
Lemma elems_agree σ σ' s : (∀ l, l ∈ arr_list s → agree σ σ' l) → elems (s_bytes σ') s = elems (s_bytes σ) s.
Proof. intros Ha. apply elems_frame. intros l E. apply Ha. unfold arr_list. rewrite E. set_solver. Qed.

Lemma elems_agree_all σ σ' (ss : list goslice) : (∀ l, l ∈ omap sl_arr ss → agree σ σ' l) →
  elems (s_bytes σ') <$> ss = elems (s_bytes σ) <$> ss.
Proof.
  intros Ha. apply list_fmap_ext. intros i s Hs. apply elems_frame. intros l Hl. apply Ha.
  apply list_elem_of_omap. exists s. eauto using list_elem_of_lookup_2.
Qed.

Lemma decode_method_wrote v p σ : parts_ok σ p →
  wrote (decode_method grow v p σ) σ p (vHeaders σ p) v (vBody σ p).
Proof.
  intros Hok. pose proof Hok as [Hn Hlt Hlen]. unfold decode_method. pose proof (append_bytes_spec (p_Method p) v σ) as Ha.
  destruct (append_bytes grow (cut (p_Method p)) v σ) as [σ' s]. destruct Ha as (He & Hnx & Hh & Harr & Hfr).
  assert (hdrs σ' (set_p_Method s p) = hdrs σ p) as Hhd by (unfold hdrs; cbn; by rewrite Hh).
  destruct (slot_evolves _ _ _ _ _ Hn Hlt Hnx Hh Harr Hfr) as [Hev Hag].
  assert (evolves σ (foot σ p) σ' (foot σ' (set_p_Method s p))) as Hev' by (unfold foot; by rewrite Hhd).
  split; cbn; [done|eapply evolves_ok; [done..|by rewrite Hhd]| |done|].
  - unfold vHeaders. rewrite Hhd. apply elems_agree_all. intros l Hl. apply Hag. set_solver.
  - apply elems_agree. intros l Hl. apply Hag. set_solver.
Qed.

Lemma body_wrote s v p σ σ' : parts_ok σ p → s_next σ' = S (s_next σ) → s_hdrs σ' = s_hdrs σ →
  elems (s_bytes σ') s = v → sl_arr s = sl_arr (p_Body p) ∨ sl_arr s = Some (s_next σ) →
  (∀ l, l ≠ s_next σ → sl_arr (p_Body p) ≠ Some l → s_bytes σ' !! l = s_bytes σ !! l) →
  wrote (σ', set_p_Body s p) σ p (vHeaders σ p) (vMethod σ p) v.
Proof.
  intros Hok Hnx Hh He Harr Hfr. pose proof Hok as [Hn Hlt Hlen].
  assert (hdrs σ' (set_p_Body s p) = hdrs σ p) as Hhd by (unfold hdrs; cbn; by rewrite Hh).
  rewrite foot_Body in Hn, Hlt. destruct (slot_evolves _ _ _ _ _ Hn Hlt Hnx Hh Harr Hfr) as [Hev Hag].
  assert (evolves σ (foot σ p) σ' (foot σ' (set_p_Body s p))) as Hev'.
  { eapply evolves_perm; [symmetry; apply foot_Body..|]. by rewrite Hhd. }
  split; cbn; [done|eapply evolves_ok; [done..|by rewrite Hhd]| | |done].
  - unfold vHeaders. rewrite Hhd. apply elems_agree_all. intros l Hl. apply Hag. set_solver.
  - apply elems_agree. intros l Hl. apply Hag. set_solver.
Qed.

Lemma decode_body_wrote v p σ : parts_ok σ p →
  wrote (decode_body grow v p σ) σ p (vHeaders σ p) (vMethod σ p) v.
Proof.
  intros Hok. unfold decode_body. pose proof (append_bytes_spec (p_Body p) v σ) as Ha.
  destruct (append_bytes grow (cut (p_Body p)) v σ) as [σ' s]. destruct Ha as (He & Hnx & Hh & Harr & Hfr).
  by apply body_wrote.
Qed.

Lemma mSetBody_wrote v p σ : parts_ok σ p →
  wrote (mSetBody (New v) p σ) σ p (vHeaders σ p) (vMethod σ p) v.
Proof.
  intros Hok. unfold mSetBody, eval_bytes, new_bytes. apply body_wrote; cbn; [done..| |by right|].
  - unfold elems, backing. cbn. rewrite lookup_insert_eq. cbn. by rewrite take_ge.
  - intros l Hl _. by apply lookup_insert_ne.
Qed.

(** ** New slices, and the headers *)

(** The arrays a handler makes for its bytes. *)
Lemma eval_all_New l σ :
  let '(σ', ss) := eval_all (New <$> l) σ in
  s_next σ' = (s_next σ + length l)%nat ∧ s_hdrs σ' = s_hdrs σ ∧
  omap sl_arr ss = seq (s_next σ) (length l) ∧ length ss = length l ∧
  elems (s_bytes σ') <$> ss = l ∧ ∀ i, (i < s_next σ)%nat → s_bytes σ' !! i = s_bytes σ !! i.
Proof.
  revert σ. induction l as [|b l IH]; intros σ; [by cbn; split_and!; [lia|..]|].
  cbn [fmap list_fmap eval_all eval_bytes new_bytes].
  specialize (IH (mkStore (<[s_next σ := b]> (s_bytes σ)) (s_hdrs σ) (S (s_next σ)))).
  change (list_fmap _ _ New l) with (New <$> l).
  destruct (eval_all (New <$> l) _) as [σ' ss]. cbn in IH. destruct IH as (Hn & Hh & Ha & Hl & He & Hf).
  cbn. split_and!; [lia|done|by rewrite Ha|by rewrite Hl| |].
  - f_equal; [|done]. unfold elems, backing. cbn. rewrite Hf by lia. rewrite lookup_insert_eq. cbn. by rewrite take_ge.
  - intros i Hi. rewrite Hf by lia. apply lookup_insert_ne. lia.
Qed.

(** New headers, in the array of the old ones or in a new one. *)
Lemma headers_wrote hs keep ss n p σ σ' v : parts_ok σ p →
  s_next σ' = S (s_next σ + n) → omap sl_arr ss = seq (s_next σ) n → elems (s_bytes σ') <$> ss = v →
  elems (s_hdrs σ') hs = keep ++ ss → length (keep ++ ss) = sl_len hs →
  keep = hdrs σ p ∧ (sl_arr hs = sl_arr (p_Headers p) ∨ sl_arr hs = Some (s_next σ + n)%nat) ∨
  keep = [] ∧ sl_arr hs = Some (s_next σ + n)%nat →
  (∀ l, (l < s_next σ)%nat → s_bytes σ' !! l = s_bytes σ !! l) →
  (∀ l, (l < s_next σ)%nat → sl_arr (p_Headers p) ≠ Some l → s_hdrs σ' !! l = s_hdrs σ !! l) →
  wrote (σ', set_p_Headers hs p) σ p ((elems (s_bytes σ) <$> keep) ++ v) (vMethod σ p) (vBody σ p).
Proof.
  intros Hok Hnx Hss Hv Hel Hlen' Hkeep Hfb Hfh. pose proof Hok as [Hn Hlt Hlen].
  assert (hdrs σ' (set_p_Headers hs p) = keep ++ ss) as Hhd by exact Hel.
  assert (evolves σ (foot σ p) σ' (foot σ' (set_p_Headers hs p))) as Hev.
  { set (old := arr_list (p_Method p) ++ arr_list (p_Body p)).
    assert (foot σ' (set_p_Headers hs p) = old ++ arr_list hs ++ omap sl_arr keep ++ seq (s_next σ) n) as ->.
    { unfold foot, old. cbn. by rewrite Hhd, omap_app, Hss, <- app_assoc. }
    assert (NoDup (seq (s_next σ) n ++ [s_next σ + n]%nat)) as Hseq.
    { rewrite <- (seq_app n 1). apply NoDup_seq. }
    assert (∃ A0 F, A0 ⊆+ foot σ p ∧ NoDup F ∧ Forall (λ l, s_next σ ≤ l < s_next σ')%nat F ∧
      old ++ arr_list hs ++ omap sl_arr keep ++ seq (s_next σ) n ≡ₚ A0 ++ F) as (A0 & F & Hsub & HF & HF' & Hperm).
    { assert (∀ k, (k ≤ S n)%nat → Forall (λ l, s_next σ ≤ l < s_next σ')%nat (seq (s_next σ) k)) as Hall.
      { intros k Hk. apply Forall_seq. lia. }
      destruct Hkeep as [[-> [Harr|Harr]]|[-> Harr]]; unfold arr_list; rewrite Harr.
      - exists (foot σ p), (seq (s_next σ) n). split_and!; [done|apply NoDup_seq|apply Hall; lia|].
        unfold foot, old, arr_list. by rewrite <- !app_assoc.
      - exists (old ++ omap sl_arr (hdrs σ p)), (seq (s_next σ) n ++ [s_next σ + n]%nat).
        split_and!; [|done|rewrite <- (seq_app n 1); apply Hall; lia|].
        + unfold foot, old. rewrite <- app_assoc. do 2 apply submseteq_skips_l. by apply submseteq_inserts_l.
        + cbn. solve_Permutation.
      - exists old, (seq (s_next σ) n ++ [s_next σ + n]%nat).
        split_and!; [|done|rewrite <- (seq_app n 1); apply Hall; lia|].
        + unfold foot, old. rewrite app_assoc. by apply submseteq_inserts_r.
        + cbn. solve_Permutation. }
    eapply evolves_fresh; [done|done|lia|done..|].
    intros l Hl Hni. split; [auto|]. apply Hfh; [done|]. intros E. apply Hni. unfold foot, arr_list. rewrite E. set_solver. }
  assert (∀ l, l ∈ arr_list (p_Method p) ++ arr_list (p_Body p) ++ omap sl_arr (hdrs σ p) → s_bytes σ' !! l = s_bytes σ !! l) as Hb.
  { intros l Hl. apply Hfb. apply (proj1 (Forall_forall _ _) Hlt). unfold foot. set_solver. }
  split; cbn; [done|eapply evolves_ok; [done..|by rewrite Hhd]| | |].
  - unfold vHeaders. rewrite Hhd, fmap_app, Hv. f_equal. apply list_fmap_ext. intros i s Hs. apply elems_frame.
    intros l E. apply Hb. destruct Hkeep as [[-> _]|[-> _]]; [|done].
    rewrite !elem_of_app, list_elem_of_omap. right; right. exists s. eauto using list_elem_of_lookup_2.
  - apply elems_frame. intros l E. apply Hb. unfold arr_list. cbn in E. rewrite E. set_solver.
  - apply elems_frame. intros l E. apply Hb. unfold arr_list. cbn in E. rewrite E. set_solver.
Qed.

Lemma append_headers_wrote ss n p σ σ1 v : parts_ok σ p →
  s_next σ1 = (s_next σ + n)%nat → s_hdrs σ1 = s_hdrs σ → omap sl_arr ss = seq (s_next σ) n →
  elems (s_bytes σ1) <$> ss = v → (∀ l, (l < s_next σ)%nat → s_bytes σ1 !! l = s_bytes σ !! l) →
  wrote (let '(σ', hs) := append_headers grow (p_Headers p) ss σ1 in (σ', set_p_Headers hs p)) σ p
    (vHeaders σ p ++ v) (vMethod σ p) (vBody σ p).
Proof.
  intros Hok Hnx Hh Hss Hv Hfr. pose proof (po_len _ _ Hok) as Hlen. unfold append_headers. rewrite Hh.
  pose proof (gappend_spec nil_slice (s_next σ1) (grow (s_next σ1)) (p_Headers p) ss (s_hdrs σ) Hlen) as Hg.
  destruct (gappend _ _ _ _ _ _) as [h hs]. destruct Hg as (He & Hl & Harr & Hf).
  apply (headers_wrote hs (hdrs σ p) ss n); cbn; try done.
  - lia.
  - rewrite length_app, Hl. unfold hdrs in *. lia.
  - left. rewrite Hnx in Harr. auto.
  - intros l Hl' Hne. apply Hf; [lia|done].
Qed.

Lemma decode_header_wrote v p σ : parts_ok σ p →
  wrote (decode_header grow v p σ) σ p (vHeaders σ p ++ [v]) (vMethod σ p) (vBody σ p).
Proof.
  intros Hok. unfold decode_header, new_bytes. apply (append_headers_wrote _ 1); [done|cbn; lia|done|done| |].
  - cbn. unfold elems, backing. cbn. rewrite lookup_insert_eq. cbn. by rewrite take_ge.
  - intros l Hl. cbn. apply lookup_insert_ne. lia.
Qed.

Lemma mSetHeader_wrote key v p σ : parts_ok σ p →
  wrote (mSetHeader grow (New key) (New v) p σ) σ p (vHeaders σ p ++ [key; v]) (vMethod σ p) (vBody σ p).
Proof.
  intros Hok. unfold mSetHeader. pose proof (eval_all_New [key; v] σ) as He. cbn [fmap list_fmap] in He.
  destruct (eval_all [New key; New v] σ) as [σ1 ss]. destruct He as (Hn & Hh & Ha & _ & Hv & Hf).
  by apply (append_headers_wrote _ 2).
Qed.

Lemma mSetHeaders_wrote l p σ : parts_ok σ p →
  wrote (mSetHeaders (NewHeaders (New <$> l)) p σ) σ p l (vMethod σ p) (vBody σ p).
Proof.
  intros Hok. unfold mSetHeaders, eval_headers. pose proof (eval_all_New l σ) as He.
  destruct (eval_all (New <$> l) σ) as [σ1 ss]. destruct He as (Hn & Hh & Ha & Hl & Hv & Hf).
  apply (headers_wrote _ [] ss (length l)); cbn; try done.
  - lia.
  - unfold elems, backing. cbn. rewrite lookup_insert_eq. cbn. by rewrite take_ge.
  - right. by rewrite Hn.
  - intros i Hi _. rewrite Hh. apply lookup_insert_ne. lia.
Qed.

(** ** [UnmarshalVT] *)

Context `{Protohelpers}.

(** The decoder on slices does what the decoder on values does. *)
Definition req_sim (st : store * mrequest) (st' : store * mrequest) : Prop :=
  evolves st.1 (foot st.1 (mq_parts st.2)) st'.1 (foot st'.1 (mq_parts st'.2)) ∧ parts_ok st'.1 (mq_parts st'.2).

Lemma req_sim_trans st1 st2 st3 : req_sim st1 st2 → req_sim st2 st3 → req_sim st1 st3.
Proof. intros [E1 _] [E2 Hok]. split; [by eapply evolves_trans|done]. Qed.

Lemma req_sim_refl st : parts_ok st.1 (mq_parts st.2) → req_sim st st.
Proof. intros Hok. split; [|done]. apply evolves_id; [apply Hok|done]. Qed.

Lemma upd_parts_sim f st hs m b : wrote (f (mq_parts st.2) st.1) st.1 (mq_parts st.2) hs m b →
  req_sim st (upd_parts f st) ∧
  req_value (upd_parts f st).1 (upd_parts f st).2 = mkRequest (mq_RequestId st.2) hs m b (mq_unknown st.2).
Proof.
  intros [Hev Hok Hh Hm Hb]. unfold upd_parts, req_sim, req_value. destruct (f _ _) as [σ' p]. cbn in *.
  split; [done|]. by rewrite Hh, Hm, Hb.
Qed.

(** The two results of a step correspond. *)
Definition step_sim {A} (st : store * mrequest) (r : outcome ((store * mrequest) * GoErr) ((store * mrequest) * A))
    (r' : outcome (Request * GoErr) (Request * A)) : Prop :=
  match r, r' with
  | Ok (st', i), Ok (m, i') => req_sim st st' ∧ m = req_value st'.1 st'.2 ∧ i = i'
  | Err (st', e), Err (m, e') => req_sim st st' ∧ m = req_value st'.1 st'.2 ∧ e = e'
  | Panic, Panic | NoFuel, NoFuel => True
  | _, _ => False
  end.

Lemma mRequest_field_sim d st pre i f w : parts_ok st.1 (mq_parts st.2) →
  step_sim st (mRequest_field grow d st pre i f w) (Request_field d (req_value st.1 st.2) pre i f w).
Proof.
  intros Hok. pose proof (req_sim_refl st Hok) as Hr. unfold mRequest_field, Request_field.
  repeat match goal with
  | |- context [if ?b then _ else _] => destruct b
  | |- context [map_err _ (readBytes d ?i)] => destruct (readBytes d i) as [[v j]| | |]; cbn
  | |- context [map_err _ (readVarint u64 d ?i)] => destruct (readVarint u64 d i) as [[v j]| [v e] | |]; cbn
  | |- context [map_err _ (readUnknown d ?i)] => destruct (readUnknown d i) as [[v j]| | |]; cbn
  end; try done; unfold step_sim; cbn.
  - destruct (upd_parts_sim (decode_header grow v) st _ _ _ (decode_header_wrote _ _ _ Hok)) as [? Hv].
    split; [done|]. by rewrite Hv.
  - destruct (upd_parts_sim (decode_method grow v) st _ _ _ (decode_method_wrote _ _ _ Hok)) as [? Hv].
    split; [done|]. by rewrite Hv.
  - destruct (upd_parts_sim (decode_body grow v) st _ _ _ (decode_body_wrote _ _ _ Hok)) as [? Hv].
    split; [done|]. by rewrite Hv.
Qed.

Lemma mRequest_step_sim d st i : parts_ok st.1 (mq_parts st.2) →
  step_sim st (mRequest_step grow d st i) (Request_step d (req_value st.1 st.2) i).
Proof.
  intros Hok. unfold mRequest_step, Request_step. destruct (readTag d i) as [[[f w] j]|e| |]; cbn; try done.
  - by apply mRequest_field_sim.
  - split; [by apply req_sim_refl|done].
Qed.

(** The result of the loop. *)
Definition loop_sim (st : store * mrequest) (r : outcome ((store * mrequest) * GoErr) (store * mrequest))
    (r' : outcome (Request * GoErr) Request) : Prop :=
  match r, r' with
  | Ok st', Ok m => req_sim st st' ∧ m = req_value st'.1 st'.2
  | Err (st', e), Err (m, e') => req_sim st st' ∧ m = req_value st'.1 st'.2 ∧ e = e'
  | Panic, Panic | NoFuel, NoFuel => True
  | _, _ => False
  end.

Lemma mRequest_loop_sim fuel d st i : parts_ok st.1 (mq_parts st.2) →
  loop_sim st (unmarshal_loop (mRequest_step grow) fuel d st i) (unmarshal_loop Request_step fuel d (req_value st.1 st.2) i).
Proof.
  revert st i. induction fuel as [|fuel IH]; intros st i Hok; cbn [unmarshal_loop];
    destruct (i <? len d); try done.
  1, 3: destruct (len d <? i); cbn; (split; [by apply req_sim_refl|done]).
  pose proof (mRequest_step_sim d st i Hok) as Hs.
  destruct (mRequest_step grow d st i) as [[st' j]|[st' e]| |], (Request_step d _ i) as [[m j']|[m e']| |]; try done.
  destruct Hs as (Hsim & -> & <-). cbn. pose proof (IH st' j (proj2 Hsim)) as Hl.
  destruct (unmarshal_loop (mRequest_step grow) _ _ _ _) as [st2|[st2 e]| |],
    (unmarshal_loop Request_step _ _ _ _) as [m|[m e']| |]; try done; cbn in *;
    destruct Hl as (? & ?); (split; [by eapply req_sim_trans|done]).
Qed.

Lemma mRequest_unmarshal_sim d st : parts_ok st.1 (mq_parts st.2) →
  loop_sim st (mRequest_UnmarshalVT grow st d) (Request_UnmarshalVT (req_value st.1 st.2) d).
Proof. apply mRequest_loop_sim. Qed.
End operations.

(** ** Messages that share no array *)

Definition foots (σ : store) (ps : list parts) : list loc := ps ≫= foot σ.

Record owned (σ : store) (ps : list parts) : Prop := {
  ow_once : NoDup (foots σ ps);
  ow_lt : Forall (λ l, l < s_next σ)%nat (foots σ ps);
  ow_len : Forall (λ p, length (hdrs σ p) = sl_len (p_Headers p)) ps
}.

(** One reads the same in a message. *)
Record same_value (σ σ' : store) (p : parts) : Prop := {
  sv_headers : vHeaders σ' p = vHeaders σ p;
  sv_method : vMethod σ' p = vMethod σ p;
  sv_body : vBody σ' p = vBody σ p
}.

#[export] Instance owned_perm σ : Proper ((≡ₚ) ==> iff) (owned σ).
Proof.
  assert (∀ ps qs, ps ≡ₚ qs → owned σ ps → owned σ qs) as Hp.
  { intros ps qs Hpq [H1 H2 H3]. unfold foots in *. split.
    - unfold foots. by rewrite <- Hpq.
    - unfold foots. by rewrite <- Hpq.
    - by rewrite <- Hpq. }
  intros ps qs Hpq. split; by apply Hp.
Qed.

Lemma owned_cons σ p ps : owned σ (p :: ps) → parts_ok σ p.
Proof.
  intros [Hn Hlt Hl]. unfold foots in *. cbn in Hn, Hlt. apply NoDup_app in Hn as (? & _). apply Forall_app in Hlt as [? _].
  inversion Hl. by split.
Qed.

Lemma owned_tail σ p ps : owned σ (p :: ps) → owned σ ps.
Proof.
  intros [Hn Hlt Hl]. unfold foots in *. cbn in Hn, Hlt. apply NoDup_app in Hn as (_ & _ & ?).
  apply Forall_app in Hlt as [_ ?]. inversion Hl. by split.
Qed.

Lemma owned_nil σ : owned σ [].
Proof. split; constructor. Qed.

Lemma owned_new σ ps : owned σ ps → owned σ (nil_parts :: ps).
Proof. intros [Hn Hlt Hl]. split; [done..|by constructor]. Qed.

Lemma foot_cut σ p : foot σ (cut_parts p) = arr_list (p_Method p) ++ arr_list (p_Body p) ++ arr_list (p_Headers p).
Proof. unfold foot. cbn. by rewrite app_nil_r. Qed.

Lemma owned_cut σ p ps : owned σ (p :: ps) → owned σ (cut_parts p :: ps).
Proof.
  intros [Hn Hlt Hl]. inversion Hl. unfold foots in *. cbn in *.
  assert (foot σ p ++ (ps ≫= foot σ) ≡ₚ omap sl_arr (hdrs σ p) ++ foot σ (cut_parts p) ++ (ps ≫= foot σ)) as Hp.
  { rewrite foot_cut. unfold foot. solve_Permutation. }
  rewrite Hp in Hn, Hlt. apply NoDup_app in Hn as (_ & _ & ?). apply Forall_app in Hlt as [_ ?].
  split; [done..|]. by constructor.
Qed.

Lemma values_cut σ p : vHeaders σ (cut_parts p) = [] ∧ vMethod σ (cut_parts p) = [] ∧ vBody σ (cut_parts p) = [].
Proof. done. Qed.

(** One message changes. *)
Lemma owned_step σ p σ' p' ps : owned σ (p :: ps) → evolves σ (foot σ p) σ' (foot σ' p') → parts_ok σ' p' →
  owned σ' (p' :: ps) ∧ Forall (same_value σ σ') ps.
Proof.
  intros [Hn Hlt Hl] Hev Hok. unfold foots in *. cbn in Hn, Hlt. apply Forall_cons in Hl as [_ Hl'].
  apply Forall_app in Hlt as [Hlp Hlt].
  assert (∀ q, q ∈ ps → ∀ l, l ∈ foot σ q → agree σ σ' l) as Hag.
  { intros q Hq l Hl2. eapply evolves_frame; [done..|]. apply list_elem_of_bind. eauto. }
  assert ((ps ≫= foot σ') = (ps ≫= foot σ)) as Hf.
  { clear -Hag. induction ps as [|q ps IH]; [done|]. cbn. rewrite IH by (intros; eapply Hag; [by right|done]).
    f_equal. apply parts_frame. apply Hag. by left. }
  split.
  - pose proof (evolves_app _ _ _ _ _ Hev Hn Hlt) as Hev'. split; unfold foots; cbn.
    + rewrite Hf. apply Hev'.
    + rewrite Hf. eapply evolves_lt; [done|]. by apply Forall_app.
    + constructor; [apply Hok|]. rewrite Forall_forall in Hl' |- *. intros q Hq. destruct (parts_frame σ σ' q (Hag q Hq)) as [-> _]. auto.
  - apply Forall_forall. intros q Hq. destruct (parts_frame σ σ' q (Hag q Hq)) as (_ & _ & ? & ? & ?). by split.
Qed.

Lemma owned_wrote op σ p hs m b ps : owned σ (p :: ps) → wrote op σ p hs m b →
  owned op.1 (op.2 :: ps) ∧ Forall (same_value σ op.1) ps.
Proof. intros Ho [Hev Hok _ _ _]. by eapply owned_step. Qed.

Lemma same_value_refl σ ps : Forall (same_value σ σ) ps.
Proof. by apply Forall_true. Qed.

Lemma req_value_same σ σ' m : same_value σ σ' (mq_parts m) → req_value σ' m = req_value σ m.
Proof. intros [Hh Hm Hb]. unfold req_value. by rewrite Hh, Hm, Hb. Qed.
Lemma resp_value_same σ σ' m : same_value σ σ' (mr_parts m) → resp_value σ' m = resp_value σ m.
Proof. intros [Hh Hm Hb]. unfold resp_value. by rewrite Hh, Hm, Hb. Qed.

(** ** Handlers that answer with memory of their own *)

Section handlers.
Context (grow : loc → nat) {any : Type}.
Implicit Types (σ : store) (c : mctx any).

Definition ctx_parts c : list parts := option_list (mr_parts <$> m_resp c) ++ option_list (mq_parts <$> m_req c).

(** The context of a handler over values. *)
Definition vctx σ c : CtxImpl any := mkCtx (req_value σ <$> m_req c) (resp_value σ <$> m_resp c) (m_locals c).

(** The number of calls a handler makes. *)
Fixpoint calls {r} (p : prog any r) (c : CtxImpl any) : nat :=
  match p with
  | Return | Crash => 0
  | CallBody k => match Ctx_Body c with Ok b => S (calls (k b) c) | _ => 0 end
  | CallHeaders k => match Ctx_Headers c with Ok h => S (calls (k h) c) | _ => 0 end
  | CallMethod k => match Ctx_Method c with Ok m => S (calls (k m) c) | _ => 0 end
  | CallGetHeader key d k => match GetHeader key d c with Ok v => S (calls (k v) c) | _ => 0 end
  | CallLocalsSetString key v k => match upd_locals (SetString key v) c with Ok c => S (calls k c) | _ => 0 end
  | CallLocalsGetString key k => match deref (ctx_locals c) with Ok l => S (calls (k (GetString key l)) c) | _ => 0 end
  | CallLocalsSet key v k => match upd_locals (Locals_Set key v) c with Ok c => S (calls k c) | _ => 0 end
  | CallLocalsGet key k => match deref (ctx_locals c) with Ok l => S (calls (k (Locals_Get key l)) c) | _ => 0 end
  | CallLocalsReset k => match upd_locals Locals_Reset c with Ok c => S (calls k c) | _ => 0 end
  | CallSetBody b k => match SetBody b c with Ok c => S (calls k c) | _ => 0 end
  | CallSetHeaders b k => match SetHeaders b c with Ok c => S (calls k c) | _ => 0 end
  | CallSetHeader key v k => match SetHeader key v c with Ok c => S (calls k c) | _ => 0 end
  | CallSetCode code k => match SetCode code c with Ok c => S (calls k c) | _ => 0 end
  end%nat.

(** A call of the handler and the same call over values. *)
Definition call_sim {r} (p : prog any r) c σ F (res : go (store * mctx any * mprog any r)) : Prop :=
  match res with
  | Ok (σ', c', m) => ∃ p', m = own p' ∧ run p (vctx σ c) = run p' (vctx σ' c') ∧
      calls p (vctx σ c) = S (calls p' (vctx σ' c')) ∧
      owned σ' (ctx_parts c' ++ F) ∧ Forall (same_value σ σ') F
  | Panic => run p (vctx σ c) = Panic
  | NoFuel => run p (vctx σ c) = NoFuel
  | Err e => False
  end.

(** A setter of the response. *)
Lemma upd_mresp_sim f g σ c F : owned σ (ctx_parts c ++ F) →
  (∀ m, m_resp c = Some m → parts_ok σ (mr_parts m) → ∃ hs v b, wrote (f (mr_parts m) σ) σ (mr_parts m) hs v b ∧
     g (resp_value σ m) = mkResponse (mr_RequestId m) (mr_Code m) hs v b (mr_unknown m)) →
  match upd_mresp f c σ with
  | Ok (σ', c') => upd_resp g (vctx σ c) = Ok (vctx σ' c') ∧ owned σ' (ctx_parts c' ++ F) ∧ Forall (same_value σ σ') F
  | Panic => upd_resp g (vctx σ c) = Panic
  | _ => False
  end.
Proof.
  intros Ho Hf. unfold upd_mresp, upd_resp, vctx. destruct c as [q [m|] l]; [|done].
  cbn in *. destruct (Hf m eq_refl) as (hs & v & b & Hw & Hg); [by eapply owned_cons|].
  destruct (owned_wrote _ _ _ _ _ _ _ Ho Hw) as [Ho' Hs]. destruct Hw as [_ _ Hh Hm Hb].
  destruct (f (mr_parts m) σ) as [σ' p']. cbn in *. split_and!.
  - rewrite Hg. do 2 f_equal; [|unfold resp_value; cbn; by rewrite Hh, Hm, Hb].
    destruct q as [q|]; [|done]. cbn. f_equal. symmetry. apply req_value_same. by inversion Hs.
  - done.
  - by apply Forall_app in Hs as [_ ?].
Qed.

Lemma upd_mlocals_sim f σ c :
  upd_locals f (vctx σ c) = match upd_mlocals f c with Ok c => Ok (vctx σ c) | Err e => Err e | Panic => Panic | NoFuel => NoFuel end ∧
  ∀ c', upd_mlocals f c = Ok c' → ctx_parts c' = ctx_parts c.
Proof.
  unfold upd_mlocals, upd_locals, vctx. destruct c as [q r [l|]]; cbn; (split; [done|]); [|done]. by intros c' [= <-].
Qed.

Lemma local_call_sim {r} (p k : prog any r) f c σ F : owned σ (ctx_parts c ++ F) →
  (∀ v : CtxImpl any, run p v = (v ← upd_locals f v; run k v)) →
  (∀ v : CtxImpl any, calls p v = match upd_locals f v with Ok v => S (calls k v) | _ => 0%nat end) →
  call_sim p c σ F (c ← upd_mlocals f c; Ok (σ, c, own k)).
Proof.
  intros Ho Hrun Hcalls. destruct (upd_mlocals_sim f σ c) as [E Hp]. unfold call_sim.
  rewrite Hrun, Hcalls, E. destruct (upd_mlocals f c) as [c'| [] | |]; cbn; [|done..].
  rewrite (Hp _ eq_refl). exists k. split_and!; [done..|apply same_value_refl].
Qed.

Lemma setter_call_sim (p k : prog any true) g f c σ F : owned σ (ctx_parts c ++ F) →
  (∀ v : CtxImpl any, run p v = (v ← upd_resp g v; run k v)) →
  (∀ v : CtxImpl any, calls p v = match upd_resp g v with Ok v => S (calls k v) | _ => 0%nat end) →
  (∀ m, m_resp c = Some m → parts_ok σ (mr_parts m) → ∃ hs v b, wrote (f (mr_parts m) σ) σ (mr_parts m) hs v b ∧
     g (resp_value σ m) = mkResponse (mr_RequestId m) (mr_Code m) hs v b (mr_unknown m)) →
  call_sim p c σ F ('(σ, c) ← upd_mresp f c σ; Ok (σ, c, own k)).
Proof.
  intros Ho Hrun Hcalls Hf. pose proof (upd_mresp_sim f g σ c F Ho Hf) as Hs. unfold call_sim. rewrite Hrun, Hcalls.
  destruct (upd_mresp f c σ) as [[σ' c']| [] | |]; cbn; [|by rewrite Hs|done].
  destruct Hs as (-> & ? & ?). by exists k.
Qed.

Lemma mstep_sim {r} (p : prog any r) c σ F : owned σ (ctx_parts c ++ F) → returned (own p) = false →
  call_sim p c σ F (mstep grow (own p) c σ).
Proof.
  intros Ho Hr. pose proof (same_value_refl σ F) as Hv. destruct p; try done; cbn [own mstep].
  1-3: destruct c as [[q|] rs l]; cbn; [by eexists; split_and!|done].
  - destruct c as [[q|] rs l]; cbn; [|done]. unfold GetHeader. cbn.
    destruct (GetHeader_loop _ _ _ _ _) as [v| [] | |] eqn:E; cbn; [|by rewrite E..].
    exists (k v). by rewrite E.
  - apply (local_call_sim _ _ (SetString key value)); done.
  - destruct c as [q rs [l|]]; cbn; [by eexists; split_and!|done].
  - apply (local_call_sim _ _ (Locals_Set key value)); done.
  - destruct c as [q rs [l|]]; cbn; [by eexists; split_and!|done].
  - apply (local_call_sim _ _ Locals_Reset); done.
  - apply (setter_call_sim _ _ (set_resp_Body buff)); [done..|]. intros m Hm Hok. do 3 eexists. split; [by apply mSetBody_wrote|done].
  - apply (setter_call_sim _ _ (set_resp_Headers buff)); [done..|]. intros m Hm Hok. do 3 eexists. split; [by apply mSetHeaders_wrote|done].
  - apply (setter_call_sim _ _ (λ r, set_resp_Headers (resp_Headers r ++ [stringToBytes key; stringToBytes value]) r)); [done..|].
    intros m Hm Hok. do 3 eexists. split; [by apply mSetHeader_wrote|]. by rewrite !stringToBytes_id.
  - destruct c as [q [m|] l]; [|done]. by exists p.
Qed.
End handlers.
