(* ===== verification/Server.v ===== *)
(** * The server

    Models server.go: the handler tables, [streamReadCycle] with every branch of
    the request and the event case, and the accept loops.  One stream cycle is a
    program over the state it shares with the rest of the process: the pools of
    messages, contexts and buffers, and the bytes written to the stream.  Messages
    are values here; ServerProcess.v runs the stream cycles concurrently on messages
    whose arrays are in a shared store.  [serve]
    is the specification: what one frame is answered with, without any pool. *)

From S2P Require Import Prelude Wire Schema SchemaFacts Encoder EncoderFacts Stream Ctx.
From Stdlib Require Import Strings.Byte.

Section server.
Context `{Protohelpers, Zstd} {any : Type}.

(** The listener and [conns], which nothing reads, are left out; the encoder has
    no state. *)
Record QRPCServerImpl : Type := mkServer {
  handlers : gmap gostring (prog any true);
  eventHandlers : gmap gostring (prog any false)
}.

Definition newServer : QRPCServerImpl := mkServer ∅ ∅.

Definition AddHandler (method : gostring) (handler : prog any true) (s : QRPCServerImpl) : QRPCServerImpl :=
  mkServer (<[method := handler]> (handlers s)) (eventHandlers s).

Definition AddEventHandler (method : gostring) (handler : prog any false) (s : QRPCServerImpl) : QRPCServerImpl :=
  mkServer (handlers s) (<[method := handler]> (eventHandlers s)).

(** ** The state of a stream cycle *)

Record world : Type := mkWorld {
  w_requests : list Request;
  w_responses : list Response;
  w_ctxs : list (CtxImpl any);
  w_buffers : list Buffer;
  w_out : list byte;
  w_round : nat
}.

(** Where an object is taken from. *)
Inductive site : Type := AtRequest | AtResponse | AtCtx | AtBuffer.

(** The runtime's choices: the object a pool hands out in a round of the loop,
    and the result of the write in that round. *)
Variable choose : nat → site → nat.
Variable wresult : nat → wres.

Definition getRequest : prog_on world stop Request := λ w,
  let '(req, p) := GetRequest (choose (w_round w) AtRequest) (w_requests w) in
  (mkWorld p (w_responses w) (w_ctxs w) (w_buffers w) (w_out w) (w_round w), Ok req).

Definition getResponse : prog_on world stop Response := λ w,
  let '(resp, p) := GetResponse (choose (w_round w) AtResponse) (w_responses w) in
  (mkWorld (w_requests w) p (w_ctxs w) (w_buffers w) (w_out w) (w_round w), Ok resp).

Definition releaseRequest (req : Request) : prog_on world stop unit := modify (λ w,
  mkWorld (ReleaseRequest req (w_requests w)).2 (w_responses w) (w_ctxs w) (w_buffers w) (w_out w) (w_round w)).

Definition releaseResponse (resp : Response) : prog_on world stop unit := modify (λ w,
  mkWorld (w_requests w) (ReleaseResponse resp (w_responses w)).2 (w_ctxs w) (w_buffers w) (w_out w) (w_round w)).

Definition newCtx (req : option Request) (resp : option Response) : prog_on world stop (CtxImpl any) := λ w,
  let '(ctx, p) := NewCtx req resp (choose (w_round w) AtCtx) (w_ctxs w) in
  (mkWorld (w_requests w) (w_responses w) p (w_buffers w) (w_out w) (w_round w), Ok ctx).

Definition releaseCtx (ctx : CtxImpl any) : prog_on world stop unit := λ w,
  match ReleaseCtx ctx (w_ctxs w) with
  | Ok p => (mkWorld (w_requests w) (w_responses w) p (w_buffers w) (w_out w) (w_round w), Ok tt)
  | Err e => match e with end
  | Panic => (w, Panic)
  | NoFuel => (w, NoFuel)
  end.

(** The result of the encoder is a value that the caller inspects later. *)
Definition encodeResponse (resp : Response) : prog_on world stop (outcome EncodeErr Buffer) := λ w,
  let '(p, r) := EncodeResponse (Some resp) (choose (w_round w) AtBuffer) (w_buffers w) in
  (mkWorld (w_requests w) (w_responses w) (w_ctxs w) p (w_out w) (w_round w), Ok r).

Definition releaseBuffer (b : Buffer) : prog_on world stop unit := modify (λ w,
  mkWorld (w_requests w) (w_responses w) (w_ctxs w) (Buffer_Release (Some b) (w_buffers w)) (w_out w) (w_round w)).

Definition streamWrite (data : list byte) : prog_on world stop (option IOErr) := λ w,
  (mkWorld (w_requests w) (w_responses w) (w_ctxs w) (w_buffers w)
     (w_out w ++ sent (wresult (w_round w)) data) (w_round w), Ok (werr (wresult (w_round w)))).

Definition nextRound : prog_on world stop unit := modify (λ w,
  mkWorld (w_requests w) (w_responses w) (w_ctxs w) (w_buffers w) (w_out w) (S (w_round w))).

(** ** The read cycle *)

Definition maybeDecompress (data : list byte) (flag : byte) : outcome EncodeErr (list byte) :=
  if bool_decide (flag = REQUEST_ZSTD_FLAG) || bool_decide (flag = EVENT_ZSTD_FLAG)
  then DecompressZstd data else Ok data.

Variable s : QRPCServerImpl.

(** The case of a request. *)
Definition handleRequest (flag : byte) (reqBuff : list byte) : prog_on world stop unit :=
  with_err (maybeDecompress reqBuff flag) (λ _, mret tt) (λ data,
  req ← getRequest;
  resp ← getResponse;
  with_err (Request_UnmarshalVT req data)
    (λ '(req, _), releaseRequest req;; releaseResponse resp) (λ req,
  match handlers s !! req_Method req with
  | None =>
      releaseRequest req;; releaseResponse resp;; throw (HandlerNotFound (req_Method req))
  | Some handler =>
      let resp := set_resp_RequestId (req_RequestId req) resp in
      ctx ← newCtx (Some req) (Some resp);
      ctx ← lift (total (run handler ctx));
      (* the objects [req] and [resp] point to, as the handler left them *)
      let req := default req (ctx_req ctx) in
      let resp := default resp (ctx_resp ctx) in
      releaseCtx ctx;;
      releaseRequest req;;
      r ← encodeResponse resp;
      releaseResponse resp;;
      with_err r (λ _, mret tt) (λ buf,
      bytes ← lift (Buffer_Bytes buf);
      err ← streamWrite bytes;
      releaseBuffer buf;;
      match err with
      | Some e => throw (ResponseWriteError e)
      | None => mret tt
      end)
  end)).

(** The case of an event. *)
Definition handleEvent (flag : byte) (reqBuff : list byte) : prog_on world stop unit :=
  with_err (maybeDecompress reqBuff flag) (λ _, mret tt) (λ data,
  req ← getRequest;
  with_err (Request_UnmarshalVT req data) (λ '(req, _), releaseRequest req) (λ req,
  match eventHandlers s !! req_Method req with
  | None => releaseRequest req
  | Some handler =>
      ctx ← newCtx (Some req) None;
      ctx ← lift (total (run handler ctx));
      let req := default req (ctx_req ctx) in
      releaseCtx ctx;;
      releaseRequest req
  end)).

(** [switch flagBuff[0]] *)
Definition dispatch (flag : byte) (reqBuff : list byte) : prog_on world stop unit :=
  if bool_decide (flag = REQUEST_FLAG) || bool_decide (flag = REQUEST_ZSTD_FLAG)
  then handleRequest flag reqBuff
  else if bool_decide (flag = EVENT_FLAG) || bool_decide (flag = EVENT_ZSTD_FLAG)
  then handleEvent flag reqBuff
  else mret tt.

Definition onHeader (err : IOErr) : stop :=
  if IsTimeoutErr err then PeerDisconnected
  else if isApplicationErr err then ClosedByPeer
  else HeaderReadError err.
Definition onFlag (err : IOErr) : stop :=
  if isApplicationErr err then ClosedByPeer else FlagReadError err.
Definition onPayload (err : IOErr) : stop :=
  if isApplicationErr err then ClosedByPeer else PayloadReadError err.

(** The loop; it only ends by a return, which is an [Err], or a panic. *)
Fixpoint streamReadCycle (fuel : nat) (c : cycle) : prog_on world stop Empty_set :=
  match fuel with
  | O => lift NoFuel
  | S fuel =>
      '(flag, data, c) ← lift (readFrame onHeader onFlag onPayload c);
      dispatch flag data;;
      nextRound;;
      streamReadCycle fuel c
  end.

(** ** The accept loops

    The results of the successive accepts; each accepted connection or stream
    is handed to a new goroutine, and the first error ends the loop. *)
Fixpoint startListen {conn} (accepts : list (conn + IOErr)) : list conn * option IOErr :=
  match accepts with
  | [] => ([], None)
  | inl conn :: accepts => let '(l, e) := startListen accepts in (conn :: l, e)
  | inr err :: _ => ([], Some err)
  end.

Fixpoint connReadCycle {stream} (accepts : list (stream + IOErr)) : list stream * option stop :=
  match accepts with
  | [] => ([], None)
  | inl stream :: accepts => let '(l, e) := connReadCycle accepts in (stream :: l, e)
  | inr err :: _ => ([], Some (if IsTimeoutErr err then PeerDisconnected else AcceptError err))
  end.
End server.
Arguments QRPCServerImpl any : clear implicits.
Arguments world any : clear implicits.
