(* ===== verification/ServerFacts.v ===== *)
(** * Correctness of the server

    [serve] says what a frame is answered with.  The loop body implements it for
    messages that are values, from any such pools and for any choice of pooled
    objects, and the cycle answers the frames of its input in order.  What the
    arrays of pooled messages add to this, across the streams of a process, is in
    ServerProcess.v and ServerIsolation.v. *)

From S2P Require Import Prelude Wire WireInstance Schema SchemaFacts Encoder EncoderFacts Stream Ctx Server.
From Stdlib Require Import Strings.Byte.

(** ** Specification *)

Section spec.
Context `{Protohelpers, Zstd} {any : Type}.
Implicit Types s : QRPCServerImpl any.

(** The response a handler makes of a request: it starts from an empty response
    with the id of the request, and from empty locals. *)
Definition respond (h : prog any true) (m : Request) : go Response :=
  c ← run h (mkCtx (Some m) (Some (set_resp_RequestId (req_RequestId m) empty_Response)) (Some NewLocals));
  deref (ctx_resp c).

(** An event handler is run for its effect on the rest of the program. *)
Definition notify (h : prog any false) (m : Request) : go unit :=
  _ ← run h (mkCtx (Some m) None (Some NewLocals)); Ok tt.

Definition decodeFrame (flag : byte) (payload : list byte) : outcome unit Request :=
  data ← map_err (λ _, tt) (maybeDecompress payload flag);
  map_err (λ _, tt) (Request_UnmarshalVT empty_Request data).

(** The bytes a frame is answered with, or the return of the cycle. *)
Definition serve s (flag : byte) (payload : list byte) : outcome stop (list byte) :=
  if bool_decide (flag = REQUEST_FLAG) || bool_decide (flag = REQUEST_ZSTD_FLAG) then
    match decodeFrame flag payload with
    | Ok m =>
        match handlers s !! req_Method m with
        | None => Err (HandlerNotFound (req_Method m))
        | Some h => r ← total (respond h m);
                    Ok (frame (pack RESPONSE_FLAG RESPONSE_ZSTD_FLAG (Response_wire r)))
        end
    | Err _ => Ok []
    | Panic => Panic
    | NoFuel => NoFuel
    end
  else if bool_decide (flag = EVENT_FLAG) || bool_decide (flag = EVENT_ZSTD_FLAG) then
    match decodeFrame flag payload with
    | Ok m =>
        match eventHandlers s !! req_Method m with
        | None => Ok []
        | Some h => _ ← total (notify h m); Ok []
        end
    | Err _ => Ok []
    | Panic => Panic
    | NoFuel => NoFuel
    end
  else Ok [].

(** How the write of a reply ends: nothing is written for an empty reply. *)
Definition written_reply (r : wres) (reply : list byte) : outcome stop unit :=
  match reply, werr r with
  | _ :: _, Some e => Err (ResponseWriteError e)
  | _, _ => Ok tt
  end.

(** The frames of a stream from round [n] on, answered in order until a return
    or a panic. *)
Fixpoint serve_frames s (wresult : nat → wres) (n : nat) (fps : list (byte * list byte)) :
    list byte * outcome stop unit :=
  match fps with
  | [] => ([], Ok tt)
  | (flag, payload) :: fps =>
      match serve s flag payload with
      | Ok reply =>
          match written_reply (wresult n) reply with
          | Ok _ => let '(out, r) := serve_frames s wresult (S n) fps in (sent (wresult n) reply ++ out, r)
          | r => (sent (wresult n) reply, r)
          end
      | Err e => ([], Err e)
      | Panic => ([], Panic)
      | NoFuel => ([], NoFuel)
      end
  end.

(** What the proofs ask of the handlers: to a request of at most 64 GiB, the
    largest that can arrive, a response is smaller than the largest slice. *)
Definition handlers_fit s : Prop := ∀ method h m r,
  handlers s !! method = Some h → len (Request_wire m) ≤ maxDecoded →
  respond h m = Ok r → fits (Response_wire r).

(** The invariant of the pools. *)
Record world_ok (w : world any) : Prop := {
  ok_requests : Forall (eq empty_Request) (w_requests w);
  ok_responses : Forall (eq empty_Response) (w_responses w);
  ok_ctxs : Forall ctx_clean (w_ctxs w)
}.
End spec.

Section refinement.
Context `{Protohelpers, !ProtohelpersOk, Zstd, !ZstdOk} {any : Type}.
Context (choose : nat → site → nat) (wresult : nat → wres) (s : QRPCServerImpl any).
Context (Hhandlers : handlers_fit s).

Lemma getRequest_spec (w : world any) : world_ok w →
  ∃ w', getRequest choose w = (w', Ok empty_Request) ∧ world_ok w' ∧
    w_out w' = w_out w ∧ w_round w' = w_round w.
Proof.
  intros [Hq Hp Hc]. unfold getRequest.
  destruct (GetRequest_clean (choose (w_round w) AtRequest) _ Hq) as [He Hf].
  destruct (GetRequest _ _) as [req p]. simpl in *. subst. eexists. split_and!; [done..].
Qed.

Lemma getResponse_spec (w : world any) : world_ok w →
  ∃ w', getResponse choose w = (w', Ok empty_Response) ∧ world_ok w' ∧
    w_out w' = w_out w ∧ w_round w' = w_round w.
Proof.
  intros [Hq Hp Hc]. unfold getResponse.
  destruct (GetResponse_clean (choose (w_round w) AtResponse) _ Hp) as [He Hf].
  destruct (GetResponse _ _) as [resp p]. simpl in *. subst. eexists. split_and!; [done..].
Qed.

Lemma releaseRequest_spec req (w : world any) : world_ok w →
  ∃ w', releaseRequest req w = (w', Ok tt) ∧ world_ok w' ∧
    w_out w' = w_out w ∧ w_round w' = w_round w.
Proof. intros [Hq Hp Hc]. eexists. split_and!; [done| |done..]. split; simpl; auto using ReleaseRequest_clean. Qed.

Lemma releaseResponse_spec resp (w : world any) : world_ok w →
  ∃ w', releaseResponse resp w = (w', Ok tt) ∧ world_ok w' ∧
    w_out w' = w_out w ∧ w_round w' = w_round w.
Proof. intros [Hq Hp Hc]. eexists. split_and!; [done| |done..]. split; simpl; auto using ReleaseResponse_clean. Qed.

Lemma newCtx_spec req resp (w : world any) : world_ok w →
  ∃ w', newCtx choose req resp w = (w', Ok (mkCtx req resp (Some NewLocals))) ∧ world_ok w' ∧
    w_out w' = w_out w ∧ w_round w' = w_round w.
Proof.
  intros [Hq Hp Hc]. unfold newCtx.
  destruct (NewCtx_clean req resp (choose (w_round w) AtCtx) _ Hc) as [He Hf].
  destruct (NewCtx _ _ _ _) as [ctx p]. simpl in *. subst. eexists. split_and!; [done..].
Qed.

Lemma releaseCtx_spec ctx (w : world any) : world_ok w → is_Some (ctx_locals ctx) →
  ∃ w', releaseCtx ctx w = (w', Ok tt) ∧ world_ok w' ∧
    w_out w' = w_out w ∧ w_round w' = w_round w.
Proof.
  intros [Hq Hp Hc] Hl. unfold releaseCtx.
  destruct (ReleaseCtx_clean ctx _ Hl Hc) as (p & -> & Hf). eexists. split_and!; [done..].
Qed.

(** Encoding, releasing the response, writing and releasing the buffer. *)
Lemma encodeResponse_spec resp (w : world any) : Response_wf resp → world_ok w →
  ∃ w' b, encodeResponse choose resp w = (w', Ok (Ok b)) ∧ world_ok w' ∧
    w_out w' = w_out w ∧ w_round w' = w_round w ∧
    Buffer_Bytes b = Ok (frame (pack RESPONSE_FLAG RESPONSE_ZSTD_FLAG (Response_wire resp))) :> outcome stop _.
Proof.
  intros Hwf [Hq Hp Hc]. unfold encodeResponse.
  destruct (EncodeResponse_spec resp (choose (w_round w) AtBuffer) (w_buffers w) Hwf)
    as (b & -> & _ & Hb). eexists _, b. split_and!; [done..|].
  apply slice_Ok. by apply slice_Ok in Hb.
Qed.

(** Replaces the first call of the goal by its result, known from [lem]. *)
Tactic Notation "call" constr(lem) "as" ident(w) ident(Hw) ident(Ho) ident(Hn) :=
  let E := fresh "E" in
  edestruct lem as (w & E & Hw & Ho & Hn); [..|erewrite prog_bind_Ok by exact E; clear E];
  [eassumption..|cbv beta zeta].

Lemma total_Ok {E A} (c : go A) (a : A) : total (E:=E) c = Ok a ↔ c = Ok a.
Proof. apply map_err_Ok. Qed.

Lemma maybeDecompress_fits flag payload data :
  len payload < 2 ^ 32 → maybeDecompress payload flag = Ok data → len data ≤ maxDecoded.
Proof.
  intros Hf. unfold maybeDecompress, DecompressZstd. repeat case_go; try done.
  - intros [= <-]. by eapply DecodeAll_limit.
  - intros [= <-]. unfold maxDecoded. lia.
Qed.

Lemma maxDecoded_fits (d : list byte) : len d ≤ maxDecoded → fits d.
Proof. unfold maxDecoded, fits. lia. Qed.

(** What the server encodes is well formed. *)
Lemma respond_wf method h m r : handlers s !! method = Some h → 0 ≤ req_RequestId m < 2 ^ 64 →
  len (Request_wire m) ≤ maxDecoded → respond h m = Ok r → Response_wf r ∧ resp_RequestId r = req_RequestId m.
Proof.
  intros Hh Hid Hl Hr. pose proof (Hhandlers _ _ _ _ Hh Hl Hr) as Hfit.
  unfold respond in Hr. apply bind_Ok_inv in Hr as (c & Hc & Hd).
  destruct (kept_resp _ _ (run_kept _ _ _ Hc) _ eq_refl) as (r' & Hr' & Hi & _ & _ & Hco).
  rewrite Hr' in Hd. cbn in Hd. injection Hd as <-. cbn in Hi, Hco.
  split; [|done]. split; [by rewrite Hi|by apply Hco|done].
Qed.

(** After the handler has returned [r]: the rest of the request case. *)
Lemma reply_spec req r (w : world any) : Response_wf r → world_ok w →
  let reply := frame (pack RESPONSE_FLAG RESPONSE_ZSTD_FLAG (Response_wire r)) in
  ∃ w', (releaseRequest req;;
         e ← encodeResponse choose r;
         releaseResponse r;;
         with_err e (λ _, mret tt) (λ buf,
         bytes ← lift (Buffer_Bytes buf);
         err ← streamWrite wresult bytes;
         releaseBuffer buf;;
         match err with Some e => throw (ResponseWriteError e) | None => mret tt end)) w =
        (w', written_reply (wresult (w_round w)) reply) ∧
    world_ok w' ∧ w_round w' = w_round w ∧ w_out w' = w_out w ++ sent (wresult (w_round w)) reply.
Proof.
  intros Hr Hw reply. call releaseRequest_spec as w0 Hw0 Ho0 Hn0.
  edestruct encodeResponse_spec as (w1 & b & E1 & Hw1 & Ho1 & Hn1 & Hb); [done..|].
  erewrite prog_bind_Ok by exact E1. cbv beta zeta. call releaseResponse_spec as w2 Hw2 Ho2 Hn2.
  cbn [with_err]. rewrite Hb. erewrite prog_bind_Ok by reflexivity.
  erewrite prog_bind_Ok by reflexivity. erewrite prog_bind_Ok by reflexivity.
  replace (w_round w2) with (w_round w) by congruence. fold reply.
  assert (∃ b0 l, reply = b0 :: l) as (b0 & l & ->) by (do 2 eexists; reflexivity).
  destruct (wresult (w_round w)); cbn; (eexists; split; [reflexivity|]; cbn;
    split_and!; [by destruct Hw2|congruence..]).
Qed.

(** The request case implements the specification. *)
Lemma handleRequest_spec flag payload (w : world any) : world_ok w → len payload < 2 ^ 32 →
  bool_decide (flag = REQUEST_FLAG) || bool_decide (flag = REQUEST_ZSTD_FLAG) = true →
  ∃ w', world_ok w' ∧ w_round w' = w_round w ∧
    match serve s flag payload with
    | Ok reply => handleRequest choose wresult s flag payload w = (w', written_reply (wresult (w_round w)) reply) ∧
        w_out w' = w_out w ++ sent (wresult (w_round w)) reply
    | Err e => handleRequest choose wresult s flag payload w = (w', Err e) ∧ w_out w' = w_out w
    | Panic => (handleRequest choose wresult s flag payload w).2 = Panic
    | NoFuel => (handleRequest choose wresult s flag payload w).2 = NoFuel
    end.
Proof.
  intros Hw Hfp Hf. unfold serve. rewrite Hf. unfold decodeFrame, handleRequest.
  destruct (maybeDecompress payload flag) as [data|e| |] eqn:Ed; cbn [with_err map_err].
  2: { exists w. do 3 (split; [done|]). by rewrite sent_nil, app_nil_r. }
  2, 3: by exists w.
  rewrite bind_Ok. call getRequest_spec as w1 Hw1 Ho1 Hn1. call getResponse_spec as w2 Hw2 Ho2 Hn2.
  apply maybeDecompress_fits in Ed; [|done].
  destruct (Request_UnmarshalVT empty_Request data) as [m|[m e]| |] eqn:Em; cbn [with_err map_err].
  3, 4: by exists w.
  2: { call releaseRequest_spec as w3 Hw3 Ho3 Hn3.
       destruct (releaseResponse_spec empty_Response w3 Hw3) as (w' & E & ? & ? & ?).
       exists w'. split_and!; [done|congruence|done|]. rewrite sent_nil, app_nil_r. congruence. }
  apply Request_unmarshal_decoded in Em as [[Hid _] Hml];
    [|by apply maxDecoded_fits|apply (empty_Request_decoded empty_Request)].
  change (len (Request_wire empty_Request)) with 0 in Hml.
  destruct (handlers s !! req_Method m) as [h|] eqn:Eh.
  2: { call releaseRequest_spec as w3 Hw3 Ho3 Hn3. call releaseResponse_spec as w4 Hw4 Ho4 Hn4.
       exists w4. split; [done|]. split; [congruence|]. split; [reflexivity|congruence]. }
  call newCtx_spec as w3 Hw3 Ho3 Hn3. destruct (respond h m) as [r| [] | |] eqn:Er; unfold respond in Er.
  - apply bind_Ok_inv in Er as (c & Hc & Hd). 
    destruct (respond_wf _ _ _ r Eh Hid) as [Hrwf _]; [lia|unfold respond; by rewrite Hc|].
    rewrite Hc. erewrite prog_bind_Ok by reflexivity. cbv beta zeta.
    pose proof (kept_locals _ _ (run_kept _ _ _ Hc) ltac:(done)) as Hl.
    destruct (ctx_resp c) as [r'|]; [|done]. injection Hd as ->.
    call releaseCtx_spec as w4 Hw4 Ho4 Hn4. cbn [default].
    destruct (reply_spec (default m (ctx_req c)) r w4 Hrwf Hw4) as (w' & E & ? & ? & ?).
    exists w'. replace (w_round w4) with (w_round w) in * by congruence.
    split; [done|]. split; [congruence|]. split; [exact E|congruence].
  - exists w. split_and!; [done..|]. destruct (run h _) as [c| [] | |] eqn:Hc; try done.
    + destruct (kept_resp _ _ (run_kept _ _ _ Hc) _ eq_refl) as (r' & Hr' & _). cbn in Er. by rewrite Hr' in Er.
  - exists w. split_and!; [done..|]. destruct (run h _) as [c| [] | |] eqn:Hc; try done.
    + cbn in Er. by destruct (ctx_resp c).
Qed.

(** The event case implements the specification. *)
Lemma handleEvent_spec flag payload (w : world any) : world_ok w →
  bool_decide (flag = REQUEST_FLAG) || bool_decide (flag = REQUEST_ZSTD_FLAG) = false →
  bool_decide (flag = EVENT_FLAG) || bool_decide (flag = EVENT_ZSTD_FLAG) = true →
  ∃ w', world_ok w' ∧ w_round w' = w_round w ∧
    match serve s flag payload with
    | Ok reply => handleEvent choose s flag payload w = (w', written_reply (wresult (w_round w)) reply) ∧
        w_out w' = w_out w ++ sent (wresult (w_round w)) reply
    | Err e => handleEvent choose s flag payload w = (w', Err e) ∧ w_out w' = w_out w
    | Panic => (handleEvent choose s flag payload w).2 = Panic
    | NoFuel => (handleEvent choose s flag payload w).2 = NoFuel
    end.
Proof.
  intros Hw Hf1 Hf. unfold serve. rewrite Hf1, Hf. unfold decodeFrame, handleEvent.
  destruct (maybeDecompress payload flag) as [data|e| |] eqn:Ed; cbn [with_err map_err].
  2: { exists w. do 3 (split; [done|]). by rewrite sent_nil, app_nil_r. }
  2, 3: by exists w.
  rewrite bind_Ok. call getRequest_spec as w1 Hw1 Ho1 Hn1.
  destruct (Request_UnmarshalVT empty_Request data) as [m|[m e]| |] eqn:Em; cbn [with_err map_err].
  3, 4: by exists w.
  2: { destruct (releaseRequest_spec m w1 Hw1) as (w' & E & ? & ? & ?).
       exists w'. split_and!; [done|congruence|done|]. rewrite sent_nil, app_nil_r. congruence. }
  destruct (eventHandlers s !! req_Method m) as [h|] eqn:Eh.
  2: { destruct (releaseRequest_spec m w1 Hw1) as (w' & E & ? & ? & ?).
       exists w'. split_and!; [done|congruence|done|]. rewrite sent_nil, app_nil_r. congruence. }
  call newCtx_spec as w2 Hw2 Ho2 Hn2. unfold notify.
  destruct (run h _) as [c| [] | |] eqn:Hc; [|by exists w..].
  pose proof (kept_locals _ _ (run_kept _ _ _ Hc) ltac:(done)) as Hl.
  erewrite prog_bind_Ok by reflexivity. cbv beta zeta. call releaseCtx_spec as w3 Hw3 Ho3 Hn3.
  destruct (releaseRequest_spec (default m (ctx_req c)) w3 Hw3) as (w' & E & ? & ? & ?).
  exists w'. split; [done|]. split; [congruence|]. split; [exact E|]. rewrite sent_nil, app_nil_r. congruence.
Qed.

Lemma dispatch_spec flag payload (w : world any) : world_ok w → len payload < 2 ^ 32 →
  ∃ w', world_ok w' ∧ w_round w' = w_round w ∧
    match serve s flag payload with
    | Ok reply => dispatch choose wresult s flag payload w = (w', written_reply (wresult (w_round w)) reply) ∧
        w_out w' = w_out w ++ sent (wresult (w_round w)) reply
    | Err e => dispatch choose wresult s flag payload w = (w', Err e) ∧ w_out w' = w_out w
    | Panic => (dispatch choose wresult s flag payload w).2 = Panic
    | NoFuel => (dispatch choose wresult s flag payload w).2 = NoFuel
    end.
Proof.
  intros Hw Hf. unfold dispatch. destruct (_ || _) eqn:E1; [by apply handleRequest_spec|].
  destruct (bool_decide (flag = EVENT_FLAG) || _) eqn:E2; [by apply handleEvent_spec|].
  exists w. unfold serve. rewrite E1, E2, sent_nil, app_nil_r. done.
Qed.

(** The cycle over frames followed by something that is not a frame. *)
Lemma streamReadCycle_spec fps tail e st fuel buff (w : world any) :
  world_ok w → Forall (λ fp, 1 + len fp.2 < 2 ^ 32) fps →
  (∀ buff, readFrame onHeader onFlag onPayload (mkCycle (mkIn tail e) buff) = Err st) →
  (length fps < fuel)%nat →
  match serve_frames s wresult (w_round w) fps with
  | (out, Ok _) => ∃ w', streamReadCycle choose wresult s fuel
        (mkCycle (mkIn (mjoin (frame <$> fps) ++ tail) e) buff) w = (w', Err st) ∧
      world_ok w' ∧ w_out w' = w_out w ++ out
  | (out, Err st') => ∃ w', streamReadCycle choose wresult s fuel
        (mkCycle (mkIn (mjoin (frame <$> fps) ++ tail) e) buff) w = (w', Err st') ∧
      world_ok w' ∧ w_out w' = w_out w ++ out
  | (out, Panic) => (streamReadCycle choose wresult s fuel
        (mkCycle (mkIn (mjoin (frame <$> fps) ++ tail) e) buff) w).2 = Panic
  | (out, NoFuel) => (streamReadCycle choose wresult s fuel
        (mkCycle (mkIn (mjoin (frame <$> fps) ++ tail) e) buff) w).2 = NoFuel
  end.
Proof.
  intros Hw Hfps Htail. revert fuel buff w Hw. induction Hfps as [|[flag payload] fps Hfp Hfps IH];
    intros fuel buff w Hw Hfuel; (destruct fuel as [|fuel]; [simpl in Hfuel; lia|]).
  - cbn [serve_frames]. exists w. split_and!; [|done|by rewrite app_nil_r]. cbn [streamReadCycle].
    erewrite prog_bind_Err; [done|]. unfold lift. by rewrite Htail.
  - cbn [serve_frames streamReadCycle]. rewrite mjoin_fmap_cons, <- app_assoc.
    destruct (readFrame_frame onHeader onFlag onPayload flag payload (mjoin (frame <$> fps) ++ tail) e buff Hfp)
      as (buff' & Hr & _). cbn in Hfp.
    assert (len payload < 2 ^ 32) as Hfit by lia.
    erewrite prog_bind_Ok by (unfold lift; by rewrite Hr). cbv beta iota.
    destruct (dispatch_spec flag payload w Hw Hfit) as (w1 & Hw1 & Hn1 & Hd).
    destruct (serve s flag payload) as [reply|st'| |].
    + destruct Hd as [Hd Ho]. destruct (written_reply (wresult (w_round w)) reply) as [[]|st'| |] eqn:Ew.
      2: { exists w1. by split_and!; [erewrite prog_bind_Err by exact Hd|..]. }
      2, 3: unfold written_reply in Ew; by repeat case_go.
      erewrite prog_bind_Ok by exact Hd. erewrite prog_bind_Ok by reflexivity.
      match goal with |- context [streamReadCycle _ _ _ _ _ ?w2] =>
        assert (world_ok w2) as Hw2 by (by destruct Hw1);
        specialize (IH fuel buff' w2 Hw2 ltac:(simpl in Hfuel; lia)) end.
      cbn [w_round] in IH. rewrite Hn1 in IH |- *.
      destruct (serve_frames s wresult (S (w_round w)) fps) as [out [u|st'| |]]; [| |done..];
        destruct IH as (w' & ? & ? & Ho'); exists w'; (split; [done|]); (split; [done|]);
        rewrite Ho'; cbn; by rewrite Ho, app_assoc.
    + destruct Hd as [Hd Ho]. exists w1. split_and!; [by erewrite prog_bind_Err by exact Hd|done|].
      by rewrite app_nil_r.
    + unfold mbind, prog_on_bind. by destruct (dispatch _ _ _ _ _ _) as [? []].
    + unfold mbind, prog_on_bind. by destruct (dispatch _ _ _ _ _ _) as [? []].
Qed.
End refinement.

(** ** Well-formed messages *)

Section messages.
Context `{Protohelpers, !ProtohelpersOk, Zstd, !ZstdOk} {any : Type}.
Implicit Types s : QRPCServerImpl any.

Lemma maybeDecompress_pack flag zstdFlag w : len w ≤ maxDecoded →
  (flag, zstdFlag) = (REQUEST_FLAG, REQUEST_ZSTD_FLAG) ∨ (flag, zstdFlag) = (EVENT_FLAG, EVENT_ZSTD_FLAG) →
  maybeDecompress (pack flag zstdFlag w).2 (pack flag zstdFlag w).1 = Ok w.
Proof.
  intros Hl Hf. unfold pack. case_go; cbn [fst snd]; unfold maybeDecompress;
    destruct Hf as [[= -> ->]|[= -> ->]]; cbn; unfold DecompressZstd; by rewrite ?DecodeAll_EncodeAll.
Qed.

Lemma decodeFrame_pack flag zstdFlag m :
  (flag, zstdFlag) = (REQUEST_FLAG, REQUEST_ZSTD_FLAG) ∨ (flag, zstdFlag) = (EVENT_FLAG, EVENT_ZSTD_FLAG) →
  Request_wf m → len (Request_wire m) ≤ maxDecoded → unknown_ok Request_known (req_unknownFields m) →
  decodeFrame (pack flag zstdFlag (Request_wire m)).1 (pack flag zstdFlag (Request_wire m)).2 = Ok m.
Proof.
  intros Hf Hm Hl Hu. unfold decodeFrame. rewrite maybeDecompress_pack by done. cbn [map_err].
  by rewrite bind_Ok, decode_Request.
Qed.

Definition request_frame (m : Request) : byte * list byte :=
  pack REQUEST_FLAG REQUEST_ZSTD_FLAG (Request_wire m).
Definition event_frame (m : Request) : byte * list byte :=
  pack EVENT_FLAG EVENT_ZSTD_FLAG (Request_wire m).
Definition response_frame (r : Response) : byte * list byte :=
  pack RESPONSE_FLAG RESPONSE_ZSTD_FLAG (Response_wire r).

Lemma serve_request s m : Request_wf m → len (Request_wire m) ≤ maxDecoded → unknown_ok Request_known (req_unknownFields m) →
  serve s (request_frame m).1 (request_frame m).2 =
    match handlers s !! req_Method m with
    | None => Err (HandlerNotFound (req_Method m))
    | Some h => r ← total (respond h m); Ok (frame (response_frame r))
    end.
Proof.
  intros Hm Hl Hu. unfold serve, request_frame. rewrite decodeFrame_pack by auto.
  unfold pack. by destruct (_ && _).
Qed.

Lemma serve_event s m : Request_wf m → len (Request_wire m) ≤ maxDecoded → unknown_ok Request_known (req_unknownFields m) →
  serve s (event_frame m).1 (event_frame m).2 =
    match eventHandlers s !! req_Method m with
    | None => Ok []
    | Some h => _ ← total (notify h m); Ok []
    end.
Proof.
  intros Hm Hl Hu. unfold serve, event_frame. rewrite decodeFrame_pack by auto.
  unfold pack. by destruct (_ && _).
Qed.

(** What a client can send, and what the server is expected to answer. *)
Inductive call : Type := Rpc (m : Request) | Event (m : Request).

Definition call_frame (x : call) : byte * list byte :=
  match x with Rpc m => request_frame m | Event m => event_frame m end.

Record call_ok (m : Request) (fp : byte * list byte) : Prop := {
  call_wf : Request_wf m;
  call_limit : len (Request_wire m) ≤ maxDecoded;
  call_unknown : unknown_ok Request_known (req_unknownFields m);
  call_short : 1 + len fp.2 < 2 ^ 32
}.

(** An rpc is answered by the response of its handler; an event is not. *)
Inductive answered s : call → list Response → Prop :=
| answered_rpc m h r : call_ok m (request_frame m) → handlers s !! req_Method m = Some h →
    respond h m = Ok r → answered s (Rpc m) [r]
| answered_event m h : call_ok m (event_frame m) → eventHandlers s !! req_Method m = Some h →
    notify h m = Ok tt → answered s (Event m) []
| answered_no_event m : call_ok m (event_frame m) → eventHandlers s !! req_Method m = None →
    answered s (Event m) [].

Lemma serve_answered s x rs : answered s x rs →
  serve s (call_frame x).1 (call_frame x).2 = Ok (mjoin ((frame ∘ response_frame) <$> rs)).
Proof.
  intros [m h r [Hm Hl Hu _] Hh Hr|m h [Hm Hl Hu _] Hh Hr|m [Hm Hl Hu _] Hh]; cbn [call_frame].
  - rewrite serve_request, Hh, Hr by done. cbn. by rewrite app_nil_r.
  - by rewrite serve_event, Hh, Hr by done.
  - by rewrite serve_event, Hh by done.
Qed.

Lemma written_Written reply : written_reply Written reply = Ok tt.
Proof. by destruct reply. Qed.

Lemma serve_frames_answered s wresult n xs rss :
  (∀ n, wresult n = Written) → Forall2 (answered s) xs rss →
  serve_frames s wresult n (call_frame <$> xs) = (mjoin ((frame ∘ response_frame) <$> mjoin rss), Ok tt).
Proof.
  intros Hwr Hxs. revert n. induction Hxs as [|x rs xs rss Hx Hxs IH]; intros n; [done|].
  cbn [serve_frames fmap list_fmap].
  apply serve_answered in Hx. destruct (call_frame x) as [flag payload]. cbn [fst snd] in Hx.
  rewrite Hx, Hwr. rewrite written_Written. cbn [sent].
  change (list_fmap _ _ call_frame xs) with (call_frame <$> xs). rewrite IH.
  change (mjoin (rs :: rss)) with (rs ++ mjoin rss). by rewrite fmap_app, join_app.
Qed.

Lemma answered_short s xs rss : Forall2 (answered s) xs rss →
  Forall (λ fp, 1 + len fp.2 < 2 ^ 32) (call_frame <$> xs).
Proof.
  induction 1 as [|x rs xs rss Hx Hxs IH]; [constructor|]. rewrite fmap_cons. constructor; [|done].
  destruct Hx as [? ? ? []|? ? []|? []]; done.
Qed.
End messages.

(** ** Properties *)

Section properties.
Context `{Protohelpers, !ProtohelpersOk, Zstd, !ZstdOk} {any : Type}.
Context (choose : nat → site → nat) (wresult : nat → wres) (s : QRPCServerImpl any).

(** With messages as values, that is for handlers that leave no array shared
    between two messages, the stream cycle refines the pool-free specification: on
    any bytes, with any contents of the pools and any choice of pooled objects, it answers
    the complete frames of its input in order as [serve] says, ends with the
    return that [serve] or the remaining bytes cause, and keeps the pools clean. *)
Theorem streamReadCycle_refines bs e buff fuel (w : world any) :
  handlers_fit s → world_ok w → (length bs < fuel)%nat →
  ∃ fps tail st, bs = mjoin (frame <$> fps) ++ tail ∧
    (∀ buff, readFrame onHeader onFlag onPayload (mkCycle (mkIn tail e) buff) = Err st) ∧
    let '(out, final) := serve_frames s wresult (w_round w) fps in
    let '(w', r) := streamReadCycle choose wresult s fuel (mkCycle (mkIn bs e) buff) w in
    match final with
    | Ok _ => r = Err st ∧ world_ok w' ∧ w_out w' = w_out w ++ out
    | Err st' => r = Err st' ∧ world_ok w' ∧ w_out w' = w_out w ++ out
    | Panic => r = Panic
    | NoFuel => r = NoFuel
    end.
Proof.
  intros Hh Hw Hfuel. destruct (split_frames onHeader onFlag onPayload bs e) as (fps & tail & st & -> & Hf & Hn & Ht).
  exists fps, tail, st. split; [done|]. split; [done|].
  pose proof (streamReadCycle_spec choose wresult s Hh fps tail e st fuel buff w Hw Hf Ht ltac:(lia)) as Hs.
  destruct (serve_frames s wresult (w_round w) fps) as [out [[]| | |]]; try (destruct Hs as (w' & -> & ? & ?); done).
  - by destruct (streamReadCycle _ _ _ _ _ _).
  - by destruct (streamReadCycle _ _ _ _ _ _).
Qed.

(** Handlers that return on every request. *)
Definition handlers_return : Prop :=
  (∀ method h m, handlers s !! method = Some h → ∃ r, respond h m = Ok r) ∧
  (∀ method h m, eventHandlers s !! method = Some h → ∃ u, notify h m = Ok u).

Lemma decodeFrame_safe flag payload : len payload < 2 ^ 32 → safe (decodeFrame flag payload).
Proof.
  intros Hf. unfold decodeFrame.
  apply bind_safe; [apply map_err_safe; unfold maybeDecompress, DecompressZstd; by repeat case_go|].
  intros data Hd%map_err_Ok. apply map_err_safe, unmarshal_safe; [apply Request_step_ok|].
  apply maxDecoded_fits. by eapply maybeDecompress_fits.
Qed.

Lemma serve_safe flag payload : handlers_return → len payload < 2 ^ 32 → safe (serve s flag payload).
Proof.
  intros [Hr He] Hf. pose proof (decodeFrame_safe flag payload Hf) as Hd. unfold serve.
  repeat case_go; try done.
  - by edestruct Hr as [? ->].
  - by edestruct He as [? ->].
Qed.

Lemma serve_frames_safe n fps : handlers_return →
  Forall (λ fp, 1 + len fp.2 < 2 ^ 32) fps → safe (serve_frames s wresult n fps).2.
Proof.
  intros Hh Hf. revert n. induction Hf as [|[flag payload] fps Hfp Hfps IH]; intros n; [done|]. cbn [serve_frames]. cbn in Hfp.
  pose proof (serve_safe flag payload Hh ltac:(lia)).
  destruct (serve s flag payload) as [reply| | |]; try done. specialize (IH (S n)).
  destruct (written_reply (wresult n) reply) eqn:Ew; [by destruct (serve_frames s wresult (S n) fps)|done|..];
    unfold written_reply in Ew; by repeat case_go.
Qed.

(** C5: no input can stop the process: when the handlers return, the cycle of a
    stream returns on every byte sequence, without a panic, after at most one
    round per byte, and leaves clean pools. *)
Theorem streamReadCycle_total bs e buff fuel (w : world any) :
  handlers_return → handlers_fit s → world_ok w →
  (length bs < fuel)%nat →
  ∃ w' st, streamReadCycle choose wresult s fuel (mkCycle (mkIn bs e) buff) w = (w', Err st) ∧ world_ok w'.
Proof.
  intros Hr Hh Hw Hfuel.
  destruct (split_frames onHeader onFlag onPayload bs e) as (fps & tail & st & -> & Hf & Hn & Ht).
  pose proof (streamReadCycle_spec choose wresult s Hh fps tail e st fuel buff w Hw Hf Ht ltac:(lia)) as Hs.
  pose proof (serve_frames_safe (w_round w) fps Hr Hf) as Hsafe.
  destruct (serve_frames s wresult (w_round w) fps) as [out [[]| | |]]; try done; destruct Hs as (w' & -> & ? & ?); eauto.
Qed.

(** C11: requests and events that arrive on one stream are answered in order:
    each request by exactly one frame, the response of its handler, with the id
    of the request; events by nothing, also when no handler is registered. *)
Theorem server_answers xs rss e buff fuel (w : world any) :
  handlers_fit s → (∀ n, wresult n = Written) → world_ok w →
  Forall2 (answered s) xs rss → (length xs < fuel)%nat →
  ∃ w', streamReadCycle choose wresult s fuel
          (mkCycle (mkIn (mjoin (frame <$> (call_frame <$> xs))) e) buff) w = (w', Err (onHeader e)) ∧
    w_out w' = w_out w ++ mjoin ((frame ∘ response_frame) <$> mjoin rss) ∧
    resp_RequestId <$> mjoin rss = omap (λ x, match x with Rpc m => Some (req_RequestId m) | Event _ => None end) xs.
Proof.
  intros Hh Hwr Hw Hxs Hfuel.
  pose proof (streamReadCycle_spec choose wresult s Hh (call_frame <$> xs) [] e (onHeader e) fuel buff w Hw
    (answered_short s xs rss Hxs) (λ _, eq_refl) ltac:(by rewrite length_fmap)) as Hs.
  rewrite (serve_frames_answered s wresult (w_round w) xs rss Hwr Hxs), app_nil_r in Hs. destruct Hs as (w' & E & _ & Ho).
  exists w'. split_and!; [done..|]. clear -Hxs Hh. induction Hxs as [|x rs xs rss Hx _ IH]; [done|].
  change (mjoin (rs :: rss)) with (rs ++ mjoin rss). rewrite fmap_app, IH.
  destruct Hx as [m h r [[Hid _] Hl _ _] Hm Hr|m h _ _ _|m _ _]; [|done..].
  cbn. by rewrite (proj2 (respond_wf s Hh _ _ _ _ Hm Hid Hl Hr)).
Qed.

(** A request for a method without a handler ends the stream: what follows
    it on the stream is not read and gets no answer, while a frame that cannot
    be decoded is skipped. *)
Theorem unknown_method_ends_stream m bs e buff fuel (w : world any) :
  handlers_fit s → world_ok w →
  call_ok m (request_frame m) → handlers s !! req_Method m = None → (length bs + 1 < fuel)%nat →
  ∃ w', streamReadCycle choose wresult s fuel
          (mkCycle (mkIn (frame (request_frame m) ++ bs) e) buff) w =
          (w', Err (HandlerNotFound (req_Method m))) ∧ w_out w' = w_out w.
Proof.
  intros Hh Hw [Hm Hlim Hu Hl] Hn Hfuel.
  destruct (split_frames onHeader onFlag onPayload bs e) as (fps & tail & st & -> & Hf & Hlen & Ht).
  destruct (request_frame m) as [flag payload] eqn:Ef.
  pose proof (streamReadCycle_spec choose wresult s Hh ((flag, payload) :: fps) tail e st fuel buff w Hw
    ltac:(by constructor) Ht ltac:(simpl; lia)) as Hs.
  pose proof (serve_request s m Hm Hlim Hu) as Hserve. rewrite Ef, Hn in Hserve. cbn [fst snd] in Hserve.
  cbn [serve_frames] in Hs. rewrite Hserve, mjoin_fmap_cons, <- app_assoc in Hs.
  destruct Hs as (w' & E & _ & Ho). exists w'. split; [done|]. by rewrite Ho, app_nil_r.
Qed.

(** C37: a request whose last header has no value stops the process when the
    handler asks for that header: [GetHeader] indexes past the end of the list,
    and nothing recovers the panic. *)
Theorem dangling_header_panics m key d k e buff (w : world any) :
  handlers_fit s → world_ok w →
  call_ok m (request_frame m) → req_Headers m = [key] →
  handlers s !! req_Method m = Some (CallGetHeader key d k) →
  (streamReadCycle choose wresult s 2 (mkCycle (mkIn (frame (request_frame m)) e) buff) w).2 = Panic.
Proof.
  intros Hh Hw [Hm Hlim Hu Hl] Hk Hn. destruct (request_frame m) as [flag payload] eqn:Ef.
  pose proof (streamReadCycle_spec choose wresult s Hh [(flag, payload)] [] e (onHeader e) 2 buff w Hw
    ltac:(by repeat constructor) (λ _, eq_refl) ltac:(simpl; lia)) as Hs.
  pose proof (serve_request s m Hm Hlim Hu) as Hserve. rewrite Ef, Hn in Hserve. cbn [fst snd] in Hserve.
  unfold respond in Hserve. cbn [run] in Hserve.
  erewrite (GetHeader_find key d _ m), Hk in Hserve by reflexivity. cbn [find_header] in Hserve.
  rewrite bool_decide_eq_true_2 in Hserve by done. cbn in Hserve.
  cbn [serve_frames] in Hs. by rewrite Hserve, mjoin_fmap_cons, !app_nil_r in Hs.
Qed.
End properties.

(** ** A sample server, for the witnesses *)

(** The handler of the README: it answers with the body of the request. *)
Definition echo_handler : prog unit true :=
  CallBody (λ b, CallSetBody b (CallSetCode 0 Return)).
Definition sample_server : QRPCServerImpl unit :=
  AddHandler [x65; x63; x68; x6f] echo_handler newServer.
Definition sample_world : world unit :=
  mkWorld [empty_Request] [] [mkCtx None None (Some NewLocals)] [mkBuffer (replicate 8 xaa) 8 0] [] 0.
Definition sample_choose : nat → site → nat := λ _ _, 0%nat.

Lemma respond_echo m :
  respond echo_handler m = Ok (mkResponse (req_RequestId m) 0 [] [] (req_Body m) []).
Proof. done. Qed.

Lemma sample_server_fit : handlers_fit sample_server.
Proof.
  intros method h m r Hh Hl Hr. unfold sample_server, AddHandler in Hh. cbn [handlers] in Hh.
  apply lookup_insert_Some in Hh as [[_ <-]|[_ Hh]]; [|done]. rewrite respond_echo in Hr. injection Hr as <-.
  apply maxDecoded_fits. unfold Response_wire, Request_wire in *. cbn in *. len_lia.
Qed.

Lemma sample_server_return : handlers_return sample_server.
Proof.
  split; intros method h m Hh; unfold sample_server, AddHandler in Hh; cbn [handlers eventHandlers] in Hh; [|done].
  apply lookup_insert_Some in Hh as [[_ <-]|[_ Hh]]; [eauto using respond_echo|done].
Qed.

Lemma sample_world_ok : world_ok sample_world.
Proof. split; repeat constructor. Qed.

Lemma sample_call_ok : call_ok sample_request (request_frame sample_request).
Proof. split; [apply sample_request_wf|by vm_compute|apply sample_request_unknown|by vm_compute]. Qed.

(** A frame cut short after the first one. *)
Lemma streamReadCycle_refines_witness :
  ∃ fps tail st, [x00; x00; x00; x01; x07; x00] = mjoin (frame <$> fps) ++ tail ∧
    (∀ buff, readFrame onHeader onFlag onPayload (mkCycle (mkIn tail IoEOF) buff) = Err st) ∧
    let '(out, final) := serve_frames sample_server (λ _, Written) 0 fps in
    let '(w', r) := streamReadCycle sample_choose (λ _, Written) sample_server 10
      (mkCycle (mkIn [x00; x00; x00; x01; x07; x00] IoEOF) []) sample_world in
    match final with
    | Ok _ => r = Err st ∧ world_ok w' ∧ w_out w' = [] ++ out
    | Err st' => r = Err st' ∧ world_ok w' ∧ w_out w' = [] ++ out
    | Panic => r = Panic
    | NoFuel => r = NoFuel
    end.
Proof.
  apply (streamReadCycle_refines sample_choose (λ _, Written) sample_server
    [x00; x00; x00; x01; x07; x00] IoEOF [] 10 sample_world sample_server_fit sample_world_ok).
  simpl. lia.
Defined.

(** Garbage. *)
Lemma streamReadCycle_total_witness :
  ∃ w' st, streamReadCycle sample_choose (λ _, Failed 3 IoApplication) sample_server 12
    (mkCycle (mkIn [x00; x00; x00; x03; x01; xff; xff; x07] IoIdleTimeout) []) sample_world = (w', Err st) ∧ world_ok w'.
Proof.
  apply (streamReadCycle_total sample_choose (λ _, Failed 3 IoApplication) sample_server
    [x00; x00; x00; x03; x01; xff; xff; x07] IoIdleTimeout [] 12 sample_world
    sample_server_return sample_server_fit sample_world_ok). simpl. lia.
Defined.

(** A request followed by an event nobody listens to. *)
Lemma server_answers_witness :
  ∃ w', streamReadCycle sample_choose (λ _, Written) sample_server 3
          (mkCycle (mkIn (mjoin (frame <$> (call_frame <$> [Rpc sample_request; Event sample_request]))) IoEOF) [])
          sample_world = (w', Err (onHeader IoEOF)) ∧
    w_out w' = [] ++ mjoin ((frame ∘ response_frame) <$> mjoin [[mkResponse 300 0 [] [] [x01; x02] []]; []]) ∧
    resp_RequestId <$> mjoin [[mkResponse 300 0 [] [] [x01; x02] []]; []] = [300].
Proof.
  apply (server_answers sample_choose (λ _, Written) sample_server [Rpc sample_request; Event sample_request]
    [[mkResponse 300 0 [] [] [x01; x02] []]; []] IoEOF [] 3 sample_world sample_server_fit); [done|apply sample_world_ok| |simpl; lia].
  constructor; [|constructor; [|constructor]].
  - apply (answered_rpc _ _ echo_handler); [apply sample_call_ok|reflexivity..].
  - apply answered_no_event; [|reflexivity].
    split; [apply sample_request_wf|by vm_compute|apply sample_request_unknown|by vm_compute].
Defined.

Lemma unknown_method_ends_stream_witness :
  ∃ w', streamReadCycle sample_choose (λ _, Written) newServer 3
          (mkCycle (mkIn (frame (request_frame sample_request) ++ [x00]) IoEOF) []) sample_world =
          (w', Err (HandlerNotFound [x65; x63; x68; x6f])) ∧ w_out w' = [].
Proof.
  apply (unknown_method_ends_stream sample_choose (λ _, Written) newServer sample_request [x00] IoEOF [] 3 sample_world);
    [done|apply sample_world_ok|apply sample_call_ok|reflexivity|simpl; lia].
Defined.

(** A request with the single header "k" to a handler that asks for it. *)
Definition header_request : Request := mkRequest 7 [[x6b]] [x68] [] [].
Definition header_server : QRPCServerImpl unit :=
  AddHandler [x68] (CallGetHeader [x6b] [] (λ _, Return)) newServer.

Lemma header_server_fit : handlers_fit header_server.
Proof.
  intros method h m r Hh Hl Hr. unfold header_server, AddHandler in Hh. cbn [handlers] in Hh.
  apply lookup_insert_Some in Hh as [[_ <-]|[_ Hh]]; [|done].
  unfold respond in Hr. cbn [run] in Hr. erewrite (GetHeader_find [x6b] [] _ m) in Hr by reflexivity.
  destruct (find_header _ _ _); [|done..]. injection Hr as <-. apply maxDecoded_fits.
  unfold Response_wire, Request_wire in *. cbn in *. len_lia.
Qed.

Lemma dangling_header_panics_witness :
  (streamReadCycle sample_choose (λ _, Written) header_server 2
    (mkCycle (mkIn (frame (request_frame header_request)) IoEOF) []) sample_world).2 = Panic.
Proof.
  apply (dangling_header_panics sample_choose (λ _, Written) header_server header_request [x6b] [] (λ _, Return) IoEOF []).
  - apply header_server_fit.
  - apply sample_world_ok.
  - split; [split; vm_compute; intuition congruence|by vm_compute|constructor|by vm_compute].
  - reflexivity.
  - reflexivity.
Defined.
