(* ===== verification/ServerProcess.v ===== *)
(** * The server as a process

    The goroutines of a server together: the accept loop that [NewServer] starts,
    the cycle of each connection, the cycle of each stream, and the goroutine of
    the program that registers the handlers.  The stream cycles share the pools of
    messages, contexts and buffers, and through the messages the arrays of
    Memory.v.  A step of a stream cycle ([advance]) is one access to what is shared:
    taking an object from a pool, decoding, the lookup of a handler, one call of
    the handler, encoding, a release, the write.  The tables of handlers are plain
    Go maps, so an assignment is a step at its beginning and one at its end, and a
    lookup in between stops the process (concurrent map read and map write). *)

From S2P Require Import Prelude Wire WireInstance Schema SchemaFacts Encoder EncoderFacts Stream Ctx Alias Memory MemoryFacts.
From S2P Require Import Server ServerFacts.
From Stdlib Require Import Strings.Byte.

Section process.
Context `{Protohelpers, Zstd} {any : Type}.

(** ** The tables of handlers *)

Record mserver : Type := mkMServer {
  m_handlers : gmap gostring (mprog any true);
  m_eventHandlers : gmap gostring (mprog any false)
}.

Definition new_mserver : mserver := mkMServer ∅ ∅.

(** A call of [AddHandler] or of [AddEventHandler]. *)
Inductive registration : Type :=
| RegHandler (method : gostring) (h : mprog any true)
| RegEvent (method : gostring) (h : mprog any false).

Definition register (r : registration) (s : mserver) : mserver :=
  match r with
  | RegHandler method h => mkMServer (<[method := h]> (m_handlers s)) (m_eventHandlers s)
  | RegEvent method h => mkMServer (m_handlers s) (<[method := h]> (m_eventHandlers s))
  end.

(** The server whose handlers answer with memory of their own. *)
Definition own_server (s : QRPCServerImpl any) : mserver := mkMServer (own <$> handlers s) (own <$> eventHandlers s).

(** ** The state *)

(** What all goroutines share. *)
Record shared : Type := mkShared {
  sh_store : store;
  sh_requests : list mrequest;
  sh_responses : list mresponse;
  sh_ctxs : list (mctx any);
  sh_buffers : list Buffer
}.

Definition set_store (v : store) (sh : shared) : shared :=
  mkShared v (sh_requests sh) (sh_responses sh) (sh_ctxs sh) (sh_buffers sh).
Definition set_requests (v : list mrequest) (sh : shared) : shared :=
  mkShared (sh_store sh) v (sh_responses sh) (sh_ctxs sh) (sh_buffers sh).
Definition set_responses (v : list mresponse) (sh : shared) : shared :=
  mkShared (sh_store sh) (sh_requests sh) v (sh_ctxs sh) (sh_buffers sh).
Definition set_ctxs (v : list (mctx any)) (sh : shared) : shared :=
  mkShared (sh_store sh) (sh_requests sh) (sh_responses sh) v (sh_buffers sh).
Definition set_buffers (v : list Buffer) (sh : shared) : shared :=
  mkShared (sh_store sh) (sh_requests sh) (sh_responses sh) (sh_ctxs sh) v.

(** Where a stream cycle is in its round; an event has no response. *)
Inductive point : Type :=
| Top                                                        (* before the next frame *)
| Begin (rpc : bool) (data : list byte)                      (* the payload, decompressed *)
| GotRequest (data : list byte) (req : mrequest)
| GotMessages (data : list byte) (req : mrequest) (resp : option mresponse)
| Decoded (req : mrequest) (resp : option mresponse)
| Found {r} (h : mprog any r) (req : mrequest) (resp : option mresponse)
| Handling {r} (c : mctx any) (h : mprog any r)              (* the rest of the handler *)
| Handled (req : mrequest) (resp : option mresponse)
| Encoding (resp : mresponse)
| Encoded (resp : mresponse) (r : outcome EncodeErr Buffer)
| Writing (buf : Buffer)
| Flushed (buf : Buffer) (err : option IOErr)                (* after the write *)
| Dropping (req : mrequest) (resp : option mresponse) (st : option stop)
| DroppingResponse (resp : mresponse) (st : option stop).

(** A stream cycle: reading, returned after a frame, or returned because the
    stream ended. *)
Inductive status : Type := Reading | Stopped (st : stop) | Gone (st : stop).

Record stream_state : Type := mkStream {
  st_arrived : list (byte * list byte);   (* the frames the peer has sent *)
  st_next : nat;                          (* how many rounds are over *)
  st_out : list byte;
  st_status : status;
  st_point : point
}.

Definition at_point (pt : point) (x : stream_state) : stream_state :=
  mkStream (st_arrived x) (st_next x) (st_out x) (st_status x) pt.
(** The end of a round: [continue], or [return]. *)
Definition round_over (st : option stop) (x : stream_state) : stream_state :=
  mkStream (st_arrived x) (S (st_next x)) (st_out x) (match st with Some st => Stopped st | None => Reading end) Top.

Context (grow : loc → nat).               (* the spare capacity of a new array *)
Context (wresult : nat → nat → wres).     (* the writes of the streams *)

(** ** The stream cycle *)

Definition is_rpc (flag : byte) : bool := bool_decide (flag = REQUEST_FLAG) || bool_decide (flag = REQUEST_ZSTD_FLAG).
Definition is_event (flag : byte) : bool := bool_decide (flag = EVENT_FLAG) || bool_decide (flag = EVENT_ZSTD_FLAG).

Definition begin (rpc : bool) (flag : byte) (payload : list byte) (x : stream_state) (sh : shared) : go (shared * stream_state) :=
  match maybeDecompress payload flag with
  | Ok data => Ok (sh, at_point (Begin rpc data) x)
  | Err _ => Ok (sh, round_over None x)
  | Panic => Panic
  | NoFuel => NoFuel
  end.

(** One access of the cycle of stream [i] to the shared state; [k] is the choice
    of the pool. *)
Definition advance (s : mserver) (i k : nat) (x : stream_state) (sh : shared) : go (shared * stream_state) :=
  match st_point x with
  | Top =>
      match st_arrived x !! st_next x with
      | Some (flag, payload) =>
          if is_rpc flag then begin true flag payload x sh
          else if is_event flag then begin false flag payload x sh
          else Ok (sh, round_over None x)
      | None => Ok (sh, x)
      end
  | Begin rpc data =>
      let '(req, pool) := pool_get new_mrequest k (sh_requests sh) in
      Ok (set_requests pool sh, at_point (if rpc then GotRequest data req else GotMessages data req None) x)
  | GotRequest data req =>
      let '(resp, pool) := pool_get new_mresponse k (sh_responses sh) in
      Ok (set_responses pool sh, at_point (GotMessages data req (Some resp)) x)
  | GotMessages data req resp =>
      match mRequest_UnmarshalVT grow (sh_store sh, req) data with
      | Ok (σ, req) => Ok (set_store σ sh, at_point (Decoded req resp) x)
      | Err (σ, req, _) => Ok (set_store σ sh, at_point (Dropping req resp None) x)
      | Panic => Panic
      | NoFuel => NoFuel
      end
  | Decoded req resp =>
      let method := vMethod (sh_store sh) (mq_parts req) in
      Ok (sh, at_point
        (match resp with
         | Some resp =>
             match m_handlers s !! method with
             | Some h => Found h req (Some (set_mr_RequestId (mq_RequestId req) resp))
             | None => Dropping req (Some resp) (Some (HandlerNotFound method))
             end
         | None =>
             match m_eventHandlers s !! method with
             | Some h => Found h req None
             | None => Dropping req None None
             end
         end) x)
  | Found h req resp =>
      let '(c, pool) := mNewCtx (Some req) resp k (sh_ctxs sh) in
      Ok (set_ctxs pool sh, at_point (Handling c h) x)
  | Handling c h =>
      if returned h then
        (* the server's own pointers are those of the context *)
        req ← deref (m_req c);
        pool ← mReleaseCtx c (sh_ctxs sh);
        Ok (set_ctxs pool sh, at_point (Handled req (m_resp c)) x)
      else
        '(σ, c, h) ← mstep grow h c (sh_store sh);
        Ok (set_store σ sh, at_point (Handling c h) x)
  | Handled req resp =>
      Ok (set_requests (pool_put (release_mrequest req) (sh_requests sh)) sh,
        match resp with
        | Some resp => at_point (Encoding resp) x
        | None => round_over None x
        end)
  | Encoding resp =>
      let '(pool, r) := EncodeResponse (Some (resp_value (sh_store sh) resp)) k (sh_buffers sh) in
      match r with
      | Panic => Panic
      | NoFuel => NoFuel
      | r => Ok (set_buffers pool sh, at_point (Encoded resp r) x)
      end
  | Encoded resp r =>
      Ok (set_responses (pool_put (release_mresponse resp) (sh_responses sh)) sh,
        match r with
        | Ok buf => at_point (Writing buf) x
        | _ => round_over None x
        end)
  | Writing buf =>
      bytes ← Buffer_Bytes buf;
      Ok (sh, mkStream (st_arrived x) (st_next x) (st_out x ++ sent (wresult i (st_next x)) bytes) (st_status x)
                (Flushed buf (werr (wresult i (st_next x)))))
  | Flushed buf err =>
      Ok (set_buffers (Buffer_Release (Some buf) (sh_buffers sh)) sh, round_over (ResponseWriteError <$> err) x)
  | Dropping req resp st =>
      Ok (set_requests (pool_put (release_mrequest req) (sh_requests sh)) sh,
        match resp with
        | Some resp => at_point (DroppingResponse resp st) x
        | None => round_over st x
        end)
  | DroppingResponse resp st =>
      Ok (set_responses (pool_put (release_mresponse resp) (sh_responses sh)) sh, round_over st x)
  end.

(** The cycle is not waiting for a frame. *)
Definition ready (x : stream_state) : bool :=
  match st_status x, st_point x with
  | Reading, Top => (st_next x <? length (st_arrived x))%nat
  | Reading, _ => true
  | _, _ => false
  end.

(** The next access looks into the table that is being written. *)
Definition collides (r : option registration) (x : stream_state) : bool :=
  match r, st_point x with
  | Some (RegHandler _ _), Decoded _ (Some _) => true
  | Some (RegEvent _ _), Decoded _ None => true
  | _, _ => false
  end.

(** ** The process *)

Record process : Type := mkProcess {
  p_server : mserver;
  p_todo : list registration;             (* calls that are still to be made *)
  p_writing : option registration;        (* the call that is being made *)
  p_listening : option IOErr;             (* the error that ended the accept loop *)
  p_conns : list (option stop);           (* what ended the cycles of the connections *)
  p_shared : shared;
  p_streams : list stream_state
}.

Inductive state : Type := Running (p : process) | Crashed.

Definition set_streams (v : list stream_state) (p : process) : process :=
  mkProcess (p_server p) (p_todo p) (p_writing p) (p_listening p) (p_conns p) (p_shared p) v.
Definition set_shared (v : shared) (p : process) : process :=
  mkProcess (p_server p) (p_todo p) (p_writing p) (p_listening p) (p_conns p) v (p_streams p).
Definition set_conns (v : list (option stop)) (p : process) : process :=
  mkProcess (p_server p) (p_todo p) (p_writing p) (p_listening p) v (p_shared p) (p_streams p).

(** The process after [NewServer], in a program that makes the calls [regs]. *)
Definition empty_shared : shared := mkShared (mkStore ∅ ∅ 0) [] [] [] [].
Definition launched (regs : list registration) : process := mkProcess new_mserver regs None None [] empty_shared [].

Inductive pstep : state → state → Prop :=
(** the program *)
| step_add_begin p r regs :
    p_todo p = r :: regs → p_writing p = None →
    pstep (Running p) (Running (mkProcess (p_server p) regs (Some r) (p_listening p) (p_conns p) (p_shared p) (p_streams p)))
| step_add_end p r :
    p_writing p = Some r →
    pstep (Running p) (Running (mkProcess (register r (p_server p)) (p_todo p) None (p_listening p) (p_conns p) (p_shared p) (p_streams p)))
(** [startListen] *)
| step_accept p :
    p_listening p = None → pstep (Running p) (Running (set_conns (p_conns p ++ [None]) p))
| step_listen_end p err :
    p_listening p = None →
    pstep (Running p) (Running (mkProcess (p_server p) (p_todo p) (p_writing p) (Some err) (p_conns p) (p_shared p) (p_streams p)))
(** [connReadCycle] of connection [c] *)
| step_stream p c :
    p_conns p !! c = Some None →
    pstep (Running p) (Running (set_streams (p_streams p ++ [mkStream [] 0 [] Reading Top]) p))
| step_conn_end p c err :
    p_conns p !! c = Some None →
    pstep (Running p) (Running (set_conns (<[c := Some (if IsTimeoutErr err then PeerDisconnected else AcceptError err)]> (p_conns p)) p))
(** the peer: another frame, or the end of a stream *)
| step_send p i x flag payload :
    p_streams p !! i = Some x → 1 + len payload < 2 ^ 32 →
    pstep (Running p) (Running (set_streams (<[i := mkStream (st_arrived x ++ [(flag, payload)]) (st_next x) (st_out x) (st_status x) (st_point x)]> (p_streams p)) p))
| step_gone p i x err st :
    p_streams p !! i = Some x → st_status x = Reading → st_point x = Top → st ∈ [onHeader err; onFlag err; onPayload err] →
    pstep (Running p) (Running (set_streams (<[i := mkStream (st_arrived x) (st_next x) (st_out x) (Gone st) Top]> (p_streams p)) p))
(** [streamReadCycle] of stream [i] *)
| step_advance p i k x sh x' :
    p_streams p !! i = Some x → ready x = true → collides (p_writing p) x = false →
    advance (p_server p) i k x (p_shared p) = Ok (sh, x') →
    pstep (Running p) (Running (set_shared sh (set_streams (<[i := x']> (p_streams p)) p)))
| step_panic p i k x :
    p_streams p !! i = Some x → ready x = true → collides (p_writing p) x = false →
    advance (p_server p) i k x (p_shared p) = Panic →
    pstep (Running p) Crashed
| step_race p i x :
    p_streams p !! i = Some x → ready x = true → collides (p_writing p) x = true →
    pstep (Running p) Crashed.
End process.
Arguments mserver any : clear implicits.
Arguments process any : clear implicits.
Arguments state any : clear implicits.
Arguments shared any : clear implicits.
Arguments point any : clear implicits.
Arguments stream_state any : clear implicits.

(** ** Runs of one stream cycle *)

Section runs.
Context `{Protohelpers, !ProtohelpersOk, Zstd, !ZstdOk} {any : Type}.
Context (grow : loc → nat) (wresult : nat → nat → wres).
#[local] Abbreviation advance := (advance (any:=any) grow wresult).
#[local] Abbreviation pstep := (pstep (any:=any) grow wresult).

(** The cycle of stream [i] takes steps, with the choices [ks], and nobody else does. *)
Fixpoint advances (s : mserver any) (i : nat) (ks : list nat) (x : stream_state any) (sh : shared any) :
    go (shared any * stream_state any) :=
  match ks with
  | [] => Ok (sh, x)
  | k :: ks =>
      if ready x then '(sh, x) ← advance s i k x sh; advances s i ks x sh
      else Ok (sh, x)
  end.

Lemma advances_cons s i k ks x sh sh1 x1 : ready x = true → advance s i k x sh = Ok (sh1, x1) →
  advances s i (k :: ks) x sh = advances s i ks x1 sh1.
Proof. intros Hr Ha. cbn [advances]. by rewrite Hr, Ha. Qed.

Lemma advances_run p i ks x sh x' : p_streams p !! i = Some x → p_writing p = None →
  advances (p_server p) i ks x (p_shared p) = Ok (sh, x') →
  rtc pstep (Running p) (Running (set_shared sh (set_streams (<[i := x']> (p_streams p)) p))).
Proof.
  revert p x. induction ks as [|k ks IH]; intros p x Hx Hw Ha; cbn [advances] in Ha.
  { injection Ha as <- <-. rewrite list_insert_id by done. by destruct p. }
  destruct (ready x) eqn:Hr.
  - apply bind_Ok_inv in Ha as ([sh1 x1] & E & Ha).
    eapply rtc_l; [eapply (step_advance _ _ p i k x); [done..|by rewrite Hw|exact E]|].
    eapply (IH (set_shared sh1 (set_streams (<[i := x1]> (p_streams p)) p)) x1) in Ha; [|by eapply list_lookup_insert_eq, lookup_lt_Some|done].
    unfold set_shared, set_streams in *. cbn in *. by rewrite list_insert_insert_eq in Ha.
  - injection Ha as <- <-. rewrite list_insert_id by done. by destruct p.
Qed.

(** The cycles of several streams take turns. *)
Fixpoint schedule (s : mserver any) (turns : list (nat * list nat)) (sh : shared any) (xs : list (stream_state any)) :
    go (shared any * list (stream_state any)) :=
  match turns with
  | [] => Ok (sh, xs)
  | (i, ks) :: turns =>
      match xs !! i with
      | Some x => '(sh, x) ← advances s i ks x sh; schedule s turns sh (<[i := x]> xs)
      | None => Ok (sh, xs)
      end
  end.

Lemma schedule_run p turns sh xs : p_writing p = None →
  schedule (p_server p) turns (p_shared p) (p_streams p) = Ok (sh, xs) →
  rtc pstep (Running p) (Running (set_shared sh (set_streams xs p))).
Proof.
  revert p. induction turns as [|[i ks] turns IH]; intros p Hw Ha; cbn [schedule] in Ha.
  { injection Ha as <- <-. by destruct p. }
  destruct (p_streams p !! i) as [x|] eqn:Hx; [|injection Ha as <- <-; by destruct p].
  apply bind_Ok_inv in Ha as ([sh1 x1] & E & Ha).
  etrans; [by eapply (advances_run p i ks x)|].
  by apply (IH (set_shared sh1 (set_streams (<[i := x1]> (p_streams p)) p))).
Qed.

(** The streams after the turns, to evaluate them. *)
Definition outcome_of (s : mserver any) (turns : list (nat * list nat)) (xs : list (stream_state any)) : option (list (stream_state any)) :=
  match schedule s turns empty_shared xs with Ok (_, xs) => Some xs | _ => None end.

Lemma outcome_run p turns xs : p_writing p = None → p_shared p = empty_shared →
  outcome_of (p_server p) turns (p_streams p) = Some xs → ∃ p', rtc pstep (Running p) (Running p') ∧ p_streams p' = xs.
Proof.
  unfold outcome_of. intros Hw Hsh Ho. destruct (schedule _ _ _ _) as [[sh xs']| | |] eqn:E; simplify_eq.
  eexists. split; [eapply schedule_run; [done|by rewrite Hsh]|done].
Qed.

(** New streams on which frames arrive before any is read. *)
Definition arrived_stream (fps : list (byte * list byte)) : stream_state any := mkStream fps 0 [] Reading Top.

Lemma frames_arrive p xs pre fps : p_streams p = xs ++ [arrived_stream pre] → Forall (λ fp, 1 + len fp.2 < 2 ^ 32) fps →
  rtc pstep (Running p) (Running (set_streams (xs ++ [arrived_stream (pre ++ fps)]) p)).
Proof.
  intros Hp Hf. revert p pre Hp. induction Hf as [|[flag payload] fps Hfp Hf IH]; intros p pre Hp.
  { rewrite app_nil_r, <- Hp. by destruct p. }
  eapply rtc_l; [eapply (step_send _ _ p (length xs) (arrived_stream pre) flag payload); [|done]|].
  { rewrite Hp. by apply list_lookup_middle. }
  rewrite Hp, insert_app_r_alt, Nat.sub_diag by done. cbn.
  specialize (IH (set_streams (xs ++ [arrived_stream (pre ++ [(flag, payload)])]) p) (pre ++ [(flag, payload)]) eq_refl).
  by rewrite <- app_assoc in IH.
Qed.

Lemma streams_arrive p fpss : p_conns p !! 0%nat = Some None → p_streams p = [] →
  Forall (Forall (λ fp, 1 + len fp.2 < 2 ^ 32)) fpss →
  rtc pstep (Running p) (Running (set_streams (arrived_stream <$> fpss) p)).
Proof.
  intros Hc He Hf. rewrite <- (app_nil_l (_ <$> _)), <- He. clear He. revert p Hc.
  induction Hf as [|fps fpss Hfps Hf IH]; intros p Hc.
  { rewrite app_nil_r. by destruct p. }
  eapply rtc_l; [by apply (step_stream _ _ p 0)|].
  etrans; [by apply (frames_arrive (set_streams (p_streams p ++ [arrived_stream []]) p) (p_streams p) [] fps)|].
  specialize (IH (set_streams (p_streams p ++ [arrived_stream fps]) p) Hc). cbn in IH. by rewrite <- app_assoc in IH.
Qed.

(** ** Before the handlers are registered *)

Lemma request_flag m : is_rpc (request_frame m).1 = true.
Proof. unfold request_frame, pack. by destruct (_ && _). Qed.

(** The first steps of the first stream with a well-formed request. *)
Lemma first_decoded s m : call_ok m (request_frame m) →
  ∃ sh req, let x := mkStream [request_frame m] 0 [] Reading (Decoded req (Some new_mresponse)) in
    advances s 0 [0; 0; 0; 0]%nat (mkStream [request_frame m] 0 [] Reading Top) empty_shared = Ok (sh, x) ∧
    vMethod (sh_store sh) (mq_parts req) = req_Method m.
Proof.
  intros [Hwf Hlim Hu Hshort].
  pose proof (decodeFrame_pack REQUEST_FLAG REQUEST_ZSTD_FLAG m ltac:(auto) Hwf Hlim Hu) as Hd.
  pose proof (request_flag m) as Hf. fold (request_frame m) in Hd. destruct (request_frame m) as [flag payload]. cbn [fst snd] in *.
  unfold decodeFrame in Hd. destruct (maybeDecompress payload flag) as [data| | |] eqn:Ed; cbn in Hd; [|done..].
  apply map_err_Ok in Hd.
  pose proof (mRequest_unmarshal_sim grow data (mkStore ∅ ∅ 0, new_mrequest)) as Hs.
  change (req_value _ _) with empty_Request in Hs. rewrite Hd in Hs.
  destruct (mRequest_UnmarshalVT _ _ _) as [[σ req]|[[σ req] e]| |] eqn:Em; cbn in Hs;
    try (exfalso; apply Hs; split; [constructor..|done]).
  destruct Hs as [_ Hv]; [split; [constructor..|done]|].
  exists (set_store σ empty_shared), req. cbv zeta. split; [|cbn; by rewrite Hv].
  erewrite advances_cons; [|done|unfold ServerProcess.advance; cbn; by rewrite Hf; unfold begin; rewrite Ed].
  erewrite advances_cons; [|done|reflexivity]. erewrite advances_cons; [|done|reflexivity].
  erewrite advances_cons; [reflexivity|done|unfold ServerProcess.advance; cbn; by rewrite Em].
Qed.

(** C34: [NewServer] accepts connections before any handler is registered, and
    nothing makes the stream cycles wait for the registration.  In a program that
    registers a handler after [NewServer], a peer that calls its method early
    can find no handler, so that its stream is dead although the handler is
    registered in the end, or can make the process crash, because the table is
    read while it is written. *)
Theorem startup_race method h regs m : call_ok m (request_frame m) → req_Method m = method →
  (∃ p, rtc pstep (Running (launched (RegHandler method h :: regs))) (Running p) ∧
     m_handlers (p_server p) !! method = Some h ∧
     p_streams p = [mkStream [request_frame m] 1 [] (Stopped (HandlerNotFound method)) Top]) ∧
  rtc pstep (Running (launched (RegHandler method h :: regs))) Crashed.
Proof.
  intros Hm Hmeth. set (p0 := launched (RegHandler method h :: regs)).
  destruct (first_decoded new_mserver m Hm) as (sh & req & Ha & Hv). cbv zeta in Ha.
  set (xd := mkStream [request_frame m] 0 [] Reading (Decoded req (Some new_mresponse))) in *.
  set (p1 := mkProcess new_mserver (RegHandler method h :: regs) None None [None] sh [xd]).
  assert (rtc pstep (Running p0) (Running p1)) as H01.
  { set (p0' := mkProcess new_mserver (RegHandler method h :: regs) None None [None] empty_shared []).
    eapply rtc_l; [by apply step_accept|]. etrans.
    - apply (streams_arrive p0' [[request_frame m]]); [done..|]. destruct Hm. by repeat constructor.
    - exact (advances_run (set_streams [arrived_stream [request_frame m]] p0') 0 [0; 0; 0; 0]%nat _ _ _ eq_refl eq_refl Ha). }
  split.
  - eexists (mkProcess (register (RegHandler method h) new_mserver) regs None None [None] _ [_]).
    split; [|split; [apply lookup_insert_eq|reflexivity]]. etrans; [exact H01|]. etrans.
    { eapply (advances_run p1 0 [0; 0; 0]%nat xd); [done|done|]. cbn. rewrite Hv, Hmeth. reflexivity. }
    eapply rtc_l; [by eapply step_add_begin|]. eapply rtc_l; [by eapply step_add_end|]. apply rtc_refl.
  - etrans; [exact H01|]. eapply rtc_l; [by eapply step_add_begin|].
    eapply rtc_l; [by apply (step_race _ _ _ 0 xd)|apply rtc_refl].
Qed.
End runs.

Lemma startup_race_witness :
  rtc (pstep (λ _, 0%nat) (λ _ _, Written)) (Running (launched [RegHandler [x65; x63; x68; x6f] (own echo_handler)])) Crashed.
Proof.
  apply (startup_race (λ _, 0%nat) (λ _ _, Written) [x65; x63; x68; x6f] (own echo_handler) [] sample_request); [apply sample_call_ok|reflexivity].
Defined.
