(* ===== verification/ServerIsolation.v ===== *)
(** * Streams of one server do not disturb each other

    The stream cycles of ServerProcess.v share the pools and, through pooled
    messages, arrays.  When the handlers answer with memory of their own
    ([own_server]), every array has one owner at any time, a stream cycle or a
    released message, and each stream is answered as [serve] of ServerFacts.v says,
    in every interleaving ([streams_isolated]).  A handler that answers with the
    headers of its request breaks this: [shared_headers_overwritten]. *)

From S2P Require Import Prelude Wire WireInstance Schema SchemaFacts Encoder EncoderFacts Stream Ctx Alias Memory MemoryFacts.
From S2P Require Import Server ServerFacts ServerProcess.
From Stdlib Require Import Strings.Byte.

Section isolation.
Context `{Protohelpers, !ProtohelpersOk, Zstd, !ZstdOk} {any : Type}.
Context (grow : loc → nat) (wresult : nat → nat → wres) (s : QRPCServerImpl any).
Context (Hfit : handlers_fit s) (Hret : handlers_return s).
#[local] Abbreviation advance := (advance (any:=any) grow wresult).
#[local] Abbreviation pstep := (pstep (any:=any) grow wresult).
Implicit Types (σ : store) (x : stream_state any) (sh : shared any) (pt : point any).

(** ** Who owns which message *)

(** The messages of a stream cycle. *)
Definition pair_parts (req : mrequest) (resp : option mresponse) : list parts :=
  mq_parts req :: option_list (mr_parts <$> resp).
Definition pt_parts pt : list parts :=
  match pt with
  | Top | Begin _ _ | Writing _ | Flushed _ _ => []
  | GotRequest _ req => [mq_parts req]
  | GotMessages _ req resp | Decoded req resp | Found _ req resp | Handled req resp | Dropping req resp _ => pair_parts req resp
  | Handling c _ => ctx_parts c
  | Encoding resp | Encoded resp _ | DroppingResponse resp _ => [mr_parts resp]
  end.

(** The released ones. *)
Definition pool_parts sh : list parts := (mq_parts <$> sh_requests sh) ++ (mr_parts <$> sh_responses sh).

Record pools_clean sh : Prop := {
  pc_requests : Forall (λ m, m = release_mrequest m) (sh_requests sh);
  pc_responses : Forall (λ m, m = release_mresponse m) (sh_responses sh);
  pc_ctxs : Forall (λ c, default NewLocals (m_locals c) = NewLocals) (sh_ctxs sh)
}.

(** ** What a stream cycle will answer *)

(** The reply of a handler that ends in this context. *)
Definition reply_of (c : CtxImpl any) : list byte :=
  match ctx_resp c with Some r => frame (response_frame r) | None => [] end.

Definition handler_calls (flag : byte) (m : Request) : nat :=
  if is_rpc flag then
    match handlers s !! req_Method m with
    | Some h => calls h (mkCtx (Some m) (Some (set_resp_RequestId (req_RequestId m) empty_Response)) (Some NewLocals))
    | None => 0
    end
  else
    match eventHandlers s !! req_Method m with
    | Some h => calls h (mkCtx (Some m) None (Some NewLocals))
    | None => 0
    end.
Definition frame_calls (flag : byte) (payload : list byte) : nat :=
  match decodeFrame flag payload with Ok m => handler_calls flag m | _ => 0 end.

(** The rest of a handler will end well, with the reply that is specified. *)
Definition handler_ok {r} (p : prog any r) (c : CtxImpl any) (reply : outcome stop (list byte)) : Prop :=
  ∃ c', run p c = Ok c' ∧ reply = Ok (reply_of c') ∧ is_Some (ctx_locals c') ∧ is_Some (ctx_req c') ∧
    ∀ resp, ctx_resp c' = Some resp → Response_wf resp.

Definition is_empty_resp σ (resp : option mresponse) : Prop := ∀ m, resp = Some m → resp_value σ m = empty_Response.

(** What a cycle that handles the frame [flag], [payload] has got so far, when at
    most [n] more steps end the round. *)
Definition point_ok σ (flag : byte) (payload : list byte) (n : nat) pt : Prop :=
  match pt with
  | Top => True
  | Begin rpc data => is_rpc flag = rpc ∧ is_rpc flag || is_event flag = true ∧ maybeDecompress payload flag = Ok data ∧
      (11 + frame_calls flag payload ≤ n)%nat
  | GotRequest data req => is_rpc flag = true ∧ maybeDecompress payload flag = Ok data ∧
      req_value σ req = empty_Request ∧ (10 + frame_calls flag payload ≤ n)%nat
  | GotMessages data req resp => is_rpc flag = bool_decide (is_Some resp) ∧ is_rpc flag || is_event flag = true ∧
      maybeDecompress payload flag = Ok data ∧
      req_value σ req = empty_Request ∧ is_empty_resp σ resp ∧ (9 + frame_calls flag payload ≤ n)%nat
  | Decoded req resp => is_rpc flag = bool_decide (is_Some resp) ∧ is_rpc flag || is_event flag = true ∧
      decodeFrame flag payload = Ok (req_value σ req) ∧ is_empty_resp σ resp ∧ (8 + frame_calls flag payload ≤ n)%nat
  | Found h req resp => ∃ p, h = own p ∧
      let c := mkCtx (Some (req_value σ req)) (resp_value σ <$> resp) (Some NewLocals) in
      handler_ok p c (serve s flag payload) ∧ (7 + calls p c ≤ n)%nat
  | Handling c h => ∃ p, h = own p ∧ handler_ok p (vctx σ c) (serve s flag payload) ∧ (6 + calls p (vctx σ c) ≤ n)%nat
  | Handled req resp => (∀ m, resp = Some m → Response_wf (resp_value σ m)) ∧ (5 ≤ n)%nat ∧
      serve s flag payload = Ok (match resp with Some m => frame (response_frame (resp_value σ m)) | None => [] end)
  | Encoding resp => Response_wf (resp_value σ resp) ∧ serve s flag payload = Ok (frame (response_frame (resp_value σ resp))) ∧ (4 ≤ n)%nat
  | Encoded resp r => ∃ buf reply, r = Ok buf ∧ Buffer_Bytes buf = Ok reply :> go _ ∧ serve s flag payload = Ok reply ∧ reply ≠ [] ∧ (3 ≤ n)%nat
  | Writing buf => ∃ reply, Buffer_Bytes buf = Ok reply :> go _ ∧ serve s flag payload = Ok reply ∧ reply ≠ [] ∧ (2 ≤ n)%nat
  | Flushed buf err => (1 ≤ n)%nat
  | Dropping req resp st => serve s flag payload = (match st with Some st => Err st | None => Ok [] end) ∧ (2 ≤ n)%nat
  | DroppingResponse resp st => serve s flag payload = (match st with Some st => Err st | None => Ok [] end) ∧ (1 ≤ n)%nat
  end.

Lemma is_empty_resp_frame σ σ' resp : Forall (same_value σ σ') (option_list (mr_parts <$> resp)) →
  is_empty_resp σ resp → is_empty_resp σ' resp.
Proof. intros Hs He m ->. rewrite <- (He m eq_refl). apply resp_value_same. by inversion Hs. Qed.

Lemma resp_value_frame σ σ' resp : Forall (same_value σ σ') (option_list (mr_parts <$> resp)) →
  resp_value σ' <$> resp = resp_value σ <$> resp.
Proof. destruct resp as [m|]; [|done]. intros Hs. cbn. f_equal. apply resp_value_same. by inversion Hs. Qed.

Lemma vctx_frame σ σ' (c : mctx any) : Forall (same_value σ σ') (ctx_parts c) → vctx σ' c = vctx σ c.
Proof.
  unfold ctx_parts, vctx. rewrite Forall_app. intros [Hr Hq]. f_equal; [|by apply resp_value_frame].
  destruct (m_req c) as [m|]; [|done]. cbn. f_equal. apply req_value_same. by inversion Hq.
Qed.

(** It depends on nothing but its own messages. *)
Lemma point_ok_frame σ σ' flag payload n pt : Forall (same_value σ σ') (pt_parts pt) →
  point_ok σ flag payload n pt → point_ok σ' flag payload n pt.
Proof.
  destruct pt as [ | | data req|data req resp|req resp|r h req resp|r c h|req resp|resp|resp r|buf|buf err|req resp st|resp st];
    cbn; try done; unfold pair_parts; intros Hs.
  - apply Forall_cons in Hs as [Hq _]. by rewrite (req_value_same _ _ _ Hq).
  - apply Forall_cons in Hs as [Hq Hp]. rewrite (req_value_same _ _ _ Hq). naive_solver eauto using is_empty_resp_frame.
  - apply Forall_cons in Hs as [Hq Hp]. rewrite (req_value_same _ _ _ Hq). naive_solver eauto using is_empty_resp_frame.
  - apply Forall_cons in Hs as [Hq Hp]. by rewrite (req_value_same _ _ _ Hq), (resp_value_frame _ _ _ Hp).
  - by rewrite (vctx_frame _ _ _ Hs).
  - apply Forall_cons in Hs as [Hq Hp]. destruct resp as [m|]; [|by intros (_ & ? & ?)].
    assert (resp_value σ' m = resp_value σ m) as E by (apply resp_value_same; by inversion Hp).
    rewrite E. intros (Hw & Hn & He). split_and!; [|done..]. intros m' [= <-]. rewrite E. by apply Hw.
  - apply Forall_cons in Hs as [Hq _]. by rewrite (resp_value_same _ _ _ Hq).
Qed.

(** ** One stream *)

(** The frames whose answers have been written, and how the cycle has ended, or
    will end after the write it has just made. *)
Definition frames_answered x : nat := match st_point x with Flushed _ _ => S (st_next x) | _ => st_next x end.
Definition result x : outcome stop unit :=
  match st_point x, st_status x with
  | Flushed _ (Some e), _ => Err (ResponseWriteError e)
  | _, Stopped st => Err st
  | _, _ => Ok tt
  end.

Record stream_ok σ (i : nat) x (n : nat) : Prop := {
  so_next : (st_next x ≤ length (st_arrived x))%nat;
  so_short : Forall (λ fp, 1 + len fp.2 < 2 ^ 32) (st_arrived x);
  so_served : serve_frames s (wresult i) 0 (take (frames_answered x) (st_arrived x)) = (st_out x, result x);
  so_busy : match st_point x with Top => True | _ => st_status x = Reading ∧ (st_next x < length (st_arrived x))%nat end;
  so_point flag payload : st_arrived x !! st_next x = Some (flag, payload) → point_ok σ flag payload n (st_point x)
}.

Lemma stream_ok_frame σ σ' i x n : Forall (same_value σ σ') (pt_parts (st_point x)) → stream_ok σ i x n → stream_ok σ' i x n.
Proof. intros Hs [? ? ? ? Hp]. split; [done..|]. intros flag payload Hx. eapply point_ok_frame; eauto. Qed.

Lemma serve_frames_snoc wr n fps out flag payload : serve_frames s wr n fps = (out, Ok tt) →
  serve_frames s wr n (fps ++ [(flag, payload)]) =
    match serve s flag payload with
    | Ok reply => (out ++ sent (wr (n + length fps)%nat) reply, written_reply (wr (n + length fps)%nat) reply)
    | Err st => (out, Err st)
    | Panic => (out, Panic)
    | NoFuel => (out, NoFuel)
    end.
Proof.
  revert n out. induction fps as [|[f p] fps IH]; intros n out Hs.
  - cbn in Hs. injection Hs as <-. rewrite Nat.add_0_r. cbn. destruct (serve s flag payload); [|done..].
    destruct (written_reply _ _) as [[]| | |] eqn:E; rewrite ?app_nil_r; done.
  - cbn [serve_frames app] in Hs |- *. destruct (serve s f p) as [reply| | |]; [|done..].
    destruct (written_reply (wr n) reply); [|done..].
    destruct (serve_frames s wr (S n) fps) as [out' r] eqn:E. injection Hs as <- ->.
    rewrite (IH _ _ E), Nat.add_succ_comm. cbn [length].
    destruct (serve s flag payload); rewrite ?app_assoc; done.
Qed.

(** The frame that is being handled, answered. *)
Lemma serve_next i x flag payload : (∀ buf err, st_point x ≠ Flushed buf err) → st_status x = Reading →
  serve_frames s (wresult i) 0 (take (frames_answered x) (st_arrived x)) = (st_out x, result x) →
  st_arrived x !! st_next x = Some (flag, payload) →
  serve_frames s (wresult i) 0 (take (S (st_next x)) (st_arrived x)) =
    match serve s flag payload with
    | Ok reply => (st_out x ++ sent (wresult i (st_next x)) reply, written_reply (wresult i (st_next x)) reply)
    | Err st => (st_out x, Err st)
    | Panic => (st_out x, Panic)
    | NoFuel => (st_out x, NoFuel)
    end.
Proof.
  intros Hpt Hst Hs Hx. unfold frames_answered, result in Hs. rewrite Hst in Hs.
  assert (serve_frames s (wresult i) 0 (take (st_next x) (st_arrived x)) = (st_out x, Ok tt)) as Hs'.
  { destruct (st_point x) eqn:E; try done. by edestruct Hpt. }
  rewrite (take_S_r _ _ _ Hx), (serve_frames_snoc _ _ _ _ _ _ Hs').
  rewrite length_take_le by (apply lookup_lt_Some in Hx; lia). done.
Qed.

(** What a step of the cycle does: it moves on in the round or ends it, it keeps
    the ownership and leaves the messages of the others alone. *)
Definition advanced (i : nat) σ x (n : nat) (F : list parts) (r : go (shared any * stream_state any)) : Prop :=
  ∃ sh' x', r = Ok (sh', x') ∧
    owned (sh_store sh') (pt_parts (st_point x') ++ pool_parts sh' ++ F) ∧
    Forall (same_value σ (sh_store sh')) F ∧ pools_clean sh' ∧ st_arrived x' = st_arrived x ∧
    ((∃ n', stream_ok (sh_store sh') i x' n' ∧ st_next x' = st_next x ∧ st_point x' ≠ Top ∧ (st_point x ≠ Top → (n' < n)%nat)) ∨
     (stream_ok (sh_store sh') i x' 0 ∧ st_next x' = S (st_next x) ∧ st_point x' = Top ∧ ∀ st, st_status x' ≠ Gone st)).

Lemma advanced_at i σ x n n' F sh' pt flag payload : stream_ok σ i x n → st_status x = Reading →
  (∀ buf err, st_point x ≠ Flushed buf err) → st_arrived x !! st_next x = Some (flag, payload) →
  (∀ buf err, pt ≠ Flushed buf err) → pt ≠ Top →
  owned (sh_store sh') (pt_parts pt ++ pool_parts sh' ++ F) → Forall (same_value σ (sh_store sh')) F → pools_clean sh' →
  point_ok (sh_store sh') flag payload n' pt → (st_point x ≠ Top → (n' < n)%nat) →
  advanced i σ x n F (Ok (sh', at_point pt x)).
Proof.
  intros [Hn Hsh Hs Hb Hp] Hst Hpt Hx Hpt' Htop Ho HF Hc Hok Hlt. pose proof (lookup_lt_Some _ _ _ Hx).
  eexists _, _. split; [done|]. split_and!; [done..|]. left. exists n'.
  split; [|done]. split; cbn; [done|done| |by destruct pt|intros ? ? E; congruence].
  unfold frames_answered, result in *. cbn. rewrite Hst in *.
  assert (serve_frames s (wresult i) 0 (take (st_next x) (st_arrived x)) = (st_out x, Ok tt)) as Hs'.
  { destruct (st_point x) eqn:E; try done. by edestruct Hpt. }
  destruct pt; try done. by edestruct Hpt'.
Qed.

Lemma advanced_over i σ x n F sh' st flag payload : stream_ok σ i x n → st_status x = Reading →
  (∀ buf err, st_point x ≠ Flushed buf err) → st_arrived x !! st_next x = Some (flag, payload) →
  owned (sh_store sh') (pool_parts sh' ++ F) → Forall (same_value σ (sh_store sh')) F → pools_clean sh' →
  serve s flag payload = match st with Some st => Err st | None => Ok [] end →
  advanced i σ x n F (Ok (sh', round_over st x)).
Proof.
  intros [Hn Hsh Hs Hb Hp] Hst Hpt Hx Ho HF Hc Hserve. pose proof (lookup_lt_Some _ _ _ Hx).
  pose proof (serve_next _ _ _ _ Hpt Hst Hs Hx) as Hsn. rewrite Hserve in Hsn.
  eexists _, _. split; [done|]. split_and!; [done..|]. right. split; [|split; [done|split; [done|by destruct st]]].
  split; cbn; [lia|done| |done|done]. unfold frames_answered, result. cbn. rewrite Hsn.
  destruct st as [st|]; [done|]. by rewrite sent_nil, app_nil_r.
Qed.


(** ** The specification, by kind of frame *)

Lemma serve_rpc flag payload m : is_rpc flag = true → decodeFrame flag payload = Ok m →
  serve s flag payload =
    match handlers s !! req_Method m with
    | None => Err (HandlerNotFound (req_Method m))
    | Some h => r ← total (respond h m); Ok (frame (response_frame r))
    end.
Proof. intros Hf Hd. unfold serve. unfold is_rpc in Hf. by rewrite Hf, Hd. Qed.

Lemma serve_ev flag payload m : is_rpc flag = false → is_event flag = true → decodeFrame flag payload = Ok m →
  serve s flag payload = match eventHandlers s !! req_Method m with None => Ok [] | Some h => _ ← total (notify h m); Ok [] end.
Proof. intros Hf He Hd. unfold serve. unfold is_rpc, is_event in *. by rewrite Hf, He, Hd. Qed.

Lemma serve_undecodable flag payload : decodeFrame flag payload = Err tt → serve s flag payload = Ok [].
Proof. intros Hd. unfold serve. rewrite Hd. by repeat case_match. Qed.

Lemma serve_other flag payload : is_rpc flag = false → is_event flag = false → serve s flag payload = Ok [].
Proof. intros Hf He. unfold serve. unfold is_rpc, is_event in *. by rewrite Hf, He. Qed.

(** ** Pools *)

Lemma owned_get {A} (f : A → parts) new k pool σ G : f new = nil_parts → owned σ ((f <$> pool) ++ G) →
  owned σ (f (pool_get new k pool).1 :: (f <$> (pool_get new k pool).2) ++ G).
Proof.
  intros Hnew Ho. unfold pool_get. destruct (pool !! k) as [a|] eqn:E; cbn; [|rewrite Hnew; by apply owned_new].
  rewrite (delete_Permutation _ _ _ E) in Ho. exact Ho.
Qed.

Lemma GetRequest_empty σ k pool : Forall (λ m, m = release_mrequest m) pool →
  req_value σ (pool_get new_mrequest k pool).1 = empty_Request ∧ Forall (λ m, m = release_mrequest m) (pool_get new_mrequest k pool).2.
Proof.
  intros Hp. destruct (pool_get_Forall _ new_mrequest k _ eq_refl Hp) as [Hm ?]. split; [|done]. by rewrite Hm.
Qed.
Lemma GetResponse_empty σ k pool : Forall (λ m, m = release_mresponse m) pool →
  resp_value σ (pool_get new_mresponse k pool).1 = empty_Response ∧ Forall (λ m, m = release_mresponse m) (pool_get new_mresponse k pool).2.
Proof.
  intros Hp. destruct (pool_get_Forall _ new_mresponse k _ eq_refl Hp) as [Hm ?]. split; [|done]. by rewrite Hm.
Qed.

(** ** Handlers *)

Lemma decodeFrame_bounds flag payload m : len payload < 2 ^ 32 → decodeFrame flag payload = Ok m →
  0 ≤ req_RequestId m < 2 ^ 64 ∧ len (Request_wire m) ≤ maxDecoded.
Proof.
  intros Hl Hd. unfold decodeFrame in Hd. apply bind_Ok_inv in Hd as (data & Ed%map_err_Ok & Em%map_err_Ok).
  apply maybeDecompress_fits in Ed; [|done].
  apply Request_unmarshal_decoded in Em as [[Hid _] Hml];
    [|by apply maxDecoded_fits|apply (empty_Request_decoded empty_Request)].
  change (len (Request_wire empty_Request)) with 0 in Hml. split; [done|lia].
Qed.

Lemma handler_ok_rpc flag payload m h : len payload < 2 ^ 32 → is_rpc flag = true → decodeFrame flag payload = Ok m →
  handlers s !! req_Method m = Some h →
  handler_ok h (mkCtx (Some m) (Some (set_resp_RequestId (req_RequestId m) empty_Response)) (Some NewLocals)) (serve s flag payload).
Proof.
  intros Hl Hf Hd Hh. destruct (decodeFrame_bounds _ _ _ Hl Hd) as [Hid Hm].
  destruct (proj1 Hret _ _ m Hh) as [r Hr]. destruct (respond_wf s Hfit _ _ _ _ Hh Hid Hm Hr) as [Hwf _].
  rewrite (serve_rpc _ _ _ Hf Hd), Hh, Hr. unfold respond in Hr. apply bind_Ok_inv in Hr as (c' & Hrun & Hc').
  exists c'. split; [done|]. destruct (ctx_resp c') as [r'|] eqn:E; [|done]. injection Hc' as ->.
  pose proof (run_kept _ _ _ Hrun) as [Hq Hlo _ _].
  split_and!; [unfold reply_of; by rewrite E|by apply Hlo|by rewrite Hq|]. intros r' [= <-]. done.
Qed.

Lemma handler_ok_event flag payload m h : is_rpc flag = false → is_event flag = true → decodeFrame flag payload = Ok m →
  eventHandlers s !! req_Method m = Some h →
  handler_ok h (mkCtx (Some m) None (Some NewLocals)) (serve s flag payload).
Proof.
  intros Hf He Hd Hh. rewrite (serve_ev _ _ _ Hf He Hd), Hh. destruct (proj2 Hret _ _ m Hh) as [u Hu].
  rewrite Hu. unfold notify in Hu. apply bind_Ok_inv in Hu as (c' & Hrun & _). exists c'. split; [done|].
  pose proof (kept_none _ _ (run_kept _ _ _ Hrun) eq_refl) as E. unfold reply_of. rewrite E.
  pose proof (run_kept _ _ _ Hrun) as [Hq Hlo _ _]. split_and!; [done|by apply Hlo|by rewrite Hq|done].
Qed.

Lemma returned_own {r} (p : prog any r) : returned (own p) = true → p = Return.
Proof. by destruct p. Qed.

(** ** The steps of a round *)

Section step.
Context (i k n : nat) x sh (F : list parts) (flag : byte) (payload : list byte).
Context (Hx : stream_ok (sh_store sh) i x n) (Hst : st_status x = Reading).
Context (Hfp : st_arrived x !! st_next x = Some (flag, payload)).
Context (Ho : owned (sh_store sh) (pt_parts (st_point x) ++ pool_parts sh ++ F)) (Hc : pools_clean sh).
#[local] Abbreviation moves := (advanced i (sh_store sh) x n F (advance (own_server s) i k x sh)).

Lemma short_payload : len payload < 2 ^ 32.
Proof. pose proof (Forall_lookup_1 _ _ _ _ (so_short _ _ _ _ Hx) Hfp) as Hl. cbn in Hl. lia. Qed.

(** The common cases of a step that stays in the round or ends it. *)
Lemma moves_at sh' pt n' : (∀ buf err, st_point x ≠ Flushed buf err) → (∀ buf err, pt ≠ Flushed buf err) → pt ≠ Top →
  advance (own_server s) i k x sh = Ok (sh', at_point pt x) →
  owned (sh_store sh') (pt_parts pt ++ pool_parts sh' ++ F) ∧ Forall (same_value (sh_store sh) (sh_store sh')) F → pools_clean sh' →
  point_ok (sh_store sh') flag payload n' pt → (st_point x ≠ Top → (n' < n)%nat) → moves.
Proof. intros Hpt Hpt' Ht -> [Ho' HF] ?. by eapply advanced_at. Qed.

Lemma moves_over sh' st : (∀ buf err, st_point x ≠ Flushed buf err) →
  advance (own_server s) i k x sh = Ok (sh', round_over st x) →
  owned (sh_store sh') (pool_parts sh' ++ F) → sh_store sh' = sh_store sh → pools_clean sh' →
  serve s flag payload = match st with Some st => Err st | None => Ok [] end → moves.
Proof.
  intros Hpt -> Ho' Hsame ?. eapply advanced_over; try done. rewrite Hsame. apply same_value_refl.
Qed.

Lemma advance_begin rpc : st_point x = Top → is_rpc flag = rpc → is_rpc flag || is_event flag = true →
  advance (own_server s) i k x sh = begin rpc flag payload x sh → moves.
Proof.
  intros Hpt Hr Hf Ha. unfold begin in Ha. rewrite Hpt in Ho.
  destruct (maybeDecompress payload flag) as [data|e| |] eqn:Ed.
  - apply (moves_at sh (Begin rpc data) (11 + frame_calls flag payload)); [by rewrite Hpt|done|done|exact Ha|split; [exact Ho|apply same_value_refl]|done| |by rewrite Hpt].
    exact (conj Hr (conj Hf (conj Ed (le_n _)))).
  - eapply moves_over; [by rewrite Hpt|exact Ha|exact Ho|done..|]. apply serve_undecodable. unfold decodeFrame. by rewrite Ed.
  - unfold maybeDecompress, DecompressZstd in Ed. by repeat case_go.
  - unfold maybeDecompress, DecompressZstd in Ed. by repeat case_go.
Qed.

Lemma advance_Top : st_point x = Top → moves.
Proof.
  intros Hpt. destruct (is_rpc flag) eqn:Hr; [|destruct (is_event flag) eqn:He].
  - apply (advance_begin true); [done|done|by rewrite Hr|]. unfold ServerProcess.advance. by rewrite Hpt, Hfp, Hr.
  - apply (advance_begin false); [done|done|by rewrite Hr, He|]. unfold ServerProcess.advance. by rewrite Hpt, Hfp, Hr, He.
  - rewrite Hpt in Ho. eapply (moves_over sh None); [by rewrite Hpt| |done..|by apply serve_other].
    unfold ServerProcess.advance. by rewrite Hpt, Hfp, Hr, He.
Qed.

Lemma advance_Begin rpc data : st_point x = Begin rpc data → moves.
Proof.
  intros Hpt. pose proof (so_point _ _ _ _ Hx _ _ Hfp) as Hok. rewrite Hpt in Ho, Hok. cbn in Ho.
  destruct Hok as (Hr & Hf & Hd & Hn). destruct Hc as [Hc1 Hc2 Hc3].
  destruct (GetRequest_empty (sh_store sh) k _ Hc1) as [Hreq Hpool].
  unfold pool_parts in Ho. rewrite <- app_assoc in Ho. apply (owned_get mq_parts new_mrequest k) in Ho; [|done].
  eapply (moves_at (set_requests (pool_get new_mrequest k (sh_requests sh)).2 sh)
    (if rpc then GotRequest data (pool_get new_mrequest k (sh_requests sh)).1
     else GotMessages data (pool_get new_mrequest k (sh_requests sh)).1 None) (pred n));
    [by rewrite Hpt|by destruct rpc|by destruct rpc| | |by split| |lia].
  - unfold ServerProcess.advance. rewrite Hpt. by destruct (pool_get _ _ _).
  - split; [|apply same_value_refl]. unfold pool_parts. cbn. rewrite <- app_assoc. by destruct rpc.
  - destruct rpc; cbn; split_and!; try done; lia.
Qed.

Lemma advance_GotRequest data req : st_point x = GotRequest data req → moves.
Proof.
  intros Hpt. pose proof (so_point _ _ _ _ Hx _ _ Hfp) as Hok. rewrite Hpt in Ho, Hok. cbn in Ho.
  destruct Hok as (Hr & Hd & Hreq & Hn). destruct Hc as [Hc1 Hc2 Hc3].
  destruct (GetResponse_empty (sh_store sh) k _ Hc2) as [Hresp Hpool].
  assert (owned (sh_store sh) ((mr_parts <$> sh_responses sh) ++ mq_parts req :: (mq_parts <$> sh_requests sh) ++ F)) as Ho2.
  { eapply owned_perm; [|exact Ho]. unfold pool_parts. solve_Permutation. }
  apply (owned_get mr_parts new_mresponse k) in Ho2; [|done].
  eapply (moves_at (set_responses (pool_get new_mresponse k (sh_responses sh)).2 sh)
    (GotMessages data req (Some (pool_get new_mresponse k (sh_responses sh)).1)) (pred n));
    [by rewrite Hpt|done|done| | |by split| |lia].
  - unfold ServerProcess.advance. rewrite Hpt. by destruct (pool_get _ _ _).
  - split; [|apply same_value_refl]. eapply owned_perm; [|exact Ho2]. unfold pool_parts, pair_parts. cbn. solve_Permutation.
  - cbn. split_and!; [done|by rewrite Hr|done|done| |lia]. by intros m [= <-].
Qed.

Lemma advance_GotMessages data req resp : st_point x = GotMessages data req resp → moves.
Proof.
  intros Hpt. pose proof (so_point _ _ _ _ Hx _ _ Hfp) as Hok. rewrite Hpt in Ho, Hok. cbn in Ho.
  destruct Hok as (Hr & Hf & Hd & Hreq & Hresp & Hn).
  pose proof (decodeFrame_safe flag payload short_payload) as Hsafe. unfold decodeFrame in Hsafe. rewrite Hd in Hsafe. cbn in Hsafe.
  assert (decodeFrame flag payload = map_err (λ _, tt) (Request_UnmarshalVT empty_Request data)) as Hdf.
  { unfold decodeFrame. rewrite Hd. done. }
  pose proof (mRequest_unmarshal_sim grow data (sh_store sh, req) (owned_cons _ _ _ Ho)) as Hs. cbn [fst snd] in Hs. rewrite Hreq in Hs.
  destruct (mRequest_UnmarshalVT grow (sh_store sh, req) data) as [[σ' req']|[[σ' req'] e]| |] eqn:Em;
    destruct (Request_UnmarshalVT empty_Request data) as [m|[m e']| |]; try done.
  - destruct Hs as [[Hev Hok] ->]. destruct (owned_step _ _ _ _ _ Ho Hev Hok) as [Ho' Hsame].
    apply Forall_app in Hsame as [Hsr HsF]. apply Forall_app in HsF as [_ HsF].
    apply (moves_at (set_store σ' sh) (Decoded req' resp) (pred n)); [by rewrite Hpt|done|done| |by split|by destruct Hc; split| |lia].
    + unfold ServerProcess.advance. by rewrite Hpt, Em.
    + cbn. split_and!; [done|done|done|by eapply is_empty_resp_frame|lia].
  - destruct Hs as [[Hev Hok] _]. destruct (owned_step _ _ _ _ _ Ho Hev Hok) as [Ho' Hsame].
    apply Forall_app in Hsame as [_ HsF]. apply Forall_app in HsF as [_ HsF].
    apply (moves_at (set_store σ' sh) (Dropping req' resp None) (pred n)); [by rewrite Hpt|done|done| |by split|by destruct Hc; split| |lia].
    + unfold ServerProcess.advance. by rewrite Hpt, Em.
    + cbn. split; [by apply serve_undecodable|lia].
Qed.

Lemma advance_Decoded req resp : st_point x = Decoded req resp → moves.
Proof.
  intros Hpt. pose proof (so_point _ _ _ _ Hx _ _ Hfp) as Hok. rewrite Hpt in Ho, Hok. cbn in Ho.
  destruct Hok as (Hr & Hf & Hd & Hresp & Hn). unfold frame_calls in Hn. rewrite Hd in Hn. unfold handler_calls in Hn.
  pose proof (same_value_refl (sh_store sh) F) as HF.
  assert (vMethod (sh_store sh) (mq_parts req) = req_Method (req_value (sh_store sh) req)) as Hm by done.
  destruct resp as [resp|]; cbn in Hr; rewrite Hr in Hn.
  - pose proof (Hresp _ eq_refl) as He. destruct (handlers s !! _) as [h|] eqn:Eh.
    + apply (moves_at sh (Found (own h) req (Some (set_mr_RequestId (mq_RequestId req) resp))) (pred n));
        [by rewrite Hpt|done|done| |by split|done| |lia].
      { unfold ServerProcess.advance. rewrite Hpt, Hm. cbn [own_server m_handlers]. by rewrite lookup_fmap, Eh. }
      exists h. split; [done|]. cbv zeta. cbn [fmap option_fmap option_map].
      change (resp_value (sh_store sh) (set_mr_RequestId ?v resp)) with (set_resp_RequestId v (resp_value (sh_store sh) resp)).
      rewrite He. split; [|cbn in *; lia]. by eapply handler_ok_rpc; [apply short_payload|..].
    + apply (moves_at sh (Dropping req (Some resp) (Some (HandlerNotFound (req_Method (req_value (sh_store sh) req))))) (pred n));
        [by rewrite Hpt|done|done| |by split|done| |lia].
      { unfold ServerProcess.advance. rewrite Hpt, Hm. cbn [own_server m_handlers]. by rewrite lookup_fmap, Eh. }
      split; [|lia]. by rewrite (serve_rpc _ _ _ Hr Hd), Eh.
  - rewrite Hr in Hf. cbn in Hf. destruct (eventHandlers s !! _) as [h|] eqn:Eh.
    + apply (moves_at sh (Found (own h) req None) (pred n)); [by rewrite Hpt|done|done| |by split|done| |lia].
      { unfold ServerProcess.advance. rewrite Hpt, Hm. cbn [own_server m_eventHandlers]. by rewrite lookup_fmap, Eh. }
      exists h. split; [done|]. cbv zeta. split; [|cbn in *; lia]. by eapply handler_ok_event.
    + apply (moves_at sh (Dropping req None None) (pred n)); [by rewrite Hpt|done|done| |by split|done| |lia].
      { unfold ServerProcess.advance. rewrite Hpt, Hm. cbn [own_server m_eventHandlers]. by rewrite lookup_fmap, Eh. }
      split; [|lia]. by rewrite (serve_ev _ _ _ Hr Hf Hd), Eh.
Qed.

Lemma advance_Found {r} (h : mprog any r) req resp : st_point x = Found h req resp → moves.
Proof.
  intros Hpt. pose proof (so_point _ _ _ _ Hx _ _ Hfp) as Hok. rewrite Hpt in Ho, Hok. cbn in Ho.
  destruct Hok as (p & -> & Hh & Hn). destruct Hc as [Hc1 Hc2 Hc3].
  destruct (pool_get_Forall _ (mkMCtx None None None) k _ eq_refl Hc3) as [Hl Hpool].
  apply (moves_at (set_ctxs (mNewCtx (Some req) resp k (sh_ctxs sh)).2 sh)
    (Handling (mNewCtx (Some req) resp k (sh_ctxs sh)).1 (own p)) (pred n)); [by rewrite Hpt|done|done| | | | |lia].
  - unfold ServerProcess.advance. rewrite Hpt. by destruct (mNewCtx _ _ _ _).
  - split; [|apply same_value_refl]. eapply owned_perm; [|exact Ho]. unfold mNewCtx. destruct (pool_get _ _ _). cbn.
    unfold ctx_parts, pair_parts. cbn. destruct resp; cbn; solve_Permutation.
  - unfold mNewCtx. by destruct (pool_get _ _ _).
  - unfold mNewCtx. destruct (pool_get _ _ _) as [c pool]. cbn in *. exists p. split; [done|].
    unfold vctx. cbn. rewrite Hl. split; [done|]. cbn in Hn. lia.
Qed.

Lemma advance_Handling {r} (c : mctx any) (h : mprog any r) : st_point x = Handling c h → moves.
Proof.
  intros Hpt. pose proof (so_point _ _ _ _ Hx _ _ Hfp) as Hok. rewrite Hpt in Ho, Hok. cbn in Ho.
  destruct Hok as (p & -> & (c' & Hrun & Hreply & [l Hl] & [q Hq] & Hwf) & Hn). destruct (returned (own p)) eqn:Er.
  - pose proof (returned_own _ Er) as ->. cbn in Hrun. injection Hrun as <-. cbn in Hl, Hq, Hwf.
    destruct (m_req c) as [req|] eqn:Eq; [|done].
    apply (moves_at (set_ctxs (mkMCtx None None (Some (Locals_Reset l)) :: sh_ctxs sh) sh) (Handled req (m_resp c)) (pred n));
      [by rewrite Hpt|done|done| | | | |lia].
    + unfold ServerProcess.advance. rewrite Hpt, Er, Eq. unfold mReleaseCtx. by rewrite Hl.
    + split; [|apply same_value_refl]. eapply owned_perm; [|exact Ho]. unfold ctx_parts. rewrite Eq. cbn. solve_Permutation.
    + destruct Hc. split; [done..|]. by constructor.
    + cbn in Hn |- *. split_and!; [|lia|].
      * intros m Em. apply Hwf. by rewrite Em.
      * rewrite Hreply. unfold reply_of. cbn. by destruct (m_resp c).
  - pose proof (mstep_sim grow p c (sh_store sh) (pool_parts sh ++ F) Ho Er) as Hs.
    destruct (mstep grow (own p) c (sh_store sh)) as [[[σ' c2] h2]| [] | |] eqn:Em; unfold call_sim in Hs; [|congruence..].
    destruct Hs as (p' & -> & Hrun' & Hcalls & Ho' & [_ HsF]%Forall_app).
    apply (moves_at (set_store σ' sh) (Handling c2 (own p')) (pred n)); [by rewrite Hpt|done|done| |by split|by destruct Hc; split| |lia].
    + unfold ServerProcess.advance. by rewrite Hpt, Er, Em.
    + exists p'. split; [done|]. cbn [sh_store set_store]. split; [|lia]. exists c'. rewrite <- Hrun'.
      split_and!; done || by eexists.
Qed.

(** Releasing a message. *)
Lemma release_request req rest : owned (sh_store sh) (mq_parts req :: rest ++ pool_parts sh ++ F) →
  let sh' := set_requests (pool_put (release_mrequest req) (sh_requests sh)) sh in
  owned (sh_store sh') (rest ++ pool_parts sh' ++ F) ∧ pools_clean sh'.
Proof.
  intros Ho'. split.
  - apply owned_cut in Ho'. eapply owned_perm; [|exact Ho']. unfold pool_parts. cbn. solve_Permutation.
  - destruct Hc. split; cbn; [|done..]. by constructor.
Qed.
Lemma release_response resp : owned (sh_store sh) (mr_parts resp :: pool_parts sh ++ F) →
  let sh' := set_responses (pool_put (release_mresponse resp) (sh_responses sh)) sh in
  owned (sh_store sh') (pool_parts sh' ++ F) ∧ pools_clean sh'.
Proof.
  intros Ho'. split.
  - apply owned_cut in Ho'. eapply owned_perm; [|exact Ho']. unfold pool_parts. cbn. solve_Permutation.
  - destruct Hc. split; cbn; [done| |done]. by constructor.
Qed.

Lemma advance_Handled req resp : st_point x = Handled req resp → moves.
Proof.
  intros Hpt. pose proof (so_point _ _ _ _ Hx _ _ Hfp) as Hok. rewrite Hpt in Ho, Hok. destruct Hok as (Hwf & Hn & Hserve).
  destruct (release_request req _ Ho) as [Ho' Hc']. destruct resp as [resp|].
  - eapply (moves_at _ (Encoding resp) (pred n)); [by rewrite Hpt|done|done| |split; [exact Ho'|apply same_value_refl]|exact Hc'| |lia].
    + unfold ServerProcess.advance. by rewrite Hpt.
    + cbn. split_and!; [by apply Hwf|done|lia].
  - eapply (moves_over _ None); [by rewrite Hpt| |exact Ho'|done|exact Hc'|done]. unfold ServerProcess.advance. by rewrite Hpt.
Qed.

Lemma advance_Encoding resp : st_point x = Encoding resp → moves.
Proof.
  intros Hpt. pose proof (so_point _ _ _ _ Hx _ _ Hfp) as Hok. rewrite Hpt in Ho, Hok. destruct Hok as (Hwf & Hserve & Hn).
  destruct (EncodeResponse_spec _ k (sh_buffers sh) Hwf) as (b & He & _ & Hb).
  apply (moves_at (set_buffers (pool_get new_Buffer k (sh_buffers sh)).2 sh) (Encoded resp (Ok b)) (pred n));
    [by rewrite Hpt|done|done| |split; [exact Ho|apply same_value_refl]|by destruct Hc; split| |lia].
  - unfold ServerProcess.advance. rewrite Hpt, He. done.
  - exists b, (frame (response_frame (resp_value (sh_store sh) resp))). split_and!; [done| |done|done|lia].
    apply slice_Ok. by apply slice_Ok in Hb.
Qed.

Lemma advance_Encoded resp r : st_point x = Encoded resp r → moves.
Proof.
  intros Hpt. pose proof (so_point _ _ _ _ Hx _ _ Hfp) as Hok. rewrite Hpt in Ho, Hok.
  destruct Hok as (buf & reply & -> & Hb & Hserve & Hne & Hn). destruct (release_response resp Ho) as [Ho' Hc'].
  eapply (moves_at _ (Writing buf) (pred n)); [by rewrite Hpt|done|done| |split; [exact Ho'|apply same_value_refl]|exact Hc'| |lia].
  - unfold ServerProcess.advance. by rewrite Hpt.
  - exists reply. split_and!; [done..|lia].
Qed.

Lemma advance_Writing buf : st_point x = Writing buf → moves.
Proof.
  intros Hpt. pose proof (so_point _ _ _ _ Hx _ _ Hfp) as Hok. rewrite Hpt in Ho, Hok.
  destruct Hok as (reply & Hb & Hserve & Hne & Hn). destruct Hx as [Hnx Hsh Hs _ _].
  pose proof (serve_next i x _ _ ltac:(by rewrite Hpt) Hst Hs Hfp) as Hsn. rewrite Hserve in Hsn.
  unfold ServerProcess.advance. rewrite Hpt, Hb. eexists _, _. split; [done|].
  split_and!; [done|apply same_value_refl|done|done|]. left. exists (pred n). split; [|split_and!; [done|done|intros _; lia]].
  split; cbn; [done|done| |split; [done|by eapply lookup_lt_Some]|lia].
  unfold frames_answered, result. cbn. rewrite Hsn, Hst. f_equal. unfold written_reply.
  destruct reply; [done|]. by destruct (werr _).
Qed.

Lemma advance_Flushed buf err : st_point x = Flushed buf err → moves.
Proof.
  intros Hpt. rewrite Hpt in Ho. destruct Hx as [Hnx Hsh Hs Hb _]. unfold frames_answered, result in Hs. rewrite Hpt, Hst in Hs.
  rewrite Hpt in Hb. unfold ServerProcess.advance. rewrite Hpt. eexists _, _. split; [done|].
  split_and!; [exact Ho|apply same_value_refl|by destruct Hc; split|done|]. right. split; [|split; [done|split; [done|by destruct err]]].
  split; cbn; [lia|done| |done|done]. unfold frames_answered, result. cbn. rewrite Hs. by destruct err.
Qed.

Lemma advance_Dropping req resp st : st_point x = Dropping req resp st → moves.
Proof.
  intros Hpt. pose proof (so_point _ _ _ _ Hx _ _ Hfp) as Hok. rewrite Hpt in Ho, Hok. destruct Hok as (Hserve & Hn).
  destruct (release_request req _ Ho) as [Ho' Hc']. destruct resp as [resp|].
  - eapply (moves_at _ (DroppingResponse resp st) (pred n)); [by rewrite Hpt|done|done| |split; [exact Ho'|apply same_value_refl]|exact Hc'| |lia].
    + unfold ServerProcess.advance. by rewrite Hpt.
    + split; [done|lia].
  - eapply (moves_over _ st); [by rewrite Hpt| |exact Ho'|done|exact Hc'|done]. unfold ServerProcess.advance. by rewrite Hpt.
Qed.

Lemma advance_DroppingResponse resp st : st_point x = DroppingResponse resp st → moves.
Proof.
  intros Hpt. pose proof (so_point _ _ _ _ Hx _ _ Hfp) as Hok. rewrite Hpt in Ho, Hok. destruct Hok as (Hserve & Hn).
  destruct (release_response resp Ho) as [Ho' Hc'].
  eapply (moves_over _ st); [by rewrite Hpt| |exact Ho'|done|exact Hc'|done]. unfold ServerProcess.advance. by rewrite Hpt.
Qed.

Lemma advance_moves : moves.
Proof.
  assert (∃ pt, st_point x = pt) as [pt Hpt] by eauto. destruct pt;
    eauto using advance_Top, advance_Begin, advance_GotRequest, advance_GotMessages, advance_Decoded, advance_Found,
      advance_Handling, advance_Handled, advance_Encoding, advance_Encoded, advance_Writing, advance_Flushed,
      advance_Dropping, advance_DroppingResponse.
Qed.
End step.

(** ** All streams *)

Definition stream_parts (xs : list (stream_state any)) : list parts := xs ≫= (pt_parts ∘ st_point).

(** All handlers are registered, no two messages share an array, and the streams
    are served as they should be. *)
Record settled (p : process any) : Prop := {
  se_server : p_server p = own_server s;
  se_todo : p_todo p = [];
  se_writing : p_writing p = None;
  se_clean : pools_clean (p_shared p);
  se_owned : owned (sh_store (p_shared p)) (stream_parts (p_streams p) ++ pool_parts (p_shared p));
  se_streams i x : p_streams p !! i = Some x → ∃ n, stream_ok (sh_store (p_shared p)) i x n
}.

Lemma stream_parts_middle l1 x l2 G :
  stream_parts (l1 ++ x :: l2) ++ G ≡ₚ pt_parts (st_point x) ++ G ++ stream_parts (l1 ++ l2).
Proof. unfold stream_parts. rewrite !bind_app, bind_cons. cbn. solve_Permutation. Qed.

Lemma settled_advance p i k x n : settled p → p_streams p !! i = Some x → stream_ok (sh_store (p_shared p)) i x n →
  ready x = true →
  ∃ sh x', advance (p_server p) i k x (p_shared p) = Ok (sh, x') ∧
    settled (set_shared sh (set_streams (<[i := x']> (p_streams p)) p)) ∧ st_arrived x' = st_arrived x ∧
    ((∃ n', stream_ok (sh_store sh) i x' n' ∧ st_next x' = st_next x ∧ st_point x' ≠ Top ∧ (st_point x ≠ Top → (n' < n)%nat)) ∨
     (st_next x' = S (st_next x) ∧ st_point x' = Top ∧ ∀ st, st_status x' ≠ Gone st)).
Proof.
  intros [Hs Ht Hw Hc Ho Hall] Hx Hok Hr.
  assert (st_status x = Reading ∧ (st_next x < length (st_arrived x))%nat) as [Hst Hlt].
  { pose proof (so_busy _ _ _ _ Hok) as Hb. unfold ready in Hr.
    destruct (st_status x), (st_point x); try done; by apply Nat.ltb_lt in Hr. }
  destruct (lookup_lt_is_Some_2 _ _ Hlt) as [[flag payload] Hfp].
  destruct (list_elem_of_split_length _ _ _ Hx) as (l1 & l2 & Exs & El1).
  rewrite Exs, stream_parts_middle in Ho.
  destruct (advance_moves i k n x (p_shared p) _ flag payload Hok Hst Hfp Ho Hc)
    as (sh & x' & Ha & Ho' & HF & Hc' & Harr & Hstep).
  exists sh, x'. rewrite Hs. split; [done|]. split; [|split; [done|]].
  - assert (<[i := x']> (p_streams p) = l1 ++ x' :: l2) as Eins.
    { rewrite Exs, El1. by rewrite insert_app_r_alt, Nat.sub_diag by done. }
    split; cbn; try done.
    + by rewrite Eins, stream_parts_middle.
    + intros j y Hy. destruct (decide (j = i)) as [->|Hne].
      * rewrite list_lookup_insert_eq in Hy by (by eapply lookup_lt_Some). injection Hy as <-.
        destruct Hstep as [(n' & ? & _)|[? _]]; eauto.
      * rewrite list_lookup_insert_ne in Hy by done. destruct (Hall j y Hy) as [n' Hn']. exists n'.
        eapply stream_ok_frame; [|done]. rewrite Forall_forall in HF |- *. intros q Hq. apply HF.
        unfold stream_parts. apply list_elem_of_bind. exists y. split; [done|].
        rewrite Exs in Hy. apply elem_of_app. apply lookup_app_Some in Hy as [Hy|[Hge Hy]]; [left; by eapply list_elem_of_lookup_2|right].
        destruct (j - length l1)%nat as [|j'] eqn:Ej; [lia|]. by eapply list_elem_of_lookup_2.
  - destruct Hstep as [?|(_ & ? & ? & ?)]; auto.
Qed.

(** A stream cycle that goes on alone ends its round. *)
Lemma settled_finishes n p i x : settled p → p_streams p !! i = Some x → stream_ok (sh_store (p_shared p)) i x n →
  st_point x ≠ Top →
  ∃ sh x', rtc pstep (Running p) (Running (set_shared sh (set_streams (<[i := x']> (p_streams p)) p))) ∧
    st_arrived x' = st_arrived x ∧ st_next x' = S (st_next x) ∧ st_point x' = Top ∧ ∀ st, st_status x' ≠ Gone st.
Proof.
  revert p x. induction (lt_wf n) as [n _ IH]. intros p x Hse Hx Hok Hpt.
  assert (ready x = true) as Hr.
  { pose proof (so_busy _ _ _ _ Hok) as Hb. unfold ready. destruct (st_point x); try done; by destruct Hb as [-> _]. }
  destruct (settled_advance p i 0 x n Hse Hx Hok Hr) as (sh & x1 & Ha & Hse1 & Harr & Hstep).
  assert (pstep (Running p) (Running (set_shared sh (set_streams (<[i := x1]> (p_streams p)) p)))) as Hone.
  { eapply step_advance; [done|done| |done]. by rewrite (se_writing _ Hse). }
  destruct Hstep as [(n' & Hok1 & Hn1 & Hpt1 & Hlt)|(Hn1 & Hpt1 & Hg)]; [|exists sh, x1; by split_and!; [apply rtc_once|..]].
  edestruct (IH n' (Hlt Hpt) _ x1 Hse1) as (sh' & x' & Hrun & Harr' & Hn' & Hpt' & Hg'); [cbn|exact Hok1|done|].
  { by eapply list_lookup_insert_eq, lookup_lt_Some. }
  exists sh', x'. split_and!; [|congruence..|done|done]. eapply rtc_l; [exact Hone|].
  unfold set_shared, set_streams in *. cbn in *. by rewrite list_insert_insert_eq in Hrun.
Qed.

Lemma settled_insert p i x x' n : settled p → p_streams p !! i = Some x → st_point x' = st_point x →
  stream_ok (sh_store (p_shared p)) i x' n → settled (set_streams (<[i := x']> (p_streams p)) p).
Proof.
  intros [Hs Ht Hw Hc Ho Hall] Hx Hpt Hx'. split; cbn; [done..| |].
  - destruct (list_elem_of_split_length _ _ _ Hx) as (l1 & l2 & Exs & El1).
    rewrite Exs, El1, insert_app_r_alt, Nat.sub_diag by done. cbn. rewrite stream_parts_middle, Hpt, <- stream_parts_middle. by rewrite <- Exs.
  - intros j y Hy. apply list_lookup_insert_Some in Hy as [(-> & <- & _)|[_ Hy]]; eauto.
Qed.

Lemma settled_step p g : settled p → pstep (Running p) g → ∃ p', g = Running p' ∧ settled p'.
Proof.
  intros Hse Hstep. pose proof Hse as [Hs Ht Hw Hc Ho Hall].
  inversion Hstep as [? r regs Ht' Hw'|? r Hw'|? Hl|? err Hl|? c Hcn|? c err Hcn|? i x flag payload Hx Hlen|
    ? i x err st Hx Hst Htop _|? i k x sh x' Hx Hr Hcol Ha|? i k x Hx Hr Hcol Ha|? i x Hx Hr Hcol]; subst; try congruence.
  1-2, 4: eexists; split; [done|]; by split.
  - eexists. split; [done|]. split; cbn; [done..| |].
    + rewrite (stream_parts_middle _ _ []), app_nil_r. cbn. by rewrite Permutation_app_comm.
    + intros j y [Hy|[_ Hy]]%lookup_app_Some; [auto|].
      destruct (j - length (p_streams p))%nat; [|done]. injection Hy as <-. exists 0%nat. by split; cbn; [lia|constructor|..].
  - destruct (Hall _ _ Hx) as [n [Hn Hf Hsv Hb Hp]]. eexists. split; [done|]. eapply (settled_insert _ _ _ _ n); [done..|].
    assert (frames_answered x ≤ length (st_arrived x))%nat as Hfa.
    { unfold frames_answered. destruct (st_point x); try done. lia. }
    split; cbn.
    + rewrite length_app. lia.
    + apply Forall_app_2; [done|]. by repeat constructor.
    + unfold frames_answered, result in *. cbn. by rewrite take_app_le.
    + rewrite length_app. destruct (st_point x); try done; destruct Hb; (split; [done|lia]).
    + intros f' p' Hl. destruct (st_point x) eqn:E; [done|..]; apply Hp; rewrite lookup_app_l in Hl by (by destruct Hb); done.
  - destruct (Hall _ _ Hx) as [n [Hn Hf Hsv Hb Hp]]. eexists. split; [done|]. eapply (settled_insert _ _ _ _ n); [done..|].
    split; cbn; [done..| |done|done]. unfold frames_answered, result in *. cbn. by rewrite Htop, Hst in Hsv.
  - destruct (Hall _ _ Hx) as [n Hok]. destruct (settled_advance p i k x n Hse Hx Hok Hr) as (sh' & x2 & Ha' & Hse' & _).
    eexists. split; [done|]. congruence.
  - destruct (Hall _ _ Hx) as [n Hok]. destruct (settled_advance p i k x n Hse Hx Hok Hr) as (sh' & x2 & Ha' & _). congruence.
  - rewrite Hw in Hcol. done.
Qed.

Lemma settled_steps p g : settled p → rtc pstep (Running p) g → ∃ p', g = Running p' ∧ settled p'.
Proof.
  intros Hse Hrun. remember (Running p) as g0 eqn:Hg0. revert p Hse Hg0.
  induction Hrun as [g|g g1 g2 Hstep _ IH]; intros p Hse ->; [by exists p|].
  destruct (settled_step _ _ Hse Hstep) as (p1 & -> & Hse1). by apply (IH p1).
Qed.

Lemma settled_ready p i x : settled p → p_streams p !! i = Some x → st_status x = Reading →
  (st_next x < length (st_arrived x))%nat →
  ∃ sh x', rtc pstep (Running p) (Running (set_shared sh (set_streams (<[i := x']> (p_streams p)) p))) ∧
    st_arrived x' = st_arrived x ∧ st_next x' = S (st_next x) ∧ st_point x' = Top ∧ ∀ st, st_status x' ≠ Gone st.
Proof.
  intros Hse Hx Hst Hlt. destruct (se_streams _ Hse _ _ Hx) as [n Hok].
  assert (st_point x = Top ∨ st_point x ≠ Top) as [Hpt|Hpt] by (destruct (st_point x); auto); [|by eapply settled_finishes].
  assert (ready x = true) as Hr by (unfold ready; rewrite Hst, Hpt; by apply Nat.ltb_lt).
  destruct (settled_advance p i 0 x n Hse Hx Hok Hr) as (sh & x1 & Ha & Hse1 & Harr & Hstep).
  assert (pstep (Running p) (Running (set_shared sh (set_streams (<[i := x1]> (p_streams p)) p)))) as Hone.
  { eapply step_advance; [done|done| |done]. by rewrite (se_writing _ Hse). }
  destruct Hstep as [(n' & Hok1 & Hn1 & Hpt1 & _)|(Hn1 & Hpt1 & Hg)]; [|exists sh, x1; by split_and!; [apply rtc_once|..]].
  edestruct (settled_finishes n' _ i x1 Hse1) as (sh' & x' & Hrun & Harr' & Hn' & Hpt' & Hg'); [cbn|exact Hok1|done|].
  { by eapply list_lookup_insert_eq, lookup_lt_Some. }
  exists sh', x'. split_and!; [|congruence..|done|done]. eapply rtc_l; [exact Hone|].
  unfold set_shared, set_streams in *. cbn in *. by rewrite list_insert_insert_eq in Hrun.
Qed.
(** A stream cycle that goes on alone answers everything that has arrived, when
    the answers to it are replies that can be written. *)
Lemma settled_drains p i x : settled p → p_streams p !! i = Some x → (∀ st, st_status x ≠ Gone st) →
  (∀ n, (serve_frames s (wresult i) 0 (take n (st_arrived x))).2 = Ok tt) →
  ∃ p' x', rtc pstep (Running p) (Running p') ∧ p_streams p' !! i = Some x' ∧
    st_arrived x' = st_arrived x ∧ st_next x' = length (st_arrived x') ∧ st_point x' = Top.
Proof.
  remember (length (st_arrived x) - st_next x)%nat as d eqn:Hd. revert p x Hd.
  induction d as [d IH] using lt_wf_ind. intros p x Hd Hse Hx Hng Hserve.
  destruct (se_streams _ Hse _ _ Hx) as [n Hok]. pose proof (so_served _ _ _ _ Hok) as Hs.
  assert (st_status x = Reading) as Hst.
  { specialize (Hserve (frames_answered x)). rewrite Hs in Hserve. cbn in Hserve. unfold result in Hserve.
    destruct (st_status x) as [|st|st] eqn:E; [done| |by edestruct Hng]. destruct (st_point x); try done. by destruct err. }
  destruct (decide (st_next x < length (st_arrived x))%nat) as [Hlt|Hge].
  - destruct (settled_ready p i x Hse Hx Hst Hlt) as (sh & x1 & Hrun & Harr & Hn & Hpt & Hg).
    destruct (settled_steps _ _ Hse Hrun) as (p1 & [= <-] & Hse1).
    edestruct (IH (length (st_arrived x1) - st_next x1)%nat) as (p' & x' & Hrun' & Hx' & Harr' & ? & ?);
      [rewrite Harr; lia|done|exact Hse1|cbn; by eapply list_lookup_insert_eq, lookup_lt_Some|done|by rewrite Harr|].
    exists p', x'. split_and!; [by etrans|done|congruence|done..].
  - exists p, x. pose proof (so_next _ _ _ _ Hok). pose proof (so_busy _ _ _ _ Hok) as Hb.
    split_and!; [done|done|done|lia|]. destruct (st_point x); try done; lia.
Qed.
End isolation.

(** ** Properties *)

(** The pools of a process in which no two released messages share an array. *)
Definition shared_ok {any} (sh : shared any) : Prop := pools_clean sh ∧ owned (sh_store sh) (pool_parts sh).

Lemma empty_shared_ok {any} : shared_ok (empty_shared : shared any).
Proof. split; [by split; constructor|apply owned_nil]. Qed.

(** C4: streams do not disturb each other, although all stream cycles take their
    messages, contexts and buffers from shared pools and decode into the arrays
    of released messages.  In a server whose handlers return, answer with memory
    of their own and were registered before the first stream, from any pools in
    which no two messages share an array, whatever the order of accepts, of
    arriving frames, of ends of streams and connections and of the single accesses
    of the stream cycles, and whatever objects the pools hand out: the process
    does not crash, every stream has at any time answered exactly as the
    specification of one stream without pools says, and a stream cycle that goes
    on alone ends its round. *)
Theorem streams_isolated `{Protohelpers, !ProtohelpersOk, Zstd, !ZstdOk} {any} grow wresult (s : QRPCServerImpl any) p g :
  handlers_fit s → handlers_return s →
  p_server p = own_server s → p_todo p = [] → p_writing p = None → p_streams p = [] → shared_ok (p_shared p) →
  rtc (pstep grow wresult) (Running p) g →
  ∃ p', g = Running p' ∧ p_server p' = own_server s ∧
  ∀ i x, p_streams p' !! i = Some x →
    serve_frames s (wresult i) 0 (take (frames_answered x) (st_arrived x)) = (st_out x, result x) ∧
    (st_status x = Reading → (st_next x < length (st_arrived x))%nat →
     ∃ sh x', rtc (pstep grow wresult) g (Running (set_shared sh (set_streams (<[i := x']> (p_streams p')) p'))) ∧
       st_arrived x' = st_arrived x ∧ st_next x' = S (st_next x) ∧ st_point x' = Top).
Proof.
  intros Hfit Hret Hs Ht Hw He [Hc Ho] Hrun.
  assert (settled wresult s p) as Hse by (split; [done..| |]; rewrite He; done).
  destruct (settled_steps grow wresult s Hfit Hret _ _ Hse Hrun) as (p' & -> & Hse').
  exists p'. split; [done|]. split; [apply Hse'|]. intros i x Hx. split.
  - destruct (se_streams _ _ _ Hse' _ _ Hx) as [n Hok]. apply Hok.
  - intros Hst Hlt. destruct (settled_ready grow wresult s Hfit Hret p' i x Hse' Hx Hst Hlt) as (sh & x' & ? & ? & ? & ? & _).
    by exists sh, x'.
Qed.

(** ** Two interleaved streams *)

Definition other_request : Request := mkRequest 7 [] [x65; x63; x68; x6f] [xaa; xbb; xcc] [].
Definition reply_to (m : Request) : list byte := frame (response_frame (mkResponse (req_RequestId m) 0 [] [] (req_Body m) [])).
Definition answered_stream (m : Request) : stream_state unit := mkStream [request_frame m] 1 (reply_to m) Reading Top.
Definition echo_process (xs : list (stream_state unit)) : process unit :=
  mkProcess (own_server sample_server) [] None None [None] empty_shared xs.

Abbreviation sample_pstep := (pstep (any:=unit) (λ _, 0%nat) (λ _ _, Written)).

(** The cycle of the first stream stops in the middle of its handler, the second
    one handles a request, and the first one goes on. *)
Lemma interleaved_run : ∃ p', rtc sample_pstep (Running (echo_process [])) (Running p') ∧
  p_streams p' = [answered_stream sample_request; answered_stream other_request].
Proof.
  set (xs := [ [request_frame sample_request]; [request_frame other_request] ]).
  destruct (outcome_run (λ _, 0%nat) (λ _ _, Written) (echo_process (arrived_stream <$> xs))
    [(0, replicate 7 0); (1, replicate 20 0); (0, replicate 20 0)]%nat
    [answered_stream sample_request; answered_stream other_request] eq_refl eq_refl) as (p' & Hrun & Hxs).
  { vm_compute. reflexivity. }
  exists p'. split; [|done]. etrans; [|exact Hrun]. apply (streams_arrive _ _ (echo_process []) xs); [done..|].
  by repeat constructor.
Qed.

Lemma streams_isolated_witness :
  serve_frames sample_server (λ _, Written) 0 [request_frame sample_request] = (reply_to sample_request, Ok tt) ∧
  serve_frames sample_server (λ _, Written) 0 [request_frame other_request] = (reply_to other_request, Ok tt).
Proof.
  destruct interleaved_run as (p1 & Hrun & Hxs).
  destruct (streams_isolated (λ _, 0%nat) (λ _ _, Written) sample_server (echo_process []) _
    sample_server_fit sample_server_return eq_refl eq_refl eq_refl eq_refl empty_shared_ok Hrun) as (p' & E & _ & Hall).
  injection E as <-. split.
  - destruct (Hall 0%nat (answered_stream sample_request)) as [Hs _]; [by rewrite Hxs|]. exact Hs.
  - destruct (Hall 1%nat (answered_stream other_request)) as [Hs _]; [by rewrite Hxs|]. exact Hs.
Defined.

(** ** A handler that answers with the headers of its request *)

(** [c.SetHeaders(c.Headers())] *)
Definition forward_headers : mprog unit true := MHeaders (λ s _, MSetHeaders (UseHeaders s) MReturn).
(** [c.SetHeader("x", "y"); c.SetBody([]byte(c.GetHeader("k", "")))] *)
Definition tag_handler : prog unit true :=
  CallSetHeader [x78] [x79] (CallGetHeader [x6b] [] (λ v, CallSetBody v Return)).

Definition forward_request : Request := mkRequest 1 [[x61]; [x62]] [x66] [] [].
Definition tag_request : Request := mkRequest 2 [[x6b]; [x76]] [x74] [] [].
Definition forwarding_process (xs : list (stream_state unit)) : process unit :=
  mkProcess (mkMServer (<[ [x66] := forward_headers ]> (<[ [x74] := own tag_handler ]> ∅)) ∅) [] None None [None] empty_shared xs.

(** C12: a handler that answers with the headers of its request, as the tests of
    the repository do, breaks the next request of the same stream, whose handler
    shares nothing: after the release the pooled request and the pooled response
    have one array of headers, the next request is decoded into it, and the
    [SetHeader] of its handler appends to it in place.  The handler of [tag_request]
    sets a header and then asks for the header k of its request, which is v; it
    finds nothing, because its own header has overwritten those of the request. *)
Theorem shared_headers_overwritten :
  ∃ p r1 r2, rtc (pstep (λ _, 0%nat) (λ _ _, Written)) (Running (forwarding_process [])) (Running p) ∧
    p_streams p = [mkStream [request_frame forward_request; request_frame tag_request] 2
                     (frame (response_frame r1) ++ frame (response_frame r2)) Reading Top] ∧
    resp_RequestId r2 = req_RequestId tag_request ∧ resp_Body r2 = [] ∧
    ∃ r, respond tag_handler tag_request = Ok r ∧ resp_Body r = [x76].
Proof.
  set (fps := [request_frame forward_request; request_frame tag_request]).
  set (r1 := mkResponse 1 0 [[x61]; [x62]] [] [] []). set (r2 := mkResponse 2 0 [[x78]; [x79]] [] [] []).
  destruct (outcome_run (λ _, 0%nat) (λ _ _, Written) (forwarding_process [arrived_stream fps])
    [(0, replicate 40 0)]%nat [mkStream fps 2 (frame (response_frame r1) ++ frame (response_frame r2)) Reading Top]
    eq_refl eq_refl) as (p' & Hrun & Hxs).
  { vm_compute. reflexivity. }
  exists p', r1, r2. split_and!; [|done..|by eexists].
  etrans; [|exact Hrun]. apply (streams_arrive _ _ (forwarding_process []) [fps]); [done..|]. by repeat constructor.
Qed.
