(* ===== verification/Batcher.v ===== *)
(** * The write batcher of a stream

    Models transport/quic/client/batcher.go.  [Write] and [Flush] decide under the
    mutex and write to the stream after they released it; [Write_locked] and
    [Flush_locked] are the critical sections, and [wstep] interleaves them with the
    writes.  One [Write] of a QUIC stream is one step: the library serialises the
    calls.  Time is a number of nanoseconds. *)

From S2P Require Import Prelude Stream.
From Stdlib Require Import Strings.Byte.

Definition DefaultBatchWindow : Z := 150000.
Definition BatchingEnabled : bool := true.

(** The stream is the one the batcher is kept for. *)
Record Batcher : Type := mkBatcher {
  batch_buf : list byte;
  lastFlush : Z;
  window : Z
}.

Definition NewBatcher (now : Z) : Batcher := mkBatcher [] now DefaultBatchWindow.

(** The part of [Write] before the stream is written: the data that is then
    written, if any. *)
Definition Write_locked (now : Z) (data : list byte) (b : Batcher) : Batcher * option (list byte) :=
  if negb BatchingEnabled then (b, Some data)
  else if len (batch_buf b) =? 0
  then (mkBatcher (batch_buf b) now (window b), Some data)
  else (mkBatcher (batch_buf b ++ data) (lastFlush b) (window b), None).

Definition Flush_locked (now : Z) (b : Batcher) : Batcher * option (list byte) :=
  if negb BatchingEnabled then (b, None)
  else if len (batch_buf b) =? 0 then (b, None)
  else (mkBatcher (take 0 (batch_buf b)) now (window b), Some (batch_buf b)).

Definition Flushed (b : Batcher) : bool := len (batch_buf b) =? 0.

(** The whole calls, with nothing in between: the new state, the bytes that
    reach the stream and the error. *)
Definition finish (r : wres) (p : Batcher * option (list byte)) : Batcher * list byte * option IOErr :=
  match p with
  | (b, Some data) => (b, sent r data, werr r)
  | (b, None) => (b, [], None)
  end.

Definition Write (now : Z) (r : wres) (data : list byte) (b : Batcher) := finish r (Write_locked now data b).
Definition Flush (now : Z) (r : wres) (b : Batcher) := finish r (Flush_locked now b).

(** ** Interleavings *)

(** A goroutine in [Write data] or in [Flush] ([None]): about to write to the
    stream, or returned with its error. *)
Inductive wthread : Type :=
| Writing (arg : option (list byte)) (data : list byte)
| Finished (arg : option (list byte)) (err : option IOErr).

(** The output is the list of the chunks written, with the thread that wrote. *)
Record wconfig : Type := mkWConfig {
  wbatch : Batcher;
  wthreads : gmap nat wthread;
  wout : list (nat * list byte)
}.

Definition winit (now : Z) : wconfig := mkWConfig (NewBatcher now) ∅ [].

Definition enter (arg : option (list byte)) (d : option (list byte)) : wthread :=
  match d with Some data => Writing arg data | None => Finished arg None end.

Inductive wstep : wconfig → wconfig → Prop :=
| wstep_write b ts out t now data : ts !! t = None →
    wstep (mkWConfig b ts out)
      (mkWConfig (Write_locked now data b).1
         (<[t := enter (Some data) (Write_locked now data b).2]> ts) out)
| wstep_flush b ts out t now : ts !! t = None →
    wstep (mkWConfig b ts out)
      (mkWConfig (Flush_locked now b).1 (<[t := enter None (Flush_locked now b).2]> ts) out)
| wstep_stream b ts out t arg data r : ts !! t = Some (Writing arg data) →
    wstep (mkWConfig b ts out)
      (mkWConfig b (<[t := Finished arg (werr r)]> ts) (out ++ [(t, sent r data)])).

(** The buffer is never filled, every thread writes its own argument, and each
    chunk of the output belongs to one returned [Write]. *)
Record winv (g : wconfig) : Prop := {
  winv_buf : batch_buf (wbatch g) = [];
  winv_writing t arg data : wthreads g !! t = Some (Writing arg data) → arg = Some data ∧ t ∉ (wout g).*1;
  winv_none t : wthreads g !! t = None → t ∉ (wout g).*1;
  winv_nodup : NoDup (wout g).*1;
  winv_done t data : wthreads g !! t = Some (Finished (Some data) None) → (t, data) ∈ wout g;
  winv_out t c : (t, c) ∈ wout g → ∃ data err, wthreads g !! t = Some (Finished (Some data) err) ∧ c `prefix_of` data
}.

Lemma winv_init now : winv (winit now).
Proof. split; cbn; try done; try set_solver. constructor. Qed.

Lemma sent_prefix r data : sent r data `prefix_of` data.
Proof. destruct r; cbn; [done|]. apply prefix_take. Qed.

Lemma winv_step g g' : wstep g g' → winv g → winv g'.
Proof.
  intros Hs [Hb Hw Hn Hd Hf Ho]. destruct Hs as [b ts out t now data Ht|b ts out t now Ht|b ts out t arg data r Ht];
    cbn [wbatch wthreads wout] in *; unfold Write_locked, Flush_locked; cbn; rewrite ?Hb; cbn.
  - split; cbn; [done|..|done| |].
    + intros t' arg d H'. destruct (decide (t' = t)) as [->|?]; simplify_map_eq; eauto.
    + intros t' H'. destruct (decide (t' = t)) as [->|?]; simplify_map_eq; eauto.
    + intros t' d H'. destruct (decide (t' = t)) as [->|?]; simplify_map_eq; eauto.
    + intros t' c (d & e & H' & Hp)%Ho. exists d, e. split; [|done].
      rewrite lookup_insert_ne; [done|]. by intros ->; simplify_eq.
  - split; cbn; [done|..|done| |].
    + intros t' arg d H'. destruct (decide (t' = t)) as [->|?]; simplify_map_eq; eauto.
    + intros t' H'. destruct (decide (t' = t)) as [->|?]; simplify_map_eq; eauto.
    + intros t' d H'. destruct (decide (t' = t)) as [->|?]; simplify_map_eq; eauto.
    + intros t' c (d & e & H' & Hp)%Ho. exists d, e. split; [|done].
      rewrite lookup_insert_ne; [done|]. by intros ->; simplify_eq.
  - destruct (Hw _ _ _ Ht) as [-> Hfresh]. split; cbn; [done|..]; rewrite ?fmap_app; cbn.
    + intros t' arg d H'. destruct (decide (t' = t)) as [->|?]; simplify_map_eq.
      destruct (Hw _ _ _ H') as [-> ?]. set_solver.
    + intros t' H'. destruct (decide (t' = t)) as [->|?]; simplify_map_eq. specialize (Hn _ H'). set_solver.
    + apply NoDup_app. split_and!; [done|set_solver|apply NoDup_singleton].
    + intros t' d H'. destruct (decide (t' = t)) as [->|?]; simplify_map_eq; [|set_solver].
      destruct r; [set_solver|done].
    + intros t' c [H'|[= -> ->]%list_elem_of_singleton]%elem_of_app.
      * destruct (Ho _ _ H') as (d & e & Hl & Hp). exists d, e. split; [|done].
        rewrite lookup_insert_ne; [done|]. by intros ->; simplify_eq.
      * exists data, (werr r). split; [by simplify_map_eq|]. apply sent_prefix.
Qed.

(** C23: however the calls interleave, the batcher is a pass-through: its buffer
    is always empty, so [Flush] writes nothing; every [Write] that returned
    without error put its data on the stream exactly once, in one piece; and the
    stream holds nothing else than the data of returned writes, cut short only
    for those that failed. *)
Theorem batcher_pass_through now g : rtc wstep (winit now) g →
  Flushed (wbatch g) = true ∧ NoDup (wout g).*1 ∧
  (∀ t data, wthreads g !! t = Some (Finished (Some data) None) → (t, data) ∈ wout g) ∧
  (∀ t c, (t, c) ∈ wout g → ∃ data err,
     wthreads g !! t = Some (Finished (Some data) err) ∧ c `prefix_of` data).
Proof.
  intros Hg. apply (rtc_invariant _ winv) in Hg as [Hb _ _ ? ? ?]; [|apply winv_init|apply winv_step].
  split_and!; try done. unfold Flushed. by rewrite Hb.
Qed.

(** Two writers and a flush; the second writer reaches the stream first. *)
Lemma batcher_pass_through_witness :
  let g := mkWConfig (mkBatcher [] 2 DefaultBatchWindow)
    {[ 0%nat := Finished (Some [x61]) None; 1%nat := Finished (Some [x62]) None; 2%nat := Finished None None ]}
    [(1%nat, [x62]); (0%nat, [x61])] in
  Flushed (wbatch g) = true ∧ NoDup (wout g).*1 ∧
  (∀ t data, wthreads g !! t = Some (Finished (Some data) None) → (t, data) ∈ wout g) ∧
  (∀ t c, (t, c) ∈ wout g → ∃ data err,
     wthreads g !! t = Some (Finished (Some data) err) ∧ c `prefix_of` data).
Proof.
  intros g. apply (batcher_pass_through 0).
  eapply rtc_l; [apply (wstep_write _ _ _ 0%nat 1 [x61]); reflexivity|].
  eapply rtc_l; [apply (wstep_write _ _ _ 1%nat 2 [x62]); reflexivity|].
  eapply rtc_l; [apply (wstep_flush _ _ _ 2%nat 3); reflexivity|].
  eapply rtc_l; [eapply (wstep_stream _ _ _ 1%nat _ _ Written); reflexivity|].
  eapply rtc_l; [eapply (wstep_stream _ _ _ 0%nat _ _ Written); reflexivity|].
  apply rtc_refl.
Defined.
