(* ===== verification/Multiplexer.v ===== *)
(** * The client multiplexer

    Models transport/quic/client/multiplexer.go: opening the streams of a
    connection, the batchers, and [readCycle], which hands the responses of a
    stream to the channels of the waiting callers.  The map from request ids is
    used through the interface [IdMap].  Its values have the Go type [any]; the
    one [Store] of the program, in client.go, stores a channel of responses, so a
    value is the name of such a channel.  It has room for one response; the
    contents are in [m_chans]. *)

From S2P Require Import Prelude Wire Schema SchemaFacts Encoder EncoderFacts ShardedMap Balancer Stream Ctx Batcher.
From Stdlib Require Import Strings.Byte.

(** A [chan *gen.Response] of capacity one. *)
Abbreviation chan := nat.

Section mux.
Context `{Protohelpers, Zstd} {M : Type} `{!IdMap M chan}.

(** A stream is named by a number. *)
Record mworld : Type := mkMWorld {
  m_balancer : BalancerImpl Z;
  m_batchers : gmap Z Batcher;
  m_chansMap : M;
  m_chans : gmap chan (list Response);
  m_requests : list Request;
  m_responses : list Response;
  m_round : nat
}.

Definition upd_balancer (f : BalancerImpl Z → BalancerImpl Z) (w : mworld) : mworld :=
  mkMWorld (f (m_balancer w)) (m_batchers w) (m_chansMap w) (m_chans w) (m_requests w) (m_responses w) (m_round w).
Definition upd_batchers (f : gmap Z Batcher → gmap Z Batcher) (w : mworld) : mworld :=
  mkMWorld (m_balancer w) (f (m_batchers w)) (m_chansMap w) (m_chans w) (m_requests w) (m_responses w) (m_round w).
Definition upd_chansMap (f : M → M) (w : mworld) : mworld :=
  mkMWorld (m_balancer w) (m_batchers w) (f (m_chansMap w)) (m_chans w) (m_requests w) (m_responses w) (m_round w).
Definition upd_chans (f : gmap chan (list Response) → gmap chan (list Response)) (w : mworld) : mworld :=
  mkMWorld (m_balancer w) (m_batchers w) (m_chansMap w) (f (m_chans w)) (m_requests w) (m_responses w) (m_round w).
Definition upd_requests (f : list Request → list Request) (w : mworld) : mworld :=
  mkMWorld (m_balancer w) (m_batchers w) (m_chansMap w) (m_chans w) (f (m_requests w)) (m_responses w) (m_round w).
Definition upd_responses (f : list Response → list Response) (w : mworld) : mworld :=
  mkMWorld (m_balancer w) (m_batchers w) (m_chansMap w) (m_chans w) (m_requests w) (f (m_responses w)) (m_round w).
Definition upd_round (f : nat → nat) (w : mworld) : mworld :=
  mkMWorld (m_balancer w) (m_batchers w) (m_chansMap w) (m_chans w) (m_requests w) (m_responses w) (f (m_round w)).

(** The runtime's choices: the message a pool hands out in a round, the clock,
    and the result of a write in that round. *)
Variable choose : nat → nat.
Variable clock : nat → Z.
Variable wresult : nat → wres.

(** ** Streams and batchers *)

(** [m.batchers.Load(s)], or a new batcher. *)
Definition GetBatcher (s : Z) : prog_on mworld stop Batcher := λ w,
  match m_batchers w !! s with
  | Some b => (w, Ok b)
  | None => let b := NewBatcher (clock (m_round w)) in (upd_batchers (insert s b) w, Ok b)
  end.

Definition mux_GetStream (w : mworld) : mworld * outcome BalancerErr Z :=
  let '(r, b) := GetStream (m_balancer w) in
  match r with
  | Err err => (upd_balancer (λ _, b) w, Err err)
  | r => (upd_balancer (λ _, b) w, r)
  end.

(** The streams that are closed, and the new state. *)
Definition mux_Close (w : mworld) : list Z * mworld :=
  let '(closed, b) := Reset (m_balancer w) in (closed, upd_balancer (λ _, b) w).

(** [start]: [opened n] is the result of the [n]th call of [OpenStream].  The
    counter [i] is a [uint16]; after an error it is decremented and then
    incremented again.  Returns the streams whose read cycle is started. *)
Fixpoint start_loop (opened : nat → option Z) (c : Z) (fuel : nat) (i : Z) (n : nat) (w : mworld) :
    mworld * outcome Empty_set (list Z) :=
  if i <? c then
    match fuel with
    | O => (w, NoFuel)
    | S fuel =>
        match opened n with
        | None => let i := u16 (i - 1) in start_loop opened c fuel (u16 (i + 1)) (S n) w
        | Some s =>
            let w := upd_balancer (AddStream s) w in
            let w := upd_batchers (insert s (NewBatcher (clock n))) w in
            let '(w, r) := start_loop opened c fuel (u16 (i + 1)) (S n) w in
            (w, spawned ← r; Ok (s :: spawned))
        end
    end
  else (w, Ok []).

Definition start (opened : nat → option Z) (c : Z) (fuel : nat) (w : mworld) :
    mworld * outcome Empty_set (list Z) := start_loop opened c fuel 0 0 w.

(** ** The read cycle *)

Definition mux_maybeDecompress (data : list byte) (flag : byte) : outcome EncodeErr (list byte) :=
  if bool_decide (flag = REQUEST_ZSTD_FLAG) || bool_decide (flag = RESPONSE_ZSTD_FLAG) ||
     bool_decide (flag = EVENT_ZSTD_FLAG)
  then DecompressZstd data else Ok data.

Definition mux_getRequest : prog_on mworld stop Request := λ w,
  let '(req, p) := GetRequest (choose (m_round w)) (m_requests w) in (upd_requests (λ _, p) w, Ok req).
Definition mux_getResponse : prog_on mworld stop Response := λ w,
  let '(resp, p) := GetResponse (choose (m_round w)) (m_responses w) in (upd_responses (λ _, p) w, Ok resp).
Definition mux_releaseRequest (req : Request) : prog_on mworld stop unit :=
  modify (upd_requests (λ p, (ReleaseRequest req p).2)).
Definition mux_releaseResponse (resp : Response) : prog_on mworld stop unit :=
  modify (upd_responses (λ p, (ReleaseResponse resp p).2)).

Definition loadAndDelete (id : Z) : prog_on mworld stop (option chan) := λ w,
  let '(v, m) := im_LoadAndDelete id (m_chansMap w) in (upd_chansMap (λ _, m) w, Ok v).

(** [select { case ch <- resp: ... default: ... }] on a channel with room for
    one; true when the value was sent. *)
Definition trySend (ch : nat) (resp : Response) : prog_on mworld stop bool := λ w,
  if len (default [] (m_chans w !! ch)) <? 1
  then (upd_chans (insert ch (default [] (m_chans w !! ch) ++ [resp])) w, Ok true)
  else (w, Ok false).

(** The case of a response. *)
Definition onResponse (flag : byte) (reqBuff : list byte) : prog_on mworld stop unit :=
  with_err (mux_maybeDecompress reqBuff flag) (λ _, mret tt) (λ data,
  resp ← mux_getResponse;
  with_err (Response_UnmarshalVT resp data) (λ '(resp, _), mux_releaseResponse resp) (λ resp,
  v ← loadAndDelete (resp_RequestId resp);
  match v with
  | Some ch =>
      taken ← trySend ch resp;
      if taken : bool then mret tt else mux_releaseResponse resp
  | None => mux_releaseResponse resp
  end)).

(** The case of a request: the type assertion [v.(chan *gen.Request)] panics on
    a channel of responses. *)
Definition onRequest (flag : byte) (reqBuff : list byte) : prog_on mworld stop unit :=
  with_err (mux_maybeDecompress reqBuff flag) (λ _, mret tt) (λ data,
  req ← mux_getRequest;
  with_err (Request_UnmarshalVT req data) (λ '(req, _), mux_releaseRequest req) (λ req,
  v ← loadAndDelete (req_RequestId req);
  match v with
  | Some _ => lift Panic
  | None => mux_releaseRequest req
  end)).

(** The case of an event: it is only logged. *)
Definition onEvent (flag : byte) (reqBuff : list byte) : prog_on mworld stop unit :=
  with_err (mux_maybeDecompress reqBuff flag) (λ _, mret tt) (λ data,
  req ← mux_getRequest;
  with_err (Request_UnmarshalVT req data) (λ '(req, _), mux_releaseRequest req) (λ req,
  mux_releaseRequest req)).

Definition mux_dispatch (flag : byte) (reqBuff : list byte) : prog_on mworld stop unit :=
  if bool_decide (flag = RESPONSE_FLAG) || bool_decide (flag = RESPONSE_ZSTD_FLAG)
  then onResponse flag reqBuff
  else if bool_decide (flag = REQUEST_FLAG) || bool_decide (flag = REQUEST_ZSTD_FLAG)
  then onRequest flag reqBuff
  else if bool_decide (flag = EVENT_FLAG) || bool_decide (flag = EVENT_ZSTD_FLAG)
  then onEvent flag reqBuff
  else mret tt.

(** [m.GetBatcher(s).Flush()] at the head of the loop. *)
Definition flushBatcher (s : Z) : prog_on mworld stop unit := λ w,
  match GetBatcher s w with
  | (w, Ok b) =>
      let '(b, _, err) := Flush (clock (m_round w)) (wresult (m_round w)) b in
      let w := upd_batchers (insert s b) w in
      match err with Some e => (w, Err (FlushError e)) | None => (w, Ok tt) end
  | (w, Err e) => (w, Err e)
  | (w, Panic) => (w, Panic)
  | (w, NoFuel) => (w, NoFuel)
  end.

Definition mux_onError (readError : IOErr → stop) (err : IOErr) : stop :=
  if IsTimeoutErr err then PeerDisconnected
  else if isApplicationErr err then ClosedByPeer
  else readError err.

Definition mux_readFrame : cycle → outcome stop (byte * list byte * cycle) :=
  readFrame (mux_onError HeaderReadError) (mux_onError FlagReadError) (mux_onError PayloadReadError).

Fixpoint readCycle_loop (s : Z) (fuel : nat) (c : cycle) : prog_on mworld stop Empty_set :=
  match fuel with
  | O => lift NoFuel
  | S fuel =>
      flushBatcher s;;
      '(flag, data, c) ← lift (mux_readFrame c);
      mux_dispatch flag data;;
      modify (upd_round S);;
      readCycle_loop s fuel c
  end.

(** [defer m.batchers.Delete(s)] runs on the return and on a panic. *)
Definition readCycle (s : Z) (fuel : nat) (c : cycle) : prog_on mworld stop Empty_set := λ w,
  let '(w, r) := readCycle_loop s fuel c w in (upd_batchers (delete s) w, r).
End mux.
Arguments mworld M : clear implicits.
