(* ===== verification/MultiplexerFacts.v ===== *)
(** * Correctness of the multiplexer

    [start] opens the requested number of streams in spite of errors; [readCycle]
    refines a pool-free specification ([receive]) over the map of the waiting
    channels and their contents. *)

From S2P Require Import Prelude Wire WireInstance Schema SchemaFacts Encoder EncoderFacts ShardedMap Balancer Stream Ctx Batcher Multiplexer.
From Stdlib Require Import Strings.Byte.

Lemma omap_cons {A B} (f : A → option B) x l :
  omap f (x :: l) = match f x with Some y => y :: omap f l | None => omap f l end.
Proof. done. Qed.

Section streams.
Context {M : Type} `{!IdMap M chan}.
Context (clock : nat → Z) (opened : nat → option Z).

Lemma AddStream_snapshot (s : Z) b : snapshot (AddStream s b) = snapshot b ++ [s].
Proof. unfold AddStream. cbn. by rewrite firstn_all. Qed.

(** The wrap of the counter below zero is undone by the increment. *)
Lemma u16_dec_inc i : 0 ≤ i < 2 ^ 16 → u16 (u16 (i - 1) + 1) = i.
Proof. intros Hi. unfold u16. rewrite Zplus_mod_idemp_l, Z.mod_small; lia. Qed.

Lemma start_loop_spec (c : Z) k n i fuel (w : mworld M) : 0 ≤ i ≤ c → c < 2 ^ 16 → (k ≤ fuel)%nat →
  i + len (omap opened (seq n k)) = c →
  ∃ w', start_loop clock opened c fuel i n w = (w', Ok (omap opened (seq n k))) ∧
    snapshot (m_balancer w') = snapshot (m_balancer w) ++ omap opened (seq n k) ∧
    (∀ s, s ∈ omap opened (seq n k) ∨ is_Some (m_batchers w !! s) → is_Some (m_batchers w' !! s)) ∧
    m_chansMap w' = m_chansMap w ∧ m_chans w' = m_chans w.
Proof.
  intros Hi Hc. revert n i w Hi k. induction fuel as [|fuel IH]; intros n i w Hi k Hk Hlen.
  - destruct k; [|lia]. cbn in *. rewrite len_nil in Hlen. rewrite (proj2 (Z.ltb_ge i c)) by lia.
    exists w. rewrite app_nil_r. split_and!; try done. by intros s [[]%elem_of_nil|?].
  - cbn [start_loop]. destruct (i <? c) eqn:Hic; z_bools.
    2: { assert (omap opened (seq n k) = []) as -> by (apply len_0_nil; len_lia).
         exists w. rewrite app_nil_r. split_and!; try done. by intros s [[]%elem_of_nil|?]. }
    destruct k as [|k]; [cbn in Hlen; rewrite len_nil in Hlen; lia|].
    cbn [seq] in *. rewrite omap_cons in *. destruct (opened n) as [s|].
    + rewrite len_cons in Hlen. pose proof (len_nonneg (omap opened (seq (S n) k))).
      assert (u16 (i + 1) = i + 1) as -> by (unfold u16; apply Z.mod_small; lia).
      edestruct (λ w, IH (S n) (i + 1) w ltac:(lia) k ltac:(lia) ltac:(lia)) as (w' & -> & Hsn & Hb & Hm & Hcs).
      exists w'. split; [done|]. rewrite Hsn, Hm, Hcs.
      cbn [m_balancer upd_batchers upd_balancer m_chansMap m_chans]. rewrite AddStream_snapshot, <- app_assoc. split_and!; try done.
      intros s' Hs'. apply Hb. destruct (decide (s' = s)) as [->|?]; [right|].
      * cbn. by rewrite lookup_insert_eq.
      * destruct Hs' as [[->|?]%elem_of_cons|?]; [done|by left|right]. cbn. by rewrite lookup_insert_ne.
    + cbn zeta. rewrite u16_dec_inc by lia. by apply IH; [lia|lia|].
Qed.

(** C24: [start] survives failures of [OpenStream], also at the first stream,
    where the unsigned counter wraps: when the first [n] attempts have [c]
    successes, it ends, with exactly those streams given to the balancer in
    order, each with a batcher and a read cycle. *)
Theorem start_opens_all (c : Z) n fuel (w : mworld M) : 0 ≤ c < 2 ^ 16 → (n ≤ fuel)%nat →
  len (omap opened (seq 0 n)) = c →
  ∃ w', start clock opened c fuel w = (w', Ok (omap opened (seq 0 n))) ∧
    snapshot (m_balancer w') = snapshot (m_balancer w) ++ omap opened (seq 0 n) ∧
    (∀ s, s ∈ omap opened (seq 0 n) → is_Some (m_batchers w' !! s)).
Proof.
  intros Hc Hn Hlen. destruct (start_loop_spec c n 0 0 fuel w) as (w' & E & Hs & Hb & _); [lia..|].
  exists w'. split_and!; [done..|]. intros s Hin. apply Hb. by left.
Qed.
End streams.

Lemma start_opens_all_witness :
  let opened n := match n with 1%nat => Some 11 | 4%nat => Some 44 | _ => None end in
  ∃ w', start (M:=ShardedMap nat) (λ _, 0) opened 2 9 (mkMWorld NewBalancer ∅ im_new ∅ [] [] 0) =
      (w', Ok [11; 44]) ∧
    snapshot (m_balancer w') = [11; 44] ∧
    (∀ s, s ∈ [11; 44] → is_Some (m_batchers w' !! s)).
Proof.
  intros opened. apply (start_opens_all (λ _, 0) opened 2 5 9 (mkMWorld NewBalancer ∅ im_new ∅ [] [] 0));
    [lia|lia|reflexivity].
Defined.

(** ** Specification of the read cycle *)

(** The callers that wait, by request id, and what their channels hold. *)
Record inbox : Type := mkInbox { waiting : gmap Z chan; boxes : gmap chan (list Response) }.

(** A response goes to the channel that waits for its id, once; a response
    nobody waits for is dropped, and so is one that finds the channel full. *)
Definition deliver (r : Response) (b : inbox) : inbox :=
  match waiting b !! resp_RequestId r with
  | None => b
  | Some ch =>
      mkInbox (delete (resp_RequestId r) (waiting b))
        (if len (default [] (boxes b !! ch)) <? 1
         then <[ch := default [] (boxes b !! ch) ++ [r]]> (boxes b) else boxes b)
  end.

Section spec.
Context `{Protohelpers, Zstd}.

Definition decodeResponse (flag : byte) (payload : list byte) : outcome unit Response :=
  data ← map_err (λ _, tt) (mux_maybeDecompress payload flag);
  map_err (λ _, tt) (Response_UnmarshalVT empty_Response data).
Definition decodeRequest (flag : byte) (payload : list byte) : outcome unit Request :=
  data ← map_err (λ _, tt) (mux_maybeDecompress payload flag);
  map_err (λ _, tt) (Request_UnmarshalVT empty_Request data).

(** What a frame does to the inbox. *)
Definition receive (flag : byte) (payload : list byte) (b : inbox) : outcome stop inbox :=
  if bool_decide (flag = RESPONSE_FLAG) || bool_decide (flag = RESPONSE_ZSTD_FLAG) then
    match decodeResponse flag payload with
    | Ok r => Ok (deliver r b)
    | Err _ => Ok b
    | Panic => Panic
    | NoFuel => NoFuel
    end
  else if bool_decide (flag = REQUEST_FLAG) || bool_decide (flag = REQUEST_ZSTD_FLAG) then
    match decodeRequest flag payload with
    | Ok m => match waiting b !! req_RequestId m with Some _ => Panic | None => Ok b end
    | Err _ => Ok b
    | Panic => Panic
    | NoFuel => NoFuel
    end
  else Ok b.

Fixpoint receive_frames (fps : list (byte * list byte)) (b : inbox) : outcome stop inbox :=
  match fps with
  | [] => Ok b
  | (flag, payload) :: fps => b ← receive flag payload b; receive_frames fps b
  end.
End spec.

Section refinement.
Context `{Protohelpers, !ProtohelpersOk, Zstd, !ZstdOk} {M : Type} `{!IdMap M chan, !IdMapOk M chan}.
Context (choose : nat → nat) (clock : nat → Z) (wresult : nat → wres).
Implicit Types w : mworld M.

Record mworld_ok w : Prop := {
  mok_map : im_inv (m_chansMap w);
  mok_requests : Forall (eq empty_Request) (m_requests w);
  mok_responses : Forall (eq empty_Response) (m_responses w);
  mok_batchers : map_Forall (λ _ b, batch_buf b = []) (m_batchers w)
}.

Definition inbox_of w : inbox := mkInbox (im_view (m_chansMap w)) (m_chans w).

(** The frame of a call: it keeps the invariant and leaves the inbox alone. *)
Definition quiet w w' : Prop := mworld_ok w' ∧ inbox_of w' = inbox_of w.

Lemma mux_getRequest_spec w : mworld_ok w →
  ∃ w', mux_getRequest choose w = (w', Ok empty_Request) ∧ quiet w w'.
Proof.
  intros [Hm Hq Hp Hb]. unfold mux_getRequest.
  destruct (GetRequest_clean (choose (m_round w)) _ Hq) as [He Hf].
  destruct (GetRequest _ _) as [req p]. cbn in *. subst. eexists. split; [done|]. by split.
Qed.

Lemma mux_getResponse_spec w : mworld_ok w →
  ∃ w', mux_getResponse choose w = (w', Ok empty_Response) ∧ quiet w w'.
Proof.
  intros [Hm Hq Hp Hb]. unfold mux_getResponse.
  destruct (GetResponse_clean (choose (m_round w)) _ Hp) as [He Hf].
  destruct (GetResponse _ _) as [resp p]. cbn in *. subst. eexists. split; [done|]. by split.
Qed.

Lemma mux_releaseRequest_spec req w : mworld_ok w →
  ∃ w', mux_releaseRequest req w = (w', Ok tt) ∧ quiet w w'.
Proof.
  intros [Hm Hq Hp Hb]. eexists. split; [done|]. split; [|done]. split; cbn; auto using ReleaseRequest_clean.
Qed.

Lemma mux_releaseResponse_spec resp w : mworld_ok w →
  ∃ w', mux_releaseResponse resp w = (w', Ok tt) ∧ quiet w w'.
Proof.
  intros [Hm Hq Hp Hb]. eexists. split; [done|]. split; [|done]. split; cbn; auto using ReleaseResponse_clean.
Qed.

Lemma loadAndDelete_spec id w : mworld_ok w → 0 ≤ id < 2 ^ 64 →
  ∃ w', loadAndDelete id w = (w', Ok (waiting (inbox_of w) !! id)) ∧ mworld_ok w' ∧
    inbox_of w' = mkInbox (delete id (waiting (inbox_of w))) (boxes (inbox_of w)).
Proof.
  intros [Hm Hq Hp Hb] Hid. unfold loadAndDelete.
  destruct (im_LoadAndDelete_ok id (m_chansMap w) Hid Hm) as (Hl & Hi & Hv).
  destruct (im_LoadAndDelete id (m_chansMap w)) as [v m]. cbn in *. subst v.
  eexists. split; [done|]. split; [by split|]. unfold inbox_of. cbn. by rewrite Hv.
Qed.

(** With empty buffers, flushing writes nothing. *)
Lemma flushBatcher_spec s w : mworld_ok w →
  ∃ w', flushBatcher clock wresult s w = (w', Ok tt) ∧ quiet w w'.
Proof.
  intros [Hm Hq Hp Hb]. unfold flushBatcher, GetBatcher.
  destruct (m_batchers w !! s) as [b|] eqn:E; unfold Flush, Flush_locked; cbn.
  - rewrite (Hb s b E). cbn. eexists. split; [done|]. split; [|done]. split; cbn; try done.
    rewrite insert_id; done.
  - eexists. split; [done|]. split; [|done]. split; cbn; try done.
    by do 2 (apply map_Forall_insert_2; [done|]).
Qed.

Lemma mux_maybeDecompress_limit flag payload data :
  len payload < 2 ^ 32 → mux_maybeDecompress payload flag = Ok data → fits data.
Proof.
  intros Hf. unfold mux_maybeDecompress, DecompressZstd. repeat case_go; try done.
  - intros [= <-]. apply DecodeAll_limit in Heqo. unfold fits, maxDecoded in *. lia.
  - intros [= <-]. unfold fits. lia.
Qed.

(** The last call of a case. *)
Ltac last_call lem := edestruct lem as (?w & ?E & ?Hw & ?Hi); [eassumption|];
  eexists; split; [eassumption|]; split; [done|]; congruence.

Definition implements (c : prog_on (mworld M) stop unit) (w : mworld M) (spec : outcome stop inbox) : Prop :=
  match spec with
  | Ok b => ∃ w', c w = (w', Ok tt) ∧ mworld_ok w' ∧ inbox_of w' = b
  | Err e => ∃ w', c w = (w', Err e) ∧ mworld_ok w'
  | Panic => (c w).2 = Panic
  | NoFuel => (c w).2 = NoFuel
  end.

Lemma onResponse_spec flag payload w : mworld_ok w → len payload < 2 ^ 32 →
  implements (onResponse choose flag payload) w
    match decodeResponse flag payload with
    | Ok r => Ok (deliver r (inbox_of w)) | Err _ => Ok (inbox_of w) | Panic => Panic | NoFuel => NoFuel
    end.
Proof.
  intros Hw Hl. unfold decodeResponse, onResponse.
  destruct (mux_maybeDecompress payload flag) as [data|e| |] eqn:Ed; cbn [with_err map_err];
    [|by exists w|done..].
  rewrite bind_Ok. apply mux_maybeDecompress_limit in Ed; [|done]. unfold implements.
  edestruct mux_getResponse_spec as (w1 & E1 & Hw1 & Hi1); [exact Hw|].
  rewrite (prog_bind_Ok _ _ _ _ _ E1).
  destruct (Response_UnmarshalVT empty_Response data) as [r|[r e]| |] eqn:Em; cbn [with_err map_err]; [| |done..].
  2: last_call mux_releaseResponse_spec.
  apply Response_unmarshal_decoded in Em as [[Hid _] _]; [|done|apply (empty_Response_decoded empty_Response)].
  destruct (loadAndDelete_spec _ w1 Hw1 Hid) as (w2 & E2 & Hw2 & Hi2).
  rewrite (prog_bind_Ok _ _ _ _ _ E2). rewrite Hi1 in Hi2 |- *. unfold deliver.
  destruct (waiting (inbox_of w) !! resp_RequestId r) as [ch|] eqn:Ew.
  - assert (m_chans w2 = boxes (inbox_of w)) as Hc by (by injection Hi2).
    assert (im_view (m_chansMap w2) = delete (resp_RequestId r) (waiting (inbox_of w))) as Hv by (by injection Hi2).
    unfold trySend, mbind, prog_on_bind. rewrite Hc. destruct (_ <? 1).
    + eexists. split; [reflexivity|]. destruct Hw2. split; [by split|]. unfold inbox_of. cbn. by rewrite Hv, Hc.
    + last_call mux_releaseResponse_spec.
  - destruct (mux_releaseResponse_spec r w2 Hw2) as (w3 & E3 & Hw3 & Hi3). eexists. split; [exact E3|].
    split; [done|]. rewrite Hi3, Hi2, delete_id by done. by destruct (inbox_of w).
Qed.

Lemma onRequest_spec flag payload w : mworld_ok w → len payload < 2 ^ 32 →
  implements (onRequest choose flag payload) w
    match decodeRequest flag payload with
    | Ok m => match waiting (inbox_of w) !! req_RequestId m with Some _ => Panic | None => Ok (inbox_of w) end
    | Err _ => Ok (inbox_of w) | Panic => Panic | NoFuel => NoFuel
    end.
Proof.
  intros Hw Hl. unfold decodeRequest, onRequest.
  destruct (mux_maybeDecompress payload flag) as [data|e| |] eqn:Ed; cbn [with_err map_err];
    [|by exists w|done..].
  rewrite bind_Ok. apply mux_maybeDecompress_limit in Ed; [|done]. unfold implements.
  edestruct mux_getRequest_spec as (w1 & E1 & Hw1 & Hi1); [exact Hw|].
  rewrite (prog_bind_Ok _ _ _ _ _ E1).
  destruct (Request_UnmarshalVT empty_Request data) as [m|[m e]| |] eqn:Em; cbn [with_err map_err]; [| |done..].
  2: last_call mux_releaseRequest_spec.
  apply Request_unmarshal_decoded in Em as [[Hid _] _]; [|done|apply (empty_Request_decoded empty_Request)].
  destruct (loadAndDelete_spec _ w1 Hw1 Hid) as (w2 & E2 & Hw2 & Hi2).
  rewrite (prog_bind_Ok _ _ _ _ _ E2). rewrite Hi1 in Hi2 |- *.
  destruct (waiting (inbox_of w) !! req_RequestId m) as [ch|] eqn:Ew; [done|].
  destruct (mux_releaseRequest_spec m w2 Hw2) as (w3 & E3 & Hw3 & Hi3). eexists. split; [exact E3|].
  split; [done|]. rewrite Hi3, Hi2, delete_id by done. by destruct (inbox_of w).
Qed.

Lemma onEvent_spec flag payload w : mworld_ok w → len payload < 2 ^ 32 →
  implements (onEvent choose flag payload) w (Ok (inbox_of w)).
Proof.
  intros Hw Hl. unfold onEvent.
  destruct (mux_maybeDecompress payload flag) as [data|e| |] eqn:Ed; cbn [with_err];
    [|by exists w|unfold mux_maybeDecompress, DecompressZstd in Ed; by repeat case_go..].
  apply mux_maybeDecompress_limit in Ed; [|done]. unfold implements.
  edestruct mux_getRequest_spec as (w1 & E1 & Hw1 & Hi1); [exact Hw|].
  rewrite (prog_bind_Ok _ _ _ _ _ E1).
  pose proof (unmarshal_safe _ Request_step_ok empty_Request data Ed) as Hs.
  change (unmarshal Request_step) with Request_UnmarshalVT in Hs.
  destruct (Request_UnmarshalVT empty_Request data) as [m|[m e]| |] eqn:Em; cbn [with_err]; [| |done..];
    last_call mux_releaseRequest_spec.
Qed.

Lemma mux_dispatch_spec flag payload w : mworld_ok w → len payload < 2 ^ 32 →
  implements (mux_dispatch choose flag payload) w (receive flag payload (inbox_of w)).
Proof.
  intros Hw Hl. unfold mux_dispatch, receive.
  destruct (_ || _); [by apply onResponse_spec|].
  destruct (bool_decide (flag = REQUEST_FLAG) || _); [by apply onRequest_spec|].
  destruct (_ || _); [by apply onEvent_spec|]. by exists w.
Qed.

Lemma readCycle_loop_spec s fps tail e st fuel buff w :
  mworld_ok w → Forall (λ fp, 1 + len fp.2 < 2 ^ 32) fps →
  (∀ buff, mux_readFrame (mkCycle (mkIn tail e) buff) = Err st) → (length fps < fuel)%nat →
  let '(w', r) := readCycle_loop choose clock wresult s fuel
    (mkCycle (mkIn (mjoin (frame <$> fps) ++ tail) e) buff) w in
  match receive_frames fps (inbox_of w) with
  | Ok b => r = Err st ∧ mworld_ok w' ∧ inbox_of w' = b
  | Err st' => r = Err st' ∧ mworld_ok w'
  | Panic => r = Panic
  | NoFuel => r = NoFuel
  end.
Proof.
  intros Hw Hfps Htail. revert fuel buff w Hw. induction Hfps as [|[flag payload] fps Hfp Hfps IH];
    intros fuel buff w Hw Hfuel; (destruct fuel as [|fuel]; [simpl in Hfuel; lia|]);
    cbn [readCycle_loop receive_frames]; destruct (flushBatcher_spec s w Hw) as (w0 & E0 & Hw0 & Hi0);
    rewrite (prog_bind_Ok _ _ _ _ _ E0).
  - erewrite prog_bind_Err by (unfold lift; by rewrite Htail). done.
  - rewrite mjoin_fmap_cons, <- app_assoc. unfold mux_readFrame at 1.
    edestruct readFrame_frame as (buff' & Hr & _); [exact Hfp|].
    erewrite prog_bind_Ok by (unfold lift; by rewrite Hr). cbv beta iota. cbn in Hfp.
    pose proof (mux_dispatch_spec flag payload w0 Hw0 ltac:(lia)) as Hd. rewrite Hi0 in Hd.
    destruct (receive flag payload (inbox_of w)) as [b|st'| |]; cbn [implements] in Hd.
    + destruct Hd as (w1 & E1 & Hw1 & Hi1). rewrite (prog_bind_Ok _ _ _ _ _ E1), bind_Ok.
      erewrite prog_bind_Ok by reflexivity. rewrite <- Hi1.
      apply (IH fuel buff' (upd_round S w1)); [by destruct Hw1|simpl in Hfuel; lia].
    + destruct Hd as (w1 & E1 & Hw1). by rewrite (prog_bind_Err _ _ _ _ _ E1).
    + unfold mbind, prog_on_bind. by destruct (mux_dispatch _ _ _ _) as [? []].
    + unfold mbind, prog_on_bind. by destruct (mux_dispatch _ _ _ _) as [? []].
Qed.

(** C6: the read cycle of a stream refines the pool-free specification: on any
    bytes, from any clean pools, it processes the complete frames in order as
    [receive] says, ends with the return the remaining bytes cause, or with the
    panic [receive] predicts, and forgets the batcher of the stream. *)
Theorem readCycle_refines s bs e buff fuel w : mworld_ok w → (length bs < fuel)%nat →
  ∃ fps tail st, bs = mjoin (frame <$> fps) ++ tail ∧
    (∀ buff, mux_readFrame (mkCycle (mkIn tail e) buff) = Err st) ∧
    let '(w', r) := readCycle choose clock wresult s fuel (mkCycle (mkIn bs e) buff) w in
    m_batchers w' !! s = None ∧
    match receive_frames fps (inbox_of w) with
    | Ok b => r = Err st ∧ mworld_ok w' ∧ inbox_of w' = b
    | Err st' => r = Err st' ∧ mworld_ok w'
    | Panic => r = Panic
    | NoFuel => r = NoFuel
    end.
Proof.
  intros Hw Hfuel. unfold readCycle.
  destruct (split_frames (mux_onError HeaderReadError) (mux_onError FlagReadError)
    (mux_onError PayloadReadError) bs e) as (fps & tail & st & -> & Hf & Hn & Ht).
  exists fps, tail, st. split; [done|]. split; [done|].
  pose proof (readCycle_loop_spec s fps tail e st fuel buff w Hw Hf Ht ltac:(lia)) as Hs.
  destruct (readCycle_loop _ _ _ _ _ _ _) as [w' r]. split; [cbn; apply lookup_delete_eq|].
  assert (mworld_ok w' → mworld_ok (upd_batchers (delete s) w')) as Hdel.
  { intros [? ? ? Hb]. split; cbn; try done. by apply map_Forall_delete. }
  destruct (receive_frames fps (inbox_of w)); destruct_and?; auto.
Qed.

(** ** Streams of responses *)

Lemma mux_maybeDecompress_pack (flag zstdFlag : byte) (d : list byte) : len d ≤ maxDecoded →
  (flag, zstdFlag) = (REQUEST_FLAG, REQUEST_ZSTD_FLAG) ∨ (flag, zstdFlag) = (RESPONSE_FLAG, RESPONSE_ZSTD_FLAG) →
  mux_maybeDecompress (pack flag zstdFlag d).2 (pack flag zstdFlag d).1 = Ok d.
Proof.
  intros Hl Hf. unfold pack, mux_maybeDecompress, DecompressZstd.
  destruct Hf as [[= -> ->]|[= -> ->]]; (destruct (_ && _); cbn; [by rewrite DecodeAll_EncodeAll|done]).
Qed.

(** A response as a server sends it. *)
Record reply_ok (r : Response) : Prop := {
  reply_wf : Response_wf r;
  reply_limit : len (Response_wire r) ≤ maxDecoded;
  reply_unknown : unknown_ok Response_known (resp_unknownFields r);
  reply_short : 1 + len (pack RESPONSE_FLAG RESPONSE_ZSTD_FLAG (Response_wire r)).2 < 2 ^ 32
}.

Lemma receive_reply r b : reply_ok r →
  receive (pack RESPONSE_FLAG RESPONSE_ZSTD_FLAG (Response_wire r)).1
    (pack RESPONSE_FLAG RESPONSE_ZSTD_FLAG (Response_wire r)).2 b = Ok (deliver r b).
Proof.
  intros [Hwf Hl Hu _]. unfold receive, decodeResponse. rewrite mux_maybeDecompress_pack by auto. cbn [map_err].
  rewrite bind_Ok, decode_Response by done. unfold pack. by destruct (_ && _).
Qed.

Lemma receive_replies rs b : Forall reply_ok rs →
  receive_frames ((λ r, pack RESPONSE_FLAG RESPONSE_ZSTD_FLAG (Response_wire r)) <$> rs) b =
    Ok (foldl (λ b r, deliver r b) b rs).
Proof.
  intros Hrs. revert b. induction Hrs as [|r rs Hr Hrs IH]; intros b; [done|]. rewrite fmap_cons. cbn [receive_frames].
  pose proof (receive_reply r b Hr) as Hreply. destruct (pack _ _ _). cbn [fst snd] in Hreply.
  rewrite Hreply, bind_Ok. apply IH.
Qed.

(** On responses only, the read cycle delivers them in order. *)
Lemma readCycle_replies s rs e buff fuel w : mworld_ok w → Forall reply_ok rs → (length rs < fuel)%nat →
  ∃ w', readCycle choose clock wresult s fuel (mkCycle (mkIn
      (mjoin (frame <$> ((λ r, pack RESPONSE_FLAG RESPONSE_ZSTD_FLAG (Response_wire r)) <$> rs))) e) buff) w =
      (w', Err (mux_onError HeaderReadError e)) ∧
    mworld_ok w' ∧ inbox_of w' = foldl (λ b r, deliver r b) (inbox_of w) rs ∧ m_batchers w' !! s = None.
Proof.
  intros Hw Hrs Hfuel. unfold readCycle.
  pose proof (readCycle_loop_spec s ((λ r, pack RESPONSE_FLAG RESPONSE_ZSTD_FLAG (Response_wire r)) <$> rs) [] e
    (mux_onError HeaderReadError e) fuel buff w Hw) as Hs.
  rewrite app_nil_r, receive_replies in Hs by done.
  destruct (readCycle_loop _ _ _ _ _ _ _) as [w' r].
  destruct Hs as (-> & Hw' & Hi); [|done|by rewrite length_fmap|].
  - apply Forall_fmap. eapply Forall_impl; [exact Hrs|]. by intros r' [].
  - eexists. split; [done|]. split; [|split; [done|cbn; apply lookup_delete_eq]].
    destruct Hw'. split; cbn; try done. by apply map_Forall_delete.
Qed.

(** C7: the responses that arrive on a stream are delivered in order: each to
    the channel that waits for its id, at most once, and to no other. *)
Theorem readCycle_delivers s rs e buff fuel w : mworld_ok w → Forall reply_ok rs → (length rs < fuel)%nat →
  ∃ w', readCycle choose clock wresult s fuel (mkCycle (mkIn
      (mjoin (frame <$> ((λ r, pack RESPONSE_FLAG RESPONSE_ZSTD_FLAG (Response_wire r)) <$> rs))) e) buff) w =
      (w', Err (mux_onError HeaderReadError e)) ∧
    mworld_ok w' ∧ inbox_of w' = foldl (λ b r, deliver r b) (inbox_of w) rs.
Proof.
  intros Hw Hrs Hfuel. destruct (readCycle_replies s rs e buff fuel w Hw Hrs Hfuel) as (w' & E & ? & ? & _).
  by exists w'.
Qed.

Lemma decodeRequest_pack m : Request_wf m → len (Request_wire m) ≤ maxDecoded →
  unknown_ok Request_known (req_unknownFields m) →
  decodeRequest (pack REQUEST_FLAG REQUEST_ZSTD_FLAG (Request_wire m)).1
    (pack REQUEST_FLAG REQUEST_ZSTD_FLAG (Request_wire m)).2 = Ok m.
Proof.
  intros Hm Hl Hu. unfold decodeRequest.
  rewrite mux_maybeDecompress_pack by auto. cbn [map_err]. by rewrite bind_Ok, decode_Request.
Qed.

(** C38: a peer that sends a request frame with the id of a call that waits
    stops the client process: the type assertion on the stored channel panics. *)
Theorem request_frame_panics s m ch e buff w : mworld_ok w →
  Request_wf m → len (Request_wire m) ≤ maxDecoded → unknown_ok Request_known (req_unknownFields m) →
  1 + len (pack REQUEST_FLAG REQUEST_ZSTD_FLAG (Request_wire m)).2 < 2 ^ 32 →
  im_view (m_chansMap w) !! req_RequestId m = Some ch →
  (readCycle choose clock wresult s 2 (mkCycle (mkIn
     (frame (pack REQUEST_FLAG REQUEST_ZSTD_FLAG (Request_wire m))) e) buff) w).2 = Panic.
Proof.
  intros Hw Hm Hl Hu Hs Hch. unfold readCycle.
  pose proof (decodeRequest_pack m Hm Hl Hu) as Hd.
  assert (receive_frames [pack REQUEST_FLAG REQUEST_ZSTD_FLAG (Request_wire m)] (inbox_of w) = Panic) as Hr.
  { cbn [receive_frames]. destruct (pack _ _ _) as [flag payload] eqn:Ep. cbn [fst snd] in Hd.
    unfold receive. rewrite Hd. cbn. rewrite Hch. unfold pack in Ep.
    by destruct (_ && _); injection Ep as <- <-. }
  pose proof (readCycle_loop_spec s [pack REQUEST_FLAG REQUEST_ZSTD_FLAG (Request_wire m)] [] e
    (mux_onError HeaderReadError e) 2 buff w Hw) as Hloop.
  rewrite Hr, mjoin_fmap_cons, !app_nil_r in Hloop.
  destruct (readCycle_loop _ _ _ _ _ _ _) as [w' r].
  by rewrite Hloop; [|repeat constructor|done|simpl; lia].
Qed.
End refinement.

(** ** Witnesses *)

(** Two callers wait, for the ids 300 and 556, which share a shard. *)
Definition sample_mux : mworld (ShardedMap nat) :=
  mkMWorld NewBalancer {[ 5 := NewBatcher 0 ]} (im_Store 556 1%nat (im_Store 300 0%nat im_new)) ∅ [] [empty_Response] 0.

Lemma sample_mux_ok : mworld_ok sample_mux.
Proof.
  split; [|by repeat constructor..|by apply map_Forall_singleton]. simpl.
  by apply Store_refines, Store_refines, new_refines.
Qed.

Lemma sample_reply_ok : reply_ok sample_response.
Proof. split; [apply sample_response_wf|by vm_compute|constructor|by vm_compute]. Qed.

Lemma readCycle_refines_witness :
  ∃ fps tail st, [x00; x00; x00; x01; x02; x00] = mjoin (frame <$> fps) ++ tail ∧
    (∀ buff, mux_readFrame (mkCycle (mkIn tail IoEOF) buff) = Err st) ∧
    let '(w', r) := readCycle (λ _, 0%nat) (λ _, 0) (λ _, Written) 5 9
      (mkCycle (mkIn [x00; x00; x00; x01; x02; x00] IoEOF) []) sample_mux in
    m_batchers w' !! 5 = None ∧
    match receive_frames fps (inbox_of sample_mux) with
    | Ok b => r = Err st ∧ mworld_ok w' ∧ inbox_of w' = b
    | Err st' => r = Err st' ∧ mworld_ok w'
    | Panic => r = Panic
    | NoFuel => r = NoFuel
    end.
Proof.
  apply (readCycle_refines (λ _, 0%nat) (λ _, 0) (λ _, Written) 5 [x00; x00; x00; x01; x02; x00] IoEOF [] 9
    sample_mux sample_mux_ok). simpl. lia.
Defined.

(** The second copy of the response finds nobody waiting. *)
Lemma readCycle_delivers_witness :
  ∃ w', readCycle (λ _, 0%nat) (λ _, 0) (λ _, Written) 5 3 (mkCycle (mkIn
      (mjoin (frame <$> ((λ r, pack RESPONSE_FLAG RESPONSE_ZSTD_FLAG (Response_wire r)) <$>
         [sample_response; sample_response]))) IoEOF) []) sample_mux =
      (w', Err (HeaderReadError IoEOF)) ∧
    mworld_ok w' ∧ inbox_of w' = mkInbox {[ 556 := 1%nat ]} {[ 0%nat := [sample_response] ]}.
Proof.
  apply (readCycle_delivers (λ _, 0%nat) (λ _, 0) (λ _, Written) 5 [sample_response; sample_response] IoEOF [] 3
    sample_mux sample_mux_ok); [|simpl; lia]. repeat constructor; apply sample_reply_ok.
Defined.

Lemma request_frame_panics_witness :
  (readCycle (λ _, 0%nat) (λ _, 0) (λ _, Written) 5 2 (mkCycle (mkIn
     (frame (pack REQUEST_FLAG REQUEST_ZSTD_FLAG (Request_wire sample_request))) IoEOF) []) sample_mux).2 = Panic.
Proof.
  apply (request_frame_panics (λ _, 0%nat) (λ _, 0) (λ _, Written) 5 sample_request 0%nat IoEOF [] sample_mux sample_mux_ok);
    [apply sample_request_wf|by vm_compute|apply sample_request_unknown|by vm_compute|by vm_compute].
Defined.
