(* ===== verification/Client.v ===== *)
(** * The client

    Models client.go: construction, the choice of a connection, sending a request
    or an event, the release functions and [Close], as programs over the state of
    the client and of the process-wide pools.  What the environment decides during
    one call is a record [env].  The waiting of [SendRequest] and its interleaving
    with the read cycles and other callers is in ClientProtocol.v. *)

From S2P Require Import Prelude Wire Schema SchemaFacts Encoder EncoderFacts ShardedMap Balancer Stream Ctx Batcher Multiplexer.
From Stdlib Require Import Strings.Byte.

(** The errors of [SendRequest] and [SendEvent]. *)
Inductive SendErr : Type :=
| ErrClientClosed
| SendEncode (e : EncodeErr)
| SendNoStream (e : BalancerErr)
| SendDeadline (e : IOErr)
| SendWrite (e : IOErr)
| SendCtx (e : IOErr).

Section client.
Context `{Protohelpers, Zstd} {any M : Type} `{!IdMap M chan}.

(** A multiplexer of the client: its balancer and its batchers; the map of the
    channels is shared. *)
Record mux : Type := mkMux { mx_balancer : BalancerImpl Z; mx_batchers : gmap Z Batcher }.

Record cworld : Type := mkCWorld {
  c_muxes : list mux;
  c_connCounter : Z;
  c_chansMap : M;
  c_chansPool : list chan;
  c_nextChan : chan;              (* the next name for a new channel *)
  c_closed : bool;                (* [closeCh] is closed *)
  c_requests : list Request;
  c_responses : list Response;
  c_reqCtxs : list (RequestImpl any);
  c_respCtxs : list ResponseImpl;
  c_buffers : list Buffer;
  c_wire : list (nat * Z * list byte)   (* what was written: connection, stream, bytes *)
}.

Definition set_muxes (v : list mux) (w : cworld) : cworld :=
  mkCWorld v (c_connCounter w) (c_chansMap w) (c_chansPool w) (c_nextChan w) (c_closed w) (c_requests w)
    (c_responses w) (c_reqCtxs w) (c_respCtxs w) (c_buffers w) (c_wire w).
Definition set_connCounter (v : Z) (w : cworld) : cworld :=
  mkCWorld (c_muxes w) v (c_chansMap w) (c_chansPool w) (c_nextChan w) (c_closed w) (c_requests w)
    (c_responses w) (c_reqCtxs w) (c_respCtxs w) (c_buffers w) (c_wire w).
Definition set_chansMap (v : M) (w : cworld) : cworld :=
  mkCWorld (c_muxes w) (c_connCounter w) v (c_chansPool w) (c_nextChan w) (c_closed w) (c_requests w)
    (c_responses w) (c_reqCtxs w) (c_respCtxs w) (c_buffers w) (c_wire w).
Definition set_chansPool (v : list chan) (n : chan) (w : cworld) : cworld :=
  mkCWorld (c_muxes w) (c_connCounter w) (c_chansMap w) v n (c_closed w) (c_requests w)
    (c_responses w) (c_reqCtxs w) (c_respCtxs w) (c_buffers w) (c_wire w).
Definition set_closed (v : bool) (w : cworld) : cworld :=
  mkCWorld (c_muxes w) (c_connCounter w) (c_chansMap w) (c_chansPool w) (c_nextChan w) v (c_requests w)
    (c_responses w) (c_reqCtxs w) (c_respCtxs w) (c_buffers w) (c_wire w).
Definition set_requests (v : list Request) (w : cworld) : cworld :=
  mkCWorld (c_muxes w) (c_connCounter w) (c_chansMap w) (c_chansPool w) (c_nextChan w) (c_closed w) v
    (c_responses w) (c_reqCtxs w) (c_respCtxs w) (c_buffers w) (c_wire w).
Definition set_responses (v : list Response) (w : cworld) : cworld :=
  mkCWorld (c_muxes w) (c_connCounter w) (c_chansMap w) (c_chansPool w) (c_nextChan w) (c_closed w) (c_requests w)
    v (c_reqCtxs w) (c_respCtxs w) (c_buffers w) (c_wire w).
Definition set_reqCtxs (v : list (RequestImpl any)) (w : cworld) : cworld :=
  mkCWorld (c_muxes w) (c_connCounter w) (c_chansMap w) (c_chansPool w) (c_nextChan w) (c_closed w) (c_requests w)
    (c_responses w) v (c_respCtxs w) (c_buffers w) (c_wire w).
Definition set_respCtxs (v : list ResponseImpl) (w : cworld) : cworld :=
  mkCWorld (c_muxes w) (c_connCounter w) (c_chansMap w) (c_chansPool w) (c_nextChan w) (c_closed w) (c_requests w)
    (c_responses w) (c_reqCtxs w) v (c_buffers w) (c_wire w).
Definition set_buffers (v : list Buffer) (w : cworld) : cworld :=
  mkCWorld (c_muxes w) (c_connCounter w) (c_chansMap w) (c_chansPool w) (c_nextChan w) (c_closed w) (c_requests w)
    (c_responses w) (c_reqCtxs w) (c_respCtxs w) v (c_wire w).
Definition add_wire (v : nat * Z * list byte) (w : cworld) : cworld :=
  mkCWorld (c_muxes w) (c_connCounter w) (c_chansMap w) (c_chansPool w) (c_nextChan w) (c_closed w) (c_requests w)
    (c_responses w) (c_reqCtxs w) (c_respCtxs w) (c_buffers w) (c_wire w ++ [v]).

(** ** Construction *)

(** The dials of [NewClient]: one connection per requested one, at least one;
    after an error the connections made so far are closed and no client is
    returned.  [dialed i] is the result of the [i]th dial. *)
Fixpoint dial_loop (dialed : nat → option Z) (n i : nat) (conns : list Z) : list Z * bool :=
  match n with
  | O => (conns, true)
  | S n =>
      match dialed i with
      | None => (conns, false)
      | Some conn => dial_loop dialed n (S i) (conns ++ [conn])
      end
  end.

(** [NewMultiplexer]: the streams are opened in the background ([start] of
    Multiplexer.v), so a new multiplexer has the streams of its balancer only. *)
Definition NewMultiplexer (quicbalancer : BalancerImpl Z) : mux := mkMux quicbalancer ∅.

(** The number of streams that [newClient] asks each multiplexer to open. *)
Definition streamsCount : Z := 32.

(** A client over the connections. *)
Definition newClient (conns : list Z) (requests : list Request) (responses : list Response)
    (reqCtxs : list (RequestImpl any)) (respCtxs : list ResponseImpl) (buffers : list Buffer) : cworld :=
  mkCWorld ((λ _, NewMultiplexer NewBalancer) <$> conns) 0 im_new [] 0 false requests responses reqCtxs respCtxs buffers [].

(** The connections that are closed, and those the client is made of. *)
Definition NewClient (dialed : nat → option Z) (connsCount : Z) : list Z * option (list Z) :=
  let connsCount := if connsCount <? 1 then 1 else connsCount in
  let '(conns, ok) := dial_loop dialed (Z.to_nat connsCount) 0 [] in
  if ok : bool then ([], Some conns) else (conns, None).

(** ** Sending *)

(** What the environment decides during a call: random numbers, the objects
    the pools hand out, the results of [SetWriteDeadline] and of the write, the
    time. *)
Record env : Type := mkEnv {
  e_rand : Z;       (* [rand.Uint64()] in [SendRequest] *)
  e_rand2 : Z;      (* and in [sendRequestInternal] *)
  e_chan : nat;
  e_buffer : nat;
  e_ctx : nat;
  e_msg : nat;
  e_deadline : option IOErr;
  e_write : wres;
  e_now : Z
}.
Variable e : env.

(** [c.multiplexors[idx%uint32(len(c.multiplexors))]] *)
Definition getMultiplexor : prog_on cworld SendErr nat := λ w,
  let '(idx, counter) := ticket (c_connCounter w) in
  let n := u32 (len (c_muxes w)) in
  (set_connCounter counter w,
   if n =? 0 then Panic
   else _ ← index (c_muxes w) (idx mod n); Ok (Z.to_nat (idx mod n))).

(** [mux.GetStream()] on the multiplexer with index [i]; the error is a value. *)
Definition getStream (i : nat) : prog_on cworld SendErr (outcome BalancerErr Z) := λ w,
  match c_muxes w !! i with
  | None => (w, Panic)
  | Some m =>
      let '(r, b) := GetStream (mx_balancer m) in
      (set_muxes (<[i := mkMux b (mx_batchers m)]> (c_muxes w)) w, Ok r)
  end.

(** [GetBatcher(stream)] and [batcher.Write(data)]. *)
Definition batcherWrite (i : nat) (s : Z) (data : list byte) : prog_on cworld SendErr (option IOErr) := λ w,
  match c_muxes w !! i with
  | None => (w, Panic)
  | Some m =>
      let b := default (NewBatcher (e_now e)) (mx_batchers m !! s) in
      let '(b, bytes, err) := Write (e_now e) (e_write e) data b in
      (add_wire (i, s, bytes)
         (set_muxes (<[i := mkMux (mx_balancer m) (<[s := b]> (mx_batchers m))]> (c_muxes w)) w), Ok err)
  end.

(** [getChan]: the pool makes a new channel when it has none. *)
Definition getChan : prog_on cworld SendErr chan := λ w,
  match c_chansPool w !! e_chan e with
  | Some ch => (set_chansPool (delete (e_chan e) (c_chansPool w)) (c_nextChan w) w, Ok ch)
  | None => (set_chansPool (c_chansPool w) (S (c_nextChan w)) w, Ok (c_nextChan w))
  end.

Definition putChan (ch : chan) : prog_on cworld SendErr unit :=
  modify (λ w, set_chansPool (pool_put ch (c_chansPool w)) (c_nextChan w) w).

Definition chansMap_Store (id : Z) (ch : chan) : prog_on cworld SendErr unit :=
  modify (λ w, set_chansMap (im_Store id ch (c_chansMap w)) w).
Definition chansMap_Delete (id : Z) : prog_on cworld SendErr unit :=
  modify (λ w, set_chansMap (im_Delete id (c_chansMap w)) w).

(** The encoders, with their result as a value. *)
Definition encodeRequest (req : Request) : prog_on cworld SendErr (outcome EncodeErr Buffer) := λ w,
  let '(p, r) := EncodeRequest (Some req) (e_buffer e) (c_buffers w) in (set_buffers p w, Ok r).
Definition encodeEvent (req : Request) : prog_on cworld SendErr (outcome EncodeErr Buffer) := λ w,
  let '(p, r) := EncodeEvent (Some req) (e_buffer e) (c_buffers w) in (set_buffers p w, Ok r).

(** [client.ReleaseRequest(req)]; the caller keeps the pointer, so it goes on
    with the released value. *)
Definition client_releaseRequest (req : Request) : prog_on cworld SendErr Request := λ w,
  let '(req, p) := ReleaseRequest req (c_requests w) in (set_requests p w, Ok req).

Definition bufRelease (b : Buffer) : prog_on cworld SendErr unit :=
  modify (λ w, set_buffers (Buffer_Release (Some b) (c_buffers w)) w).

Definition checkClosed : prog_on cworld SendErr unit := λ w,
  (w, if c_closed w then Err ErrClientClosed else Ok tt).

Definition sendRequestInternal (req : Request) : prog_on cworld SendErr chan :=
  checkClosed;;
  let req := if req_RequestId req =? 0 then set_req_RequestId (u64 (e_rand2 e)) req else req in
  ch ← getChan;
  chansMap_Store (req_RequestId req) ch;;
  r ← encodeRequest req;
  req ← client_releaseRequest req;
  with_err r
    (λ err, chansMap_Delete (req_RequestId req);; putChan ch;; throw (SendEncode err)) (λ buf,
  i ← getMultiplexor;
  r ← getStream i;
  with_err r
    (λ err, chansMap_Delete (req_RequestId req);; putChan ch;; throw (SendNoStream err)) (λ stream,
  match e_deadline e with
  | Some err =>
      chansMap_Delete (req_RequestId req);; putChan ch;; bufRelease buf;; throw (SendDeadline err)
  | None =>
      bytes ← lift (Buffer_Bytes buf);
      err ← batcherWrite i stream bytes;
      bufRelease buf;;
      match err with
      | Some err => chansMap_Delete (req_RequestId req);; putChan ch;; throw (SendWrite err)
      | None => mret ch
      end
  end)).

Definition sendEventInternal (req : Request) : prog_on cworld SendErr unit :=
  checkClosed;;
  let req := set_req_RequestId 0 req in
  r ← encodeEvent req;
  client_releaseRequest req;;
  with_err r (λ err, throw (SendEncode err)) (λ buf,
  i ← getMultiplexor;
  r ← getStream i;
  with_err r (λ err, bufRelease buf;; throw (SendNoStream err)) (λ stream,
  match e_deadline e with
  | Some err => bufRelease buf;; throw (SendDeadline err)
  | None =>
      bytes ← lift (Buffer_Bytes buf);
      err ← batcherWrite i stream bytes;
      bufRelease buf;;
      match err with Some err => throw (SendWrite err) | None => mret tt end
  end)).

(** ** The objects of the caller *)

(** [c.NewRequest()] *)
Definition client_NewRequest : prog_on cworld SendErr (RequestImpl any) := λ w,
  let '(req, p) := GetRequest (e_msg e) (c_requests w) in
  let '(impl, q) := NewRequest (Some req) (e_ctx e) (c_reqCtxs w) in
  (set_reqCtxs q (set_requests p w), Ok impl).

(** [ReleaseRequest(impl)] *)
Definition releaseImpl (impl : RequestImpl any) : prog_on cworld SendErr unit := λ w,
  match ReleaseRequestImpl impl (c_reqCtxs w) with
  | Ok q => (set_reqCtxs q w, Ok tt)
  | Err err => match err with end
  | Panic => (w, Panic)
  | NoFuel => (w, NoFuel)
  end.

(** The deferred code of a call whose error is returned at the end. *)
Definition finally {A} (c : prog_on cworld SendErr A) (f : prog_on cworld SendErr unit) : prog_on cworld SendErr A := λ w,
  let '(w, r) := c w in
  match r with
  | Panic | NoFuel => (w, r)
  | _ => match f w with
         | (w, Ok _) => (w, r)
         | (w, Err err) => (w, Err err)
         | (w, Panic) => (w, Panic)
         | (w, NoFuel) => (w, NoFuel)
         end
  end.

(** [SendRequest] up to the wait: the id it waits for and the channel. *)
Definition SendRequest_begin (impl : RequestImpl any) : prog_on cworld SendErr (Z * chan) :=
  r ← lift (total (deref (ri_Req impl)));
  let r := if req_RequestId r =? 0 then set_req_RequestId (u64 (e_rand e)) r else r in
  let id := req_RequestId r in
  ch ← finally (sendRequestInternal r) (releaseImpl impl);
  mret (id, ch).

Definition SendEvent (impl : RequestImpl any) : prog_on cworld SendErr unit :=
  r ← lift (total (deref (ri_Req impl)));
  finally (sendEventInternal r) (releaseImpl impl).

(** The end of [SendRequest]: [NewResponse(resp)]. *)
Definition wrapResponse (resp : Response) : prog_on cworld SendErr ResponseImpl := λ w,
  let '(impl, q) := NewResponse (Some resp) (e_ctx e) (c_respCtxs w) in (set_respCtxs q w, Ok impl).

(** [c.ReleaseResponse(resp)] *)
Definition client_ReleaseResponse (impl : ResponseImpl) : prog_on cworld SendErr unit :=
  resp ← lift (total (deref (rs_Resp impl)));
  modify (λ w, set_responses (ReleaseResponse resp (c_responses w)).2 w);;
  modify (λ w, set_respCtxs (ReleaseResponseImpl impl (c_respCtxs w)) w).

(** ** [Close]

    The body of [closeOnce.Do]: the channel is closed, the waiting callers are
    waited for (see ClientProtocol.v), then every multiplexer is closed.  Returns
    the streams that are closed. *)
Definition Close_begin (w : cworld) : cworld := set_closed true w.

Definition Close_end (w : cworld) : list Z * cworld :=
  (mjoin ((λ m, (Reset (mx_balancer m)).1) <$> c_muxes w),
   set_muxes ((λ m, mkMux (Reset (mx_balancer m)).2 (mx_batchers m)) <$> c_muxes w) w).
End client.
Arguments cworld any M : clear implicits.
