(* ===== verification/ClientFacts.v ===== *)
(** * Correctness of sending

    A request that is sent successfully is registered under its id and its frame
    is on one stream; every failure is reported and leaves nothing on the wire
    but, at most, a part of the frame.  What the error paths do to the map of the
    channels is stated as the code does it. *)

From S2P Require Import Prelude Wire WireInstance Schema SchemaFacts Encoder EncoderFacts ShardedMap Balancer Stream Ctx Batcher Multiplexer Client.
From Stdlib Require Import Strings.Byte.

Section facts.
Context `{Protohelpers, !ProtohelpersOk, Zstd} {any M : Type} `{!IdMap M chan, !IdMapOk M chan}.
Implicit Types w : cworld any M.

(** A multiplexer that has opened a stream. *)
Record mux_ok (m : mux) : Prop := {
  mux_streams : 0 < len (snapshot (mx_balancer m)) < 2 ^ 32;
  mux_counter : 0 ≤ counter (mx_balancer m) < 2 ^ 32;
  mux_batchers : map_Forall (λ _ b, batch_buf b = []) (mx_batchers m)
}.

Record cworld_ok w : Prop := {
  cok_muxes : 0 < len (c_muxes w) < 2 ^ 32;
  cok_each : Forall mux_ok (c_muxes w);
  cok_counter : 0 ≤ c_connCounter w < 2 ^ 32;
  cok_map : im_inv (c_chansMap w);
  cok_requests : Forall (eq empty_Request) (c_requests w)
}.

(** The connection and the stream the next message goes to. *)
Definition next_mux w : nat := Z.to_nat (c_connCounter w mod len (c_muxes w)).
Definition next_stream w : option Z :=
  m ← c_muxes w !! next_mux w;
  snapshot (mx_balancer m) !! Z.to_nat (counter (mx_balancer m) mod len (snapshot (mx_balancer m))).

Lemma getMultiplexor_spec w : cworld_ok w →
  ∃ m, c_muxes w !! next_mux w = Some m ∧
    getMultiplexor w = (set_connCounter (u32 (c_connCounter w + 1)) w, Ok (next_mux w)).
Proof.
  intros [Hn _ Hc _ _]. unfold getMultiplexor, next_mux. rewrite ticket_eq by done.
  rewrite (u32_id (len (c_muxes w))) by lia. rewrite (proj2 (Z.eqb_neq (len (c_muxes w)) 0)) by lia.
  pose proof (Z.mod_pos_bound (c_connCounter w) (len (c_muxes w)) ltac:(lia)).
  destruct (lookup_lt_is_Some_2 (c_muxes w) (Z.to_nat (c_connCounter w mod len (c_muxes w)))) as [m Hm].
  { unfold len in *. lia. }
  exists m. split; [done|]. by rewrite (proj2 (index_Ok _ _ m)) by (split; [lia|done]).
Qed.

Lemma getStream_spec i m w : c_muxes w !! i = Some m → mux_ok m →
  ∃ s, snapshot (mx_balancer m) !! Z.to_nat (counter (mx_balancer m) mod len (snapshot (mx_balancer m))) = Some s ∧
    getStream i w = (set_muxes (<[i := mkMux (mkBalancer (snapshot (mx_balancer m))
      (u32 (counter (mx_balancer m) + 1))) (mx_batchers m)]> (c_muxes w)) w, Ok (Ok s)).
Proof.
  intros Hm [Hl Hc _]. unfold getStream. rewrite Hm. unfold GetStream.
  rewrite (proj2 (Z.eqb_neq _ _)) by lia. rewrite ticket_eq by done.
  destruct (pick_Ok (snapshot (mx_balancer m)) (counter (mx_balancer m)) Hl ltac:(lia)) as (s & -> & Hs).
  by exists s.
Qed.

(** With empty buffers a write goes through. *)
Lemma batcherWrite_spec e i m s data w : c_muxes w !! i = Some m →
  map_Forall (λ _ b, batch_buf b = []) (mx_batchers m) →
  ∃ b, batch_buf b = [] ∧ batcherWrite e i s data w =
    (add_wire (i, s, sent (e_write e) data)
       (set_muxes (<[i := mkMux (mx_balancer m) (<[s := b]> (mx_batchers m))]> (c_muxes w)) w),
     Ok (werr (e_write e))).
Proof.
  intros Hm Hb. unfold batcherWrite. rewrite Hm.
  assert (batch_buf (default (NewBatcher (e_now e)) (mx_batchers m !! s)) = []) as He.
  { destruct (mx_batchers m !! s) as [b|] eqn:E; [by apply (Hb s)|done]. }
  unfold Write, Write_locked. cbn. rewrite He. cbn. by eexists; split; [|reflexivity].
Qed.

(** The state after a message has been put on [(i, s)], but for the pools. *)
Record sent_to (i : nat) (s : Z) (bytes : list byte) w w' : Prop := {
  st_wire : c_wire w' = c_wire w ++ [(i, s, bytes)];
  st_map : c_chansMap w' = c_chansMap w;
  st_pool : c_chansPool w' = c_chansPool w;
  st_ok : cworld_ok w';
  st_closed : c_closed w' = c_closed w;
  st_nextChan : c_nextChan w' = c_nextChan w
}.

Lemma mux_insert_ok i m m' w : cworld_ok w → c_muxes w !! i = Some m → mux_ok m' →
  cworld_ok (set_muxes (<[i := m']> (c_muxes w)) w).
Proof.
  intros [Hn He Hc Hm Hq] Hi Hm'. split; cbn; try done.
  - unfold len in *. by rewrite length_insert.
  - by apply Forall_insert.
Qed.

(** Choosing the connection and the stream, writing, releasing the buffer: the
    common end of the two sends. *)
Lemma transmit_spec e w buf bytes : cworld_ok w → Buffer_Bytes buf = Ok bytes :> outcome SendErr _ →
  ∃ i s w1 w2, c_muxes w !! i ≠ None ∧ i = next_mux w ∧ next_stream w = Some s ∧
    getMultiplexor w = (w1, Ok i) ∧ getStream i w1 = (w2, Ok (Ok s)) ∧
    c_chansMap w2 = c_chansMap w ∧ c_chansPool w2 = c_chansPool w ∧ c_wire w2 = c_wire w ∧
    ∃ w3, batcherWrite e i s bytes w2 = (w3, Ok (werr (e_write e))) ∧
      bufRelease buf w3 = (set_buffers (Buffer_Release (Some buf) (c_buffers w3)) w3, Ok tt) ∧
      sent_to i s (sent (e_write e) bytes) w (set_buffers (Buffer_Release (Some buf) (c_buffers w3)) w3).
Proof.
  intros Hw Hb. destruct (getMultiplexor_spec w Hw) as (m & Hm & E1).
  assert (mux_ok m) as Hok by (eapply Forall_lookup_1; [apply Hw|done]).
  set (w1 := set_connCounter (u32 (c_connCounter w + 1)) w) in *.
  assert (cworld_ok w1) as Hw1 by (destruct Hw; split; cbn; auto using u32_range).
  destruct (getStream_spec (next_mux w) m w1 Hm Hok) as (s & Hs & E2).
  lazymatch type of E2 with _ = (?w2', _) => set (w2 := w2') in * end.
  set (m2 := mkMux (mkBalancer (snapshot (mx_balancer m)) (u32 (counter (mx_balancer m) + 1))) (mx_batchers m)) in *.
  assert (mux_ok m2) as Hok2 by (destruct Hok; split; cbn; auto using u32_range).
  assert (cworld_ok w2) as Hw2 by (by eapply mux_insert_ok).
  assert (c_muxes w2 !! next_mux w = Some m2) as Hm2.
  { cbn. rewrite list_lookup_insert_eq; [done|]. by eapply lookup_lt_Some. }
  destruct (batcherWrite_spec e (next_mux w) m2 s bytes w2 Hm2 (mux_batchers _ Hok2)) as (b & Hbb & E3).
  exists (next_mux w), s, w1, w2. split; [by rewrite Hm|]. split; [done|].
  split; [unfold next_stream; by rewrite Hm|]. do 5 (split; [done|]).
  eexists. split; [exact E3|]. split; [done|]. split; cbn; try done.
  apply (mux_insert_ok (next_mux w) m2 (mkMux (mx_balancer m2) (<[s := b]> (mx_batchers m2)))) in Hw2; [|done|].
  - by destruct Hw2.
  - destruct Hok2 as [? ? Hmb]. split; cbn; try done. by apply map_Forall_insert_2.
Qed.

Lemma set_chansMap_ok m w : cworld_ok w → im_inv m → cworld_ok (set_chansMap m w).
Proof. by intros [] ?. Qed.
Lemma set_chansPool_ok p n w : cworld_ok w → cworld_ok (set_chansPool p n w).
Proof. by intros []. Qed.
Lemma set_buffers_ok p w : cworld_ok w → cworld_ok (set_buffers p w).
Proof. by intros []. Qed.

(** The channel [getChan] returns and the pool it leaves. *)
Definition next_chan e w : chan := default (c_nextChan w) (c_chansPool w !! e_chan e).
Definition rest_pool e w : list chan :=
  if decide (is_Some (c_chansPool w !! e_chan e)) then delete (e_chan e) (c_chansPool w) else c_chansPool w.

Lemma getChan_spec e w : ∃ n, getChan e w = (set_chansPool (rest_pool e w) n w, Ok (next_chan e w)) ∧
  (c_nextChan w ≤ n)%nat ∧ (next_chan e w ∉ c_chansPool w → next_chan e w < n)%nat.
Proof.
  unfold getChan, rest_pool, next_chan. destruct (c_chansPool w !! e_chan e) as [ch|] eqn:E; cbn.
  - rewrite decide_True by eauto. eexists. split; [done|]. split; [lia|].
    intros Hin. destruct Hin. by eapply list_elem_of_lookup_2.
  - rewrite decide_False by (by intros []). eexists. split; [done|]. lia.
Qed.

(** The request with its id. *)
Definition with_id e (req : Request) : Request :=
  if req_RequestId req =? 0 then set_req_RequestId (u64 (e_rand2 e)) req else req.

Definition request_bytes (req : Request) : list byte :=
  frame (pack REQUEST_FLAG REQUEST_ZSTD_FLAG (Request_wire req)).
Definition event_bytes (req : Request) : list byte :=
  frame (pack EVENT_FLAG EVENT_ZSTD_FLAG (Request_wire req)).

Lemma slice_err {E F A} (l : list A) lo hi r : @slice E A l lo hi = Ok r → @slice F A l lo hi = Ok r.
Proof. rewrite !slice_Ok. done. Qed.

(** Up to the point where the frame is ready: the channel is registered under
    the id, the request is back in the pool, and the released object, which the
    code still looks at, has the id 0. *)
Lemma register_spec e req w : im_inv (c_chansMap w) → Request_wf (with_id e req) →
  let id := req_RequestId (with_id e req) in
  ∃ w1 w2 w3 w4 buf, getChan e w = (w1, Ok (next_chan e w)) ∧
    chansMap_Store id (next_chan e w) w1 = (w2, Ok tt) ∧
    encodeRequest e (with_id e req) w2 = (w3, Ok (Ok buf)) ∧
    client_releaseRequest (with_id e req) w3 = (w4, Ok empty_Request) ∧
    Buffer_Bytes buf = Ok (request_bytes (with_id e req)) :> outcome SendErr _ ∧
    im_inv (c_chansMap w4) ∧ im_view (c_chansMap w4) = <[id := next_chan e w]> (im_view (c_chansMap w)) ∧
    c_chansPool w4 = rest_pool e w ∧ c_wire w4 = c_wire w ∧ c_muxes w4 = c_muxes w ∧
    c_connCounter w4 = c_connCounter w ∧ c_requests w4 = empty_Request :: c_requests w ∧
    c_closed w4 = c_closed w ∧ (c_nextChan w ≤ c_nextChan w4)%nat ∧
    (next_chan e w ∉ c_chansPool w → next_chan e w < c_nextChan w4)%nat.
Proof.
  intros Hmap Hwf id. assert (0 ≤ id < 2 ^ 64) as Hid by apply Hwf.
  destruct (getChan_spec e w) as (n & Eg & Hn & Hnew).
  destruct (im_Store_ok id (next_chan e w) (c_chansMap w) Hid Hmap) as [Hinv Hv].
  set (w2 := set_chansMap (im_Store id (next_chan e w) (c_chansMap w)) (set_chansPool (rest_pool e w) n w)).
  destruct (EncodeRequest_spec (with_id e req) (e_buffer e) (c_buffers w2) Hwf) as (buf & Ee & _ & Hb).
  assert (encodeRequest e (with_id e req) w2 =
    (set_buffers (pool_get new_Buffer (e_buffer e) (c_buffers w2)).2 w2, Ok (Ok buf))) as E
    by (unfold encodeRequest; by rewrite Ee).
  do 4 eexists. exists buf. split; [exact Eg|]. split; [reflexivity|]. split; [exact E|]. split; [reflexivity|].
  split; [by eapply slice_err|]. cbn. by rewrite Hv.
Qed.

(** The same on a client with streams. *)
Lemma prepare_spec e req w : cworld_ok w → Request_wf (with_id e req) →
  let id := req_RequestId (with_id e req) in
  ∃ w1 w2 w3 w4 buf, getChan e w = (w1, Ok (next_chan e w)) ∧
    chansMap_Store id (next_chan e w) w1 = (w2, Ok tt) ∧
    encodeRequest e (with_id e req) w2 = (w3, Ok (Ok buf)) ∧
    client_releaseRequest (with_id e req) w3 = (w4, Ok empty_Request) ∧
    Buffer_Bytes buf = Ok (request_bytes (with_id e req)) :> outcome SendErr _ ∧
    cworld_ok w4 ∧ next_mux w4 = next_mux w ∧ next_stream w4 = next_stream w ∧
    im_view (c_chansMap w4) = <[id := next_chan e w]> (im_view (c_chansMap w)) ∧
    c_chansPool w4 = rest_pool e w ∧ c_wire w4 = c_wire w ∧ c_closed w4 = c_closed w ∧
    (c_nextChan w ≤ c_nextChan w4)%nat ∧
    (next_chan e w ∉ c_chansPool w → next_chan e w < c_nextChan w4)%nat.
Proof.
  intros Hw Hwf id.
  destruct (register_spec e req w (cok_map _ Hw) Hwf) as (w1 & w2 & w3 & w4 & buf & E1 & E2 & E3 & E4 & Hb &
    Hi & Hv & Hp & Ho & Hm & Hc & Hq & Hrest). exists w1, w2, w3, w4, buf. do 5 (split; [done|]).
  unfold next_stream, next_mux. rewrite Hm, Hc. split; [|done].
  destruct Hw. split; rewrite ?Hm, ?Hc, ?Hq; try done. by constructor.
Qed.

(** A successful send. *)
Lemma sendRequestInternal_spec e req w : cworld_ok w → c_closed w = false →
  Request_wf (with_id e req) → e_deadline e = None → e_write e = Written →
  ∃ s w', sendRequestInternal e req w = (w', Ok (next_chan e w)) ∧
    next_stream w = Some s ∧
    c_wire w' = c_wire w ++ [(next_mux w, s, request_bytes (with_id e req))] ∧
    im_view (c_chansMap w') = <[req_RequestId (with_id e req) := next_chan e w]> (im_view (c_chansMap w)) ∧
    c_chansPool w' = rest_pool e w ∧ cworld_ok w' ∧ c_closed w' = c_closed w ∧
    (c_nextChan w ≤ c_nextChan w')%nat ∧
    (next_chan e w ∉ c_chansPool w → next_chan e w < c_nextChan w')%nat.
Proof.
  intros Hw Hcl Hwf Hdl Hwr. unfold sendRequestInternal.
  rewrite (prog_bind_Ok _ _ w w tt) by (unfold checkClosed; by rewrite Hcl). cbv zeta.
  change (if req_RequestId req =? 0 then _ else req) with (with_id e req).
  destruct (prepare_spec e req w Hw Hwf) as (w1 & w2 & w3 & w4 & buf & E1 & E2 & E3 & E4 & Hb & Hw4 & Hi & Hs & Hv & Hp & Ho & Hcl4 & Hnext & Hfresh).
  run_call E1. run_call E2. run_call E3. run_call E4. cbn [with_err].
  destruct (transmit_spec e w4 buf _ Hw4 Hb) as (i & s & w5 & w6 & _ & -> & Hst & E5 & E6 & _ & _ & _ & w7 & E7 & E8 & Hsent).
  run_call E5. run_call E6. cbn [with_err]. rewrite Hdl, Hb.
  erewrite prog_bind_Ok by reflexivity. run_call E7. run_call E8. rewrite Hwr in Hsent |- *.
  destruct Hsent as [Hwire Hmap Hpool Hok Hc Hn]. exists s. eexists. split; [reflexivity|].
  rewrite <- Hs. split; [done|]. rewrite Hwire, Hmap, Hpool, Hi, Hv, Hp, Ho, Hc, Hn. done.
Qed.

(** A request that is sent goes out once: it is registered under its id
    with the channel that is returned, its complete frame is the only thing
    written, on the connection and the stream whose turn it is, and the message
    is back in the pool, empty. *)
Theorem sendRequestInternal_sends e req w : cworld_ok w → c_closed w = false →
  Request_wf (with_id e req) → e_deadline e = None → e_write e = Written →
  ∃ s w', sendRequestInternal e req w = (w', Ok (next_chan e w)) ∧
    next_stream w = Some s ∧
    c_wire w' = c_wire w ++ [(next_mux w, s, request_bytes (with_id e req))] ∧
    im_view (c_chansMap w') = <[req_RequestId (with_id e req) := next_chan e w]> (im_view (c_chansMap w)) ∧
    c_chansPool w' = rest_pool e w ∧ cworld_ok w'.
Proof.
  intros Hw Hcl Hwf Hdl Hwr.
  destruct (sendRequestInternal_spec e req w Hw Hcl Hwf Hdl Hwr) as (s & w' & ? & ? & ? & ? & ? & ? & _).
  by exists s, w'.
Qed.

(** After a failed write the call returns the error, but its entry stays in
    the map while its channel is already back in the pool: the id that is
    deleted is read from the released message, where it is 0. *)
Theorem failed_write_leaks_entry e req w n err : cworld_ok w → c_closed w = false →
  Request_wf (with_id e req) → req_RequestId (with_id e req) ≠ 0 → e_deadline e = None → e_write e = Failed n err →
  ∃ w', sendRequestInternal e req w = (w', Err (SendWrite err)) ∧
    im_view (c_chansMap w') !! req_RequestId (with_id e req) = Some (next_chan e w) ∧
    next_chan e w ∈ c_chansPool w'.
Proof.
  intros Hw Hcl Hwf Hne Hdl Hwr. unfold sendRequestInternal.
  rewrite (prog_bind_Ok _ _ w w tt) by (unfold checkClosed; by rewrite Hcl). cbv zeta.
  change (if req_RequestId req =? 0 then _ else req) with (with_id e req).
  destruct (prepare_spec e req w Hw Hwf) as (w1 & w2 & w3 & w4 & buf & E1 & E2 & E3 & E4 & Hb & Hw4 & Hi & Hs & Hv & Hp & Ho & Hcl4 & Hnext & Hfresh).
  run_call E1. run_call E2. run_call E3. run_call E4. cbn [with_err].
  destruct (transmit_spec e w4 buf _ Hw4 Hb) as (i & s & w5 & w6 & _ & -> & Hst & E5 & E6 & _ & _ & _ & w7 & E7 & E8 & Hsent).
  run_call E5. run_call E6. cbn [with_err]. rewrite Hdl, Hb.
  erewrite prog_bind_Ok by reflexivity. run_call E7. run_call E8. rewrite Hwr in Hsent |- *.
  destruct Hsent as [_ Hmap Hpool Hok _ _]. cbn [werr].
  erewrite prog_bind_Ok by reflexivity. erewrite prog_bind_Ok by reflexivity.
  eexists. split; [reflexivity|]. cbn -[im_view]. split; [|by left].
  cbn in Hmap. rewrite Hmap.
  destruct (im_Delete_ok 0 (c_chansMap w4) ltac:(lia) (cok_map _ Hw4)) as [_ ->].
  rewrite lookup_delete_ne, Hv by done. apply lookup_insert_eq.
Qed.

(** An event is written once, without an id, and registers nothing. *)
Theorem sendEventInternal_sends e req w : cworld_ok w → c_closed w = false →
  Request_wf (set_req_RequestId 0 req) → e_deadline e = None → e_write e = Written →
  ∃ s w', sendEventInternal e req w = (w', Ok tt) ∧ next_stream w = Some s ∧
    c_wire w' = c_wire w ++ [(next_mux w, s, event_bytes (set_req_RequestId 0 req))] ∧
    c_chansMap w' = c_chansMap w ∧ c_chansPool w' = c_chansPool w ∧ cworld_ok w'.
Proof.
  intros Hw Hcl Hwf Hdl Hwr. unfold sendEventInternal.
  rewrite (prog_bind_Ok _ _ w w tt) by (unfold checkClosed; by rewrite Hcl). cbv zeta.
  destruct (EncodeEvent_spec _ (e_buffer e) (c_buffers w) Hwf) as (buf & Ee & _ & Hb).
  erewrite prog_bind_Ok by (unfold encodeEvent; rewrite Ee; reflexivity).
  erewrite prog_bind_Ok by reflexivity. cbn [with_err].
  lazymatch goal with |- context [(getMultiplexor ≫= _) ?w4'] => set (w4 := w4') end.
  assert (cworld_ok w4) as Hw4 by (destruct Hw; split; cbn; try done; by constructor).
  destruct (transmit_spec e w4 buf _ Hw4 (slice_err _ _ _ _ Hb)) as (i & s & w5 & w6 & _ & -> & Hst & E5 & E6 & _ & _ & _ & w7 & E7 & E8 & Hsent).
  run_call E5. run_call E6. cbn [with_err].
  rewrite Hdl, (slice_err _ _ _ _ Hb : Buffer_Bytes buf = Ok (event_bytes _) :> outcome SendErr _).
  erewrite prog_bind_Ok by reflexivity. run_call E7. run_call E8. rewrite Hwr in Hsent |- *.
  destruct Hsent as [Hwire Hmap Hpool Hok _ _]. exists s. eexists. split; [reflexivity|]. done.
Qed.

(** A closed client sends nothing and changes nothing. *)
Theorem closed_client_rejects e req w : c_closed w = true →
  sendRequestInternal e req w = (w, Err ErrClientClosed) ∧
  sendEventInternal e req w = (w, Err ErrClientClosed).
Proof.
  intros Hcl. unfold sendRequestInternal, sendEventInternal.
  by split; (rewrite (prog_bind_Err _ _ w w ErrClientClosed); [|unfold checkClosed; by rewrite Hcl]).
Qed.
End facts.

(** ** Construction *)

Lemma dial_loop_spec dialed n : ∀ i (conns : list Z) r ok, dial_loop dialed n i conns = (r, ok) →
  ∃ new, r = conns ++ new ∧ (∀ j c, new !! j = Some c → dialed (i + j)%nat = Some c) ∧
    if ok : bool then length new = n else (length new < n)%nat ∧ dialed (i + length new)%nat = None.
Proof.
  induction n as [|n IH]; intros i conns r ok Hd; cbn [dial_loop] in Hd.
  - injection Hd as <- <-. exists []. by rewrite app_nil_r.
  - destruct (dialed i) as [c|] eqn:Ed.
    + apply IH in Hd as (new & -> & Hn & Hok). exists (c :: new). rewrite <- app_assoc. split; [done|]. split.
      * intros [|j] c'; cbn; [intros [= <-]; by rewrite Nat.add_0_r|].
        intros Hj. rewrite <- Nat.add_succ_comm. by apply Hn.
      * destruct ok; cbn; [lia|]. rewrite <- Nat.add_succ_comm. destruct Hok. split; [lia|done].
    + injection Hd as <- <-. exists []. rewrite app_nil_r. cbn. rewrite Nat.add_0_r.
      split_and!; [done..|lia|done].
Qed.

(** [NewClient] is all or nothing: either every one of the requested
    connections (at least one) is dialed and the client is made of them, or the
    first failure closes exactly the connections dialed before it. *)
Theorem NewClient_all_or_nothing dialed connsCount :
  (∃ conns, NewClient dialed connsCount = ([], Some conns) ∧ len conns = Z.max 1 connsCount ∧
     ∀ j c, conns !! j = Some c → dialed j = Some c) ∨
  (∃ closed, NewClient dialed connsCount = (closed, None) ∧ len closed < Z.max 1 connsCount ∧
     dialed (length closed) = None ∧ ∀ j c, closed !! j = Some c → dialed j = Some c).
Proof.
  unfold NewClient. set (n := if connsCount <? 1 then 1 else connsCount).
  assert (n = Z.max 1 connsCount) as Hn by (subst n; case_go; z_bools; lia).
  destruct (dial_loop dialed (Z.to_nat n) 0 []) as [conns ok] eqn:Ed.
  apply dial_loop_spec in Ed as (new & -> & Hnew & Hok). cbn. destruct ok; [left|right]; exists new.
  - unfold len. split_and!; [done|lia|apply Hnew].
  - destruct Hok. unfold len. split_and!; [done|lia|done|apply Hnew].
Qed.

(** ** Witnesses *)

Definition sample_client : cworld unit (ShardedMap nat) :=
  set_muxes [mkMux (mkBalancer [5; 6] 1) ∅]
    (newClient [70] [empty_Request] [] [] [] [mkBuffer (replicate 8 xaa) 8 0]).
Definition sample_env (r : wres) : env := mkEnv 300 77 0 0 0 0 None r 1000.
Definition outgoing : Request := mkRequest 0 [] [x65; x63; x68; x6f] [x01; x02] [].

Lemma sample_client_ok : cworld_ok sample_client.
Proof.
  split; [by vm_compute| |by vm_compute|apply new_refines|by repeat constructor].
  repeat constructor; by vm_compute.
Qed.

Lemma outgoing_wf : Request_wf (with_id (sample_env Written) outgoing).
Proof. split; vm_compute; intuition congruence. Qed.

Lemma sendRequestInternal_sends_witness :
  ∃ s w', sendRequestInternal (sample_env Written) outgoing sample_client = (w', Ok 0%nat) ∧
    next_stream sample_client = Some s ∧
    c_wire w' = [] ++ [(0%nat, s, request_bytes (set_req_RequestId 77 outgoing))] ∧
    im_view (c_chansMap w') = <[77 := 0%nat]> (im_view (c_chansMap sample_client)) ∧
    c_chansPool w' = [] ∧ cworld_ok w'.
Proof.
  apply (sendRequestInternal_sends (sample_env Written) outgoing sample_client sample_client_ok);
    [reflexivity|apply outgoing_wf|reflexivity..].
Defined.

Lemma failed_write_leaks_entry_witness :
  ∃ w', sendRequestInternal (sample_env (Failed 0 IoIdleTimeout)) outgoing sample_client =
      (w', Err (SendWrite IoIdleTimeout)) ∧
    im_view (c_chansMap w') !! 77 = Some 0%nat ∧ 0%nat ∈ c_chansPool w'.
Proof.
  apply (failed_write_leaks_entry (sample_env (Failed 0 IoIdleTimeout)) outgoing sample_client 0 IoIdleTimeout sample_client_ok);
    [reflexivity|apply outgoing_wf|discriminate|reflexivity..].
Defined.

Lemma sendEventInternal_sends_witness :
  ∃ s w', sendEventInternal (sample_env Written) outgoing sample_client = (w', Ok tt) ∧
    next_stream sample_client = Some s ∧
    c_wire w' = [] ++ [(0%nat, s, event_bytes (set_req_RequestId 0 outgoing))] ∧
    c_chansMap w' = c_chansMap sample_client ∧ c_chansPool w' = [] ∧ cworld_ok w'.
Proof.
  apply (sendEventInternal_sends (sample_env Written) outgoing sample_client sample_client_ok);
    [reflexivity| |reflexivity..]. split; vm_compute; intuition congruence.
Defined.

Lemma closed_client_rejects_witness :
  sendRequestInternal (sample_env Written) outgoing (Close_begin sample_client) =
    (Close_begin sample_client, Err ErrClientClosed) ∧
  sendEventInternal (sample_env Written) outgoing (Close_begin sample_client) =
    (Close_begin sample_client, Err ErrClientClosed).
Proof. apply (closed_client_rejects (sample_env Written) outgoing (Close_begin sample_client)). reflexivity. Defined.
