(* ===== verification/ClientLifecycle.v ===== *)
(** * Streams in the life of a client

    The composition of the client with its multiplexers over time.  [NewClient]
    returns before the multiplexers have opened a stream, and a read cycle that
    ends does not take its stream out of the balancer. *)

From S2P Require Import Prelude Wire WireInstance Schema SchemaFacts Encoder EncoderFacts ShardedMap Balancer Stream Ctx.
From S2P Require Import Batcher Multiplexer MultiplexerFacts Client ClientFacts.
From Stdlib Require Import Strings.Byte.

(** ** A new client *)

Section fresh.
Context `{Protohelpers, !ProtohelpersOk, Zstd} {any M : Type} `{!IdMap M chan, !IdMapOk M chan}.
Implicit Types w : cworld any M.

(** Choosing a connection, and the stream of a connection without streams. *)
Lemma no_stream_spec w : 0 < len (c_muxes w) < 2 ^ 32 → 0 ≤ c_connCounter w < 2 ^ 32 →
  Forall (λ m, snapshot (mx_balancer m) = []) (c_muxes w) →
  ∃ i w1 w2, getMultiplexor w = (w1, Ok i) ∧ getStream i w1 = (w2, Ok (Err StreamsListIsEmpty)) ∧
    c_chansMap w2 = c_chansMap w ∧ c_chansPool w2 = c_chansPool w ∧ c_wire w2 = c_wire w ∧
    c_buffers w2 = c_buffers w.
Proof.
  intros Hn Hc He. unfold getMultiplexor. rewrite ticket_eq by done.
  rewrite (u32_id (len (c_muxes w))) by lia. rewrite (proj2 (Z.eqb_neq (len (c_muxes w)) 0)) by lia.
  pose proof (Z.mod_pos_bound (c_connCounter w) (len (c_muxes w)) ltac:(lia)).
  destruct (lookup_lt_is_Some_2 (c_muxes w) (Z.to_nat (c_connCounter w mod len (c_muxes w)))) as [m Hm].
  { unfold len in *. lia. }
  eexists _, _, _. split; [by rewrite (proj2 (index_Ok _ _ m)) by (split; [lia|done])|].
  unfold getStream. cbn [c_muxes set_connCounter]. rewrite Hm. unfold GetStream.
  rewrite (Forall_lookup_1 _ _ _ _ He Hm). cbn [len length]. done.
Qed.

(** C35: a client cannot be used when [NewClient] returns: until a multiplexer
    has opened a stream in the background, [SendRequest] on the new client fails
    with [StreamsListIsEmpty]; nothing is written, the entry of the call stays in
    the map, its channel goes back to the pool, and the buffer of the frame is
    not put back into its pool. *)
Theorem fresh_client_has_no_stream e req conns requests responses reqCtxs respCtxs buffers :
  conns ≠ [] → len conns < 2 ^ 32 → Request_wf (with_id e req) → req_RequestId (with_id e req) ≠ 0 →
  let w := newClient (any:=any) (M:=M) conns requests responses reqCtxs respCtxs buffers in
  ∃ w', sendRequestInternal e req w = (w', Err (SendNoStream StreamsListIsEmpty)) ∧
    c_wire w' = [] ∧ im_view (c_chansMap w') = {[req_RequestId (with_id e req) := 0%nat]} ∧
    c_chansPool w' = [0%nat] ∧ c_buffers w' = (pool_get new_Buffer (e_buffer e) buffers).2.
Proof.
  intros Hne Hl Hwf Hid w. unfold sendRequestInternal.
  rewrite (prog_bind_Ok _ _ w w tt) by done. cbv zeta.
  change (if req_RequestId req =? 0 then _ else req) with (with_id e req).
  destruct (@im_new_ok M chan _ _) as [Hnew Hempty].
  destruct (register_spec e req w Hnew Hwf) as (w1 & w2 & w3 & w4 & buf & E1 & E2 & E3 & E4 & Hb & Hi & Hv &
    Hp & Ho & Hm & Hc & _).
  run_call E1. run_call E2. run_call E3. run_call E4. cbn [with_err].
  assert (c_buffers w4 = (pool_get new_Buffer (e_buffer e) buffers).2) as Hbuf.
  { assert (c_buffers w2 = buffers) as H2.
    { injection E2 as <-. unfold getChan in E1. by case_match; injection E1 as <-. }
    destruct (EncodeRequest_spec (with_id e req) (e_buffer e) (c_buffers w2) Hwf) as (buf' & Ee & _).
    unfold encodeRequest in E3. rewrite Ee in E3. injection E3 as <- _. rewrite H2 in E4.
    unfold client_releaseRequest in E4. destruct (ReleaseRequest _ _). by injection E4 as <- _. }
  assert (0 < len conns) as Hpos by (destruct conns; [done|len_lia]).
  destruct (no_stream_spec w4) as (i & w5 & w6 & E5 & E6 & Ha & Hd & Hx & Hy).
  { rewrite Hm. cbn. unfold len in *. by rewrite length_fmap. }
  { by rewrite Hc. }
  { rewrite Hm. apply Forall_fmap, Forall_true. done. }
  run_call E5. run_call E6. cbn [with_err].
  erewrite prog_bind_Ok by reflexivity. erewrite prog_bind_Ok by reflexivity.
  eexists. split; [reflexivity|]. cbn -[im_view]. rewrite Ha, Hd, Hx, Hy, Hp, Ho, Hbuf.
  destruct (im_Delete_ok 0 (c_chansMap w4) ltac:(lia) Hi) as [_ ->].
  split_and!; [done| |done|done]. rewrite Hv. cbn [c_chansMap newClient w]. rewrite Hempty.
  change (next_chan e w) with 0%nat. rewrite insert_empty. by apply delete_singleton_ne.
Qed.
End fresh.

Lemma fresh_client_has_no_stream_witness :
  ∃ w', sendRequestInternal (sample_env Written) outgoing
      (newClient (any:=unit) (M:=ShardedMap nat) [70; 71] [] [] [] [] []) =
      (w', Err (SendNoStream StreamsListIsEmpty)) ∧
    c_wire w' = [] ∧ im_view (c_chansMap w') = {[77 := 0%nat]}.
Proof.
  destruct (fresh_client_has_no_stream (any:=unit) (M:=ShardedMap nat) (sample_env Written) outgoing
    [70; 71] [] [] [] [] []) as (w' & E & Hw & Hv & _).
  - discriminate.
  - reflexivity.
  - apply outgoing_wf.
  - discriminate.
  - exists w'. split; [exact E|]. split; [exact Hw|exact Hv].
Defined.

(** ** A stream that has ended *)

Section dead.
Context `{Protohelpers, !ProtohelpersOk, Zstd, !ZstdOk} {M : Type} `{!IdMap M chan, !IdMapOk M chan}.
Context (choose : nat → nat) (clock : nat → Z) (wresult : nat → wres).
Implicit Types w : mworld M.

(** A program that leaves the balancer alone. *)
Definition keeps_balancer {A} (c : prog_on (mworld M) stop A) : Prop :=
  ∀ w, m_balancer (c w).1 = m_balancer w.

Lemma keeps_bind {A B} (c : prog_on (mworld M) stop A) (f : A → prog_on (mworld M) stop B) :
  keeps_balancer c → (∀ a, keeps_balancer (f a)) → keeps_balancer (c ≫= f).
Proof.
  intros Hc Hf w. specialize (Hc w). unfold mbind, prog_on_bind.
  destruct (c w) as [w1 [a| | |]]; cbn in *; try done. by rewrite Hf.
Qed.

Lemma keeps_with_err {F A B} (c : outcome F A) (h : F → prog_on (mworld M) stop B) k :
  (∀ e, keeps_balancer (h e)) → (∀ a, keeps_balancer (k a)) → keeps_balancer (with_err c h k).
Proof. intros Hh Hk w. destruct c; [apply Hk|apply Hh|done|done]. Qed.

Lemma keeps_lift {A} (c : outcome stop A) : keeps_balancer (lift c).
Proof. done. Qed.
Lemma keeps_ret {A} (a : A) : keeps_balancer (mret a).
Proof. done. Qed.
Lemma keeps_getRequest : keeps_balancer (mux_getRequest choose).
Proof. intros w. unfold mux_getRequest. by destruct (GetRequest _ _). Qed.
Lemma keeps_getResponse : keeps_balancer (mux_getResponse choose).
Proof. intros w. unfold mux_getResponse. by destruct (GetResponse _ _). Qed.
Lemma keeps_releaseRequest req : keeps_balancer (mux_releaseRequest req).
Proof. done. Qed.
Lemma keeps_releaseResponse resp : keeps_balancer (mux_releaseResponse resp).
Proof. done. Qed.
Lemma keeps_loadAndDelete id : keeps_balancer (loadAndDelete id).
Proof. intros w. unfold loadAndDelete. by destruct (im_LoadAndDelete _ _). Qed.
Lemma keeps_trySend ch r : keeps_balancer (trySend ch r).
Proof. intros w. unfold trySend. by case_match. Qed.
Lemma keeps_flush s : keeps_balancer (flushBatcher clock wresult s).
Proof.
  intros w. unfold flushBatcher, GetBatcher.
  destruct (m_batchers w !! s); cbn; destruct (Flush _ _ _) as [[b' out] err]; by destruct err.
Qed.

Create HintDb mux_frame.
#[local] Hint Resolve keeps_bind keeps_with_err keeps_lift keeps_ret keeps_getRequest keeps_getResponse
  keeps_releaseRequest keeps_releaseResponse keeps_loadAndDelete keeps_trySend keeps_flush : mux_frame.

Lemma keeps_dispatch flag data : keeps_balancer (mux_dispatch choose flag data).
Proof.
  unfold mux_dispatch, onResponse, onRequest, onEvent.
  repeat first [progress eauto 3 with mux_frame | apply keeps_with_err; intros | apply keeps_bind; intros | case_match].
Qed.

Lemma keeps_readCycle_loop s fuel : ∀ c, keeps_balancer (readCycle_loop choose clock wresult s fuel c).
Proof.
  induction fuel as [|fuel IH]; intros c; [done|]. cbn [readCycle_loop].
  apply keeps_bind; [apply keeps_flush|intros _]. apply keeps_bind; [done|intros [[flag data] c']].
  apply keeps_bind; [apply keeps_dispatch|intros _]. by apply keeps_bind.
Qed.

(** The streams of a balancer are all handed out in one round of calls. *)
Lemma GetStreams_all (bal : BalancerImpl Z) s :
  s ∈ snapshot bal → len (snapshot bal) < 2 ^ 31 → 0 ≤ counter bal < 2 ^ 31 →
  Ok s ∈ (GetStreams (length (snapshot bal)) bal).1.
Proof.
  intros Hs Hl Hc. destruct bal as [streams c]. cbn in *.
  assert (0 < len streams) by (destruct streams; [by apply elem_of_nil in Hs|len_lia]).
  destruct (GetStreams_spec (length streams) streams c) as (ss & -> & Hlen & Hi); [lia|lia|unfold len in *; lia|lia|].
  apply list_elem_of_fmap_2. rewrite (rotation streams ss c) by (done || lia).
  rewrite elem_of_app. apply or_comm. rewrite <- elem_of_app, take_drop. done.
Qed.

(** C36: a stream whose read cycle has ended is not taken out of use: after any
    responses, when the stream fails with any error, the read cycle returns and
    removes its batcher, but the balancer keeps the stream and hands it out again
    within one round of [GetStream]; nobody reads the answers any more. *)
Theorem dead_stream_still_chosen s rs e buff fuel w :
  mworld_ok w → Forall reply_ok rs → (length rs < fuel)%nat →
  s ∈ snapshot (m_balancer w) → len (snapshot (m_balancer w)) < 2 ^ 31 → 0 ≤ counter (m_balancer w) < 2 ^ 31 →
  ∃ w', readCycle choose clock wresult s fuel (mkCycle (mkIn
      (mjoin (frame <$> ((λ r, pack RESPONSE_FLAG RESPONSE_ZSTD_FLAG (Response_wire r)) <$> rs))) e) buff) w =
      (w', Err (mux_onError HeaderReadError e)) ∧
    m_batchers w' !! s = None ∧ m_balancer w' = m_balancer w ∧
    Ok s ∈ (GetStreams (length (snapshot (m_balancer w'))) (m_balancer w')).1.
Proof.
  intros Hw Hrs Hfuel Hs Hl Hc.
  destruct (readCycle_replies choose clock wresult s rs e buff fuel w Hw Hrs Hfuel) as (w' & E & _ & _ & Hd).
  exists w'. split; [done|]. split; [done|].
  assert (m_balancer w' = m_balancer w) as Hk.
  { lazymatch type of E with readCycle _ _ _ _ _ ?c _ = _ => pose proof (keeps_readCycle_loop s fuel c w) as Hk end.
    unfold readCycle in E. destruct (readCycle_loop _ _ _ _ _ _ _) as [w1 r]. by injection E as <- _. }
  split; [done|]. rewrite Hk. by apply GetStreams_all.
Qed.
End dead.

Lemma dead_stream_still_chosen_witness :
  let w := upd_balancer (λ _, mkBalancer [5; 6] 1) sample_mux in
  ∃ w', readCycle (λ _, 0%nat) (λ _, 0) (λ _, Written) 5 1 (mkCycle (mkIn [] IoIdleTimeout) []) w =
      (w', Err PeerDisconnected) ∧ Ok 5 ∈ (GetStreams 2 (m_balancer w')).1.
Proof.
  intros w.
  destruct (dead_stream_still_chosen (λ _, 0%nat) (λ _, 0) (λ _, Written) 5 [] IoIdleTimeout [] 1 w)
    as (w' & E & _ & Hb & Hin).
  - destruct sample_mux_ok. by split.
  - constructor.
  - simpl. lia.
  - left.
  - reflexivity.
  - split; [discriminate|reflexivity].
  - exists w'. split; [exact E|]. rewrite Hb in Hin |- *. exact Hin.
Defined.
