(* ===== verification/ClientProtocol.v ===== *)
(** * The request-response protocol of the client

    The goroutines of the client interleaved at their accesses to shared state:
    callers of [SendRequest] (client.go: [sendRequestInternal], [waitResponse]),
    the read cycles that deliver responses (multiplexer.go) and [Close].  The
    peer may send any response at any time.  [cstep false] are the runs in which
    no call is cancelled or fails and the client is not closed; [cstep true] are
    all runs.  The deferred [pendingWg.Done] is taken together with the last
    action before it.  [g_pending] is the counter of [pendingWg]; its waiters and
    its panics are in ClientProgress.v. *)

From S2P Require Import Prelude Schema SchemaFacts Encoder ShardedMap Stream Ctx Multiplexer Client.
From Stdlib Require Import Strings.Byte.

(** Where a caller of [SendRequest] is. *)
Inductive pc : Type :=
| Begin (id : Z)                                 (* the id is drawn *)
| Checked (id : Z)                               (* [closeCh] was open *)
| GotChan (id : Z) (ch : chan)                   (* after [getChan] *)
| Stored (id : Z) (ch : chan)                    (* after [chansMap.Store] *)
| Failing (id : Z) (ch : chan) (err : SendErr)   (* a failed send: before [Delete] *)
| FailingPut (id : Z) (ch : chan) (err : SendErr) (* before [putChan] *)
| Sent (id : Z) (ch : chan)                      (* the frame is written *)
| Waiting (id : Z) (ch : chan)                   (* in the [select], counted by [pendingWg] *)
| Received (id : Z) (ch : chan) (r : Response)   (* before [putChan] *)
| Leaving (id : Z) (ch : chan) (err : SendErr)   (* cancelled: before [putChan] *)
| LeavingPut (id : Z) (err : SendErr)            (* before [Delete] *)
| Returned (id : Z) (res : Response + SendErr).

(** The channel a caller will still use. *)
Definition holds (p : pc) : option chan :=
  match p with
  | GotChan _ ch | Stored _ ch | Failing _ ch _ | FailingPut _ ch _ | Sent _ ch | Waiting _ ch
  | Received _ ch _ | Leaving _ ch _ => Some ch
  | _ => None
  end.

(** A caller inside [waitResponse]. *)
Definition in_wait (p : pc) : bool :=
  match p with Waiting _ _ | Received _ _ _ | Leaving _ _ _ | LeavingPut _ _ => true | _ => false end.

(** A caller that has registered its channel and not yet its response. *)
Definition expects (p : pc) : option (Z * chan) :=
  match p with Stored id ch | Sent id ch | Waiting id ch => Some (id, ch) | _ => None end.

Section protocol.
Context {M : Type} `{!IdMap M chan}.

Record config : Type := mkConfig {
  g_map : M;                            (* chansMap *)
  g_boxes : gmap chan (list Response);  (* the contents of the channels *)
  g_pool : list chan;                   (* chansPool *)
  g_next : chan;                        (* the next new channel *)
  g_closed : bool;                      (* closeCh *)
  g_pending : Z;                        (* the counter of pendingWg *)
  g_callers : gmap nat pc;
  g_readers : gmap nat (chan * Response) (* between [LoadAndDelete] and the send *)
}.

Definition box (g : config) (ch : chan) : list Response := default [] (g_boxes g !! ch).

Definition cinit : config := mkConfig im_new ∅ [] 0 false 0 ∅ ∅.

(** The state with caller [t] at [p]. *)
Definition at_pc (t : nat) (p : pc) (g : config) : config :=
  mkConfig (g_map g) (g_boxes g) (g_pool g) (g_next g) (g_closed g) (g_pending g)
    (<[t := p]> (g_callers g)) (g_readers g).
Definition with_map (m : M) (g : config) : config :=
  mkConfig m (g_boxes g) (g_pool g) (g_next g) (g_closed g) (g_pending g) (g_callers g) (g_readers g).
Definition with_box (ch : chan) (l : list Response) (g : config) : config :=
  mkConfig (g_map g) (<[ch := l]> (g_boxes g)) (g_pool g) (g_next g) (g_closed g) (g_pending g) (g_callers g) (g_readers g).
Definition with_pool (p : list chan) (n : chan) (g : config) : config :=
  mkConfig (g_map g) (g_boxes g) p n (g_closed g) (g_pending g) (g_callers g) (g_readers g).
Definition with_pending (n : Z) (g : config) : config :=
  mkConfig (g_map g) (g_boxes g) (g_pool g) (g_next g) (g_closed g) n (g_callers g) (g_readers g).
Definition with_closed (g : config) : config :=
  mkConfig (g_map g) (g_boxes g) (g_pool g) (g_next g) true (g_pending g) (g_callers g) (g_readers g).
Definition with_readers (r : gmap nat (chan * Response)) (g : config) : config :=
  mkConfig (g_map g) (g_boxes g) (g_pool g) (g_next g) (g_closed g) (g_pending g) (g_callers g) r.

Inductive cstep (failures : bool) : config → config → Prop :=
(* SendRequest and sendRequestInternal; a drawn id of 0, which
   sendRequestInternal would draw again, is left out *)
| s_call g t id : g_callers g !! t = None → 0 < id < 2 ^ 64 → cstep failures g (at_pc t (Begin id) g)
| s_check g t id : g_callers g !! t = Some (Begin id) →
    cstep failures g
      (at_pc t (if g_closed g then Returned id (inr ErrClientClosed) else Checked id) g)
| s_getChan_pool g t id k ch : g_callers g !! t = Some (Checked id) → g_pool g !! k = Some ch →
    cstep failures g (at_pc t (GotChan id ch) (with_pool (delete k (g_pool g)) (g_next g) g))
| s_getChan_new g t id : g_callers g !! t = Some (Checked id) →
    cstep failures g (at_pc t (GotChan id (g_next g)) (with_pool (g_pool g) (S (g_next g)) g))
| s_store g t id ch : g_callers g !! t = Some (GotChan id ch) →
    cstep failures g (at_pc t (Stored id ch) (with_map (im_Store id ch (g_map g)) g))
| s_send g t id ch : g_callers g !! t = Some (Stored id ch) → cstep failures g (at_pc t (Sent id ch) g)
| s_send_fails g t id ch err : failures = true → g_callers g !! t = Some (Stored id ch) →
    cstep failures g (at_pc t (Failing id ch err) g)
| s_fail_delete g t id ch err id' : g_callers g !! t = Some (Failing id ch err) →
    (* [req.RequestId] of the released message: 0, or whatever a goroutine that has
       taken the message from the pool in the meantime has put there, wherever
       that goroutine is by now *)
    0 ≤ id' < 2 ^ 64 →
    cstep failures g (at_pc t (FailingPut id ch err) (with_map (im_Delete id' (g_map g)) g))
| s_fail_put g t id ch err : g_callers g !! t = Some (FailingPut id ch err) →
    cstep failures g (at_pc t (Returned id (inr err)) (with_pool (pool_put ch (g_pool g)) (g_next g) g))
(* waitResponse *)
| s_wait g t id ch : g_callers g !! t = Some (Sent id ch) →
    cstep failures g (at_pc t (Waiting id ch) (with_pending (g_pending g + 1) g))
| s_receive g t id ch r l : g_callers g !! t = Some (Waiting id ch) → box g ch = r :: l →
    cstep failures g (at_pc t (Received id ch r) (with_box ch l g))
| s_received_put g t id ch r : g_callers g !! t = Some (Received id ch r) →
    cstep failures g (at_pc t (Returned id (inl r))
      (with_pending (g_pending g - 1) (with_pool (pool_put ch (g_pool g)) (g_next g) g)))
| s_cancel g t id ch err : failures = true → g_callers g !! t = Some (Waiting id ch) →
    cstep failures g (at_pc t (Leaving id ch (SendCtx err)) g)
| s_closed g t id ch : g_closed g = true → g_callers g !! t = Some (Waiting id ch) →
    cstep failures g (at_pc t (Leaving id ch ErrClientClosed) g)
| s_leave_put g t id ch err : g_callers g !! t = Some (Leaving id ch err) →
    cstep failures g (at_pc t (LeavingPut id err) (with_pool (pool_put ch (g_pool g)) (g_next g) g))
| s_leave_delete g t id err : g_callers g !! t = Some (LeavingPut id err) →
    cstep failures g (at_pc t (Returned id (inr err))
      (with_pending (g_pending g - 1) (with_map (im_Delete id (g_map g)) g)))
(* the response case of readCycle *)
| s_load g k r ch m : g_readers g !! k = None → 0 ≤ resp_RequestId r < 2 ^ 64 →
    im_LoadAndDelete (resp_RequestId r) (g_map g) = (Some ch, m) →
    cstep failures g (with_readers (<[k := (ch, r)]> (g_readers g)) (with_map m g))
| s_load_none g r m : 0 ≤ resp_RequestId r < 2 ^ 64 →
    im_LoadAndDelete (resp_RequestId r) (g_map g) = (None, m) → cstep failures g (with_map m g)
| s_deliver g k ch r : g_readers g !! k = Some (ch, r) → box g ch = [] →
    cstep failures g (with_readers (delete k (g_readers g)) (with_box ch [r] g))
| s_drop g k ch r : g_readers g !! k = Some (ch, r) → box g ch ≠ [] →
    cstep failures g (with_readers (delete k (g_readers g)) g)
(* Close *)
| s_close g : failures = true → cstep failures g (with_closed g).
End protocol.
Arguments config M : clear implicits.
