(* ===== verification/ClientProtocolFacts.v ===== *)
(** * Correctness of the request-response protocol

    Without failures every caller gets a response with the id of its own request,
    whatever the peer sends.  With a cancellation the code puts the channel back
    while a response may still be in it or on its way to it. *)

From S2P Require Import Prelude Schema SchemaFacts Encoder ShardedMap Stream Ctx Multiplexer Client ClientProtocol.
From Stdlib Require Import Strings.Byte.

Section invariant.
Context {M : Type} `{!IdMap M chan, !IdMapOk M chan}.
Implicit Types g : config M.

Definition hold g (t : nat) : option chan := g_callers g !! t ≫= holds.
Definition expect g (t : nat) : option (Z * chan) := g_callers g !! t ≫= expects.

Lemma hold_at t p g t' : hold (at_pc t p g) t' = if decide (t' = t) then holds p else hold g t'.
Proof. unfold hold. cbn. case_decide; subst; [by rewrite lookup_insert_eq|by rewrite lookup_insert_ne]. Qed.
Lemma expect_at t p g t' : expect (at_pc t p g) t' = if decide (t' = t) then expects p else expect g t'.
Proof. unfold expect. cbn. case_decide; subst; [by rewrite lookup_insert_eq|by rewrite lookup_insert_ne]. Qed.
Lemma expect_hold g t id ch : expect g t = Some (id, ch) → hold g t = Some ch.
Proof. unfold expect, hold. destruct (g_callers g !! t) as [[]|]; cbn; naive_solver. Qed.

(** Ids have their width, a response that was taken has the id of the request,
    and nobody is on a failure path. *)
Definition good (p : pc) : Prop :=
  match p with
  | Begin id | Checked id | GotChan id _ => 0 ≤ id < 2 ^ 64
  | Received id _ r | Returned id (inl r) => resp_RequestId r = id
  | Stored _ _ | Sent _ _ | Waiting _ _ => True
  | _ => False
  end.

(** Every channel has at most one owner, a caller or the pool; a map entry, a
    response on its way and a response in the channel belong to the owner and
    have its id; and a channel has at most one of the three. *)
Record cinv g : Prop := {
  ci_map : im_inv (g_map g);
  ci_open : g_closed g = false;
  ci_good t p : g_callers g !! t = Some p → good p;
  ci_fresh t ch : hold g t = Some ch → (ch < g_next g)%nat;
  ci_pool_fresh ch : ch ∈ g_pool g → (ch < g_next g)%nat;
  ci_pool_nodup : NoDup (g_pool g);
  ci_pool_free t ch : ch ∈ g_pool g → hold g t ≠ Some ch;
  ci_unique t t' ch : hold g t = Some ch → hold g t' = Some ch → t = t';
  ci_entry id ch : im_view (g_map g) !! id = Some ch →
    (∃ t, expect g t = Some (id, ch)) ∧ box g ch = [] ∧ ∀ k r, g_readers g !! k ≠ Some (ch, r);
  ci_reader k ch r : g_readers g !! k = Some (ch, r) →
    (∃ t, expect g t = Some (resp_RequestId r, ch)) ∧ box g ch = [] ∧
    ∀ k' r', g_readers g !! k' = Some (ch, r') → k' = k;
  ci_box ch r l : box g ch = r :: l → l = [] ∧ ∃ t, expect g t = Some (resp_RequestId r, ch)
}.

Lemma cinv_init : cinv cinit.
Proof.
  destruct (@im_new_ok M chan _ _) as [Hi Hv].
  split; cbn; try done; try (by intros; unfold hold in *; cbn in *; simplify_map_eq);
    try (intros; set_solver); try constructor.
  all: intros; rewrite ?Hv in *; unfold box in *; cbn in *; by simplify_map_eq.
Qed.

(** A step of caller [t] that changes neither what it holds nor what it expects. *)
Lemma cinv_move t p q g : cinv g → g_callers g !! t = Some p ∨ (g_callers g !! t = None ∧ p = Begin 0) →
  holds q = holds p → expects q = expects p → good q → cinv (at_pc t q g).
Proof.
  intros Hg Hp Hh Hx Hq.
  assert (∀ t', hold (at_pc t q g) t' = hold g t') as Eh.
  { intros t'. rewrite hold_at. case_decide; [subst|done]. unfold hold. destruct Hp as [->|[-> ->]]; cbn; by rewrite Hh. }
  assert (∀ t', expect (at_pc t q g) t' = expect g t') as Ex.
  { intros t'. rewrite expect_at. case_decide; [subst|done]. unfold expect. destruct Hp as [->|[-> ->]]; cbn; by rewrite Hx. }
  destruct Hg as [Hm Hc Hgood Hf Hpf Hnd Hfree Hu He Hr Hb].
  split; try done; try (intros *; setoid_rewrite Eh; eauto); try (intros *; setoid_rewrite Ex; eauto).
  cbn. intros t' p' Hp'. destruct (decide (t' = t)) as [->|?]; simplify_map_eq; eauto.
Qed.

(** What a caller at a known place holds and expects. *)
Lemma hold_pc g t p : g_callers g !! t = Some p → hold g t = holds p.
Proof. intros E. unfold hold. by rewrite E. Qed.
Lemma expect_pc g t p : g_callers g !! t = Some p → expect g t = expects p.
Proof. intros E. unfold expect. by rewrite E. Qed.

Lemma good_at t q g : good q → (∀ t p, g_callers g !! t = Some p → good p) →
  ∀ t' p, g_callers (at_pc t q g) !! t' = Some p → good p.
Proof. intros Hq Hg t' p. cbn. destruct (decide (t' = t)) as [->|?]; intros; simplify_map_eq; eauto. Qed.

(** A channel in nobody's hands has no entry, no response on its way and is
    empty. *)
Lemma unheld_idle g ch : cinv g → (∀ t, hold g t ≠ Some ch) →
  (∀ id, im_view (g_map g) !! id ≠ Some ch) ∧ (∀ k r, g_readers g !! k ≠ Some (ch, r)) ∧ box g ch = [].
Proof.
  intros Hg Hn. split_and!.
  - intros id Hid. destruct (ci_entry _ Hg _ _ Hid) as ([t Ht] & _). by apply expect_hold, Hn in Ht.
  - intros k r Hk. destruct (ci_reader _ Hg _ _ _ Hk) as ([t Ht] & _). by apply expect_hold, Hn in Ht.
  - destruct (box g ch) as [|r l] eqn:Hb; [done|].
    destruct (ci_box _ Hg _ _ _ Hb) as (_ & t & Ht). by apply expect_hold, Hn in Ht.
Qed.

(** The same for a channel whose holder expects nothing. *)
Lemma unexpected_idle g t ch : cinv g → hold g t = Some ch → expect g t = None →
  (∀ id, im_view (g_map g) !! id ≠ Some ch) ∧ (∀ k r, g_readers g !! k ≠ Some (ch, r)) ∧ box g ch = [].
Proof.
  intros Hg Hh Hx. assert (∀ t' id, expect g t' ≠ Some (id, ch)) as Hn.
  { intros t' id Ht'. pose proof (ci_unique _ Hg _ _ _ Hh (expect_hold _ _ _ _ Ht')). congruence. }
  split_and!.
  - intros id Hid. destruct (ci_entry _ Hg _ _ Hid) as ([t' Ht] & _). by apply Hn in Ht.
  - intros k r Hk. destruct (ci_reader _ Hg _ _ _ Hk) as ([t' Ht] & _). by apply Hn in Ht.
  - destruct (box g ch) as [|r l] eqn:Hb; [done|].
    destruct (ci_box _ Hg _ _ _ Hb) as (_ & t' & Ht). by apply Hn in Ht.
Qed.

(** A caller that takes a channel nobody holds. *)
Lemma cinv_take g t id ch pool next : cinv g → g_callers g !! t = Some (Checked id) →
  (∀ t', hold g t' ≠ Some ch) → (ch < next)%nat → (g_next g ≤ next)%nat → ch ∉ pool →
  NoDup pool → (∀ c, c ∈ pool → c ∈ g_pool g) → cinv (at_pc t (GotChan id ch) (with_pool pool next g)).
Proof.
  intros Hg Ht Hfree Hlt Hle Hnin Hnd Hsub.
  assert (∀ t' c, hold (at_pc t (GotChan id ch) (with_pool pool next g)) t' = Some c →
    (t' = t ∧ c = ch) ∨ (t' ≠ t ∧ hold g t' = Some c)) as Hh.
  { intros t' c. rewrite hold_at. cbn. case_decide; [intros [= <-]; by left|by right]. }
  assert (∀ t', expect (at_pc t (GotChan id ch) (with_pool pool next g)) t' = expect g t') as Hx.
  { intros t'. rewrite expect_at. case_decide; [subst|done]. by rewrite (expect_pc _ _ _ Ht). }
  destruct Hg as [Hm Hc Hgood Hf Hpf Hndp Hpfree Hu He Hr Hb]. split; try done.
  - apply (good_at t _ (with_pool pool next g)); [exact (Hgood _ _ Ht)|done].
  - intros t' c [[-> ->]|[_ Hc']]%Hh; cbn; [done|]. apply Hf in Hc'. lia.
  - cbn. intros c Hc'%Hsub%Hpf. lia.
  - cbn. intros t' c Hc' [[-> ->]|[_ Hh']]%Hh; [done|]. by apply (Hpfree t' c); [apply Hsub|].
  - intros t1 t2 c [[-> ->]|[Hn1 H1]]%Hh [[-> ?]|[Hn2 H2]]%Hh; try done.
    + by apply Hfree in H2.
    + subst. by apply Hfree in H1.
    + by eapply Hu.
  - intros id' c Hv. setoid_rewrite Hx. by apply He.
  - intros k c r Hk. setoid_rewrite Hx. by apply Hr.
  - intros c r l Hbox. setoid_rewrite Hx. by apply (Hb c r l).
Qed.

Lemma cinv_store g t id ch : cinv g → g_callers g !! t = Some (GotChan id ch) →
  cinv (at_pc t (Stored id ch) (with_map (im_Store id ch (g_map g)) g)).
Proof.
  intros Hg Ht. pose proof (ci_good _ Hg _ _ Ht) as Hid. cbn in Hid.
  destruct (im_Store_ok id ch (g_map g) Hid (ci_map _ Hg)) as [Hinv Hv].
  destruct (unexpected_idle g t ch Hg) as (Hnv & Hnr & Hnb); [by rewrite (hold_pc _ _ _ Ht)|by rewrite (expect_pc _ _ _ Ht)|].
  set (g' := at_pc t (Stored id ch) (with_map (im_Store id ch (g_map g)) g)).
  assert (∀ t', hold g' t' = hold g t') as Hh.
  { intros t'. unfold g'. rewrite hold_at. case_decide; [subst|done]. by rewrite (hold_pc _ _ _ Ht). }
  assert (expect g' t = Some (id, ch)) as Hxt by (unfold g'; rewrite expect_at, decide_True; done).
  assert (∀ t' x, expect g t' = Some x → expect g' t' = Some x) as Hx.
  { intros t' x Hx. unfold g'. rewrite expect_at. case_decide; [|done]. subst. by rewrite (expect_pc _ _ _ Ht) in Hx. }
  destruct Hg as [Hm Hc Hgood Hf Hpf Hndp Hpfree Hu He Hr Hb]. split; try done.
  - by apply good_at.
  - intros t' c. rewrite Hh. apply Hf.
  - intros t' c. rewrite Hh. apply Hpfree.
  - intros t1 t2 c. rewrite !Hh. apply Hu.
  - intros id' c. cbn. rewrite Hv. intros [[-> ->]|[_ Hv']]%lookup_insert_Some; [by eauto|].
    destruct (He _ _ Hv') as ([t' Ht'] & ? & ?). eauto.
  - intros k c r Hk. destruct (Hr _ _ _ Hk) as ([t' Ht'] & ? & ?). eauto.
  - intros c r l Hbox. destruct (Hb c r l Hbox) as (-> & t' & Ht'). eauto.
Qed.

Lemma box_with ch l g c : box (with_box ch l g) c = if decide (c = ch) then l else box g c.
Proof. unfold box. cbn. case_decide; subst; [by rewrite lookup_insert_eq|by rewrite lookup_insert_ne]. Qed.

Lemma cinv_receive g t id ch r l : cinv g → g_callers g !! t = Some (Waiting id ch) → box g ch = r :: l →
  cinv (at_pc t (Received id ch r) (with_box ch l g)).
Proof.
  intros Hg Ht Hbox. destruct (ci_box _ Hg _ _ _ Hbox) as (-> & t0 & Ht0).
  assert (t0 = t) as ->.
  { eapply (ci_unique _ Hg); [by eapply expect_hold|by rewrite (hold_pc _ _ _ Ht)]. }
  rewrite (expect_pc _ _ _ Ht) in Ht0. cbn in Ht0. injection Ht0 as Hid.
  set (g' := at_pc t (Received id ch r) (with_box ch [] g)).
  assert (∀ t', hold g' t' = hold g t') as Hh.
  { intros t'. unfold g'. rewrite hold_at. case_decide; [subst|done]. by rewrite (hold_pc _ _ _ Ht). }
  assert (∀ t' i c, c ≠ ch → expect g t' = Some (i, c) → expect g' t' = Some (i, c)) as Hx.
  { intros t' i c Hne Hx. unfold g'. rewrite expect_at. case_decide; [|done]. subst.
    rewrite (expect_pc _ _ _ Ht) in Hx. cbn in Hx. congruence. }
  assert (∀ c, c ≠ ch → box g' c = box g c) as Hbx.
  { intros c Hne. change (box g' c) with (box (with_box ch [] g) c). rewrite box_with, decide_False; done. }
  assert (box g' ch = []) as Hbch by (change (box (with_box ch [] g) ch = []); rewrite box_with, decide_True; done).
  destruct Hg as [Hm Hc Hgood Hf Hpf Hndp Hpfree Hu He Hr Hb]. split; try done.
  - by apply (good_at t _ (with_box ch [] g)).
  - intros t' c. rewrite Hh. apply Hf.
  - intros t' c. rewrite Hh. apply Hpfree.
  - intros t1 t2 c. rewrite !Hh. apply Hu.
  - intros id' c Hv. destruct (He id' c Hv) as ([t' Ht'] & Hbc & ?).
    assert (c ≠ ch) as Hne by congruence. rewrite Hbx by done. eauto 10.
  - intros k c r' Hk. destruct (Hr _ _ _ Hk) as ([t' Ht'] & Hbc & ?).
    assert (c ≠ ch) as Hne by congruence. rewrite Hbx by done. eauto 10.
  - intros c r' l Hbc. destruct (decide (c = ch)) as [->|Hne]; [congruence|]. rewrite Hbx in Hbc by done.
    destruct (Hb c r' l Hbc) as (-> & t' & Ht'). eauto.
Qed.

Lemma cinv_put g t id ch r n : cinv g → g_callers g !! t = Some (Received id ch r) →
  cinv (at_pc t (Returned id (inl r)) (with_pending n (with_pool (pool_put ch (g_pool g)) (g_next g) g))).
Proof.
  intros Hg Ht. pose proof (ci_good _ Hg _ _ Ht) as Hgt. cbn in Hgt.
  assert (hold g t = Some ch) as Hht by (by rewrite (hold_pc _ _ _ Ht)).
  set (g' := at_pc t _ _).
  assert (∀ t' c, hold g' t' = Some c → t' ≠ t ∧ hold g t' = Some c) as Hh.
  { intros t' c. unfold g'. rewrite hold_at. by case_decide. }
  assert (∀ t' x, expect g t' = Some x → expect g' t' = Some x) as Hx.
  { intros t' x Hx. unfold g'. rewrite expect_at. case_decide; [|done]. subst. by rewrite (expect_pc _ _ _ Ht) in Hx. }
  destruct Hg as [Hm Hc Hgood Hf Hpf Hndp Hpfree Hu He Hr Hb]. split; try done.
  - by apply good_at.
  - intros t' c [_ Hc']%Hh. by apply Hf in Hc'.
  - cbn. intros c [->|Hc']%elem_of_cons; [by eapply Hf|by apply Hpf].
  - cbn. constructor; [|done]. intros Hin. by apply (Hpfree t ch).
  - cbn. intros t' c [->|Hin]%elem_of_cons [Hne Hh']%Hh; [by apply Hne, (Hu t' t ch)|by eapply Hpfree].
  - intros t1 t2 c [_ H1]%Hh [_ H2]%Hh. by eapply Hu.
  - intros id' c Hv. destruct (He _ _ Hv) as ([t' Ht'] & ? & ?). eauto.
  - intros k c r' Hk. destruct (Hr _ _ _ Hk) as ([t' Ht'] & ? & ?). eauto.
  - intros c r' l Hbox. destruct (Hb c r' l Hbox) as (-> & t' & Ht'). eauto.
Qed.

Lemma cinv_load g k r ch m : cinv g → g_readers g !! k = None → 0 ≤ resp_RequestId r < 2 ^ 64 →
  im_LoadAndDelete (resp_RequestId r) (g_map g) = (Some ch, m) →
  cinv (with_readers (<[k := (ch, r)]> (g_readers g)) (with_map m g)).
Proof.
  intros Hg Hk Hid Hl. destruct (im_LoadAndDelete_ok _ _ Hid (ci_map _ Hg)) as (Hlv & Hinv & Hv).
  rewrite Hl in Hlv, Hinv, Hv. cbn [fst snd] in *. symmetry in Hlv.
  destruct (ci_entry _ Hg _ _ Hlv) as ([t0 Ht0] & Hb0 & Hr0).
  assert (∀ id c, im_view m !! id = Some c → im_view (g_map g) !! id = Some c ∧ c ≠ ch) as Hv'.
  { intros id c. rewrite Hv. intros [Hne Hc']%lookup_delete_Some. split; [done|]. intros ->.
    destruct (ci_entry _ Hg _ _ Hc') as ([t1 Ht1] & _).
    pose proof (ci_unique _ Hg _ _ _ (expect_hold _ _ _ _ Ht0) (expect_hold _ _ _ _ Ht1)) as ->. congruence. }
  destruct Hg as [Hm Hc Hgood Hf Hpf Hndp Hpfree Hu He Hr Hb]. split; try done.
  - intros id c Hvc. cbn in Hvc. apply Hv' in Hvc as [Hvc Hne].
    destruct (He _ _ Hvc) as (? & ? & Hnr). split_and!; [done..|].
    cbn. intros k' r' [[_ [= <- _]]|[_ Hk']]%lookup_insert_Some; [done|by eapply Hnr].
  - intros k1 c r1. cbn. intros [[-> [= <- <-]]|[Hne Hk1]]%lookup_insert_Some.
    + split_and!; [by exists t0|done|]. intros k' r' [[<- _]|[_ Hk']]%lookup_insert_Some; [done|].
      by apply Hr0 in Hk'.
    + destruct (Hr _ _ _ Hk1) as (? & ? & Hu1). split_and!; [done..|].
      intros k' r' [[<- [= <- _]]|[_ Hk']]%lookup_insert_Some; [by apply Hr0 in Hk1|by eapply Hu1].
Qed.

Lemma cinv_load_none g r m : cinv g → 0 ≤ resp_RequestId r < 2 ^ 64 →
  im_LoadAndDelete (resp_RequestId r) (g_map g) = (None, m) → cinv (with_map m g).
Proof.
  intros Hg Hid Hl. destruct (im_LoadAndDelete_ok _ _ Hid (ci_map _ Hg)) as (Hlv & Hinv & Hv).
  rewrite Hl in Hlv, Hinv, Hv. cbn [fst snd] in *. rewrite delete_id in Hv by done.
  destruct Hg as [Hm Hc Hgood Hf Hpf Hndp Hpfree Hu He Hr Hb]. split; try done.
  cbn. intros id c. rewrite Hv. apply He.
Qed.

Lemma cinv_deliver g k ch r : cinv g → g_readers g !! k = Some (ch, r) →
  cinv (with_readers (delete k (g_readers g)) (with_box ch [r] g)).
Proof.
  intros Hg Hk. destruct (ci_reader _ Hg _ _ _ Hk) as (Ht & Hbe & Huk).
  destruct Hg as [Hm Hc Hgood Hf Hpf Hndp Hpfree Hu He Hr Hb].
  set (g' := with_readers _ _).
  assert (∀ c, box g' c = if decide (c = ch) then [r] else box g c) as Hbx
    by (intros c; change (box g' c) with (box (with_box ch [r] g) c); apply box_with).
  split; try done.
  - intros id c Hv. destruct (He _ _ Hv) as (? & ? & Hn).
    rewrite Hbx, decide_False by (intros ->; by apply Hn in Hk). split_and!; [done..|].
    cbn. intros k' r' [_ Hk']%lookup_delete_Some. by eapply Hn.
  - intros k' c r'. cbn. intros [Hne Hk']%lookup_delete_Some. destruct (Hr _ _ _ Hk') as (? & ? & Hu').
    rewrite Hbx, decide_False by (intros ->; by apply Huk in Hk'). split_and!; [done..|].
    intros k2 r2 [_ Hk2]%lookup_delete_Some. by eapply Hu'.
  - intros c r' l. rewrite Hbx. case_decide as Hd; [|apply Hb]. subst. intros [= <- <-]. done.
Qed.

Lemma NoDup_pool_delete (p : list chan) k ch : NoDup p → p !! k = Some ch →
  NoDup (delete k p) ∧ ch ∉ delete k p ∧ ch ∈ p ∧ ∀ c, c ∈ delete k p → c ∈ p.
Proof.
  intros Hnd Hk. pose proof (delete_Permutation _ _ _ Hk) as Hp. rewrite Hp in Hnd.
  apply NoDup_cons in Hnd as [? ?]. split_and!; [done..| |]; [by eapply list_elem_of_lookup_2|].
  intros c Hc. rewrite Hp. by right.
Qed.

Lemma cinv_step g g' : cstep false g g' → cinv g → cinv g'.
Proof.
  intros Hs Hg. destruct Hs as [g t id Ht Hid|g t id Ht|g t id k ch Ht Hk|g t id Ht|g t id ch Ht|g t id ch Ht|
    |g t id ch err id' Ht|g t id ch err Ht|g t id ch Ht|g t id ch r l Ht|g t id ch r Ht|
    |g t id ch Hcl|g t id ch err Ht|g t id err Ht|g k r ch m Hk|g r m Hid|g k ch r Hk|g k ch r Hk Hb|];
    try done; try (by apply (ci_good _ Hg) in Ht).
  - eapply (cinv_move t (Begin 0)); eauto. cbn. lia.
  - rewrite (ci_open _ Hg). eapply cinv_move; eauto; try done. exact (ci_good _ Hg _ _ Ht).
  - destruct (NoDup_pool_delete _ _ _ (ci_pool_nodup _ Hg) Hk) as (? & ? & Hin & ?).
    apply cinv_take; auto.
    + intros t'. by apply (ci_pool_free _ Hg).
    + by apply (ci_pool_fresh _ Hg).
  - pose proof (ci_pool_nodup _ Hg). apply cinv_take; auto.
    + intros t' Hh%(ci_fresh _ Hg). lia.
    + intros Hin%(ci_pool_fresh _ Hg). lia.
  - by apply cinv_store.
  - by eapply cinv_move; eauto.
  - assert (cinv (with_pending (g_pending g + 1) g)) by (by destruct Hg).
    by apply (cinv_move t (Sent id ch)); auto.
  - by apply cinv_receive.
  - by apply cinv_put.
  - by rewrite (ci_open _ Hg) in Hcl.
  - by eapply cinv_load.
  - by eapply cinv_load_none.
  - by eapply cinv_deliver.
  - by apply (ci_reader _ Hg) in Hk as (_ & ? & _).
Qed.

(** C2: in every interleaving without failures, whatever the peer sends and in
    whatever order, a call that returns a response returns one with the id of its
    own request; and a response that a read cycle has matched to a call is never
    dropped, because the channel it goes to is empty and only that call's. *)
Theorem responses_match_requests g : rtc (cstep false) cinit g →
  (∀ t id r, g_callers g !! t = Some (Returned id (inl r)) → resp_RequestId r = id) ∧
  (∀ k ch r, g_readers g !! k = Some (ch, r) → box g ch = [] ∧
     ∃ t, expect g t = Some (resp_RequestId r, ch)).
Proof.
  intros Hg. apply (rtc_invariant _ cinv) in Hg; [|apply cinv_init|apply cinv_step]. split.
  - intros t id r Ht. exact (ci_good _ Hg _ _ Ht).
  - intros k ch r Hk. by destruct (ci_reader _ Hg _ _ _ Hk) as (? & ? & _).
Qed.
End invariant.

(** ** The wait group *)

(** The callers inside [waitResponse]. *)
Definition waiters (m : gmap nat pc) : Z :=
  Z.of_nat (size (filter (λ kv : nat * pc, in_wait kv.2 = true) m)).

Definition waits (p : option pc) : Z :=
  match p with Some p => if in_wait p then 1 else 0 | None => 0 end.

Lemma waiters_insert m t q : waiters (<[t := q]> m) = waiters m - waits (m !! t) + waits (Some q).
Proof.
  enough (∀ m, m !! t = None → waiters (<[t := q]> m) = waiters m + waits (Some q)) as Hn.
  { destruct (m !! t) as [p|] eqn:E; [|rewrite Hn by done; cbn; lia].
    rewrite <- (insert_delete_id m t p E) at 2. rewrite <- (insert_delete_eq m t q), Hn by apply lookup_delete_eq.
    clear Hn. enough (waiters (<[t := p]> (delete t m)) = waiters (delete t m) + waits (Some p)) by lia.
    unfold waiters, waits. destruct (in_wait p) eqn:Ep.
    - rewrite map_filter_insert_True by done. rewrite map_size_insert_None; [lia|].
      apply map_lookup_filter_None. left. apply lookup_delete_eq.
    - rewrite map_filter_insert_False by (cbn; congruence). rewrite delete_delete_eq. lia. }
  intros m' E. unfold waiters, waits. destruct (in_wait q) eqn:Eq.
  - rewrite map_filter_insert_True by done. rewrite map_size_insert_None; [lia|].
    apply map_lookup_filter_None. by left.
  - rewrite map_filter_insert_False by (cbn; congruence). rewrite delete_id by done. lia.
Qed.

Lemma pending_waiters {M} `{!IdMap M chan} b (g : config M) : rtc (cstep b) cinit g →
  g_pending g = waiters (g_callers g).
Proof.
  intros Hg. eapply (rtc_invariant _ (λ g, g_pending g = waiters (g_callers g))); [| |exact Hg]; [done|].
  intros g1 g2 Hs Heq. destruct Hs; cbn; rewrite ?waiters_insert, <- ?Heq;
    repeat match goal with H : g_callers _ !! _ = _ |- _ => rewrite H; clear H end;
    cbn; try lia. destruct (g_closed g0); cbn; lia.
Qed.

(** C22: the wait group counts exactly the callers inside [waitResponse], in
    every interleaving with failures and [Close]; so when the wait of [Close]
    ends, no caller is there, and while it has not ended on a closed client,
    every caller in the [select] has a way out. *)
Theorem pending_counts_waiters {M} `{!IdMap M chan} b (g : config M) : rtc (cstep b) cinit g →
  g_pending g = waiters (g_callers g) ∧
  (g_pending g = 0 → ∀ t p, g_callers g !! t = Some p → in_wait p = false) ∧
  (∀ t id ch, g_closed g = true → g_callers g !! t = Some (Waiting id ch) →
     ∃ g', cstep b g g' ∧ g_callers g' !! t = Some (Leaving id ch ErrClientClosed)).
Proof.
  intros Hg. pose proof (pending_waiters b g Hg) as Hp.
  split_and!; [done| |].
  - intros H0 t p Ht. rewrite H0 in Hp. destruct (in_wait p) eqn:Ep; [|done].
    assert (filter (λ kv : nat * pc, in_wait kv.2 = true) (g_callers g) = ∅) as Hf
      by (apply map_size_empty_inv; unfold waiters in Hp; lia).
    assert (filter (λ kv : nat * pc, in_wait kv.2 = true) (g_callers g) !! t = Some p) as Hl
      by (by apply map_lookup_filter_Some). by rewrite Hf in Hl.
  - intros t id ch Hc Ht. eexists. split; [by eapply s_closed|]. cbn. apply lookup_insert_eq.
Qed.

(** ** Concrete runs *)

(** One more step of a run; the new configuration is written out. *)
Ltac step lem :=
  eapply rtc_l; [eapply lem; (eassumption || reflexivity || done || (by left))|];
  cbv beta iota delta [at_pc with_map with_box with_pool with_pending with_closed with_readers cinit
    g_map g_boxes g_pool g_next g_closed g_pending g_callers g_readers].
(** The steps of caller [t] from its call to the [select]. *)
Ltac call_new t id :=
  step (λ b g, s_call b g t id); step (λ b g, s_check b g t id); step (λ b g, s_getChan_new b g t id);
  step (λ b g ch, s_store b g t id ch); step (λ b g ch, s_send b g t id ch); step (λ b g ch, s_wait b g t id ch).
Ltac call_pooled t id :=
  step (λ b g, s_call b g t id); step (λ b g, s_check b g t id);
  step (λ b g ch, s_getChan_pool b g t id 0 ch); step (λ b g ch, s_store b g t id ch);
  step (λ b g ch, s_send b g t id ch); step (λ b g ch, s_wait b g t id ch).

Definition reply (id : Z) : Response := mkResponse id 0 [] [] [] [].

Section runs.
Context {M : Type} `{!IdMap M chan, !IdMapOk M chan}.

(** The map after the call with id 1 has registered its channel. *)
Lemma load_registered : ∃ m,
  im_LoadAndDelete (resp_RequestId (reply 1)) (im_Store 1 0%nat (@im_new M chan _)) = (Some 0%nat, m).
Proof.
  destruct (@im_new_ok M chan _ _) as [Hi Hv].
  destruct (im_Store_ok 1 0%nat (@im_new M chan _) ltac:(lia) Hi) as [Hi1 Hv1].
  destruct (im_LoadAndDelete_ok 1 _ ltac:(lia) Hi1) as [Hl _].
  rewrite Hv1, lookup_insert_eq in Hl. cbn.
  destruct (im_LoadAndDelete 1 _) as [v m]. cbn in Hl. subst. by exists m.
Qed.

(** A call that gets its response. *)
Lemma answered_run : ∃ g : config M, rtc (cstep false) cinit g ∧
  g_callers g !! 0%nat = Some (Returned 1 (inl (reply 1))).
Proof.
  destruct load_registered as [m Hm]. eexists. split.
  - call_new 0%nat 1. step (λ b g ch m, s_load b g 0 (reply 1) ch m).
    step (λ b g ch r, s_deliver b g 0 ch r). step (λ b g id ch r l, s_receive b g 0 id ch r l).
    step (λ b g id ch r, s_received_put b g 0 id ch r). apply rtc_refl.
  - reflexivity.
Qed.

(** C32: a cancelled call can make another call return the wrong response: the
    channel goes back to the pool while the response of the cancelled call is
    still on its way to it, a second call takes the channel, and returns the
    response with the id of the first. *)
Theorem cancellation_misdelivers : ∃ g : config M,
  rtc (cstep true) cinit g ∧ g_callers g !! 1%nat = Some (Returned 2 (inl (reply 1))).
Proof.
  destruct load_registered as [m Hm]. eexists. split.
  - call_new 0%nat 1. step (λ b g ch m, s_load b g 0 (reply 1) ch m).
    step (λ b g id ch, s_cancel b g 0 id ch IoIdleTimeout). step (λ b g id ch err, s_leave_put b g 0 id ch err).
    step (λ b g id err, s_leave_delete b g 0 id err). call_pooled 1%nat 2.
    step (λ b g ch r, s_deliver b g 0 ch r). step (λ b g id ch r l, s_receive b g 1 id ch r l).
    step (λ b g id ch r, s_received_put b g 1 id ch r). apply rtc_refl.
  - reflexivity.
Qed.
End runs.

Lemma responses_match_requests_witness : ∃ g : config (ShardedMap nat),
  g_callers g !! 0%nat = Some (Returned 1 (inl (reply 1))) ∧
  (∀ t id r, g_callers g !! t = Some (Returned id (inl r)) → resp_RequestId r = id).
Proof.
  destruct (@answered_run (ShardedMap nat) _ _) as (g & Hg & H1). exists g. split; [exact H1|].
  exact (proj1 (responses_match_requests g Hg)).
Defined.

Lemma pending_counts_waiters_witness : ∃ g : config (ShardedMap nat),
  g_callers g !! 0%nat = Some (Returned 1 (inl (reply 1))) ∧ g_pending g = waiters (g_callers g).
Proof.
  destruct (@answered_run (ShardedMap nat) _ _) as (g & Hg & H1). exists g. split; [exact H1|].
  exact (proj1 (pending_counts_waiters false g Hg)).
Defined.

Lemma cancellation_misdelivers_witness : ∃ g : config (ShardedMap nat),
  rtc (cstep true) cinit g ∧ g_callers g !! 1%nat = Some (Returned 2 (inl (reply 1))).
Proof. apply (cancellation_misdelivers (M:=ShardedMap nat)). Defined.
