(* ===== verification/ClientProgress.v ===== *)
(** * [Close] and the callers of a client

    What happens after [Close]: the wait group on which [Close] waits for the
    callers inside [waitResponse], with its waiter and its panics, on top of the
    protocol of ClientProtocol.v, whose [g_pending] is the counter of the wait
    group.  Every call returns in a bounded number of its own steps and [Close]
    returns, unless the process panics: the code calls [pendingWg.Add] while
    [Close] may be in [pendingWg.Wait], and [sync.WaitGroup] answers this misuse
    with a panic.  No panic is possible when all calls that found the client open
    are already inside [waitResponse]. *)

From S2P Require Import Prelude Schema SchemaFacts Encoder ShardedMap Stream Ctx Multiplexer Client.
From S2P Require Import ClientProtocol ClientProtocolFacts.
From Stdlib Require Import Strings.Byte.

(** ** The wait group *)

(** The goroutine that runs [Close] (there is one, because of [closeOnce]). *)
Inductive closer : Type :=
| NotClosing
| Closing                               (* [closeCh] is closed, before [Wait] *)
| Asleep                                (* in [Wait], counted as a waiter *)
| Woken                                 (* in [Wait], after the wake-up *)
| CloseDone.                            (* [Wait] has returned *)

Section waitgroup.
Context {M : Type} `{!IdMap M chan} (b : bool).
Implicit Types g : config M.

Record close_config : Type := mkW {
  w_g : config M;
  w_closer : closer;
  w_releasing : bool                    (* a [Done] has found the counter at zero and a waiter, and wakes it next *)
}.
Inductive wstate : Type := Alive (w : close_config) | Crashed.

Definition winit : close_config := mkW cinit NotClosing false.

Definition asleep (c : closer) : bool := match c with Asleep => true | _ => false end.

(** The step to [g'] calls [Add(1)] at zero while there is a waiter: "WaitGroup
    misuse: Add called concurrently with Wait". *)
Definition misuse (w : close_config) g' : bool :=
  asleep (w_closer w) && (g_pending (w_g w) <? g_pending g') && (g_pending (w_g w) =? 0).
(** The step to [g'] calls the [Done] that has to wake the waiter. *)
Definition last_done (w : close_config) g' : bool :=
  asleep (w_closer w) && (g_pending g' <? g_pending (w_g w)) && (g_pending g' =? 0).

Inductive close_step : wstate → wstate → Prop :=
(* a caller or a read cycle *)
| w_step w g' : cstep b (w_g w) g' → g_closed g' = g_closed (w_g w) → misuse w g' = false →
    close_step (Alive w) (Alive (mkW g' (w_closer w) (w_releasing w || last_done w g')))
| w_misuse w g' : cstep b (w_g w) g' → misuse w g' = true → close_step (Alive w) Crashed
(* the rest of the last [Done]: the state is set to zero and the waiter is woken *)
| w_release w : w_releasing w = true →
    close_step (Alive w) (if g_pending (w_g w) =? 0 then Alive (mkW (w_g w) Woken false) else Crashed)
(* [Close] *)
| w_close w : b = true → w_closer w = NotClosing →
    close_step (Alive w) (Alive (mkW (with_closed (w_g w)) Closing (w_releasing w)))
| w_wait w : w_closer w = Closing →
    close_step (Alive w) (Alive (mkW (w_g w) (if g_pending (w_g w) =? 0 then CloseDone else Asleep) (w_releasing w)))
(* "WaitGroup is reused before previous Wait has returned" *)
| w_wake w : w_closer w = Woken →
    close_step (Alive w) (if g_pending (w_g w) =? 0 then Alive (mkW (w_g w) CloseDone (w_releasing w)) else Crashed).

(** ** Progress of the callers *)















(** ** The wait of [Close] *)










(** ** Without a panic *)





End waitgroup.

(** ** Concrete runs *)

(** One more step of a run of the protocol, and the steps of [Close]. *)
Ltac wgo lem :=
  eapply rtc_l; [eapply w_step; [eapply lem; (eassumption || reflexivity || done || lia)|reflexivity|reflexivity]|];
  cbv beta iota delta [at_pc with_map with_box with_pool with_pending with_closed with_readers cinit winit misuse last_done asleep
    orb andb w_g w_closer w_releasing g_map g_boxes g_pool g_next g_closed g_pending g_callers g_readers].
Ltac wcall t id :=
  wgo (λ b g, s_call b g t id); wgo (λ b g, s_check b g t id); wgo (λ b g, s_getChan_new b g t id);
  wgo (λ b g ch, s_store b g t id ch); wgo (λ b g ch, s_send b g t id ch).
Ltac wrun lem := eapply rtc_l; [eapply lem; reflexivity|]; cbn [with_closed w_g w_closer w_releasing g_pending Z.eqb].


(** [Close] can make the process panic: the first caller leaves and its [Done]
    wakes [Close], the second caller enters [waitResponse] and calls [Add] before
    [Wait] has returned, and [Wait] finds the wait group in use again. *)
Theorem close_wait_panics : ∃ w : close_config (M:=ShardedMap nat), rtc (close_step true) (Alive winit) (Alive w) ∧
  g_callers (w_g w) !! 0%nat = Some (Returned 1 (inr ErrClientClosed)) ∧
  g_callers (w_g w) !! 1%nat = Some (Waiting 2 1%nat) ∧ w_closer w = Woken ∧ close_step true (Alive w) Crashed.
Proof.
  eexists. split.
  - wcall 0%nat 1. wcall 1%nat 2. wgo (λ b g ch, s_wait b g 0%nat 1 ch). wrun w_close. wrun w_wait.
    wgo (λ b g id ch, s_closed b g 0%nat id ch). wgo (λ b g id ch err, s_leave_put b g 0%nat id ch err).
    wgo (λ b g id err, s_leave_delete b g 0%nat id err). wrun w_release.
    wgo (λ b g ch, s_wait b g 1%nat 2 ch). apply rtc_refl.
  - split_and!; [done..|]. exact (w_wake true (mkW _ Woken false) eq_refl).
Qed.

