(* ===== verification/ClientSimulation.v ===== *)
(** * The protocol simulates the code

    ClientProtocol.v interleaves the goroutines of a client at their accesses to
    shared state; Client.v and Multiplexer.v translate the functions they run.
    Here the two are related: every run of [sendRequestInternal], on each of its
    paths, and every round of the read cycle that handles a response is a sequence
    of steps of the protocol with the same effect on what is shared.  What the
    protocol leaves out (encoding, the choice of the stream, writing, the pools of
    messages and buffers) does not touch it. *)

From S2P Require Import Prelude Wire WireInstance Schema SchemaFacts Encoder EncoderFacts ShardedMap Balancer Stream Ctx.
From S2P Require Import Batcher Multiplexer MultiplexerFacts Client ClientFacts ClientProtocol.
From Stdlib Require Import Strings.Byte.

Section send.
Context `{Protohelpers, Zstd} {any M : Type} `{!IdMap M chan}.
Implicit Types (w : cworld any M) (g : config M).

(** What the goroutines of a client share. *)
Definition shared w : M * list chan * chan * bool := (c_chansMap w, c_chansPool w, c_nextChan w, c_closed w).
Definition view w g : Prop := shared w = (g_map g, g_pool g, g_next g, g_closed g).

(** A call that touches nothing shared and returns no error. *)
Definition quiet {A} (c : prog_on (cworld any M) SendErr A) : Prop :=
  ∀ w, shared (c w).1 = shared w ∧ ∀ err, (c w).2 ≠ Err err.

Lemma quiet_encodeRequest e req : quiet (encodeRequest e req).
Proof. intros w. unfold encodeRequest. by destruct (EncodeRequest _ _ _). Qed.
Lemma quiet_bufRelease b : quiet (bufRelease b).
Proof. done. Qed.
Lemma quiet_getMultiplexor : quiet getMultiplexor.
Proof.
  intros w. unfold getMultiplexor. destruct (ticket _) as [idx c]. split; [done|]. intros err. cbn.
  case_match; [done|]. unfold index. by repeat case_match.
Qed.
Lemma quiet_getStream i : quiet (getStream i).
Proof. intros w. unfold getStream. destruct (c_muxes w !! i); [|done]. by destruct (GetStream _). Qed.
Lemma quiet_batcherWrite e i s data : quiet (batcherWrite e i s data).
Proof. intros w. unfold batcherWrite. destruct (c_muxes w !! i); [|done]. by destruct (Write _ _ _ _) as [[? ?] ?]. Qed.
Lemma quiet_Buffer_Bytes buf : quiet (lift (Buffer_Bytes buf)).
Proof. intros w. split; [done|]. intros err. unfold Buffer_Bytes, slice. cbn. by repeat case_match. Qed.

(** The state [g'] is [g] with caller [t] at [p], as far as it concerns others. *)
Record moved (t : nat) (p : pc) g g' : Prop := {
  mv_run : rtc (cstep true) g g';
  mv_callers : g_callers g' = <[t := p]> (g_callers g);
  mv_boxes : g_boxes g' = g_boxes g;
  mv_readers : g_readers g' = g_readers g;
  mv_pending : g_pending g' = g_pending g
}.

(** From point [p] the program [c] ends where the protocol can take caller [t]:
    at [Sent] with the channel it returns, or at its return with its error. *)
Definition simulated (t : nat) (id : Z) (p : pc) (c : prog_on (cworld any M) SendErr chan) : Prop :=
  ∀ w g, view w g → g_callers g !! t = Some p →
  match c w with
  | (w', Ok ch) => ∃ g', moved t (Sent id ch) g g' ∧ view w' g'
  | (w', Err err) => ∃ g', moved t (Returned id (inr err)) g g' ∧ view w' g'
  | _ => True
  end.

Lemma sim_quiet {A} t id p (c : prog_on (cworld any M) SendErr A) k :
  quiet c → (∀ a, simulated t id p (k a)) → simulated t id p (c ≫= k).
Proof.
  intros Hc Hk w g Hv Hp. destruct (Hc w) as [Hs He]. unfold mbind, prog_on_bind.
  destruct (c w) as [w' [a|err| |]]; cbn in *; [|by destruct (He err)|done|done].
  apply Hk; [|done]. unfold view. by rewrite Hs.
Qed.

(** The same for a call whose result is known. *)
Lemma sim_value {A} t id p (c : prog_on (cworld any M) SendErr A) a k :
  (∀ w, shared (c w).1 = shared w ∧ (c w).2 = Ok a) → simulated t id p (k a) → simulated t id p (c ≫= k).
Proof.
  intros Hc Hk w g Hv Hp. destruct (Hc w) as [Hs He]. unfold mbind, prog_on_bind.
  destruct (c w) as [w' r]; cbn in *. subst r. apply Hk; [|done]. unfold view. by rewrite Hs.
Qed.

Lemma moved_trans t p q g1 g2 g3 : moved t p g1 g2 → moved t q g2 g3 → moved t q g1 g3.
Proof.
  intros [Hr Hcs Hb Hrd Hpd] [Hr' Hcs' Hb' Hrd' Hpd'].
  split; [by etrans|by rewrite Hcs', Hcs, insert_insert_eq|congruence..].
Qed.

(** Steps of the protocol that bring the caller from [p] to [p']. *)
Lemma sim_moved t id p' c w g w' g' : moved t p' g g' → view w' g' → simulated t id p' c → c w' = c w →
  match c w with
  | (w', Ok ch) => ∃ g', moved t (Sent id ch) g g' ∧ view w' g'
  | (w', Err err) => ∃ g', moved t (Returned id (inr err)) g g' ∧ view w' g'
  | _ => True
  end.
Proof.
  intros Hm Hv Hc Heq. specialize (Hc w' g' Hv). rewrite (mv_callers _ _ _ _ Hm), lookup_insert_eq in Hc.
  specialize (Hc eq_refl). rewrite Heq in Hc.
  destruct (c w) as [w2 [ch|err| |]]; [| |done|done]; destruct Hc as (g2 & Hm2 & Hv2); eauto using moved_trans.
Qed.

(** A step of the protocol together with a call of the program. *)
Lemma sim_step {A} t id p (p' : A → pc) (c : prog_on (cworld any M) SendErr A) k :
  (∀ w g, view w g → g_callers g !! t = Some p →
     ∃ a w' g', c w = (w', Ok a) ∧ moved t (p' a) g g' ∧ view w' g') →
  (∀ a, simulated t id (p' a) (k a)) → simulated t id p (c ≫= k).
Proof.
  intros Hc Hk w g Hv Hp. destruct (Hc w g Hv Hp) as (a & w' & g1 & E & Hm & Hv').
  rewrite (prog_bind_Ok _ _ _ _ _ E). by eapply sim_moved.
Qed.

Lemma sim_throw t id err : simulated t id (Returned id (inr err)) (throw err).
Proof.
  intros w g Hv Hp. exists g. split; [|done]. split; try done. by rewrite insert_id.
Qed.

(** A single step. *)
Lemma moved_once t p g g' : cstep true g g' → g_callers g' = <[t := p]> (g_callers g) → g_boxes g' = g_boxes g →
  g_readers g' = g_readers g → g_pending g' = g_pending g → moved t p g g'.
Proof. intros Hs. split; try done. eapply rtc_l; [done|apply rtc_refl]. Qed.

(** The error paths after the registration. *)
Lemma sim_fail t id ch err (c : prog_on (cworld any M) SendErr chan) :
  simulated t id (Returned id (inr err)) c →
  simulated t id (Stored id ch) (chansMap_Delete 0;; putChan ch;; c).
Proof.
  intros Hc. eapply sim_step with (p' := λ _, FailingPut id ch err); [|intros _].
  { intros w g Hv Hp. eexists _, _, _. split; [reflexivity|]. split.
    - split; [eapply rtc_l; [by eapply (s_send_fails true g t id ch err)|];
        eapply rtc_l; [eapply (s_fail_delete true _ t id ch err 0); [apply lookup_insert_eq|lia]|apply rtc_refl]|..]; try done.
      cbn. by rewrite insert_insert_eq.
    - unfold view, shared in *. cbn. congruence. }
  eapply sim_step with (p' := λ _, Returned id (inr err)); [|by intros _].
  intros w g Hv Hp. eexists _, _, _. split; [reflexivity|]. split; [eapply moved_once; [by eapply s_fail_put|done..]|].
  unfold view, shared in *. cbn. congruence.
Qed.

Lemma sim_getChan t id e k : (∀ ch, simulated t id (GotChan id ch) (k ch)) → simulated t id (Checked id) (getChan e ≫= k).
Proof.
  apply (sim_step t id (Checked id) (GotChan id)). intros w g Hv Hp. pose proof Hv as [= Hm Hpool Hn Hcl].
  unfold getChan. rewrite Hpool, Hn. destruct (g_pool g !! e_chan e) as [ch|] eqn:E; eexists _, _, _; (split; [done|]); split.
  - eapply moved_once; [by eapply s_getChan_pool|done..].
  - unfold view, shared. cbn. congruence.
  - eapply moved_once; [by eapply s_getChan_new|done..].
  - unfold view, shared. cbn. congruence.
Qed.

Lemma sim_store t id ch k : simulated t id (Stored id ch) (k tt) →
  simulated t id (GotChan id ch) (chansMap_Store id ch ≫= k).
Proof.
  intros Hk. apply (sim_step t id _ (λ _, Stored id ch)); [|by intros []].
  intros w g Hv Hp. eexists _, _, _. split; [reflexivity|]. split; [eapply moved_once; [by eapply s_store|done..]|].
  unfold view, shared in *. cbn. congruence.
Qed.

Lemma sim_sent t id ch : simulated t id (Stored id ch) (mret ch).
Proof.
  intros w g Hv Hp. eexists. split; [eapply moved_once; [by eapply s_send|done..]|done].
Qed.

(** [sendRequestInternal] after the check of [closeCh] and the draw of the id. *)
Lemma registered_simulated e req t :
  let id := req_RequestId req in
  simulated t id (Checked id) (
    ch ← getChan e;
    chansMap_Store (req_RequestId req) ch;;
    r ← encodeRequest e req;
    req ← client_releaseRequest req;
    with_err r
      (λ err, chansMap_Delete (req_RequestId req);; putChan ch;; throw (SendEncode err)) (λ buf,
    i ← getMultiplexor;
    r ← getStream i;
    with_err r
      (λ err, chansMap_Delete (req_RequestId req);; putChan ch;; throw (SendNoStream err)) (λ stream,
    match e_deadline e with
    | Some err => chansMap_Delete (req_RequestId req);; putChan ch;; bufRelease buf;; throw (SendDeadline err)
    | None =>
        bytes ← lift (Buffer_Bytes buf);
        err ← batcherWrite e i stream bytes;
        bufRelease buf;;
        match err with
        | Some err => chansMap_Delete (req_RequestId req);; putChan ch;; throw (SendWrite err)
        | None => mret ch
        end
    end))).
Proof.
  intros id. apply sim_getChan. intros ch. apply sim_store. apply sim_quiet; [apply quiet_encodeRequest|intros r].
  apply (sim_value _ _ _ _ empty_Request); [done|].
  destruct r as [buf|err| |]; cbn [with_err]; [|by eapply sim_fail, sim_throw|done..].
  apply sim_quiet; [apply quiet_getMultiplexor|intros i]. apply sim_quiet; [apply quiet_getStream|intros r].
  destruct r as [s|err| |]; cbn [with_err]; [|by eapply sim_fail, sim_throw|done..].
  destruct (e_deadline e) as [err|].
  { eapply sim_fail, sim_quiet; [apply quiet_bufRelease|intros _]. apply sim_throw. }
  apply sim_quiet; [apply quiet_Buffer_Bytes|intros bytes].
  apply sim_quiet; [apply quiet_batcherWrite|intros err]. apply sim_quiet; [apply quiet_bufRelease|intros _].
  destruct err as [err|]; [by eapply sim_fail, sim_throw|apply sim_sent].
Qed.

(** C14: the protocol simulates [sendRequestInternal], on all its paths: a caller
    with a drawn id, in any state of the client and of the other goroutines, ends
    where steps of the protocol take it, with the same map, pool of channels and
    closed flag: at [Sent] with the channel that is returned, or at the return of
    the same error after the same cleanup; the channels, the read cycles, the wait
    group and the other callers are not touched. *)
Theorem send_simulated e req t w g w' r : req_RequestId req ≠ 0 → view w g →
  g_callers g !! t = Some (Begin (req_RequestId req)) → sendRequestInternal e req w = (w', r) →
  match r with
  | Ok ch => ∃ g', moved t (Sent (req_RequestId req) ch) g g' ∧ view w' g'
  | Err err => ∃ g', moved t (Returned (req_RequestId req) (inr err)) g g' ∧ view w' g'
  | _ => True
  end.
Proof.
  intros Hid Hv Hp E. pose proof Hv as [= Hm Hpool Hn Hcl].
  pose proof (s_check true g t _ Hp) as Hstep. unfold sendRequestInternal in E.
  destruct (g_closed g) eqn:Hclosed.
  - erewrite prog_bind_Err in E by (unfold checkClosed; by rewrite Hcl). injection E as <- <-.
    eexists. split; [eapply moved_once; [exact Hstep|done..]|]. unfold view, shared. cbn. congruence.
  - erewrite prog_bind_Ok in E by (unfold checkClosed; by rewrite Hcl). cbv zeta in E.
    rewrite (proj2 (Z.eqb_neq (req_RequestId req) 0)) in E by done.
    pose proof (sim_moved t _ _ _ w g w _ (moved_once t _ g _ Hstep eq_refl eq_refl eq_refl eq_refl)
      ltac:(unfold view, shared; cbn; congruence) (registered_simulated e req t) eq_refl) as Hs.
    rewrite E in Hs. by destruct r.
Qed.
End send.

(** ** The read cycle *)

Section receive.
Context `{Protohelpers, !ProtohelpersOk, Zstd, !ZstdOk} {M : Type} `{!IdMap M chan, !IdMapOk M chan}.
Context (choose : nat → nat).
Implicit Types (w : mworld M) (g : config M).

Definition mview w g : Prop := m_chansMap w = g_map g ∧ m_chans w = g_boxes g.

(** What a read cycle leaves alone. *)
Record delivered g g' : Prop := {
  dl_run : rtc (cstep true) g g';
  dl_callers : g_callers g' = g_callers g;
  dl_readers : g_readers g' = g_readers g;
  dl_pool : (g_pool g', g_next g') = (g_pool g, g_next g);
  dl_closed : (g_closed g', g_pending g') = (g_closed g, g_pending g)
}.

Lemma delivered_refl g : delivered g g.
Proof. by split. Qed.

(** A loaded response is handed over, or dropped when the channel is full. *)
Lemma load_steps g k r ch m : g_readers g !! k = None → 0 ≤ resp_RequestId r < 2 ^ 64 →
  im_LoadAndDelete (resp_RequestId r) (g_map g) = (Some ch, m) →
  if decide (box g ch = []) then delivered g (with_box ch [r] (with_map m g)) else delivered g (with_map m g).
Proof.
  intros Hk Hid Hl. pose proof (s_load true g k r ch m Hk Hid Hl) as H1'.
  set (g1 := with_readers (<[k := (ch, r)]> (g_readers g)) (with_map m g)) in *.
  assert (g_readers g1 !! k = Some (ch, r)) as Hr1 by apply lookup_insert_eq.
  assert (delete k (g_readers g1) = g_readers g) as Hback by (by apply delete_insert_id).
  case_decide as Hb.
  - pose proof (s_deliver true g1 k ch r Hr1 Hb) as H2'. rewrite Hback in H2'.
    split; try done. eapply rtc_l; [exact H1'|]. eapply rtc_l; [exact H2'|]. apply rtc_refl.
  - pose proof (s_drop true g1 k ch r Hr1 Hb) as H2'. rewrite Hback in H2'.
    split; try done. eapply rtc_l; [exact H1'|]. eapply rtc_l; [exact H2'|]. apply rtc_refl.
Qed.

(** C15: the protocol simulates the response case of the read cycle: whatever
    the bytes of the frame are, the round returns, and its effect on the map and
    on the channels is that of steps of the protocol, which touch neither the
    callers nor the pool of channels; [k] is the read cycle. *)
Theorem response_simulated flag payload k w g : mworld_ok w → len payload < 2 ^ 32 → mview w g →
  g_readers g !! k = None →
  ∃ w' g', onResponse choose flag payload w = (w', Ok tt) ∧ delivered g g' ∧ mview w' g'.
Proof.
  intros Hw Hl Hv Hk. unfold onResponse.
  assert (∀ w', m_chansMap w' = m_chansMap w → m_chans w' = m_chans w →
    ∃ w'' g', (w', Ok tt) = (w'', Ok tt) :> mworld M * outcome stop unit ∧ delivered g g' ∧ mview w'' g') as Hsame.
  { intros w' Hm Hc. exists w', g. split; [done|]. split; [apply delivered_refl|]. destruct Hv. split; congruence. }
  assert (safe (mux_maybeDecompress payload flag)) as Hsafe
    by (unfold mux_maybeDecompress, DecompressZstd; by repeat case_go).
  destruct (mux_maybeDecompress payload flag) as [data|e| |] eqn:Ed; cbn [with_err]; [|by apply Hsame|done..].
  apply mux_maybeDecompress_limit in Ed; [|done].
  destruct (mux_getResponse_spec choose w Hw) as (w1 & E1 & _).
  assert (m_chansMap w1 = m_chansMap w ∧ m_chans w1 = m_chans w) as [Hm1 Hc1]
    by (unfold mux_getResponse in E1; destruct (GetResponse _ _); by injection E1 as <- _).
  run_call E1.
  assert (safe (Response_UnmarshalVT empty_Response data)) as Hus by (apply unmarshal_safe; [apply Response_step_ok|done]).
  destruct (Response_UnmarshalVT empty_Response data) as [r|[r e]| |] eqn:Em; cbn [with_err];
    [|apply Hsame; [exact Hm1|exact Hc1]|done..].
  apply Response_unmarshal_decoded in Em as [[Hid _] _]; [|done|apply (empty_Response_decoded empty_Response)].
  destruct Hv as [Hvm Hvc]. unfold loadAndDelete, mbind, prog_on_bind. rewrite Hm1, Hvm.
  destruct (im_LoadAndDelete (resp_RequestId r) (g_map g)) as [[ch|] m] eqn:El.
  - pose proof (load_steps g k r ch m Hk Hid El) as Hsteps. unfold trySend, box in *. cbn. rewrite Hc1, Hvc.
    destruct (default [] (g_boxes g !! ch)) as [|x l] eqn:Hb; cbn in *.
    + eexists _, _. split; [reflexivity|]. split; [exact Hsteps|]. split; [done|]. cbn. by rewrite Hc1, Hvc.
    + assert ((len (x :: l) <? 1) = false) as -> by (apply Z.ltb_ge; len_lia).
      eexists _, _. split; [reflexivity|]. split; [exact Hsteps|]. split; [done|]. cbn. congruence.
  - eexists _, (with_map m g). split; [reflexivity|]. split.
    + split; try done. eapply rtc_l; [by eapply s_load_none|apply rtc_refl].
    + split; [done|]. cbn. congruence.
Qed.
End receive.

(** ** Witnesses *)

(** A caller that has drawn the id 77, on the sample client. *)
Definition sample_config : config (ShardedMap nat) :=
  mkConfig NewShardedMap ∅ [] 0 false 0 {[0%nat := Begin 77]} ∅.

Lemma sample_sends w' r :
  sendRequestInternal (sample_env Written) (set_req_RequestId 77 outgoing) sample_client = (w', r) → r = Ok 0%nat.
Proof. intros E. change r with (w', r).2. rewrite <- E. vm_compute. reflexivity. Qed.

Lemma send_simulated_witness : ∃ g', moved 0 (Sent 77 0%nat) sample_config g'.
Proof.
  destruct (sendRequestInternal (sample_env Written) (set_req_RequestId 77 outgoing) sample_client) as [w' r] eqn:E.
  pose proof (send_simulated (sample_env Written) (set_req_RequestId 77 outgoing) 0 sample_client sample_config w' r
    ltac:(discriminate) eq_refl eq_refl E) as Hs.
  rewrite (sample_sends _ _ E) in Hs. destruct Hs as (g' & Hm & _). by exists g'.
Defined.

(** A read cycle that finds a channel for the id 77. *)
Definition sample_receiver : mworld (ShardedMap nat) :=
  mkMWorld NewBalancer ∅ (im_Store 77 0%nat NewShardedMap) ∅ [] [] 0.
Definition sample_waiting : config (ShardedMap nat) :=
  mkConfig (im_Store 77 0%nat NewShardedMap) ∅ [] 1 false 0 {[0%nat := Sent 77 0%nat]} ∅.

Lemma sample_receiver_ok : mworld_ok sample_receiver.
Proof. split; [by apply Store_refines, new_refines|by repeat constructor..|apply map_Forall_empty]. Qed.

Lemma response_simulated_witness :
  ∃ w' g', onResponse (λ _, 0%nat) RESPONSE_FLAG (Response_wire (mkResponse 77 0 [] [] [x01] [])) sample_receiver =
    (w', Ok tt) ∧ delivered sample_waiting g' ∧ mview w' g'.
Proof.
  apply (response_simulated (λ _, 0%nat) RESPONSE_FLAG (Response_wire (mkResponse 77 0 [] [] [x01] [])) 0
    sample_receiver sample_waiting sample_receiver_ok); [by vm_compute|done|done].
Defined.
