(* ===== verification/EndToEnd.v ===== *)
(** * A call from end to end

    The pieces composed: the client registers and sends a request, the server's
    stream cycle reads it from the stream, runs the handler and writes the
    response, and the client's read cycle hands it to the channel of the call. *)

From S2P Require Import Prelude Wire WireInstance Schema SchemaFacts Encoder EncoderFacts ShardedMap Balancer Stream Ctx Server ServerFacts Batcher Multiplexer MultiplexerFacts Client ClientFacts.
From Stdlib Require Import Strings.Byte.

Section rpc.
Context `{Protohelpers, !ProtohelpersOk, Zstd, !ZstdOk} {any any' M : Type} `{!IdMap M chan, !IdMapOk M chan}.
Context (choose : nat → site → nat) (srv : QRPCServerImpl any).
Context (mchoose : nat → nat) (clock : nat → Z) (mwresult : nat → wres).

(** A handler leaves the unknown fields of the response empty. *)
Lemma respond_unknown (h : prog any true) m r : respond h m = Ok r → resp_unknownFields r = [].
Proof.
  intros Hr. unfold respond in Hr. apply bind_Ok_inv in Hr as (c & Hc & Hd).
  destruct (kept_resp _ _ (run_kept _ _ _ Hc) _ eq_refl) as (r' & Hr' & _ & _ & Hu & _).
  rewrite Hr' in Hd. cbn in Hd. by injection Hd as <-.
Qed.

(** A request that the server answers with [r]. *)
Record answers (m : Request) (r : Response) : Prop := {
  ans_call : call_ok m (request_frame m);
  ans_handler : ∃ h, handlers srv !! req_Method m = Some h ∧ respond h m = Ok r;
  ans_limit : len (Response_wire r) ≤ maxDecoded;
  ans_short : 1 + len (response_frame r).2 < 2 ^ 32
}.

Lemma answers_answered ms rs : Forall2 answers ms rs → Forall2 (answered srv) (Rpc <$> ms) ((λ r, [r]) <$> rs).
Proof.
  intros Hans. induction Hans as [|m r ms rs [Hc (h & Hh & Hr) _ _] _ IH]; [constructor|].
  rewrite !fmap_cons. constructor; [by eapply answered_rpc|done].
Qed.

Lemma answers_ok ms rs : handlers_fit srv → Forall2 answers ms rs →
  Forall2 (λ m r, resp_RequestId r = req_RequestId m) ms rs ∧ Forall reply_ok rs.
Proof.
  intros Hfit Hans. induction Hans as [|m r ms rs [Hc (h & Hh & Hr) Hlim Hshort] _ [IH1 IH2]]; [done|].
  pose proof (call_wf _ _ Hc) as Hwf.
  destruct (respond_wf srv Hfit _ _ _ _ Hh (wf_req_RequestId _ Hwf) (call_limit _ _ Hc) Hr) as [Hrwf Hid].
  split; constructor; [done..| |done].
  split; [done..|rewrite (respond_unknown _ _ _ Hr); constructor|done].
Qed.

Lemma serve_answers wresult n ms rs : (∀ n, wresult n = Written) → Forall2 answers ms rs →
  serve_frames srv wresult n (request_frame <$> ms) = (mjoin ((frame ∘ response_frame) <$> rs), Ok tt).
Proof.
  intros Hwr Hans. pose proof (serve_frames_answered srv wresult n _ _ Hwr (answers_answered _ _ Hans)) as Hs.
  rewrite <- (list_fmap_compose Rpc call_frame) in Hs.
  assert (mjoin ((λ r, [r]) <$> rs) = rs) as Hrs; [|by rewrite Hrs in Hs].
  clear. induction rs as [|r rs IH]; [done|]. cbn. by f_equal.
Qed.

Lemma answers_short ms rs : Forall2 answers ms rs → Forall (λ fp, 1 + len fp.2 < 2 ^ 32) (request_frame <$> ms).
Proof. intros Hans. induction Hans as [|m r ms rs [[] _ _ _] _ IH]; [constructor|]. rewrite fmap_cons. by constructor. Qed.

(** Requests on one stream, through the server. *)
Lemma serve_calls ms rs n sw : handlers_fit srv → world_ok sw → Forall2 answers ms rs → (length ms < n)%nat →
  ∃ sw', streamReadCycle choose (λ _, Written) srv n
      (mkCycle (mkIn (mjoin (request_bytes <$> ms)) IoEOF) []) sw = (sw', Err (HeaderReadError IoEOF)) ∧
    w_out sw' = w_out sw ++ mjoin ((frame ∘ response_frame) <$> rs).
Proof.
  intros Hfit Hsw Hans Hn.
  pose proof (streamReadCycle_spec choose (λ _, Written) srv Hfit (request_frame <$> ms) [] IoEOF
    (HeaderReadError IoEOF) n [] sw Hsw (answers_short _ _ Hans) (λ _, eq_refl) ltac:(rewrite !length_fmap; lia)) as Hs.
  rewrite (serve_answers _ _ _ _ (λ _, eq_refl) Hans), app_nil_r, <- list_fmap_compose in Hs.
  destruct Hs as (sw' & Es & _ & Hout). by exists sw'.
Qed.

(** Responses to registered calls reach their channels: ids and channels are
    pairwise different, and the channels are empty. *)
Lemma deliver_all rs chs b :
  Forall2 (λ r ch, waiting b !! resp_RequestId r = Some ch ∧ default [] (boxes b !! ch) = []) rs chs →
  NoDup (resp_RequestId <$> rs) → NoDup chs →
  let b' := foldl (λ b r, deliver r b) b rs in
  Forall2 (λ r ch, boxes b' !! ch = Some [r]) rs chs ∧
  (∀ ch, ch ∉ chs → boxes b' !! ch = boxes b !! ch) ∧
  waiting b' = foldl (λ m r, delete (resp_RequestId r) m) (waiting b) rs.
Proof.
  revert b chs. induction rs as [|r rs IH]; intros b chs Hreg Hids Hchs.
  { apply Forall2_nil_inv_l in Hreg as ->. done. }
  apply Forall2_cons_inv_l in Hreg as (ch & chs' & [Hw Hbox] & Hreg & ->).
  rewrite fmap_cons in Hids. apply NoDup_cons in Hids as [Hnid Hids]. apply NoDup_cons in Hchs as [Hnch Hchs].
  cbn [foldl]. assert (deliver r b = mkInbox (delete (resp_RequestId r) (waiting b)) (<[ch := [r]]> (boxes b))) as ->.
  { unfold deliver. by rewrite Hw, Hbox. }
  destruct (IH (mkInbox (delete (resp_RequestId r) (waiting b)) (<[ch := [r]]> (boxes b))) chs') as (Hd1 & Hd2 & Hd3);
    [|done|done|].
  - clear -Hreg Hnid Hnch. induction Hreg as [|r' ch' rs chs [Hw Hb] Hreg IH]; [constructor|].
    rewrite fmap_cons, not_elem_of_cons in Hnid. rewrite not_elem_of_cons in Hnch.
    destruct Hnid as [Hr' Hnid], Hnch as [Hc' Hnch]. constructor; [|by apply IH].
    cbn. by rewrite lookup_delete_ne, lookup_insert_ne by done.
  - split_and!; [|intros ch' Hch'|done].
    + constructor; [|done]. rewrite Hd2 by done. apply lookup_insert_eq.
    + rewrite not_elem_of_cons in Hch'. destruct Hch'. rewrite Hd2 by done. by apply lookup_insert_ne.
Qed.

(** The answers on one stream, back to the channels of the calls. *)
Lemma deliver_stream ms rs n s : handlers_fit srv → Forall2 answers ms rs → (length ms < n)%nat → NoDup (req_RequestId <$> ms) →
  ∀ (mw : mworld M) chs, mworld_ok mw → NoDup chs →
    Forall2 (λ m ch, im_view (m_chansMap mw) !! req_RequestId m = Some ch ∧ default [] (m_chans mw !! ch) = []) ms chs →
    ∃ mw', readCycle mchoose clock mwresult s n (mkCycle (mkIn (mjoin ((frame ∘ response_frame) <$> rs)) IoEOF) []) mw =
        (mw', Err (HeaderReadError IoEOF)) ∧
      Forall2 (λ ch r, m_chans mw' !! ch = Some [r]) chs rs ∧
      (∀ ch, ch ∉ chs → m_chans mw' !! ch = m_chans mw !! ch) ∧
      im_view (m_chansMap mw') = foldl (λ m id, delete id m) (im_view (m_chansMap mw)) (req_RequestId <$> ms).
Proof.
  intros Hfit Hans Hn Hnd mw chs Hmw Hchs Hreg. destruct (answers_ok ms rs Hfit Hans) as [Hids Hok].
  assert (resp_RequestId <$> rs = req_RequestId <$> ms) as Heq.
  { clear -Hids. induction Hids as [|m r ms rs E _ IH]; [done|]. by rewrite !fmap_cons, E, IH. }
  rewrite (Forall2_length _ _ _ Hans) in Hn.
  destruct (readCycle_replies mchoose clock mwresult s rs IoEOF [] n mw Hmw Hok Hn) as (mw' & Er & _ & Hin & _).
  destruct (deliver_all rs chs (inbox_of mw)) as (Hb & Ho & Hwt); [|by rewrite Heq|done|].
  { clear -Hreg Hids. revert chs Hreg. induction Hids as [|m r ms rs E _ IH]; intros chs Hreg.
    - by apply Forall2_nil_inv_l in Hreg as ->.
    - apply Forall2_cons_inv_l in Hreg as (ch & chs' & Hx & Hreg & ->). constructor; [|by apply IH].
      cbn. by rewrite E. }
  exists mw'. rewrite <- list_fmap_compose in Er. split; [exact Er|]. rewrite <- Hin in Hb, Ho, Hwt.
  split; [by apply Forall2_flip|]. split; [done|]. change (waiting (inbox_of mw')) with (im_view (m_chansMap mw')) in Hwt.
  rewrite Hwt, <- Heq. clear. cbn. generalize (im_view (m_chansMap mw)). induction rs as [|r rs IH]; [done|]. intros m. cbn. apply IH.
Qed.

(** C1: a remote call works from end to end.  For every client state, every
    server state and all contents of the pools on both sides: sending a request
    registers a channel and writes one frame; fed to the server, that frame is
    answered with exactly one frame; fed to the client's read cycle, it puts into
    the registered channel exactly the response the handler made of the request,
    with the id of the request, and removes the registration. *)
Theorem rpc_end_to_end e req (w : cworld any' M) h r sw s :
  cworld_ok w → c_closed w = false → e_deadline e = None → e_write e = Written →
  call_ok (with_id e req) (request_frame (with_id e req)) →
  handlers_fit srv → handlers srv !! req_Method (with_id e req) = Some h →
  respond h (with_id e req) = Ok r →
  len (Response_wire r) ≤ maxDecoded → 1 + len (response_frame r).2 < 2 ^ 32 → world_ok sw →
  ∃ w' stream bytes, sendRequestInternal e req w = (w', Ok (next_chan e w)) ∧
    c_wire w' = c_wire w ++ [(next_mux w, stream, bytes)] ∧
  ∃ sw' reply, streamReadCycle choose (λ _, Written) srv 2 (mkCycle (mkIn bytes IoEOF) []) sw =
      (sw', Err (HeaderReadError IoEOF)) ∧ w_out sw' = w_out sw ++ reply ∧
  (∀ mw : mworld M, mworld_ok mw → m_chansMap mw = c_chansMap w' →
   default [] (m_chans mw !! next_chan e w) = [] →
   ∃ mw', readCycle mchoose clock mwresult s 2 (mkCycle (mkIn reply IoEOF) []) mw =
       (mw', Err (HeaderReadError IoEOF)) ∧
     m_chans mw' = <[next_chan e w := [r]]> (m_chans mw) ∧ resp_RequestId r = req_RequestId (with_id e req) ∧
     im_view (m_chansMap mw') = delete (req_RequestId (with_id e req)) (im_view (c_chansMap w))).
Proof.
  intros Hw Hcl Hdl Hwr Hcall Hfit Hh Hr Hlim Hshort Hsw.
  destruct (sendRequestInternal_spec e req w Hw Hcl (call_wf _ _ Hcall) Hdl Hwr)
    as (stream & w' & E & _ & Hwire & Hview & _).
  exists w', stream, (request_bytes (with_id e req)). split; [done|]. split; [done|].
  assert (Forall2 answers [with_id e req] [r]) as Hans by (by constructor; [split; eauto|constructor]).
  destruct (serve_calls [with_id e req] [r] 2 sw Hfit Hsw Hans) as (sw' & Es & Hout); [simpl; lia|].
  destruct (answers_ok _ _ Hfit Hans) as [[Hid _]%Forall2_cons_1 _]. cbn in Es. rewrite app_nil_r in Es.
  eexists sw', _. split; [exact Es|]. split; [exact Hout|]. intros mw Hmw Hmap Hbox.
  destruct (deliver_stream _ _ 2 s Hfit Hans ltac:(simpl; lia) (NoDup_singleton _) mw [next_chan e w] Hmw (NoDup_singleton _))
    as (mw' & Er & Hb & Ho & Hwt).
  { constructor; [|constructor]. by rewrite Hmap, Hview, lookup_insert_eq. }
  exists mw'. split; [exact Er|]. apply Forall2_cons_1 in Hb as [Hb _]. split_and!; [|done|].
  - apply map_eq. intros ch. destruct (decide (ch = next_chan e w)) as [->|Hne]; [by rewrite lookup_insert_eq|].
    rewrite lookup_insert_ne by done. apply Ho. by rewrite list_elem_of_singleton.
  - cbn in Hwt. by rewrite Hwt, Hmap, Hview, delete_insert_eq.
Qed.
End rpc.

(** ** Witness: the sample client calls the echo handler of the sample server. *)

Lemma outgoing_call_ok :
  call_ok (with_id (sample_env Written) outgoing) (request_frame (with_id (sample_env Written) outgoing)).
Proof. split; [apply outgoing_wf|by vm_compute|constructor|by vm_compute]. Qed.

(** The state in which the read cycle of the client finds the response. *)
Definition receiving_mux : mworld (ShardedMap nat) :=
  mkMWorld NewBalancer ∅ (im_Store 77 0%nat NewShardedMap) ∅ [] [] 0.

Lemma receiving_mux_ok : mworld_ok receiving_mux.
Proof.
  split; [|by repeat constructor..|apply map_Forall_empty]. simpl. by apply Store_refines, new_refines.
Qed.

Lemma sample_send_map w' ch :
  sendRequestInternal (sample_env Written) outgoing sample_client = (w', Ok ch) →
  m_chansMap receiving_mux = c_chansMap w'.
Proof. intros E. change w' with (w', @Ok SendErr _ ch).1. rewrite <- E. vm_compute. reflexivity. Qed.

Lemma rpc_end_to_end_witness :
  ∃ w' stream bytes, sendRequestInternal (sample_env Written) outgoing sample_client = (w', Ok 0%nat) ∧
    c_wire w' = [] ++ [(0%nat, stream, bytes)] ∧
  ∃ sw' reply, streamReadCycle sample_choose (λ _, Written) sample_server 2 (mkCycle (mkIn bytes IoEOF) []) sample_world =
      (sw', Err (HeaderReadError IoEOF)) ∧ w_out sw' = [] ++ reply ∧
  ∃ mw', readCycle (λ _, 0%nat) (λ _, 0) (λ _, Written) 5 2 (mkCycle (mkIn reply IoEOF) []) receiving_mux =
      (mw', Err (HeaderReadError IoEOF)) ∧
    m_chans mw' = <[0%nat := [mkResponse 77 0 [] [] [x01; x02] []]]> ∅.
Proof.
  destruct (rpc_end_to_end sample_choose sample_server (λ _, 0%nat) (λ _, 0) (λ _, Written)
    (sample_env Written) outgoing sample_client echo_handler (mkResponse 77 0 [] [] [x01; x02] []) sample_world 5)
    as (w' & stream & bytes & E & Hw & sw' & reply & Es & Ho & Hm).
  - exact sample_client_ok.
  - reflexivity.
  - reflexivity.
  - reflexivity.
  - exact outgoing_call_ok.
  - exact sample_server_fit.
  - reflexivity.
  - reflexivity.
  - by vm_compute.
  - by vm_compute.
  - exact sample_world_ok.
  - destruct (Hm receiving_mux receiving_mux_ok (sample_send_map _ _ E) eq_refl) as (mw' & Er & Hc & _).
    exists w', stream, bytes. split; [exact E|]. split; [exact Hw|]. exists sw', reply.
    split; [exact Es|]. split; [exact Ho|]. exists mw'. split; [exact Er|exact Hc].
Defined.
