(* ===== verification/Pipeline.v ===== *)
(** * Pipelined calls

    Several requests are sent before any answer is read.  The round robin spreads
    them over the connections and the streams; the server reads each stream on its
    own; the client's read cycles find the channel of each call by its id.  The
    theorem says that every call gets its own answer, whatever stream its frame
    went to and however many calls share the stream. *)

From S2P Require Import Prelude Wire WireInstance Schema SchemaFacts Encoder EncoderFacts ShardedMap Balancer Stream Ctx Alias Memory MemoryFacts.
From S2P Require Import Server ServerFacts ServerProcess ServerIsolation Batcher Multiplexer MultiplexerFacts Client ClientFacts EndToEnd.
From Stdlib Require Import Strings.Byte.

(** ** Selecting what belongs to one stream *)

Lemma Forall2_impl_in {A B} (P Q : A → B → Prop) xs ys : Forall2 P xs ys →
  (∀ x y, x ∈ xs → y ∈ ys → P x y → Q x y) → Forall2 Q xs ys.
Proof.
  intros Hxy. induction Hxy as [|x y xs ys Hx Hxy IH]; intros Hi; constructor; [set_solver|].
  apply IH. set_solver.
Qed.

Section select.
Context {D : Type} `{!EqDecision D}.

(** The elements of [xs] whose destination is [d]. *)
Definition select {A} (d : D) (ds : list D) (xs : list A) : list A :=
  snd <$> filter (λ p, p.1 = d) (zip ds xs).

Lemma select_cons {A} (d d' : D) ds (x : A) xs :
  select d (d' :: ds) (x :: xs) = if decide (d' = d) then x :: select d ds xs else select d ds xs.
Proof. unfold select. cbn [zip zip_with]. rewrite filter_cons. cbn. by case_decide. Qed.

Lemma select_nil_l {A} (d : D) (xs : list A) : select d [] xs = [].
Proof. done. Qed.

Lemma select_fmap {A B} (f : A → B) d (ds : list D) xs : select d ds (f <$> xs) = f <$> select d ds xs.
Proof.
  revert xs. induction ds as [|d' ds IH]; intros [|x xs]; [done..|].
  rewrite fmap_cons, !select_cons, IH. by case_decide.
Qed.

Lemma select_Forall2 {A B} (R : A → B → Prop) d (ds : list D) xs ys :
  Forall2 R xs ys → Forall2 R (select d ds xs) (select d ds ys).
Proof.
  intros Hxy. revert ds. induction Hxy as [|x y xs ys Hx Hxy IH]; intros [|d' ds]; [constructor..|].
  rewrite !select_cons. case_decide; [constructor|]; auto.
Qed.

Lemma select_sublist {A} d (ds : list D) (xs : list A) : select d ds xs `sublist_of` xs.
Proof.
  revert xs. induction ds as [|d' ds IH]; intros [|x xs]; try apply sublist_nil_l.
  rewrite select_cons. case_decide; by constructor.
Qed.

Lemma select_NoDup {A} d (ds : list D) (xs : list A) : NoDup xs → NoDup (select d ds xs).
Proof. intros Hxs. eapply sublist_NoDup; [done|apply select_sublist]. Qed.

Lemma select_length {A} d (ds : list D) (xs : list A) : (length (select d ds xs) ≤ length xs)%nat.
Proof. apply sublist_length, select_sublist. Qed.
End select.

(** The bytes on one stream of one connection. *)
Definition stream_bytes (d : nat * Z) (wire : list (nat * Z * list byte)) : list byte :=
  mjoin (select d (fst <$> wire) (snd <$> wire)).

Section pipeline.
Context `{Protohelpers, !ProtohelpersOk, Zstd, !ZstdOk} {any any' M : Type} `{!IdMap M chan, !IdMapOk M chan}.
Context (grow : loc → nat) (swresult : nat → nat → wres) (srv : QRPCServerImpl any).
Context (Hwritten : ∀ i n, swresult i n = Written).
Context (mchoose : nat → nat) (clock : nat → Z) (mwresult : nat → wres).
Implicit Types w : cworld any' M.

(** The messages that a batch of calls sends. *)
Definition messages (l : list (env * Request)) : list Request := (λ x, with_id x.1 x.2) <$> l.

Lemma messages_length l : length (messages l) = length l.
Proof. apply length_fmap. Qed.

(** Calls one after the other, none of them waiting for its answer. *)
Fixpoint sends (l : list (env * Request)) : prog_on (cworld any' M) SendErr (list chan) :=
  match l with
  | [] => mret []
  | (e, req) :: l => ch ← sendRequestInternal e req; chs ← sends l; mret (ch :: chs)
  end.

(** The channels in the pool are different ones and all have been made. *)
Definition pool_fresh w : Prop := NoDup (c_chansPool w) ∧ Forall (λ ch, (ch < c_nextChan w)%nat) (c_chansPool w).

Record sendable (x : env * Request) : Prop := {
  snd_wf : Request_wf (with_id x.1 x.2);
  snd_deadline : e_deadline x.1 = None;
  snd_write : e_write x.1 = Written
}.

(** The channel of a call leaves the pool, so no later call gets it. *)
Lemma rest_pool_fresh e w w' : pool_fresh w → c_chansPool w' = rest_pool e w →
  (c_nextChan w ≤ c_nextChan w')%nat → (next_chan e w ∉ c_chansPool w → (next_chan e w < c_nextChan w')%nat) →
  pool_fresh w' ∧ (next_chan e w ∉ c_chansPool w') ∧ (next_chan e w < c_nextChan w')%nat ∧
  c_chansPool w' ⊆ c_chansPool w ∧ (next_chan e w ∈ c_chansPool w ∨ (c_nextChan w ≤ next_chan e w)%nat).
Proof.
  intros [Hnd Hall] Hp Hle Hnew. unfold pool_fresh. rewrite Hp. unfold rest_pool, next_chan in *.
  rewrite Forall_forall in Hall.
  destruct (c_chansPool w !! e_chan e) as [ch|] eqn:E; cbn in *.
  - rewrite decide_True by eauto. pose proof (list_elem_of_lookup_2 _ _ _ E) as Hin.
    pose proof (delete_Permutation _ _ _ E) as Hperm. rewrite Hperm in Hnd. apply NoDup_cons in Hnd as [Hn Hnd].
    assert (delete (e_chan e) (c_chansPool w) ⊆ c_chansPool w) as Hsub by (intros x Hx; rewrite Hperm; by right).
    split_and!; [done| |done| |done|by left].
    + apply Forall_forall. intros x Hx. pose proof (Hall x (Hsub x Hx)). lia.
    + pose proof (Hall _ Hin). lia.
  - rewrite decide_False by (by intros []).
    assert (c_nextChan w ∉ c_chansPool w) as Hni by (intros Hin; pose proof (Hall _ Hin); lia).
    specialize (Hnew Hni). split_and!; [done| |done|done|done|right; lia].
    apply Forall_forall. intros x Hx. pose proof (Hall x Hx). lia.
Qed.

Lemma sends_spec l w : cworld_ok w → c_closed w = false → pool_fresh w → Forall sendable l →
  NoDup (req_RequestId <$> messages l) →
  ∃ w' chs ds, sends l w = (w', Ok chs) ∧ length ds = length l ∧
    c_wire w' = c_wire w ++ zip ds (request_bytes <$> messages l) ∧ NoDup chs ∧
    Forall (λ ch, ch ∈ c_chansPool w ∨ (c_nextChan w ≤ ch)%nat) chs ∧
    Forall2 (λ m ch, im_view (c_chansMap w') !! req_RequestId m = Some ch) (messages l) chs ∧
    (∀ id, id ∉ req_RequestId <$> messages l → im_view (c_chansMap w') !! id = im_view (c_chansMap w) !! id).
Proof.
  intros Hw Hcl Hp Hl. revert w Hw Hcl Hp.
  induction Hl as [|[e req] l [Hwf Hdl Hwr] Hl IH]; intros w Hw Hcl Hp Hids.
  { exists w, [], []. cbn. rewrite app_nil_r. split_and!; try done; constructor. }
  cbn in Hwf, Hdl, Hwr. unfold messages in Hids |- *. rewrite !fmap_cons in Hids |- *. fold (messages l) in Hids |- *.
  apply NoDup_cons in Hids as [Hid Hids]. cbn [fst snd] in *.
  destruct (sendRequestInternal_spec e req w Hw Hcl Hwf Hdl Hwr)
    as (s & w1 & E1 & _ & Hwire1 & Hv1 & Hp1 & Hw1 & Hcl1 & Hn1 & Hf1).
  destruct (rest_pool_fresh e w w1 Hp Hp1 Hn1 Hf1) as (Hpf1 & Hnin & Hlt & Hsub & Hch).
  destruct (IH w1 Hw1 (eq_trans Hcl1 Hcl) Hpf1 Hids) as (w2 & chs & ds & E2 & Hlen & Hwire2 & Hnd & Hall & Hreg & Hrest).
  exists w2, (next_chan e w :: chs), ((next_mux w, s) :: ds).
  split; [cbn [sends]; run_call E1; by run_call E2|]. split; [cbn; by rewrite Hlen|].
  split; [by rewrite Hwire2, Hwire1, <- app_assoc|]. rewrite Forall_forall in Hall.
  split_and!.
  - apply NoDup_cons. split; [|done]. intros Hin. destruct (Hall _ Hin); [done|lia].
  - constructor; [done|]. apply Forall_forall. intros ch Hin. destruct (Hall _ Hin); [left; by apply Hsub|right; lia].
  - constructor; [|done]. by rewrite Hrest, Hv1, lookup_insert_eq.
  - intros id Hnotin. rewrite fmap_cons, not_elem_of_cons in Hnotin. destruct Hnotin as [Hne Hnotin].
    rewrite Hrest by done. rewrite Hv1. by apply lookup_insert_ne.
Qed.

(** Frames can be told apart on the wire. *)
Lemma frames_inj fps fps' : Forall (λ fp, 1 + len fp.2 < 2 ^ 32) fps → Forall (λ fp, 1 + len fp.2 < 2 ^ 32) fps' →
  mjoin (frame <$> fps) = mjoin (frame <$> fps') → fps = fps'.
Proof.
  intros Hf. revert fps'. induction Hf as [|[f q] fps Hq Hf IH]; intros [|[f' q'] fps'] Hf' E; [done..| |].
  { by rewrite mjoin_fmap_cons in E. }
  apply Forall_cons in Hf' as [Hq' Hf']. cbn in Hq, Hq'. rewrite !mjoin_fmap_cons in E.
  destruct (readFrame_frame onHeader onFlag onPayload f q (mjoin (frame <$> fps)) IoEOF [] Hq) as (b & Er & _).
  destruct (readFrame_frame onHeader onFlag onPayload f' q' (mjoin (frame <$> fps')) IoEOF [] Hq') as (b' & Er' & _).
  rewrite E, Er' in Er. injection Er as -> -> Eout _. by rewrite (IH fps').
Qed.

(** The stream of a running server on which the requests [ms] have arrived. *)
Lemma served_stream p p' i x ms rs : handlers_fit srv → handlers_return srv → Forall2 (answers srv) ms rs →
  p_server p = own_server srv → p_todo p = [] → p_writing p = None → p_streams p = [] → shared_ok (p_shared p) →
  rtc (pstep grow swresult) (Running p) (Running p') →
  p_streams p' !! i = Some x → mjoin (frame <$> st_arrived x) = mjoin (request_bytes <$> ms) → (∀ st, st_status x ≠ Gone st) →
  (∃ p'' x'', rtc (pstep grow swresult) (Running p') (Running p'') ∧ p_streams p'' !! i = Some x'' ∧
       st_arrived x'' = st_arrived x ∧ st_next x'' = length (st_arrived x'') ∧ st_point x'' = Top) ∧
  (st_next x = length (st_arrived x) → st_point x = Top → st_out x = mjoin ((frame ∘ response_frame) <$> rs)).
Proof.
  intros Hfit Hret Hans Hs Ht Hw He [Hc Ho] Hrun Hx Hbytes Hng.
  assert (settled swresult srv p) as Hse by (split; [done..| |]; rewrite He; done).
  destruct (settled_steps grow swresult srv Hfit Hret _ _ Hse Hrun) as (? & [= <-] & Hse').
  destruct (se_streams _ _ _ Hse' _ _ Hx) as [n Hok].
  assert (st_arrived x = request_frame <$> ms) as Harr.
  { apply frames_inj; [apply Hok|by eapply answers_short|]. rewrite Hbytes. unfold request_bytes. by rewrite <- list_fmap_compose. }
  split.
  - apply (settled_drains grow swresult srv Hfit Hret p' i x Hse' Hx Hng). intros k. rewrite Harr, <- fmap_take.
    by rewrite (serve_answers srv (swresult i) 0 (take k ms) (take k rs)) by auto using Forall2_take.
  - intros Hnext Htop. pose proof (so_served _ _ _ _ _ _ Hok) as Hserved. unfold frames_answered in Hserved.
    rewrite Htop, Hnext, take_ge, Harr in Hserved by done. rewrite (serve_answers srv (swresult i) 0 ms rs) in Hserved by auto. by injection Hserved.
Qed.

(** C3: pipelined calls do not get each other's answers.  A batch of calls with
    different ids is sent before any answer is read: every call succeeds, the
    calls get pairwise different channels, and their frames are the only thing
    written.  The server is any run of the process whose stream cycles work
    concurrently on shared pools, with handlers that return and answer with memory
    of their own, and with any other streams next to the one looked at.  Take a
    stream of it on which the frames have arrived that were written to one stream
    of one connection, and that was not cut off: its cycle can go on to answer
    all of them, and once it has, the client's read cycle, given what it has
    written, puts into the channel of each of these calls exactly the response of
    its own request, leaves all other channels alone and removes the registrations
    of these calls and no others; the read cycle may start in any state in which
    the calls are registered as the sends left them and their channels are empty. *)
Theorem pipelined_calls l rs w : cworld_ok w → c_closed w = false → pool_fresh w → Forall sendable l →
  NoDup (req_RequestId <$> messages l) → handlers_fit srv → handlers_return srv → Forall2 (answers srv) (messages l) rs →
  ∃ w' chs out, sends l w = (w', Ok chs) ∧ c_wire w' = c_wire w ++ out ∧
    length out = length l ∧ length chs = length l ∧ NoDup chs ∧
  ∀ d p p' i x s, p_server p = own_server srv → p_todo p = [] → p_writing p = None → p_streams p = [] → shared_ok (p_shared p) →
    rtc (pstep grow swresult) (Running p) (Running p') →
    p_streams p' !! i = Some x → mjoin (frame <$> st_arrived x) = stream_bytes d out → (∀ st, st_status x ≠ Gone st) →
    let on {A : Type} : list A → list A := select d (fst <$> out) in
    (∃ p'' x'', rtc (pstep grow swresult) (Running p') (Running p'') ∧ p_streams p'' !! i = Some x'' ∧
       st_arrived x'' = st_arrived x ∧ st_next x'' = length (st_arrived x'') ∧ st_point x'' = Top) ∧
    (st_next x = length (st_arrived x) → st_point x = Top →
     ∀ mw : mworld M, mworld_ok mw →
      (∀ m, m ∈ on (messages l) → im_view (m_chansMap mw) !! req_RequestId m = im_view (c_chansMap w') !! req_RequestId m) →
      (∀ ch, ch ∈ on chs → default [] (m_chans mw !! ch) = []) →
      ∃ mw', readCycle mchoose clock mwresult s (S (length l)) (mkCycle (mkIn (st_out x) IoEOF) []) mw =
          (mw', Err (HeaderReadError IoEOF)) ∧
        Forall2 (λ ch r, m_chans mw' !! ch = Some [r]) (on chs) (on rs) ∧
        (∀ ch, ch ∉ on chs → m_chans mw' !! ch = m_chans mw !! ch) ∧
        im_view (m_chansMap mw') =
          foldl (λ m id, delete id m) (im_view (m_chansMap mw)) (req_RequestId <$> on (messages l))).
Proof.
  intros Hw Hcl Hp Hl Hids Hfit Hret Hans.
  destruct (sends_spec l w Hw Hcl Hp Hl Hids) as (w' & chs & ds & E & Hlen & Hwire & Hnd & _ & Hreg & _).
  assert (length ds = length (request_bytes <$> messages l)) as Hlen' by (by rewrite length_fmap, messages_length).
  pose proof (Forall2_length _ _ _ Hreg) as Hlc. rewrite messages_length in Hlc.
  exists w', chs, (zip ds (request_bytes <$> messages l)). split; [done|]. split; [done|].
  split; [rewrite length_zip_with; lia|]. do 2 (split; [done|]).
  intros d p p' i x s Hs Ht Hwr He [Hc Ho] Hrun Hx Hbytes Hng on.
  assert (∀ A xs, on A xs = select d ds xs) as Hon by (intros; unfold on; by rewrite fst_zip by lia).
  unfold stream_bytes in Hbytes. rewrite fst_zip, snd_zip, select_fmap in Hbytes by lia.
  apply (select_Forall2 _ d ds) in Hans as Hans'.
  destruct (served_stream p p' i x (select d ds (messages l)) (select d ds rs)) as [Hdrain Hout]; try done.
  split; [done|]. intros Hnext Htop mw Hmw Hview Hbox. rewrite !Hon in *. rewrite (Hout Hnext Htop).
  apply (deliver_stream srv mchoose clock mwresult (select d ds (messages l))); try done.
  - pose proof (select_length d ds (messages l)) as Hsl. rewrite messages_length in Hsl. lia.
  - rewrite <- select_fmap. by apply select_NoDup.
  - by apply select_NoDup.
  - apply (select_Forall2 _ d ds) in Hreg.
    apply (Forall2_impl_in _ _ _ _ Hreg). intros m ch Hm' Hch Hx'. by rewrite Hview, Hbox.
Qed.
End pipeline.

(** ** Witness: three calls on one connection with two streams.  The first and the
    third go to stream 6, the second to stream 5. *)

Definition batch : list (env * Request) :=
  [(sample_env Written, set_req_RequestId 101 outgoing); (sample_env Written, set_req_RequestId 102 outgoing);
   (sample_env Written, set_req_RequestId 103 outgoing)].
Definition echoed (id : Z) : Response := mkResponse id 0 [] [] [x01; x02] [].

Lemma batch_sendable : Forall sendable batch.
Proof. do 3 (constructor; [split; [split; vm_compute; intuition congruence|done..]|]). constructor. Qed.

Lemma batch_answered : Forall2 (answers sample_server) (messages batch) [echoed 101; echoed 102; echoed 103].
Proof.
  do 3 (constructor; [split; [split; [split; vm_compute; intuition congruence|by vm_compute|constructor|by vm_compute]
    |by exists echo_handler|by vm_compute..]|]). constructor.
Qed.

(** The read cycle of stream 6, after the three sends. *)
Definition batch_mux : mworld (ShardedMap nat) :=
  mkMWorld NewBalancer ∅ (im_Store 103 2%nat (im_Store 102 1%nat (im_Store 101 0%nat NewShardedMap))) ∅ [] [] 0.

Lemma batch_mux_ok : mworld_ok batch_mux.
Proof.
  split; [|by repeat constructor..|apply map_Forall_empty]. simpl. do 3 apply Store_refines; try done. apply new_refines.
Qed.

Definition batch_dests : list (nat * Z) := [(0%nat, 6); (0%nat, 5); (0%nat, 6)].

Lemma batch_sent w' chs : sends batch sample_client = (w', Ok chs) →
  m_chansMap batch_mux = c_chansMap w' ∧ chs = [0; 1; 2]%nat ∧ c_wire w' = zip batch_dests (request_bytes <$> messages batch).
Proof.
  intros E. set (x := sends batch sample_client) in E.
  change w' with (w', @Ok SendErr _ chs).1. rewrite <- E.
  assert (chs = match x.2 with Ok c => c | _ => [] end) as -> by (by rewrite E).
  clear E. subst x. vm_compute. done.
Qed.

(** The two streams at the server, whose cycles take turns. *)
Definition batch_frames (d : nat * Z) : list (byte * list byte) := request_frame <$> select d batch_dests (messages batch).
Definition batch_stream : stream_state unit :=
  mkStream (batch_frames (0%nat, 6)) 2 (mjoin ((frame ∘ response_frame) <$> [echoed 101; echoed 103])) Reading Top.

Lemma batch_run : ∃ p', rtc sample_pstep (Running (echo_process [])) (Running p') ∧ p_streams p' !! 0%nat = Some batch_stream.
Proof.
  set (xs := [batch_frames (0%nat, 6); batch_frames (0%nat, 5)]).
  destruct (outcome_run (λ _, 0%nat) (λ _ _, Written) (echo_process (arrived_stream <$> xs))
    [(0, replicate 7 0); (1, replicate 9 0); (0, replicate 15 0); (1, replicate 20 0); (0, replicate 20 0)]%nat
    [batch_stream; mkStream (batch_frames (0%nat, 5)) 1 (frame (response_frame (echoed 102))) Reading Top]
    eq_refl eq_refl) as (p' & Hrun & Hxs).
  { vm_compute. reflexivity. }
  exists p'. split; [|by rewrite Hxs]. etrans; [|exact Hrun]. apply (streams_arrive _ _ (echo_process []) xs); [done..|].
  by repeat constructor.
Qed.

Lemma pipelined_calls_witness :
  ∃ w' chs out, sends batch sample_client = (w', Ok chs) ∧ c_wire w' = [] ++ out ∧
  ∃ p', rtc sample_pstep (Running (echo_process [])) (Running p') ∧ p_streams p' !! 0%nat = Some batch_stream ∧
  ∃ mw', readCycle (λ _, 0%nat) (λ _, 0) (λ _, Written) 6 4 (mkCycle (mkIn (st_out batch_stream) IoEOF) []) batch_mux =
      (mw', Err (HeaderReadError IoEOF)) ∧
    m_chans mw' !! 0%nat = Some [echoed 101] ∧ m_chans mw' !! 1%nat = None ∧ m_chans mw' !! 2%nat = Some [echoed 103].
Proof.
  destruct (pipelined_calls (λ _, 0%nat) (λ _ _, Written) sample_server (λ _ _, eq_refl) (λ _, 0%nat) (λ _, 0) (λ _, Written) batch
    [echoed 101; echoed 102; echoed 103] sample_client) as (w' & chs & out & E & Hw & _ & _ & _ & Hd).
  - exact sample_client_ok.
  - reflexivity.
  - split; constructor.
  - exact batch_sendable.
  - apply (bool_decide_unpack _). by vm_compute.
  - exact sample_server_fit.
  - exact sample_server_return.
  - exact batch_answered.
  - exists w', chs, out. split; [exact E|]. split; [exact Hw|].
    destruct (batch_sent _ _ E) as (Hmap & -> & Hout). rewrite Hw in Hout.
    change (c_wire sample_client) with (@nil (nat * Z * list byte)) in Hout. cbn [app] in Hout. subst out.
    destruct batch_run as (p' & Hrun & Hx). exists p'. split; [exact Hrun|]. split; [exact Hx|].
    assert (mjoin (frame <$> st_arrived batch_stream) = stream_bytes (0%nat, 6) (zip batch_dests (request_bytes <$> messages batch))) as Hb
      by (vm_compute; reflexivity).
    assert (∀ st, st_status batch_stream ≠ Gone st) as Hng by (intros st Hst; discriminate Hst).
    destruct (Hd (0%nat, 6) (echo_process []) p' 0%nat batch_stream 6 eq_refl eq_refl eq_refl eq_refl empty_shared_ok
      Hrun Hx Hb Hng) as [_ Hm].
    destruct (Hm eq_refl eq_refl batch_mux batch_mux_ok) as (mw' & Er & Hin & Hother & _).
    + intros m _. by rewrite Hmap.
    + done.
    + change (select _ _ [0;1;2]%nat) with [0;2]%nat in Hin, Hother.
      change (select _ _ _) with [echoed 101; echoed 103] in Hin.
      exists mw'. split; [exact Er|]. apply Forall2_cons_1 in Hin as [H0 [H2 _]%Forall2_cons_1].
      split; [done|]. split; [|done].
      assert (1 ∉ [0; 2])%nat as H1 by (apply (bool_decide_unpack _); by vm_compute). by rewrite (Hother _ H1).
Defined.
