(* ===== verification/Float64.v ===== *)
(** * Go's [float64] arithmetic and decimal formatting

    The benchmark tools compute latencies and rates with [float64].  A finite
    [float64] is represented by its value, a rational number, and every
    operation of the code is the exact operation on rationals followed by the
    rounding [rnd] of IEEE 754 binary64: 53 significant bits, ties to even,
    gradual underflow at [2 ^ -1074].  Infinities and NaN are not represented:
    the tools never divide by zero, and no value of theirs comes near [2 ^ 1024].
    An operation is one rounding, as on amd64; where the compiler fuses a
    multiplication and an addition the last bit of a percentile can differ.

    [fmt_fixed] is the verb [%.nf] of [fmt], which rounds the exact value. *)

From Stdlib Require Export QArith.
From Stdlib Require Ascii.
From Stdlib Require Import Qround Qpower Qabs Lqa SpecFloat.
From stdpp Require Import sorting pretty.
From stdpp Require Export strings.
From S2P Require Import Prelude.


#[local] Open Scope Z_scope.

Declare Scope float_scope.
Delimit Scope float_scope with F.

Abbreviation float64 := Q.

(** ** Rounding *)

(** The integer nearest to [q], the even one of two equally near. *)
Definition round_even (q : Q) : Z :=
  let f := Qfloor q in
  match Qcompare (q - inject_Z f) (1 # 2) with
  | Lt => f
  | Gt => f + 1
  | Eq => if Z.even f then f else f + 1
  end.

(** The exponent of the leading bit of a positive [q]. *)
Definition log2Q (q : Q) : Z :=
  let k := Z.log2 (Qnum q) - Z.log2 (Zpos (Qden q)) in
  if Qle_bool (2 ^ k)%Q q then k else k - 1.

(** The exponent of the last bit of the significand. *)
Definition ulp_exp (q : Q) : Z := Z.max (log2Q q - 52) (- 1074).

Definition rnd_pos (q : Q) : Q :=
  Qred (inject_Z (round_even (q / 2 ^ ulp_exp q)) * 2 ^ ulp_exp q)%Q.

Definition rnd (q : Q) : Q :=
  match Qcompare q 0 with
  | Eq => 0%Q
  | Gt => rnd_pos q
  | Lt => (- rnd_pos (- q))%Q
  end.

(** ** Operations *)

Definition of_int (z : Z) : float64 := rnd (inject_Z z).
Definition fadd (x y : float64) : float64 := rnd (x + y)%Q.
Definition fsub (x y : float64) : float64 := rnd (x - y)%Q.
Definition fmul (x y : float64) : float64 := rnd (x * y)%Q.
Definition fdiv (x y : float64) : float64 := rnd (x / y)%Q.
(** [int(x)]: truncation towards zero. *)
Definition to_int (x : float64) : Z := if Qle_bool 0 x then Qfloor x else - Qfloor (- x).

#[global] Arguments fadd (x y)%_F%_Q.
#[global] Arguments fsub (x y)%_F%_Q.
#[global] Arguments fmul (x y)%_F%_Q.
#[global] Arguments fdiv (x y)%_F%_Q.

Notation "x + y" := (fadd x y) : float_scope.
Notation "x - y" := (fsub x y) : float_scope.
Notation "x * y" := (fmul x y) : float_scope.
Notation "x / y" := (fdiv x y) : float_scope.

Definition fltb (x y : float64) : bool := negb (Qle_bool y x).
Definition fleb (x y : float64) : bool := Qle_bool x y.
Definition feqb (x y : float64) : bool := Qeq_bool x y.
#[global] Arguments fltb (x y)%_F%_Q.
#[global] Arguments fleb (x y)%_F%_Q.
#[global] Arguments feqb (x y)%_F%_Q.
Notation "x <? y" := (fltb x y) : float_scope.
Notation "x <=? y" := (fleb x y) : float_scope.
Notation "x =? y" := (feqb x y) : float_scope.

#[export] Instance Q_eq_dec : EqDecision Q.
Proof. solve_decision. Defined.
#[export] Instance Qle_decision : RelDecision Qle.
Proof. intros x y. destruct (Qlt_le_dec y x) as [H|H]; [right; by apply Qlt_not_le|by left]. Defined.
#[export] Instance Qle_Total : Total Qle.
Proof. intros x y. destruct (Qlt_le_dec x y) as [H|H]; [left; by apply Qlt_le_weak|by right]. Qed.
#[export] Instance Qle_Transitive : Transitive Qle := Qle_trans.
#[export] Instance Qle_Reflexive : Reflexive Qle := Qle_refl.

(** ** Decimal formatting *)

(** [%.nf] *)
Definition pad_left (w : nat) (c : Ascii.ascii) (s : string) : string :=
  (String.string_of_list_ascii (replicate (w - String.length s)%nat c) ++ s)%string.

Definition fmt_fixed (n : nat) (x : float64) : string :=
  let p := 10 ^ Z.of_nat n in
  let m := round_even (Qabs x * inject_Z p)%Q in
  ((if fltb x 0 then "-" else "") ++ pretty (m / p)
    ++ (if decide (n = O) then "" else "." ++ pad_left n (Ascii.ascii_of_nat 48) (pretty (m mod p))))%string.

(** [%d] *)
Definition fmt_int (z : Z) : string := pretty z.

Example fmt_fixed_ex :
  (fmt_fixed 2 (1 # 200), fmt_fixed 1 (rnd (1 # 20)), fmt_fixed 0 (5 # 2), fmt_fixed 2 (- (7 # 2)))
  = ("0.00", "0.1", "2", "-3.50")%string.
Proof. vm_compute. reflexivity. Qed.

(** ** Facts on rounding *)

#[local] Open Scope Q_scope.

Lemma pow2_pos e : 0 < 2 ^ e.
Proof. by apply Qpower_0_lt. Qed.
Lemma pow2_add e f : 2 ^ (e + f) == 2 ^ e * 2 ^ f.
Proof. by apply Qpower_plus. Qed.
Lemma pow2_le e f : (e <= f)%Z → 2 ^ e <= 2 ^ f.
Proof. intros. by apply Qpower_le_compat_l. Qed.
Lemma pow2_Z e : (0 <= e)%Z → inject_Z (2 ^ e) == 2 ^ e.
Proof. intros. by apply (Zpower_Qpower 2). Qed.
Lemma pow2_le_inv e f : 2 ^ e < 2 ^ f → (e < f)%Z.
Proof. intros. by apply (Qpower_lt_compat_l_inv 2). Qed.

#[local] Hint Resolve pow2_pos : core.

Lemma round_even_bounds q : (Qfloor q <= round_even q <= Qfloor q + 1)%Z.
Proof. unfold round_even. repeat case_match; lia. Qed.

#[export] Instance round_even_Proper : Proper (Qeq ==> eq) round_even.
Proof. intros x y H. unfold round_even. by rewrite (Qfloor_comp x y H), H. Qed.

Lemma round_even_Z z : round_even (inject_Z z) = z.
Proof.
  unfold round_even. rewrite Qfloor_Z.
  assert (inject_Z z - inject_Z z == 0) as -> by ring. done.
Qed.

Lemma round_even_mono x y : x <= y → (round_even x <= round_even y)%Z.
Proof.
  intros H. pose proof (Qfloor_resp_le _ _ H) as Hf.
  destruct (decide (Qfloor x = Qfloor y)) as [E|E].
  2: { pose proof (round_even_bounds x). pose proof (round_even_bounds y). lia. }
  unfold round_even. rewrite E.
  destruct (Qcompare_spec (x - inject_Z (Qfloor y)) (1 # 2)),
    (Qcompare_spec (y - inject_Z (Qfloor y)) (1 # 2)); try case_match; try lia; exfalso; lra.
Qed.

Lemma Qmake_between (n : Z) (d : positive) (a b : Z) :
  (2 ^ a <= n < 2 ^ (a + 1))%Z → (2 ^ b <= Zpos d < 2 ^ (b + 1))%Z → (0 <= a)%Z → (0 <= b)%Z →
  2 ^ (a - b - 1) <= n # d ∧ n # d < 2 ^ (a - b + 1).
Proof.
  intros Hn Hd Ha Hb. rewrite (Qmake_Qdiv n d).
  assert (0 < inject_Z (Zpos d)) as Hp by done.
  assert (∀ u v, (u <= v)%Z → inject_Z u <= inject_Z v) as HZ by (intros; by rewrite <- Zle_Qle).
  assert (∀ u v, (u < v)%Z → inject_Z u < inject_Z v) as HZ' by (intros; by rewrite <- Zlt_Qlt).
  destruct Hn as [Hn1%HZ Hn2%HZ'], Hd as [Hd1%HZ Hd2%HZ'].
  rewrite pow2_Z in Hn1, Hn2, Hd1, Hd2 by lia.
  rewrite pow2_add in Hn2, Hd2.
  assert (2 ^ a == 2 ^ (a - b - 1) * 2 ^ b * 2 ^ 1) as E1.
  { rewrite <- !pow2_add. by replace (a - b - 1 + b + 1)%Z with a by lia. }
  assert (2 ^ a * 2 ^ 1 == 2 ^ (a - b + 1) * 2 ^ b) as E2.
  { rewrite <- !pow2_add. by replace (a - b + 1 + b)%Z with (a + 1)%Z by lia. }
  change (2 ^ 1) with 2 in *.
  pose proof (pow2_pos (a - b - 1)). pose proof (pow2_pos (a - b + 1)).
  split; [apply Qle_shift_div_l|apply Qlt_shift_div_r]; nra.
Qed.

Lemma log2Q_spec q : 0 < q → 2 ^ log2Q q <= q < 2 ^ (log2Q q + 1).
Proof.
  intros Hq. destruct q as [n d]. assert (0 < n)%Z by (unfold Qlt in Hq; simpl in Hq; lia).
  unfold log2Q; cbn [Qnum Qden].
  pose proof (Z.log2_spec n ltac:(done)). pose proof (Z.log2_spec (Zpos d) ltac:(done)).
  destruct (Qmake_between n d (Z.log2 n) (Z.log2 (Zpos d))) as [HA HB];
    [lia|lia|apply Z.log2_nonneg|apply Z.log2_nonneg|].
  destruct (Qle_bool _ _) eqn:E.
  - apply Qle_bool_iff in E. done.
  - replace (Z.log2 n - Z.log2 (Zpos d) - 1 + 1)%Z with (Z.log2 n - Z.log2 (Zpos d))%Z by lia.
    split; [done|]. apply Qnot_le_lt. intros HC%Qle_bool_iff. congruence.
Qed.

Lemma log2Q_mono x y : 0 < x → x <= y → (log2Q x <= log2Q y)%Z.
Proof.
  intros Hx Hxy. destruct (log2Q_spec x Hx) as [H1 _].
  destruct (log2Q_spec y) as [_ H2]; [lra|].
  assert (log2Q x < log2Q y + 1)%Z; [|lia]. apply pow2_le_inv. lra.
Qed.

(** The scaled significand lies between [0] and [2 ^ 53]. *)
Lemma scaled_lt q : 0 < q → 0 < q / 2 ^ ulp_exp q ∧ q / 2 ^ ulp_exp q <= inject_Z (2 ^ 53).
Proof.
  intros Hq. destruct (log2Q_spec q Hq) as [_ H2]. pose proof (pow2_pos (ulp_exp q)).
  split; [apply Qlt_shift_div_l; lra|]. apply Qle_shift_div_r; [done|].
  rewrite pow2_Z, <- pow2_add by done.
  pose proof (pow2_le (log2Q q + 1) (53 + ulp_exp q) ltac:(unfold ulp_exp; lia)). lra.
Qed.

Lemma rnd_pos_eq q :
  rnd_pos q == inject_Z (round_even (q / 2 ^ ulp_exp q)) * 2 ^ ulp_exp q.
Proof. apply Qred_correct. Qed.

Lemma rnd_pos_nonneg q : 0 < q → 0 <= rnd_pos q.
Proof.
  intros Hq. rewrite rnd_pos_eq. apply Qmult_le_0_compat; [|by apply Qlt_le_weak].
  change 0 with (inject_Z 0). rewrite <- Zle_Qle, <- (round_even_Z 0).
  apply round_even_mono. by apply Qlt_le_weak, scaled_lt.
Qed.

(** Rounding is monotone: in one binade because [round_even] is, across binades
    because the power of two between them is representable. *)
Lemma rnd_pos_mono x y : 0 < x → x <= y → rnd_pos x <= rnd_pos y.
Proof.
  intros Hx Hxy. rewrite !rnd_pos_eq. pose proof (log2Q_mono x y Hx Hxy) as Hl.
  destruct (decide (ulp_exp x = ulp_exp y)) as [E|E].
  - rewrite E. apply Qmult_le_compat_r; [|by apply Qlt_le_weak].
    rewrite <- Zle_Qle. apply round_even_mono.
    apply Qmult_le_compat_r; [done|]. by apply Qlt_le_weak, Qinv_lt_0_compat.
  - assert (ulp_exp x < ulp_exp y ∧ ulp_exp y = log2Q y - 52)%Z as [Hu Hy]
      by (unfold ulp_exp in *; lia).
    apply (Qle_trans _ (inject_Z (2 ^ 53) * 2 ^ ulp_exp x)).
    { apply Qmult_le_compat_r; [|by apply Qlt_le_weak].
      rewrite <- Zle_Qle, <- (round_even_Z (2 ^ 53)). by apply round_even_mono, scaled_lt. }
    apply (Qle_trans _ (inject_Z (2 ^ 52) * 2 ^ ulp_exp y)).
    { rewrite !pow2_Z, <- !pow2_add by done. apply pow2_le. lia. }
    apply Qmult_le_compat_r; [|by apply Qlt_le_weak].
    rewrite <- Zle_Qle, <- (round_even_Z (2 ^ 52)). apply round_even_mono.
    apply Qle_shift_div_l; [done|]. rewrite pow2_Z, <- pow2_add by done.
    destruct (log2Q_spec y) as [H1 _]; [lra|]. rewrite Hy.
    by replace (52 + (log2Q y - 52))%Z with (log2Q y) by lia.
Qed.

Theorem rnd_mono x y : x <= y → rnd x <= rnd y.
Proof.
  intros H. unfold rnd.
  destruct (Qcompare_spec x 0) as [Hx|Hx|Hx], (Qcompare_spec y 0) as [Hy|Hy|Hy]; try lra;
    try (exfalso; lra).
  - by apply rnd_pos_nonneg.
  - pose proof (rnd_pos_nonneg (- x) ltac:(lra)). lra.
  - pose proof (rnd_pos_mono (- y) (- x) ltac:(lra) ltac:(lra)). lra.
  - pose proof (rnd_pos_nonneg (- x) ltac:(lra)). pose proof (rnd_pos_nonneg y Hy). lra.
  - by apply rnd_pos_mono.
Qed.

#[export] Instance rnd_Proper : Proper (Qeq ==> Qeq) rnd.
Proof.
  intros x y H. apply Qle_antisym; apply rnd_mono; rewrite H; apply Qle_refl.
Qed.

(** A value with an integral significand is not changed. *)
Lemma rnd_pos_exact q m : 0 < q → q == inject_Z m * 2 ^ ulp_exp q → rnd_pos q == q.
Proof.
  intros Hq H. rewrite rnd_pos_eq.
  assert (q / 2 ^ ulp_exp q == inject_Z m) as ->.
  { rewrite H at 1. field. apply Qnot_eq_sym, Qlt_not_eq, pow2_pos. }
  by rewrite round_even_Z.
Qed.

Lemma rnd_0 : rnd 0 = 0.
Proof. done. Qed.

Lemma rnd_opp q : rnd (- q) == - rnd q.
Proof.
  unfold rnd. destruct (Qcompare_spec q 0) as [H|H|H], (Qcompare_spec (- q) 0) as [H'|H'|H'];
    try (exfalso; lra); try reflexivity.
  - by rewrite Qopp_involutive.
  - apply Qopp_comp. assert (rnd (- - q) == rnd q) as E by by rewrite Qopp_involutive.
    unfold rnd in E.
    destruct (Qcompare_spec q 0), (Qcompare_spec (- - q) 0); try (exfalso; lra). done.
Qed.

Lemma rnd_pos_int z : (0 < z <= 2 ^ 53)%Z → rnd_pos (inject_Z z) == inject_Z z.
Proof.
  intros Hz. assert (0 < inject_Z z) as Hq by (change 0 with (inject_Z 0); rewrite <- Zlt_Qlt; lia).
  destruct (log2Q_spec _ Hq) as [H1 H2].
  assert (0 <= log2Q (inject_Z z) <= 53)%Z as Hl.
  { split.
    - assert (0 < log2Q (inject_Z z) + 1)%Z; [|lia]. apply pow2_le_inv.
      refine (Qle_lt_trans _ _ _ _ H2). change (2 ^ 0) with (inject_Z 1). rewrite <- Zle_Qle. lia.
    - assert (log2Q (inject_Z z) < 54)%Z; [|lia]. apply pow2_le_inv.
      refine (Qle_lt_trans _ _ _ H1 _). rewrite <- pow2_Z, <- Zlt_Qlt by done. lia. }
  destruct (decide (log2Q (inject_Z z) = 53)%Z) as [E|E].
  - rewrite E, <- pow2_Z, <- Zle_Qle in H1 by done. assert (z = 2 ^ 53)%Z as -> by lia.
    vm_compute. reflexivity.
  - set (e := ulp_exp (inject_Z z)). assert (- 52 <= e <= 0)%Z as He by (unfold e, ulp_exp; lia).
    apply (rnd_pos_exact _ (z * 2 ^ (- e))); [done|]. fold e.
    rewrite inject_Z_mult, pow2_Z, <- Qmult_assoc, <- pow2_add by lia.
    replace (- e + e)%Z with 0%Z by lia. by rewrite Qmult_1_r.
Qed.

(** Integers of at most 53 bits are [float64] values. *)
Theorem of_int_exact z : (- 2 ^ 53 <= z <= 2 ^ 53)%Z → of_int z == inject_Z z.
Proof.
  intros Hz. unfold of_int. destruct (Z.lt_trichotomy z 0) as [H|[->|H]]; [|done|].
  - rewrite <- (Z.opp_involutive z), inject_Z_opp, rnd_opp. apply Qopp_comp.
    unfold rnd. destruct (Qcompare_spec (inject_Z (- z)) 0) as [E|E|E].
    + by rewrite E.
    + exfalso. change 0 with (inject_Z 0) in E. rewrite <- Zlt_Qlt in E. lia.
    + apply rnd_pos_int. lia.
  - unfold rnd. destruct (Qcompare_spec (inject_Z z) 0) as [E|E|E].
    + by rewrite E.
    + exfalso. change 0 with (inject_Z 0) in E. rewrite <- Zlt_Qlt in E. lia.
    + apply rnd_pos_int. lia.
Qed.

(** Agreement with the binary64 operations of the Standard Library's
    [SpecFloat] on a sample: quotients, products, sums and differences of
    numbers that are not exact, and a conversion that rounds. *)
Definition spec_int (z : Z) : spec_float := binary_normalize 53 1024 z 0 false.
Definition spec_value (f : spec_float) : option Q :=
  match f with
  | S754_zero _ => Some 0
  | S754_finite s m e => Some (inject_Z (if s then Zneg m else Zpos m) * 2 ^ e)
  | _ => None
  end.
Definition same_value (x : float64) (f : spec_float) : bool :=
  match spec_value f with Some q => Qeq_bool x q | None => false end.

Example rnd_agrees :
  let q z := of_int z in let s := spec_int in
  let x := (q 999%Z / q 10%Z)%F in let sx := SFdiv 53 1024 (s 999%Z) (s 10%Z) in
  let y := (q 1%Z / q 3%Z)%F in let sy := SFdiv 53 1024 (s 1%Z) (s 3%Z) in
  let t := (x / q 100%Z)%F in let st := SFdiv 53 1024 sx (s 100%Z) in
  forallb (λ '(a, b), same_value a b)
    [(x, sx); (y, sy); (t, st);
     ((t * q 12345%Z)%F, SFmul 53 1024 st (s 12345%Z));
     ((x - t)%F, SFsub 53 1024 sx st); ((y + t)%F, SFadd 53 1024 sy st);
     ((y - x)%F, SFsub 53 1024 sy sx);
     (q (2 ^ 53 + 1)%Z, s (2 ^ 53 + 1)%Z); (q (2 ^ 60 + 12345)%Z, s (2 ^ 60 + 12345)%Z)] = true.
Proof. vm_compute. reflexivity. Qed.

(** ** Facts on the operations *)

Lemma fltb_true x y : (x <? y)%F = true ↔ x < y.
Proof.
  unfold fltb. rewrite negb_true_iff, <- not_true_iff_false, Qle_bool_iff.
  split; [apply Qnot_le_lt|apply Qlt_not_le].
Qed.
Lemma fltb_false x y : (x <? y)%F = false ↔ y <= x.
Proof. unfold fltb. rewrite negb_false_iff. apply Qle_bool_iff. Qed.
Lemma fleb_true x y : (x <=? y)%F = true ↔ x <= y.
Proof. apply Qle_bool_iff. Qed.
Lemma fleb_false x y : (x <=? y)%F = false ↔ y < x.
Proof.
  unfold fleb. rewrite <- not_true_iff_false, Qle_bool_iff.
  split; [apply Qnot_le_lt|apply Qlt_not_le].
Qed.
Lemma feqb_true x y : (x =? y)%F = true ↔ x == y.
Proof. apply Qeq_bool_iff. Qed.

(** Turns the comparisons of [float64] in the hypotheses into propositions. *)
Ltac f_bools :=
  repeat match goal with
  | H : (_ <? _)%F = true |- _ => apply fltb_true in H
  | H : (_ <? _)%F = false |- _ => apply fltb_false in H
  | H : (_ <=? _)%F = true |- _ => apply fleb_true in H
  | H : (_ <=? _)%F = false |- _ => apply fleb_false in H
  | H : (_ =? _)%F = true |- _ => apply feqb_true in H
  end.

Lemma of_int_0 : of_int 0 = 0.
Proof. done. Qed.
Lemma of_int_1 : of_int 1 = 1.
Proof. done. Qed.
Lemma of_int_mono z w : (z <= w)%Z → of_int z <= of_int w.
Proof. intros. unfold of_int. apply rnd_mono. by rewrite <- Zle_Qle. Qed.

Lemma rnd_int_bounds q lo hi :
  (- 2 ^ 53 <= lo)%Z → (hi <= 2 ^ 53)%Z → (lo <= hi)%Z →
  inject_Z lo <= q <= inject_Z hi → inject_Z lo <= rnd q <= inject_Z hi.
Proof.
  intros Hl Hh Hlh [H1%rnd_mono H2%rnd_mono].
  rewrite <- (of_int_exact lo), <- (of_int_exact hi) by lia. done.
Qed.

Lemma to_int_mono x y : 0 <= x → x <= y → (to_int x <= to_int y)%Z.
Proof.
  intros Hx H. unfold to_int. assert (0 <= y) as Hy by lra.
  apply Qle_bool_iff in Hx, Hy. rewrite Hx, Hy. by apply Qfloor_resp_le.
Qed.
Lemma to_int_Z z : to_int (inject_Z z) = z.
Proof.
  unfold to_int. rewrite Qfloor_Z, <- inject_Z_opp, Qfloor_Z. case_match; lia.
Qed.
Lemma to_int_bounds x lo hi :
  (0 <= lo)%Z → inject_Z lo <= x <= inject_Z hi → (lo <= to_int x <= hi)%Z.
Proof.
  intros Hl [H1 H2]. assert (0 <= inject_Z lo) by (change 0 with (inject_Z 0); by rewrite <- Zle_Qle).
  rewrite <- (to_int_Z lo), <- (to_int_Z hi). split; apply to_int_mono; lra.
Qed.
Lemma to_int_floor x : 0 <= x → inject_Z (to_int x) <= x < inject_Z (to_int x) + 1.
Proof.
  intros Hx. unfold to_int. rewrite (proj2 (Qle_bool_iff 0 x) Hx).
  split; [apply Qfloor_le|]. rewrite <- (inject_Z_plus _ 1). apply Qlt_floor.
Qed.
