(* ===== verification/GoStrings.v ===== *)
(** * The functions of Go's package [strings] that the tools use

    Strings are byte strings.  [TrimSpace] removes the white space characters of
    Unicode in their UTF-8 encoding, as [unicode.IsSpace] has them. *)

From Stdlib Require Import Ascii.
From S2P Require Import Prelude.
From stdpp Require Export strings.

#[local] Open Scope string_scope.

Module strings.

(** The prefix test of Go is [String.prefix]. *)
Definition HasPrefix (s prefix : string) : bool := String.prefix prefix s.

Fixpoint HasSuffix (s suffix : string) : bool :=
  bool_decide (s = suffix) ||
  match s with EmptyString => false | String _ s => HasSuffix s suffix end.

Fixpoint Contains (s sub : string) : bool :=
  String.prefix sub s ||
  match s with EmptyString => false | String _ s => Contains s sub end.

Definition TrimSuffix (s suffix : string) : string :=
  if HasSuffix s suffix
  then String.substring 0 (String.length s - String.length suffix) s else s.

(** [Split] for a non-empty separator: [skip] counts the bytes of a separator
    that are still to be passed over, [acc] is the current piece. *)
Fixpoint split_from (sep : string) (skip : nat) (acc s : string) : list string :=
  match s with
  | EmptyString => [acc]
  | String c rest =>
      match skip with
      | S k => split_from sep k acc rest
      | O => if String.prefix sep s
             then acc :: split_from sep (String.length sep - 1) "" rest
             else split_from sep 0 (acc ++ String c "") rest
      end
  end.
Definition Split (s sep : string) : list string := split_from sep 0 "" s.

Fixpoint Join (l : list string) (sep : string) : string :=
  match l with
  | [] => ""
  | [x] => x
  | x :: l => x ++ sep ++ Join l sep
  end.

Fixpoint Repeat (s : string) (n : nat) : string :=
  match n with O => "" | S n => s ++ Repeat s n end.

(** The number of characters of a string in UTF-8: the bytes that do not
    continue a character. *)
Fixpoint RuneCount (s : string) : nat :=
  match s with
  | EmptyString => 0
  | String c s =>
      let n := nat_of_ascii c in
      if Nat.leb 128 n && Nat.ltb n 192 then RuneCount s else S (RuneCount s)
  end.

(** [%ws] and [%-ws]: padding with spaces to [w] characters. *)
Definition PadLeft (w : nat) (s : string) : string := Repeat " " (w - RuneCount s) ++ s.
Definition PadRight (w : nat) (s : string) : string := s ++ Repeat " " (w - RuneCount s).

Definition utf8 (l : list nat) : string :=
  String.string_of_list_ascii (map ascii_of_nat l).

(** U+0009-U+000D, U+0020, U+0085, U+00A0, U+1680, U+2000-U+200A, U+2028,
    U+2029, U+202F, U+205F, U+3000 *)
Definition spaces : list string :=
  map utf8 ([[9]; [10]; [11]; [12]; [13]; [32]; [194; 133]; [194; 160]; [225; 154; 128]]
    ++ map (λ b, [226; 128; b]) (seq 128 11 ++ [168; 169; 175])
    ++ [[226; 129; 159]; [227; 128; 128]])%nat%list.

(** Removes leading pieces of [ws] as long as there are any; a string has at
    most as many of them as bytes. *)
Fixpoint trim_left (ws : list string) (fuel : nat) (s : string) : string :=
  match fuel with
  | O => s
  | S fuel =>
      match filter (λ w, HasPrefix s w) ws with
      | w :: _ => trim_left ws fuel
                    (String.substring (String.length w) (String.length s - String.length w) s)
      | [] => s
      end
  end.

Definition TrimSpace (s : string) : string :=
  let s := trim_left spaces (String.length s) s in
  String.rev (trim_left (map String.rev spaces) (String.length s) (String.rev s)).

Example Split_ex : Split "clean, wifi,," "," = ["clean"; " wifi"; ""; ""].
Proof. reflexivity. Qed.
Example Split_pay_ex : Split "bench_x_pay100" "_pay" = ["bench_x"; "100"].
Proof. reflexivity. Qed.
Example TrimSpace_ex : TrimSpace (utf8 [9; 32; 108; 116; 101; 194; 160; 10])%nat = "lte".
Proof. vm_compute. reflexivity. Qed.

(** ** Facts *)

Lemma prefix_app (p s : string) : String.prefix p s = true ↔ ∃ t, s = p ++ t.
Proof.
  revert s. induction p as [|c p IH]; intros s; [split; [by exists s|by destruct s]|].
  destruct s as [|d s]; simpl; [split; [done|by intros [? [=]]]|].
  destruct (ascii_dec c d) as [->|H].
  - rewrite IH. split; intros [t Ht]; exists t; [by rewrite Ht|by injection Ht].
  - split; [done|]. intros [t [=]]. congruence.
Qed.

(** [Contains] finds exactly the infixes. *)
Lemma Contains_infix (s sub : string) : Contains s sub = true ↔ ∃ a b, s = a ++ sub ++ b.
Proof.
  induction s as [|c s IH]; cbn [Contains]; rewrite orb_true_iff, prefix_app.
  - split.
    + intros [[t Ht]|?]; [|done]. by exists "", t.
    + intros (a & b & H). left. destruct a; [|done]. by exists b.
  - rewrite IH. split.
    + intros [[t Ht]|(a & b & ->)]; [by exists "", t|by exists (String c a), b].
    + intros (a & b & H). destruct a as [|d a]; [left; by exists b|].
      right. injection H as -> ->. by exists a, b.
Qed.

Lemma string_app_assoc (a b c : string) : (a ++ b) ++ c = a ++ b ++ c.
Proof. induction a as [|x a IH]; [done|]. exact (f_equal (String x) IH). Qed.
Lemma string_app_nil (a : string) : a ++ "" = a.
Proof. induction a as [|x a IH]; [done|]. exact (f_equal (String x) IH). Qed.
Lemma string_length_app (a b : string) :
  String.length (a ++ b) = (String.length a + String.length b)%nat.
Proof. induction a as [|x a IH]; [done|]. exact (f_equal S IH). Qed.

Lemma split_from_nonempty sep skip acc s : split_from sep skip acc s ≠ [].
Proof. revert skip acc. induction s; intros; simpl; repeat case_match; done. Qed.

Lemma split_from_skip sep p acc s :
  split_from sep (String.length p) acc (p ++ s) = split_from sep 0 acc s.
Proof. induction p; done. Qed.

Lemma Join_cons x l sep : l ≠ [] → Join (x :: l) sep = x ++ sep ++ Join l sep.
Proof. by destruct l. Qed.

(** Joining the pieces with the separator gives the string back. *)
Lemma Join_split_from sep acc s :
  sep ≠ "" → Join (split_from sep 0 acc s) sep = acc ++ s.
Proof.
  intros Hsep. remember (String.length s) as n eqn:Hn. assert (String.length s ≤ n)%nat as Hle by lia.
  clear Hn. revert s acc Hle. induction n as [|n IH]; intros s acc Hle.
  { destruct s; [simpl; by rewrite string_app_nil|simpl in Hle; lia]. }
  destruct s as [|c s]; [simpl; by rewrite string_app_nil|].
  cbn [split_from]. destruct (String.prefix sep (String c s)) eqn:E.
  - apply prefix_app in E as [t Ht]. destruct sep as [|d sep]; [done|].
    injection Ht as -> ->. replace (String.length (String d sep) - 1)%nat with (String.length sep) by (simpl; lia).
    fold (sep ++ t). rewrite split_from_skip.
    rewrite Join_cons, IH by (try apply split_from_nonempty; simpl in Hle;
      rewrite string_length_app in Hle; lia). done.
  - rewrite IH by (simpl in Hle; lia). by rewrite string_app_assoc.
Qed.

Lemma Join_Split s sep : sep ≠ "" → Join (Split s sep) sep = s.
Proof. apply Join_split_from. Qed.

Lemma Split_nonempty s sep : Split s sep ≠ [].
Proof. apply split_from_nonempty. Qed.

End strings.
