(* ===== verification/GoTime.v ===== *)
(** * Durations of Go's package [time]

    [time.Duration] values are nanoseconds.  [ParseDuration] follows the
    algorithm of the package: a sign, then numbers with an optional fraction,
    each followed by a unit; the fraction is scaled in [float64].  [String] is
    the shortest exact form, which [ParseDuration] reads back. *)

From Stdlib Require Import Ascii.
From stdpp Require Import pretty.
From S2P Require Import Prelude.
From S2P Require Import Float64.
From S2P Require Import GoStrings.

#[local] Open Scope string_scope.
#[local] Open Scope Z_scope.

Module time.
Definition Nanosecond : Z := 1.
Definition Microsecond : Z := 1000 * Nanosecond.
Definition Millisecond : Z := 1000 * Microsecond.
Definition Second : Z := 1000 * Millisecond.
Definition Minute : Z := 60 * Second.
Definition Hour : Z := 60 * Minute.
End time.

(** ** Parsing *)

Definition digit (c : ascii) : option Z :=
  let n := Z.of_nat (nat_of_ascii c) in
  if (48 <=? n) && (n <=? 57) then Some (n - 48) else None.

(** [leadingInt]: the value of the leading digits and the rest; [None] on
    overflow. *)
Fixpoint leadingInt (x : Z) (s : string) : option (Z * string) :=
  match s with
  | EmptyString => Some (x, s)
  | String c rest =>
      match digit c with
      | None => Some (x, s)
      | Some d =>
          if 2 ^ 63 / 10 <? x then None
          else let x := x * 10 + d in
               if 2 ^ 63 <? x then None else leadingInt x rest
      end
  end.

(** [leadingFraction]: digits that would overflow are read and dropped. *)
Fixpoint leadingFraction (x : Z) (scale : float64) (overflow : bool) (s : string) :
    Z * float64 * string :=
  match s with
  | EmptyString => (x, scale, s)
  | String c rest =>
      match digit c with
      | None => (x, scale, s)
      | Some d =>
          if overflow then leadingFraction x scale true rest
          else if (2 ^ 63 - 1) / 10 <? x then leadingFraction x scale true rest
          else let y := x * 10 + d in
               if 2 ^ 63 <? y then leadingFraction x scale true rest
               else leadingFraction y (scale * 10)%F false rest
      end
  end.

(** The unit is the text up to the next digit or point. *)
Fixpoint split_unit (s : string) : string * string :=
  match s with
  | EmptyString => ("", "")
  | String c rest =>
      if bool_decide (c = ascii_of_nat 46) then ("", s)
      else match digit c with
           | Some _ => ("", s)
           | None => let '(u, r) := split_unit rest in (String c u, r)
           end
  end.

Definition unitMap (u : string) : option Z :=
  if bool_decide (u = "ns") then Some time.Nanosecond
  else if bool_decide (u = "us") then Some time.Microsecond
  else if bool_decide (u = "µs") then Some time.Microsecond
  else if bool_decide (u = "μs") then Some time.Microsecond
  else if bool_decide (u = "ms") then Some time.Millisecond
  else if bool_decide (u = "s") then Some time.Second
  else if bool_decide (u = "m") then Some time.Minute
  else if bool_decide (u = "h") then Some time.Hour
  else None.

(** One number with its unit, in nanoseconds, and the rest of the input. *)
Definition parse_term (s : string) : option (Z * string) :=
  match s with
  | EmptyString => None
  | String c _ =>
      if bool_decide (c = ascii_of_nat 46) || bool_decide (is_Some (digit c)) then
        '(v, s1) ← leadingInt 0 s;
        let pre := negb (Nat.eqb (String.length s) (String.length s1)) in
        let '(f, scale, s2, post) :=
          match s1 with
          | String c1 r =>
              if bool_decide (c1 = ascii_of_nat 46) then
                let '(f, scale, r') := leadingFraction 0 1%Q false r in
                (f, scale, r', negb (Nat.eqb (String.length r) (String.length r')))
              else (0, 1%Q, s1, false)
          | EmptyString => (0, 1%Q, s1, false)
          end in
        if negb pre && negb post then None
        else
          let '(u, s3) := split_unit s2 in
          if bool_decide (u = "") then None
          else
            unit ← unitMap u;
            if 2 ^ 63 / unit <? v then None
            else
              let v := v * unit in
              let v := if 0 <? f then v + to_int (of_int f * (of_int unit / scale))%F else v in
              if 2 ^ 63 <? v then None else Some (v, s3)
      else None
  end.

(** [for s != ""]; each round consumes at least a digit and a unit. *)
Fixpoint parse_terms (fuel : nat) (d : Z) (s : string) : option Z :=
  match s, fuel with
  | EmptyString, _ => Some d
  | _, O => None
  | _, S fuel =>
      '(v, s) ← parse_term s;
      if 2 ^ 63 <? d + v then None else parse_terms fuel (d + v) s
  end.

Definition sign (s : string) : bool * string :=
  match s with
  | String c r =>
      if bool_decide (c = ascii_of_nat 45) then (true, r)
      else if bool_decide (c = ascii_of_nat 43) then (false, r) else (false, s)
  | EmptyString => (false, s)
  end.

Definition ParseDuration (s : string) : option Z :=
  let '(neg, s) := sign s in
  if bool_decide (s = "0") then Some 0
  else if bool_decide (s = "") then None
  else
    d ← parse_terms (String.length s) 0 s;
    if neg then Some (- d)
    else if 2 ^ 63 - 1 <? d then None else Some d.

Example ParseDuration_ex :
  (ParseDuration "500ms", ParseDuration "1.5s", ParseDuration "-1h2m3.25s", ParseDuration "0",
   ParseDuration "3", ParseDuration "", ParseDuration ".s", ParseDuration "1.234567891s")
  = (Some 500000000, Some 1500000000, Some (- 3723250000000), Some 0, None, None, None,
     Some 1234567891).
Proof. vm_compute. reflexivity. Qed.

(** ** Printing *)

Definition chr (d : Z) : ascii := ascii_of_nat (Z.to_nat (48 + d)).

(** [fmtInt]: the digits are put in front of [tail], the last one first.  A
    64-bit number has at most 20. *)
Fixpoint fmt_loop (n : nat) (v : Z) (tail : string) : string :=
  match n with
  | O => tail
  | S n => if v =? 0 then tail else fmt_loop n (v / 10) (String (chr (v mod 10)) tail)
  end.
Definition fmtInt (v : Z) (tail : string) : string :=
  if v =? 0 then String (chr 0) tail else fmt_loop 20 v tail.

(** [fmtFrac]: the fraction of [v / 10 ^ prec] without trailing zeros, and the
    integer part. *)
Fixpoint fmtFrac (prec : nat) (v : Z) (print : bool) (tail : string) : string * Z :=
  match prec with
  | O => (if print then String (ascii_of_nat 46) tail else tail, v)
  | S prec =>
      let digit := v mod 10 in
      let print := print || negb (digit =? 0) in
      fmtFrac prec (v / 10) print (if print then String (chr digit) tail else tail)
  end.

Definition duration_abs (u : Z) : string :=
  if u <? time.Second then
    if u =? 0 then "0s"
    else
      let '(prec, unit) :=
        if u <? time.Microsecond then (0%nat, "ns")
        else if u <? time.Millisecond then (3%nat, "µs") else (6%nat, "ms") in
      let '(tail, v) := fmtFrac prec u false unit in
      fmtInt v tail
  else
    let '(tail, u) := fmtFrac 9 u false "s" in
    let tail := fmtInt (u mod 60) tail in
    let u := u / 60 in
    if 0 <? u then
      let tail := fmtInt (u mod 60) (String (ascii_of_nat 109) tail) in
      let u := u / 60 in
      if 0 <? u then fmtInt u (String (ascii_of_nat 104) tail) else tail
    else tail.

(** [Duration.String] *)
Definition duration_String (d : Z) : string :=
  if d <? 0 then String (ascii_of_nat 45) (duration_abs (- d)) else duration_abs d.

Example duration_String_ex :
  map duration_String [0; 1; 1500; 30000000; 1500000000; 3661000000001; - 2 ^ 63] =
  ["0s"; "1ns"; "1.5µs"; "30ms"; "1.5s"; "1h1m1.000000001s"; "-2562047h47m16.854775808s"].
Proof. vm_compute. reflexivity. Qed.
