(* ===== verification/GoTimeFacts.v ===== *)
(** * Durations survive printing and parsing

    [ParseDuration] reads back what [String] prints, for every [int64]: the
    integer parts digit by digit, the fraction through its [float64] scaling,
    which is exact for the at most nine digits that [String] prints. *)

From Stdlib Require Import Ascii Lqa.
From S2P Require Import Prelude.
From S2P Require Import Float64.
From S2P Require Import GoStrings.
From S2P Require Import GoTime.

#[local] Open Scope string_scope.
#[local] Open Scope Z_scope.

(** ** Digits *)

Lemma digit_chr d : 0 ≤ d < 10 → digit (chr d) = Some d.
Proof.
  intros H. assert (d = 0 ∨ d = 1 ∨ d = 2 ∨ d = 3 ∨ d = 4 ∨ d = 5 ∨ d = 6 ∨ d = 7 ∨ d = 8 ∨ d = 9)
    as Hd by lia.
  by destruct Hd as [->|[->|[->|[->|[->|[->|[->|[->|[->| ->]]]]]]]]].
Qed.

Lemma digit_mod v : digit (chr (v mod 10)) = Some (v mod 10).
Proof. apply digit_chr. apply Z.mod_pos_bound. lia. Qed.

(** A string that does not continue a number. *)
Definition no_digit (s : string) : Prop :=
  match s with EmptyString => True | String c _ => digit c = None end.

Lemma leadingInt_stop x s : no_digit s → leadingInt x s = Some (x, s).
Proof. destruct s as [|c s]; simpl; [done|]. by intros ->. Qed.

Lemma leadingInt_digit x v s :
  0 ≤ v ≤ 2 ^ 63 → x = v / 10 → leadingInt x (String (chr (v mod 10)) s) = leadingInt v s.
Proof.
  intros Hv ->. simpl. rewrite digit_mod.
  pose proof (Z.div_mod v 10 ltac:(lia)). pose proof (Z.mod_pos_bound v 10 ltac:(lia)).
  rewrite (proj2 (Z.ltb_ge _ _)) by (change (2 ^ 63 / 10) with 922337203685477580; lia).
  replace (v / 10 * 10 + v mod 10) with v by lia.
  by rewrite (proj2 (Z.ltb_ge _ _)) by lia.
Qed.

Lemma leadingInt_loop n v tail :
  0 ≤ v ≤ 2 ^ 63 → v < 10 ^ Z.of_nat n → leadingInt 0 (fmt_loop n v tail) = leadingInt v tail.
Proof.
  revert v tail. induction n as [|n IH]; intros v tail Hv Hn; simpl.
  { by replace v with 0 by lia. }
  destruct (v =? 0) eqn:E; z_bools; [by subst|].
  rewrite IH.
  - by apply leadingInt_digit.
  - split; [apply Z.div_pos; lia|]. etrans; [apply Z.div_le_upper_bound; [lia|]|done]. lia.
  - apply Z.div_lt_upper_bound; [lia|].
    replace (10 * 10 ^ Z.of_nat n) with (10 ^ Z.of_nat (S n)); [done|].
    rewrite Nat2Z.inj_succ, Z.pow_succ_r; lia.
Qed.

Lemma leadingInt_fmtInt v tail :
  0 ≤ v ≤ 2 ^ 63 → no_digit tail → leadingInt 0 (fmtInt v tail) = Some (v, tail).
Proof.
  intros Hv Ht. unfold fmtInt. destruct (v =? 0) eqn:E; z_bools.
  - subst. by destruct tail as [|c s]; simpl in *; [|rewrite Ht].
  - rewrite leadingInt_loop; [by apply leadingInt_stop|done|]. simpl. lia.
Qed.

(** What [fmtInt] puts in front of [tail] is not empty and begins with a digit. *)
Lemma fmt_loop_digit n v tail :
  0 < v → v < 10 ^ Z.of_nat n →
  ∃ d s, fmt_loop n v tail = String (chr d) s ∧ 0 ≤ d < 10 ∧
    (String.length tail < String.length (fmt_loop n v tail))%nat.
Proof.
  revert v tail. induction n as [|n IH]; intros v tail Hv Hn; simpl in *; [lia|].
  rewrite (proj2 (Z.eqb_neq _ _)) by lia.
  destruct (decide (v / 10 = 0)) as [E|E].
  - rewrite E. assert (fmt_loop n 0 (String (chr (v mod 10)) tail) = String (chr (v mod 10)) tail)
      as -> by by destruct n. exists (v mod 10), tail. split; [done|].
    split; [apply Z.mod_pos_bound; lia|simpl; lia].
  - destruct (IH (v / 10) (String (chr (v mod 10)) tail)) as (d & s & H1 & H2 & H3).
    + pose proof (Z.div_pos v 10). lia.
    + apply Z.div_lt_upper_bound; [lia|].
      replace (10 * 10 ^ Z.of_nat n) with (10 ^ Z.of_nat (S n)); [done|].
      rewrite Nat2Z.inj_succ, Z.pow_succ_r; lia.
    + exists d, s. split; [done|]. split; [done|]. simpl in H3. lia.
Qed.

Lemma fmtInt_digit v tail :
  0 ≤ v ≤ 2 ^ 63 → ∃ d s, fmtInt v tail = String (chr d) s ∧ 0 ≤ d < 10 ∧
    (String.length tail < String.length (fmtInt v tail))%nat.
Proof.
  intros Hv. unfold fmtInt. destruct (v =? 0) eqn:E; z_bools.
  - exists 0, tail. simpl. split; [done|]. lia.
  - apply fmt_loop_digit; simpl; lia.
Qed.

(** ** Fractions *)

(** [p] digits of [v] in front of [tail]. *)
Fixpoint digs (p : nat) (v : Z) (tail : string) : string :=
  match p with O => tail | S p => digs p (v / 10) (String (chr (v mod 10)) tail) end.

Fixpoint pow10f (n : nat) : float64 :=
  match n with O => 1%Q | S n => (pow10f n * 10)%F end.

Lemma fmtFrac_print p v tail :
  0 ≤ v → fmtFrac p v true tail = (String (ascii_of_nat 46) (digs p v tail), v / 10 ^ Z.of_nat p).
Proof.
  revert v tail. induction p as [|p IH]; intros v tail Hv; simpl; [by rewrite Z.div_1_r|].
  rewrite IH by (apply Z.div_pos; lia). rewrite Z.div_div by lia. do 2 f_equal.
  rewrite <- Z.pow_succ_r by lia. f_equal. lia.
Qed.

(** Trailing zeros are dropped. *)
Lemma fmtFrac_spec p v tail :
  0 ≤ v →
  (v mod 10 ^ Z.of_nat p = 0 ∧ fmtFrac p v false tail = (tail, v / 10 ^ Z.of_nat p)) ∨
  (∃ z k, p = (z + S k)%nat ∧ v mod 10 ^ Z.of_nat z = 0 ∧
     0 < v mod 10 ^ Z.of_nat p ∧
     fmtFrac p v false tail =
       (String (ascii_of_nat 46) (digs (S k) (v / 10 ^ Z.of_nat z) tail), v / 10 ^ Z.of_nat p)).
Proof.
  revert v. induction p as [|p IH]; intros v Hv.
  { left. simpl. by rewrite Z.mod_1_r, Z.div_1_r. }
  assert (10 ^ Z.of_nat (S p) = 10 * 10 ^ Z.of_nat p) as Hpow
    by (rewrite Nat2Z.inj_succ, Z.pow_succ_r; lia).
  assert (0 < 10 ^ Z.of_nat p) by (apply Z.pow_pos_nonneg; lia).
  assert (0 ≤ v / 10) as Hv' by (apply Z.div_pos; lia).
  pose proof (Z.div_mod v 10 ltac:(lia)) as Hdm. pose proof (Z.mod_pos_bound v 10 ltac:(lia)).
  assert (v mod 10 ^ Z.of_nat (S p) = 10 * ((v / 10) mod 10 ^ Z.of_nat p) + v mod 10) as Hmod.
  { rewrite Hpow. rewrite Z.rem_mul_r by lia. lia. }
  pose proof (Z.mod_pos_bound (v / 10) (10 ^ Z.of_nat p) ltac:(lia)).
  cbn [fmtFrac]. destruct (v mod 10 =? 0) eqn:E; z_bools; simpl.
  - destruct (IH (v / 10) Hv') as [[Hm ->]|(z & k & -> & Hz & Hpos & ->)].
    + left. split; [lia|]. by rewrite Hpow, <- Z.div_div by lia.
    + right. exists (S z), k. split; [lia|]. split_and!.
      * rewrite Nat2Z.inj_succ, Z.pow_succ_r by lia.
        assert (0 < 10 ^ Z.of_nat z) by (apply Z.pow_pos_nonneg; lia).
        rewrite Z.rem_mul_r by lia. lia.
      * lia.
      * assert (0 < 10 ^ Z.of_nat z) by (apply Z.pow_pos_nonneg; lia).
        replace (v / 10 ^ Z.of_nat (S z)) with (v / 10 / 10 ^ Z.of_nat z)
          by (rewrite Nat2Z.inj_succ, Z.pow_succ_r, Z.div_div by lia; done).
        by rewrite Hpow, <- Z.div_div by lia.
  - right. exists 0%nat, p. split; [done|]. split_and!.
    + simpl. by rewrite Z.mod_1_r.
    + lia.
    + rewrite fmtFrac_print by done. rewrite Hpow, Z.div_div by lia. simpl. by rewrite Z.div_1_r.
Qed.

Lemma leadingFraction_stop x scale o s :
  no_digit s → leadingFraction x scale o s = (x, scale, s).
Proof. destruct s as [|c s]; simpl; [done|]. by intros ->. Qed.

Lemma leadingFraction_digs p v tail :
  0 ≤ v → (p ≤ 18)%nat →
  leadingFraction 0 1 false (digs p v tail) =
  leadingFraction (v mod 10 ^ Z.of_nat p) (pow10f p) false tail.
Proof.
  revert v tail. induction p as [|p IH]; intros v tail Hv Hp; [simpl; by rewrite Z.mod_1_r|].
  assert (10 ^ Z.of_nat (S p) = 10 * 10 ^ Z.of_nat p) as Hpow
    by (rewrite Nat2Z.inj_succ, Z.pow_succ_r; lia).
  assert (0 < 10 ^ Z.of_nat p) by (apply Z.pow_pos_nonneg; lia).
  assert (10 ^ Z.of_nat p ≤ 10 ^ 17) by (apply Z.pow_le_mono_r; lia).
  pose proof (Z.mod_pos_bound v 10 ltac:(lia)).
  pose proof (Z.mod_pos_bound (v / 10) (10 ^ Z.of_nat p) ltac:(lia)).
  cbn [digs]. rewrite IH by (try (apply Z.div_pos; lia); lia).
  cbn [leadingFraction]. rewrite digit_mod.
  rewrite (proj2 (Z.ltb_ge _ _)) by (change ((2 ^ 63 - 1) / 10) with 922337203685477580; lia).
  rewrite (proj2 (Z.ltb_ge _ _)) by lia. f_equal.
  rewrite Hpow, Z.rem_mul_r by lia. lia.
Qed.

(** The scaling of a fraction of at most nine digits is exact. *)
Lemma scale_exact z k f :
  (z + k ≤ 9)%nat → 0 ≤ f < 10 ^ Z.of_nat k →
  to_int (of_int f * (of_int (10 ^ Z.of_nat (z + k)) / pow10f k))%F = f * 10 ^ Z.of_nat z.
Proof.
  intros Hzk Hf.
  assert ((of_int (10 ^ Z.of_nat (z + k)) / pow10f k)%F = inject_Z (10 ^ Z.of_nat z)) as ->.
  { assert (forallb (λ z, forallb (λ k, bool_decide ((of_int (10 ^ Z.of_nat (z + k)) / pow10f k)%F =
      inject_Z (10 ^ Z.of_nat z))) (seq 0 10)) (seq 0 10) = true) as H by (vm_compute; reflexivity).
    rewrite forallb_forall in H. specialize (H z ltac:(apply in_seq; lia)).
    rewrite forallb_forall in H. specialize (H k ltac:(apply in_seq; lia)).
    by apply bool_decide_eq_true in H. }
  assert (10 ^ Z.of_nat k * 10 ^ Z.of_nat z ≤ 10 ^ 9).
  { rewrite <- Z.pow_add_r by lia. apply Z.pow_le_mono_r; lia. }
  assert (0 < 10 ^ Z.of_nat z) by (apply Z.pow_pos_nonneg; lia).
  assert (0 ≤ f * 10 ^ Z.of_nat z ≤ 10 ^ 9) by nia.
  assert ((of_int f * inject_Z (10 ^ Z.of_nat z))%F == inject_Z (f * 10 ^ Z.of_nat z))%Q as E.
  { unfold fmul. rewrite (of_int_exact f) by nia. rewrite <- inject_Z_mult.
    apply of_int_exact. lia. }
  apply Z.le_antisymm.
  - apply (to_int_bounds _ 0); [done|]. rewrite E. change 0%Q with (inject_Z 0).
    rewrite <- !Zle_Qle. lia.
  - apply (to_int_bounds _ _ (f * 10 ^ Z.of_nat z)); [lia|]. rewrite E.
    split; apply Qle_refl.
Qed.

(** ** Terms *)

(** Text that can be a unit, and text that can follow one. *)
Fixpoint unit_chars (u : string) : Prop :=
  match u with
  | EmptyString => True
  | String c u => c ≠ ascii_of_nat 46 ∧ digit c = None ∧ unit_chars u
  end.
Definition starts_digit (s : string) : Prop :=
  match s with EmptyString => True | String c _ => is_Some (digit c) end.

Lemma split_unit_app u r : unit_chars u → starts_digit r → split_unit (u ++ r) = (u, r).
Proof.
  intros Hu Hr. induction u as [|c u IH].
  - destruct r as [|c r]; [done|]. destruct Hr as [d Hd]. change ("" ++ String c r) with (String c r).
    simpl. rewrite Hd. by destruct (bool_decide _).
  - destruct Hu as (Hc & Hd & Hu). change (String c u ++ r) with (String c (u ++ r)). simpl.
    rewrite bool_decide_eq_false_2, Hd by done. by rewrite IH.
Qed.

Lemma unit_no_digit u r : u ≠ "" → unit_chars u → no_digit (u ++ r).
Proof. destruct u as [|c u]; [done|]. by intros _ (_ & ? & _). Qed.

(** The value of a term: the integer part and the fraction, in the unit [U]. *)
Definition term_value (n U f : Z) (scale : float64) : Z :=
  if 0 <? f then n * U + to_int (of_int f * (of_int U / scale))%F else n * U.

(** A printed number followed by its unit. *)
Lemma parse_term_fmt n U u r tail f scale :
  0 ≤ n ≤ 2 ^ 63 → 0 < U → n ≤ 2 ^ 63 / U → term_value n U f scale ≤ 2 ^ 63 →
  u ≠ "" → unit_chars u → unitMap u = Some U → starts_digit r →
  (tail = u ++ r ∧ f = 0 ∧ scale = 1%Q) ∨
  (∃ t, tail = String (ascii_of_nat 46) t ∧ leadingFraction 0 1 false t = (f, scale, u ++ r)) →
  parse_term (fmtInt n tail) = Some (term_value n U f scale, r).
Proof.
  intros Hn HU Hov Hv Hu Huc Hmap Hr Htail.
  destruct (fmtInt_digit n tail Hn) as (d & s & Hs & Hd & Hlen).
  assert (no_digit tail) as Hnd.
  { destruct Htail as [(-> & _)|(t & -> & _)]; [by apply unit_no_digit|done]. }
  pose proof (leadingInt_fmtInt n tail Hn Hnd) as HL.
  unfold parse_term. rewrite Hs in *.
  rewrite digit_chr by done. rewrite (bool_decide_eq_true_2 (is_Some _)) by by eexists.
  rewrite orb_true_r. rewrite HL. cbn [mbind option_bind].
  replace (negb (Nat.eqb (String.length (String (chr d) s)) (String.length tail))) with true.
  2: { symmetry. apply negb_true_iff, Nat.eqb_neq. lia. }
  cbn [negb andb]. unfold term_value in *.
  assert (∀ post, (let '(f', scale', s2, post) := (f, scale, u ++ r, post : bool) in
    let '(u, s3) := split_unit s2 in
    if bool_decide (u = "") then None
    else unit ← unitMap u;
      if 2 ^ 63 / unit <? n then None
      else let v := n * unit in
        let v := if 0 <? f' then v + to_int (of_int f' * (of_int unit / scale'))%F else v in
        if 2 ^ 63 <? v then None else Some (v, s3)) =
    Some (if 0 <? f then n * U + to_int (of_int f * (of_int U / scale))%F else n * U, r)) as Hend.
  { intros post. rewrite split_unit_app by done. rewrite bool_decide_eq_false_2 by done.
    rewrite Hmap. cbn [mbind option_bind].
    rewrite (proj2 (Z.ltb_ge _ _)) by done. by rewrite (proj2 (Z.ltb_ge _ _)). }
  destruct Htail as [(-> & -> & ->)|(t & -> & Hf)].
  - rewrite <- (Hend false). destruct u as [|c u]; [done|].
    destruct Huc as (Hc & _). change (String c u ++ r) with (String c (u ++ r)). cbv beta iota.
    by rewrite (bool_decide_eq_false_2 (c = _)).
  - cbv beta iota. rewrite (bool_decide_eq_true_2 (ascii_of_nat 46 = _)) by done. rewrite Hf.
    exact (Hend true).
Qed.

(** A printed number with the fraction that [fmtFrac] prints for [u]. *)
Lemma frac_term p n u unit r :
  (p ≤ 9)%nat → 0 ≤ u → 0 ≤ n → n * 10 ^ Z.of_nat p + u mod 10 ^ Z.of_nat p ≤ 2 ^ 63 →
  unit ≠ "" → unit_chars unit → unitMap unit = Some (10 ^ Z.of_nat p) → starts_digit r →
  parse_term (fmtInt n (fmtFrac p u false (unit ++ r)).1) =
    Some (n * 10 ^ Z.of_nat p + u mod 10 ^ Z.of_nat p, r).
Proof.
  intros Hp Hu Hn Hle Hne Huc Hmap Hr.
  set (P := 10 ^ Z.of_nat p) in *. assert (0 < P) as HP by (apply Z.pow_pos_nonneg; lia).
  pose proof (Z.mod_pos_bound u P HP) as Hm.
  assert (n ≤ 2 ^ 63 / P) as Hdiv by (apply Z.div_le_lower_bound; lia).
  assert (0 ≤ n ≤ 2 ^ 63) as Hn' by nia.
  destruct (fmtFrac_spec p u (unit ++ r) Hu) as [[Hz ->]|(z & k & Hpzk & Hz & Hpos & ->)]; cbn [fst].
  - fold P in Hz. rewrite Hz, Z.add_0_r in *.
    apply (parse_term_fmt n P unit r _ 0 1%Q); try done. by left.
  - fold P in Hpos. set (f := (u / 10 ^ Z.of_nat z) mod 10 ^ Z.of_nat (S k)).
    assert (0 < 10 ^ Z.of_nat z) by (apply Z.pow_pos_nonneg; lia).
    assert (0 < 10 ^ Z.of_nat (S k)) by (apply Z.pow_pos_nonneg; lia).
    assert (P = 10 ^ Z.of_nat z * 10 ^ Z.of_nat (S k)) as EP.
    { unfold P. rewrite <- Z.pow_add_r by lia. f_equal. lia. }
    assert (u mod P = f * 10 ^ Z.of_nat z) as Hf.
    { rewrite EP, Z.rem_mul_r, Hz by lia. unfold f. lia. }
    assert (0 ≤ f < 10 ^ Z.of_nat (S k)) as Hfb by (apply Z.mod_pos_bound; lia).
    assert (term_value n P f (pow10f (S k)) = n * P + u mod P) as Ht.
    { unfold term_value. rewrite (proj2 (Z.ltb_lt 0 f)) by nia.
      assert (of_int P = of_int (10 ^ Z.of_nat (z + S k))) as -> by (unfold P; do 3 f_equal; lia).
      rewrite (scale_exact z (S k) f) by (try done; lia). by rewrite Hf. }
    rewrite <- Ht. apply (parse_term_fmt n P unit r); try done; [by rewrite Ht|].
    right. eexists. split; [done|].
    rewrite leadingFraction_digs by (try (apply Z.div_pos; lia); lia). fold f.
    apply leadingFraction_stop. by apply unit_no_digit.
Qed.

(** A printed number with a unit and no fraction. *)
Lemma int_term n U unit r :
  0 ≤ n → 0 < U → n * U ≤ 2 ^ 63 →
  unit ≠ "" → unit_chars unit → unitMap unit = Some U → starts_digit r →
  parse_term (fmtInt n (unit ++ r)) = Some (n * U, r).
Proof.
  intros Hn HU Hle Hne Huc Hmap Hr. apply (parse_term_fmt n U unit r _ 0 1%Q); try done.
  - nia.
  - apply Z.div_le_lower_bound; lia.
  - by left.
Qed.

(** ** Durations *)

Lemma parse_terms_step fuel d s v s' :
  parse_term s = Some (v, s') → d + v ≤ 2 ^ 63 →
  parse_terms (S fuel) d s = parse_terms fuel (d + v) s'.
Proof.
  intros H Hle. destruct s as [|c s]; [done|].
  cbn [parse_terms]. rewrite H. cbn [mbind option_bind]. by rewrite (proj2 (Z.ltb_ge _ _)).
Qed.

Lemma parse_terms_nil fuel d : parse_terms fuel d "" = Some d.
Proof. by destruct fuel. Qed.

Lemma fmtInt_starts n tail : 0 ≤ n ≤ 2 ^ 63 → starts_digit (fmtInt n tail).
Proof.
  intros (d & s & -> & Hd & _)%(λ H, fmtInt_digit n tail H). simpl. rewrite digit_chr by done. by eexists.
Qed.

Lemma length_fmtInt n tail :
  0 ≤ n ≤ 2 ^ 63 → (S (String.length tail) ≤ String.length (fmtInt n tail))%nat.
Proof. intros (d & s & _ & _ & H)%(λ H, fmtInt_digit n tail H). lia. Qed.

Lemma fuel_ge n k : (k ≤ n)%nat → ∃ m, n = (k + m)%nat.
Proof. exists (n - k)%nat. lia. Qed.

Ltac unit_goal := vm_compute; repeat split; congruence.

(** Below a second: one term. *)
Lemma parse_small fuel u :
  0 < u < time.Second → (1 ≤ fuel)%nat → parse_terms fuel 0 (duration_abs u) = Some u.
Proof.
  intros Hu (m & ->)%fuel_ge. change (time.Second) with 1000000000 in *.
  assert (∀ p unit, (p ≤ 9)%nat → unit ≠ "" → unit_chars unit → unitMap unit = Some (10 ^ Z.of_nat p) →
    parse_terms (1 + m) 0 (let '(tail, v) := fmtFrac p u false unit in fmtInt v tail) = Some u) as Hterm.
  { intros p unit Hp Hne Huc Hmap. assert (0 < 10 ^ Z.of_nat p) by (apply Z.pow_pos_nonneg; lia).
    pose proof (Z.div_mod u (10 ^ Z.of_nat p) ltac:(lia)) as Hdm.
    assert (0 ≤ u / 10 ^ Z.of_nat p) by (apply Z.div_pos; lia).
    pose proof (frac_term p (u / 10 ^ Z.of_nat p) u unit "" Hp ltac:(lia) ltac:(done) ltac:(lia)
      Hne Huc Hmap I) as HT. rewrite strings.string_app_nil in HT.
    assert (fmtFrac p u false unit = ((fmtFrac p u false unit).1, u / 10 ^ Z.of_nat p)) as ->.
    { destruct (fmtFrac_spec p u unit ltac:(lia)) as [[_ ->]|(z & k & _ & _ & _ & ->)]; done. }
    cbn [fst].
    change (1 + m)%nat with (S m). rewrite (parse_terms_step m 0 _ _ _ HT) by lia.
    rewrite parse_terms_nil. f_equal. lia. }
  unfold duration_abs. change time.Second with 1000000000. change time.Microsecond with 1000.
  change time.Millisecond with 1000000.
  rewrite (proj2 (Z.ltb_lt _ _)), (proj2 (Z.eqb_neq _ _)) by lia.
  destruct (u <? 1000); [|destruct (u <? 1000000)]; apply Hterm; try lia; unit_goal.
Qed.

(** From a second on: hours and minutes when there are any, and seconds. *)
Section clock.
Context (u s : Z) (Hu : 0 ≤ u) (Hs : 0 ≤ s < 60).

Let sec_text := fmtInt s (fmtFrac 9 u false "s").1.
Let min_text m := fmtInt m (String (ascii_of_nat 109) sec_text).
Let hour_text h m := fmtInt h (String (ascii_of_nat 104) (min_text m)).

Lemma parse_seconds fuel d :
  0 ≤ d → d + s * 1000000000 + u mod 1000000000 ≤ 2 ^ 63 → (1 ≤ fuel)%nat →
  parse_terms fuel d sec_text = Some (d + s * 1000000000 + u mod 1000000000).
Proof.
  intros Hd Hle (k & ->)%fuel_ge. change (1 + k)%nat with (S k).
  pose proof (Z.mod_pos_bound u 1000000000 ltac:(lia)).
  assert (parse_term sec_text = Some (s * 1000000000 + u mod 1000000000, "")) as Ht.
  { apply (frac_term 9 s u "s" ""); [lia|lia|lia|change (10 ^ Z.of_nat 9) with 1000000000; lia
      |done|unit_goal|done|done]. }
  rewrite (parse_terms_step _ _ _ _ _ Ht), parse_terms_nil by lia. f_equal. lia.
Qed.

Lemma parse_minutes fuel d m :
  0 ≤ d → 0 ≤ m < 60 → d + m * 60000000000 + s * 1000000000 + u mod 1000000000 ≤ 2 ^ 63 →
  (2 ≤ fuel)%nat →
  parse_terms fuel d (min_text m) =
    Some (d + m * 60000000000 + s * 1000000000 + u mod 1000000000).
Proof.
  intros Hd Hm Hle (k & ->)%fuel_ge. change (2 + k)%nat with (S (1 + k)).
  pose proof (Z.mod_pos_bound u 1000000000 ltac:(lia)).
  assert (parse_term (min_text m) = Some (m * 60000000000, sec_text)) as Ht.
  { apply (int_term m 60000000000 "m" sec_text);
      [lia|lia|lia|done|unit_goal|done|apply fmtInt_starts; lia]. }
  rewrite (parse_terms_step _ _ _ _ _ Ht) by lia. apply parse_seconds; lia.
Qed.

Lemma parse_hours fuel h m :
  0 ≤ h → 0 ≤ m < 60 →
  h * 3600000000000 + m * 60000000000 + s * 1000000000 + u mod 1000000000 ≤ 2 ^ 63 →
  (3 ≤ fuel)%nat →
  parse_terms fuel 0 (hour_text h m) =
    Some (h * 3600000000000 + m * 60000000000 + s * 1000000000 + u mod 1000000000).
Proof.
  intros Hh Hm Hle (k & ->)%fuel_ge. change (3 + k)%nat with (S (2 + k)).
  pose proof (Z.mod_pos_bound u 1000000000 ltac:(lia)).
  assert (parse_term (hour_text h m) = Some (h * 3600000000000, min_text m)) as Ht.
  { apply (int_term h 3600000000000 "h" (min_text m));
      [lia|lia|lia|done|unit_goal|done|apply fmtInt_starts; lia]. }
  rewrite (parse_terms_step _ _ _ _ _ Ht) by lia. apply parse_minutes; lia.
Qed.
End clock.

Lemma duration_abs_large u :
  time.Second ≤ u →
  let w := u / 1000000000 in
  let sec := fmtInt (w mod 60) (fmtFrac 9 u false "s").1 in
  let min := fmtInt (w / 60 mod 60) (String (ascii_of_nat 109) sec) in
  duration_abs u =
    if 0 <? w / 60 then
      if 0 <? w / 60 / 60 then fmtInt (w / 60 / 60) (String (ascii_of_nat 104) min) else min
    else sec.
Proof.
  intros Hu w sec min. unfold duration_abs. rewrite (proj2 (Z.ltb_ge _ _)) by lia.
  assert (fmtFrac 9 u false "s" = ((fmtFrac 9 u false "s").1, w)) as ->; [|done].
  change time.Second with 1000000000 in Hu.
  destruct (fmtFrac_spec 9 u "s" ltac:(lia)) as [[_ ->]|(z & k & _ & _ & _ & ->)]; done.
Qed.

Lemma parse_large fuel u :
  time.Second ≤ u ≤ 2 ^ 63 → (3 ≤ fuel)%nat ∨ u < time.Minute ∧ (1 ≤ fuel)%nat →
  parse_terms fuel 0 (duration_abs u) = Some u.
Proof.
  intros [Hu Hu'] Hfuel. rewrite duration_abs_large by done.
  change time.Second with 1000000000 in Hu. change time.Minute with 60000000000 in Hfuel.
  set (w := u / 1000000000).
  pose proof (Z.div_mod u 1000000000 ltac:(lia)) as Hw. fold w in Hw.
  pose proof (Z.mod_pos_bound u 1000000000 ltac:(lia)).
  pose proof (Z.div_mod w 60 ltac:(lia)). pose proof (Z.mod_pos_bound w 60 ltac:(lia)).
  pose proof (Z.div_mod (w / 60) 60 ltac:(lia)). pose proof (Z.mod_pos_bound (w / 60) 60 ltac:(lia)).
  repeat case_match; z_bools.
  - rewrite parse_hours; [f_equal|..]; lia.
  - rewrite parse_minutes; [f_equal|..]; lia.
  - rewrite parse_seconds; [f_equal|..]; lia.
Qed.

(** A printed duration begins with a digit; it has at least two characters, and
    from a minute on at least three. *)
Lemma length_second n c tail :
  0 ≤ n ≤ 2 ^ 63 → (2 + String.length tail ≤ String.length (fmtInt n (String c tail)))%nat.
Proof. intros H. pose proof (length_fmtInt n (String c tail) H). simpl in *. lia. Qed.

Lemma length_frac p v unit : (String.length unit ≤ String.length (fmtFrac p v false unit).1)%nat.
Proof.
  assert (∀ p v b t, (String.length t ≤ String.length (fmtFrac p v b t).1)%nat) as H; [|apply H].
  clear. induction p as [|p IH]; intros v b t; simpl; [by destruct b; simpl; lia|].
  etrans; [|apply IH]. destruct (b || _); simpl; lia.
Qed.

Lemma fmt_shape n tail :
  0 ≤ n ≤ 2 ^ 63 → (1 ≤ String.length tail)%nat →
  starts_digit (fmtInt n tail) ∧ (2 ≤ String.length (fmtInt n tail))%nat.
Proof.
  intros Hn Ht. split; [by apply fmtInt_starts|]. pose proof (length_fmtInt n tail Hn). lia.
Qed.

Lemma duration_abs_shape u :
  0 ≤ u ≤ 2 ^ 63 → starts_digit (duration_abs u) ∧ (2 ≤ String.length (duration_abs u))%nat.
Proof.
  intros Hu. destruct (Z.lt_ge_cases u time.Second) as [Hs|Hs].
  - unfold duration_abs. rewrite (proj2 (Z.ltb_lt _ _)) by done.
    destruct (u =? 0) eqn:E; [split; [by eexists|simpl; lia]|].
    assert (∀ p unit, (1 ≤ String.length unit)%nat → 0 ≤ (fmtFrac p u false unit).2 ≤ 2 ^ 63 ∧
      (1 ≤ String.length (fmtFrac p u false unit).1)%nat) as H.
    { intros p unit Hl. pose proof (length_frac p u unit). split; [|lia].
      destruct (fmtFrac_spec p u unit ltac:(lia)) as [[_ ->]|(z & k & _ & _ & _ & ->)]; simpl snd;
        (split; [apply Z.div_pos; [lia|apply Z.pow_pos_nonneg; lia]|]);
        (etrans; [apply Z.div_le_upper_bound|reflexivity]);
        (assert (0 < 10 ^ Z.of_nat p) by (apply Z.pow_pos_nonneg; lia)); nia. }
    destruct (u <? time.Microsecond); [|destruct (u <? time.Millisecond)];
      (match goal with |- context [fmtFrac ?p u false ?unit] =>
         destruct (H p unit ltac:(simpl; lia)); destruct (fmtFrac p u false unit) end);
      by apply fmt_shape.
  - rewrite duration_abs_large by done. set (w := u / 1000000000).
    assert (0 ≤ w ≤ 2 ^ 63) as Hw.
    { unfold w. split; [apply Z.div_pos; lia|apply Z.div_le_upper_bound; lia]. }
    pose proof (Z.mod_pos_bound w 60 ltac:(lia)). pose proof (Z.mod_pos_bound (w / 60) 60 ltac:(lia)).
    assert (w / 60 / 60 ≤ 2 ^ 63) by (rewrite Z.div_div by lia; apply Z.div_le_upper_bound; lia).
    pose proof (length_frac 9 u "s") as Hl. cbn [String.length] in Hl.
    repeat case_match; z_bools; (apply fmt_shape; [lia|cbn [String.length]; lia]).
Qed.

Lemma parse_abs u :
  0 ≤ u ≤ 2 ^ 63 →
  parse_terms (String.length (duration_abs u)) 0 (duration_abs u) = Some u.
Proof.
  intros Hu. destruct (duration_abs_shape u Hu) as [_ Hl].
  destruct (decide (u = 0)) as [->|Hne]; [by vm_compute|].
  destruct (Z.lt_ge_cases u time.Second) as [Hs|Hs]; [apply parse_small; lia|].
  apply parse_large; [lia|].
  destruct (Z.lt_ge_cases u time.Minute) as [Hm|Hm]; [right; lia|left].
  rewrite duration_abs_large by done. set (w := u / 1000000000).
  change time.Minute with 60000000000 in Hm.
  assert (60 ≤ w ≤ 2 ^ 63) as Hw.
  { unfold w. split; [apply Z.div_le_lower_bound; lia|apply Z.div_le_upper_bound; lia]. }
  assert (1 ≤ w / 60) by (apply Z.div_le_lower_bound; lia).
  pose proof (Z.mod_pos_bound w 60 ltac:(lia)). pose proof (Z.mod_pos_bound (w / 60) 60 ltac:(lia)).
  rewrite (proj2 (Z.ltb_lt 0 _)) by lia.
  pose proof (length_fmtInt (w mod 60) (fmtFrac 9 u false "s").1 ltac:(lia)) as HL1.
  pose proof (length_second (w / 60 mod 60) (ascii_of_nat 109)
    (fmtInt (w mod 60) (fmtFrac 9 u false "s").1) ltac:(lia)) as HL2.
  case_match; z_bools; [|lia]. etrans; [|apply length_fmtInt].
  - cbn [String.length]. lia.
  - split; [lia|]. rewrite Z.div_div by lia. apply Z.div_le_upper_bound; lia.
Qed.

(** [ParseDuration] reads every [int64] number of nanoseconds back from what
    [String] prints. *)
Theorem ParseDuration_String d :
  - 2 ^ 63 ≤ d < 2 ^ 63 → ParseDuration (duration_String d) = Some d.
Proof.
  intros Hd. unfold duration_String. destruct (d <? 0) eqn:E; z_bools.
  - destruct (duration_abs_shape (- d) ltac:(lia)) as [_ Hl].
    unfold ParseDuration. cbn [sign]. rewrite bool_decide_eq_true_2 by done.
    rewrite !bool_decide_eq_false_2 by (intros He; rewrite He in Hl; simpl in Hl; lia).
    rewrite parse_abs by lia. cbn [mbind option_bind]. f_equal. lia.
  - destruct (duration_abs_shape d ltac:(lia)) as [Hs Hl]. pose proof (parse_abs d ltac:(lia)) as Hp.
    unfold ParseDuration. assert (sign (duration_abs d) = (false, duration_abs d)) as ->.
    { destruct (duration_abs d) as [|c s]; [done|]. destruct Hs as [n Hn]. unfold sign.
      rewrite !bool_decide_eq_false_2; [done|..]; intros ->; done. }
    rewrite !bool_decide_eq_false_2 by (intros He; rewrite He in Hl; simpl in Hl; lia).
    rewrite Hp. cbn [mbind option_bind]. by rewrite (proj2 (Z.ltb_ge _ _)) by lia.
Qed.

(** ** The characters of a printed duration *)

(** Text that JSON neither escapes nor rejects: printable ASCII without the
    quote, the backslash and the characters of HTML, and the micro sign. *)
Definition plain_char (c : ascii) : bool :=
  let n := Z.of_nat (nat_of_ascii c) in
  (32 <=? n) && (n <=? 126) && negb (n =? 34) && negb (n =? 92) && negb (n =? 60) && negb (n =? 62)
    && negb (n =? 38).
Fixpoint plain (s : string) : Prop :=
  match s with
  | EmptyString => True
  | String c s =>
      (plain_char c = true ∧ plain s) ∨
      (c = ascii_of_nat 194 ∧
       match s with String c' s => c' = ascii_of_nat 181 ∧ plain s | EmptyString => False end)
  end.

Lemma plain_chr v : plain_char (chr (v mod 10)) = true.
Proof.
  pose proof (Z.mod_pos_bound v 10 ltac:(lia)) as H. revert H. generalize (v mod 10). intros d H.
  assert (d = 0 ∨ d = 1 ∨ d = 2 ∨ d = 3 ∨ d = 4 ∨ d = 5 ∨ d = 6 ∨ d = 7 ∨ d = 8 ∨ d = 9) as Hd by lia.
  by destruct Hd as [->|[->|[->|[->|[->|[->|[->|[->|[->| ->]]]]]]]]].
Qed.

Lemma plain_fmtInt v tail : plain tail → plain (fmtInt v tail).
Proof.
  intros Ht. unfold fmtInt. destruct (v =? 0); [by left|].
  assert (∀ n v tail, plain tail → plain (fmt_loop n v tail)) as H; [|by apply H].
  clear. induction n as [|n IH]; intros v tail Ht; simpl; [done|].
  destruct (v =? 0); [done|]. apply IH. left. split; [apply plain_chr|done].
Qed.

Lemma plain_fmtFrac p v b tail : plain tail → plain (fmtFrac p v b tail).1.
Proof.
  revert v b tail. induction p as [|p IH]; intros v b tail Ht; simpl; [by destruct b; [left|]|].
  apply IH. destruct (b || _); [|done]. left. split; [apply plain_chr|done].
Qed.

Lemma plain_duration d : plain (duration_String d).
Proof.
  assert (∀ u, plain (duration_abs u)) as H.
  { intros u. unfold duration_abs. destruct (u <? time.Second).
    - destruct (u =? 0); [simpl; tauto|].
      destruct (u <? time.Microsecond); [|destruct (u <? time.Millisecond)];
        (match goal with |- context [fmtFrac ?p u false ?unit] =>
           pose proof (plain_fmtFrac p u false unit ltac:(simpl; tauto));
           destruct (fmtFrac p u false unit) end); by apply plain_fmtInt.
    - pose proof (plain_fmtFrac 9 u false "s" ltac:(simpl; tauto)).
      destruct (fmtFrac 9 u false "s") as [tail w]. simpl in *.
      repeat case_match; repeat (apply plain_fmtInt; try (left; split; [done|])); done. }
  unfold duration_String. destruct (d <? 0); [|apply H]. left. split; [done|apply H].
Qed.
