(* ===== verification/BenchConfig.v ===== *)
(** * Configuration of the stress tester

    [src/stress_tester/internal/config/config.go]: the load configuration, the
    table of network profiles and the table of scenarios, and the reading of a
    profile file; and the part of [runBenchmark] of [src/stress_tester/main.go]
    that turns the command line flags into a load configuration.  Durations are
    nanoseconds.  The contents of the profile file and what [encoding/json]
    decodes them to are inputs of [LoadProfiles]; the flags are the record that
    package [flag] fills. *)

From Stdlib Require Ascii.
From stdpp Require Import gmap.
From S2P Require Import Prelude.
From S2P Require Import Float64.
From S2P Require Import GoStrings.
From S2P Require Import GoTime.
From S2P Require Import GoTimeFacts.

#[local] Open Scope string_scope.
#[local] Open Scope Z_scope.

Module config.

(** ** Types *)

Abbreviation WorkloadType := string.
Definition WorkloadFixed : WorkloadType := "fixed".
Definition WorkloadRandom : WorkloadType := "random".
Definition WorkloadMixed : WorkloadType := "mixed".

Abbreviation RPCSystem := string.
Definition SystemQRPC : RPCSystem := "qrpc".
Definition SystemGRPC : RPCSystem := "grpc".

Record LoadConfig := mkLoadConfig {
  Workers : Z;
  Pipelining : Z;
  Streams : Z;
  Connections : Z;
  Workload : WorkloadType;
  PayloadSize : Z;
  MinPayload : Z;
  MaxPayload : Z;
  Duration : Z;
  Warmup : Z;
  Method : string;
  System : RPCSystem;
  RetryAttempts : Z;
  RetryDelay : Z
}.

Record NetworkProfile := mkNetworkProfile {
  Name : string;
  Description : string;
  Delay : string;
  Jitter : string;
  Loss : float64;
  Rate : string;
  Correlation : float64
}.

(** The zero values that Go gives to fields that are not set. *)
Definition LoadConfig_zero : LoadConfig :=
  mkLoadConfig 0 0 0 0 "" 0 0 0 0 0 "" "" 0 0.
Definition NetworkProfile_zero : NetworkProfile := mkNetworkProfile "" "" "" "" 0 "" 0.

(** A profile literal of [DefaultProfiles], which leaves [Correlation] unset. *)
Definition profile (n d delay jitter : string) (loss : Q) (rate : string) :
    string * NetworkProfile :=
  (n, mkNetworkProfile n d delay jitter (rnd loss) rate 0).

Definition DefaultProfiles_list : list (string * NetworkProfile) := [
  profile "clean" "Clean network with minimal latency, zero loss" "1ms" "0ms" 0 "1000mbit";
  profile "wifi" "Typical WiFi: low latency, near-zero loss" "5ms" "2ms" (1 # 10) "100mbit";
  profile "lte" "4G LTE: moderate latency, low loss" "30ms" "10ms" 1 "50mbit";
  profile "bad_lte" "Bad 4G LTE: high latency, moderate loss" "60ms" "20ms" 5 "10mbit";
  profile "extreme" "Extreme: very high latency, heavy loss" "150ms" "50ms" 10 "5mbit";
  profile "super_extreme" "Super Extreme: Super very high latency, heavy loss"
    "200ms" "75ms" 15 "3mbit";
  profile "hell_network" "Hell network: Extremly high latency, ultra heavy loss"
    "300ms" "100ms" 30 "2mbit";
  profile "no_network" "No network: Ultra Extremly high latency, ultra extremly heavy loss"
    "500ms" "200ms" 50 "1mbit";
  profile "high_loss" "High loss: Moderate latency, 70% loss" "20ms" "2ms" 70 "5mbit";
  profile "heavy_high_loss" "Heavy high loss: Moderate latency, 85% loss" "20ms" "2ms" 85 "5mbit"
].

Definition DefaultProfiles : gmap string NetworkProfile := list_to_map DefaultProfiles_list.

Record Scenario := mkScenario {
  sc_Description : string;
  sc_LoadConfig : LoadConfig;
  sc_Profiles : list string
}.

(** A load configuration literal of [DefaultScenarios]: method "echo", one
    connection, no pipelining, the system and the retries unset. *)
Definition load (workers streams : Z) (w : WorkloadType) (size min max : Z)
    (duration warmup : Z) : LoadConfig :=
  mkLoadConfig workers 1 streams 1 w size min max
    (duration * time.Second) (warmup * time.Second) "echo" "" 0 0.

Definition DefaultScenarios_list : list (string * Scenario) := [
  ("baseline_latency", mkScenario
    "Single worker, single stream, fixed 1KB payload — measures pure RPC latency"
    (load 1 1 WorkloadFixed 1024 0 0 10 2)
    ["clean"; "wifi"; "lte"]);
  ("concurrency_stress", mkScenario
    "50-200 workers, limited streams, variable payload — concurrency behavior"
    (load 100 32 WorkloadRandom 0 1024 (32 * 1024) 30 3)
    ["clean"; "wifi"; "lte"; "bad_lte"]);
  ("multiplex_stress", mkScenario
    "Large upload + small RPCs concurrently — checks HOL blocking"
    (load 50 64 WorkloadMixed 0 1024 1024 30 3)
    ["clean"; "lte"; "bad_lte"]);
  ("loss_sensitivity", mkScenario
    "Concurrency stress repeated at different packet loss levels (0%-10%)"
    (load 100 32 WorkloadRandom 0 1024 (16 * 1024) 20 3)
    ["clean"; "wifi"; "lte"; "bad_lte"; "extreme"]);
  ("rtt_scaling", mkScenario
    "Fixed load at increasing RTT (10ms-200ms) to measure latency degradation slope"
    (load 50 16 WorkloadFixed 1024 0 0 15 2)
    ["clean"; "wifi"; "lte"; "bad_lte"; "extreme"])
].

Definition DefaultScenarios : gmap string Scenario := list_to_map DefaultScenarios_list.

(** ** Durations in JSON *)

(** The encoding of strings of [encoding/json], which returns plain text (no
    characters that need an escape) unchanged. *)
Class JsonString (Marshal : string → string) (Unmarshal : string → option string) :=
  json_plain s : plain s → Unmarshal (Marshal s) = Some s.

Section duration_json.
Context (Marshal : string → string) (Unmarshal : string → option string).

Definition Duration_MarshalJSON (d : Z) : string := Marshal (duration_String d).
Definition Duration_UnmarshalJSON (b : string) : option Z :=
  s ← Unmarshal b; ParseDuration s.

(** A duration of a configuration survives its JSON encoding: for every
    [int64], [UnmarshalJSON] reads the value back that [MarshalJSON] wrote,
    although the fraction is parsed with [float64] arithmetic. *)
Theorem Duration_json_roundtrip `{!JsonString Marshal Unmarshal} d :
  - 2 ^ 63 ≤ d < 2 ^ 63 → Duration_UnmarshalJSON (Duration_MarshalJSON d) = Some d.
Proof.
  intros Hd. unfold Duration_UnmarshalJSON, Duration_MarshalJSON.
  rewrite json_plain by apply plain_duration. by apply ParseDuration_String.
Qed.
End duration_json.

(** Quoted text without escapes. *)
Definition quote (s : string) : string :=
  String (Ascii.ascii_of_nat 34) (s ++ String (Ascii.ascii_of_nat 34) "").
Definition unquote (s : string) : option string :=
  match s with
  | String _ r => Some (String.substring 0 (String.length r - 1) r)
  | EmptyString => None
  end.
#[global] Instance quote_JsonString : JsonString quote unquote.
Proof.
  intros s _. unfold unquote, quote. f_equal. rewrite strings.string_length_app. simpl.
  replace (String.length s + 1 - 1)%nat with (String.length s) by lia.
  induction s as [|c s IH]; [done|]. simpl. by f_equal.
Qed.

Lemma Duration_json_roundtrip_witness :
  Duration_UnmarshalJSON unquote (Duration_MarshalJSON quote 90061001000001) = Some 90061001000001 ∧
  Duration_MarshalJSON quote 90061001000001 = quote "25h1m1.001000001s".
Proof. split; [apply (Duration_json_roundtrip quote unquote); lia|by vm_compute]. Defined.

(** ** Reading profiles *)

Inductive read_error := NotExist | OtherReadError.
Inductive config_error := ReadFailed | ParseFailed.

(** [for k, v := range DefaultProfiles]: the runtime chooses the order of the
    entries.  [None] is the nil map, which a file with the JSON value [null]
    leaves in place: assigning to it panics. *)
Fixpoint fill_defaults (entries : list (string * NetworkProfile))
    (profiles : option (gmap string NetworkProfile)) :
    outcome config_error (option (gmap string NetworkProfile)) :=
  match entries with
  | [] => Ok profiles
  | (k, v) :: rest =>
      match profiles with
      | None => Panic
      | Some m => fill_defaults rest (Some (if m !! k is Some _ then m else <[k := v]> m))
      end
  end.

Definition LoadProfiles (entries : list (string * NetworkProfile))
    (unmarshal : gostring → option (option (gmap string NetworkProfile)))
    (file : read_error + gostring) :
    outcome config_error (option (gmap string NetworkProfile)) :=
  match file with
  | inl NotExist => Ok (Some DefaultProfiles)
  | inl OtherReadError => Err ReadFailed
  | inr data =>
      match unmarshal data with
      | None => Err ParseFailed
      | Some profiles => fill_defaults entries profiles
      end
  end.

(** [names = append(names, name)] over the entries in the order of the range. *)
Definition ProfileNames (entries : list (string * NetworkProfile)) : list string :=
  foldl (λ names '(name, _), names ++ [name])%list [] entries.

End config.

(** ** Command line of [stress_test run] *)

Module runBenchmark.
Import config.

Record Flags := mkFlags {
  scenario : string;
  profile : string;
  system : string;
  addr : string;
  iface : string;
  output : string;
  raw : bool;
  workers : Z;
  pipelining : Z;
  streams : Z;
  connections : Z;
  duration : Z;
  warmup : Z;
  payloadSize : Z;
  retryAttempts : Z;
  retryDelay : Z
}.

(** The values of the flags that the command line does not set. *)
Definition default_flags : Flags :=
  mkFlags "concurrency_stress" "clean" "qrpc" "127.0.0.1:8081" "lo" "results" false
    0 0 0 0 0 0 0 3 (500 * time.Millisecond).

(** Assignments to fields of the local copy [lc]. *)
Definition set_Workers v (lc : LoadConfig) : LoadConfig :=
  mkLoadConfig v lc.(Pipelining) lc.(Streams) lc.(Connections) lc.(Workload) lc.(PayloadSize)
    lc.(MinPayload) lc.(MaxPayload) lc.(Duration) lc.(Warmup) lc.(Method) lc.(System)
    lc.(RetryAttempts) lc.(RetryDelay).
Definition set_Pipelining v (lc : LoadConfig) : LoadConfig :=
  mkLoadConfig lc.(Workers) v lc.(Streams) lc.(Connections) lc.(Workload) lc.(PayloadSize)
    lc.(MinPayload) lc.(MaxPayload) lc.(Duration) lc.(Warmup) lc.(Method) lc.(System)
    lc.(RetryAttempts) lc.(RetryDelay).
Definition set_Streams v (lc : LoadConfig) : LoadConfig :=
  mkLoadConfig lc.(Workers) lc.(Pipelining) v lc.(Connections) lc.(Workload) lc.(PayloadSize)
    lc.(MinPayload) lc.(MaxPayload) lc.(Duration) lc.(Warmup) lc.(Method) lc.(System)
    lc.(RetryAttempts) lc.(RetryDelay).
Definition set_Connections v (lc : LoadConfig) : LoadConfig :=
  mkLoadConfig lc.(Workers) lc.(Pipelining) lc.(Streams) v lc.(Workload) lc.(PayloadSize)
    lc.(MinPayload) lc.(MaxPayload) lc.(Duration) lc.(Warmup) lc.(Method) lc.(System)
    lc.(RetryAttempts) lc.(RetryDelay).
Definition set_Duration v (lc : LoadConfig) : LoadConfig :=
  mkLoadConfig lc.(Workers) lc.(Pipelining) lc.(Streams) lc.(Connections) lc.(Workload)
    lc.(PayloadSize) lc.(MinPayload) lc.(MaxPayload) v lc.(Warmup) lc.(Method) lc.(System)
    lc.(RetryAttempts) lc.(RetryDelay).
Definition set_Warmup v (lc : LoadConfig) : LoadConfig :=
  mkLoadConfig lc.(Workers) lc.(Pipelining) lc.(Streams) lc.(Connections) lc.(Workload)
    lc.(PayloadSize) lc.(MinPayload) lc.(MaxPayload) lc.(Duration) v lc.(Method) lc.(System)
    lc.(RetryAttempts) lc.(RetryDelay).
Definition set_PayloadSize v (lc : LoadConfig) : LoadConfig :=
  mkLoadConfig lc.(Workers) lc.(Pipelining) lc.(Streams) lc.(Connections) lc.(Workload)
    v lc.(MinPayload) lc.(MaxPayload) lc.(Duration) lc.(Warmup) lc.(Method) lc.(System)
    lc.(RetryAttempts) lc.(RetryDelay).
Definition set_Workload v (lc : LoadConfig) : LoadConfig :=
  mkLoadConfig lc.(Workers) lc.(Pipelining) lc.(Streams) lc.(Connections) v
    lc.(PayloadSize) lc.(MinPayload) lc.(MaxPayload) lc.(Duration) lc.(Warmup) lc.(Method)
    lc.(System) lc.(RetryAttempts) lc.(RetryDelay).
Definition set_System v (lc : LoadConfig) : LoadConfig :=
  mkLoadConfig lc.(Workers) lc.(Pipelining) lc.(Streams) lc.(Connections) lc.(Workload)
    lc.(PayloadSize) lc.(MinPayload) lc.(MaxPayload) lc.(Duration) lc.(Warmup) lc.(Method)
    v lc.(RetryAttempts) lc.(RetryDelay).
Definition set_RetryAttempts v (lc : LoadConfig) : LoadConfig :=
  mkLoadConfig lc.(Workers) lc.(Pipelining) lc.(Streams) lc.(Connections) lc.(Workload)
    lc.(PayloadSize) lc.(MinPayload) lc.(MaxPayload) lc.(Duration) lc.(Warmup) lc.(Method)
    lc.(System) v lc.(RetryDelay).
Definition set_RetryDelay v (lc : LoadConfig) : LoadConfig :=
  mkLoadConfig lc.(Workers) lc.(Pipelining) lc.(Streams) lc.(Connections) lc.(Workload)
    lc.(PayloadSize) lc.(MinPayload) lc.(MaxPayload) lc.(Duration) lc.(Warmup) lc.(Method)
    lc.(System) lc.(RetryAttempts) v.

(** [if *flag > 0 { lc.Field = *flag }] *)
Definition if_pos (v : Z) (set : Z → LoadConfig → LoadConfig) (lc : LoadConfig) : LoadConfig :=
  if 0 <? v then set v lc else lc.

Definition overrides (f : Flags) (lc : LoadConfig) : LoadConfig :=
  let lc := if_pos f.(workers) set_Workers lc in
  let lc := if_pos f.(pipelining) set_Pipelining lc in
  let lc := if_pos f.(streams) set_Streams lc in
  let lc := if_pos f.(connections) set_Connections lc in
  let lc := if_pos f.(duration) set_Duration lc in
  let lc := if_pos f.(warmup) set_Warmup lc in
  let lc := if_pos f.(payloadSize) (λ v lc, set_Workload WorkloadFixed (set_PayloadSize v lc)) lc in
  let lc := if_pos f.(retryAttempts) set_RetryAttempts lc in
  if_pos f.(retryDelay) set_RetryDelay lc.

(** The list of profiles of the flag [-profile]. *)
Definition profile_list (f : Flags) : list string :=
  map strings.TrimSpace (strings.Split f.(profile) ",").

(** The messages with which the command exits with status 1. *)
Inductive exit_error := UnknownScenario (name : string) | UnknownProfile (name : string).

(** [for _, p := range profiles]: the first unknown profile ends the command. *)
Fixpoint check_profiles (ps : list string) : outcome exit_error unit :=
  match ps with
  | [] => Ok tt
  | p :: ps => if DefaultProfiles !! p is Some _ then check_profiles ps else Err (UnknownProfile p)
  end.

(** What [runBenchmark] hands to [RunScenario]. *)
Definition resolve (f : Flags) : outcome exit_error (string * list string * LoadConfig) :=
  let profiles := profile_list f in
  match DefaultScenarios !! f.(scenario) with
  | None => Err (UnknownScenario f.(scenario))
  | Some sc =>
      check_profiles profiles ≫= λ _,
      Ok (f.(scenario), profiles, overrides f sc.(sc_LoadConfig))
  end.

End runBenchmark.

(** ** Well-formed configurations *)

Module wf.
Import config.

(** Everything the load generator does with a configuration is defined: there
    is something to run, and the payload sizes are the bounds of a range. *)
Record LoadConfig_wf (lc : LoadConfig) : Prop := {
  wf_counts : 1 ≤ lc.(Workers) ∧ 1 ≤ lc.(Pipelining) ∧ 1 ≤ lc.(Streams) ∧ 1 ≤ lc.(Connections);
  wf_times : 1 ≤ lc.(Duration) ∧ 1 ≤ lc.(Warmup);
  wf_workload : lc.(Workload) ∈ [WorkloadFixed; WorkloadRandom; WorkloadMixed];
  wf_sizes : 0 ≤ lc.(PayloadSize) < 2 ^ 63 ∧ 0 ≤ lc.(MinPayload) ≤ lc.(MaxPayload) ∧
             lc.(MaxPayload) < 2 ^ 62;
  wf_fixed : lc.(Workload) = WorkloadFixed → 1 ≤ lc.(PayloadSize);
  wf_method : lc.(Method) = "echo"
}.

Definition Scenario_wf (sc : Scenario) : Prop :=
  LoadConfig_wf sc.(sc_LoadConfig) ∧ sc.(sc_Profiles) ≠ [] ∧
  Forall (λ p, is_Some (DefaultProfiles !! p)) sc.(sc_Profiles).

(** The check of the profile names succeeds exactly on known profiles. *)
Lemma check_profiles_Ok ps :
  runBenchmark.check_profiles ps = Ok tt ↔ Forall (λ p, is_Some (DefaultProfiles !! p)) ps.
Proof.
  induction ps as [|p ps IH]; simpl; [done|]. rewrite Forall_cons, <- IH.
  destruct (DefaultProfiles !! p); split; naive_solver.
Qed.

Lemma DefaultScenarios_Forall : Forall (λ e, Scenario_wf e.2) DefaultScenarios_list.
Proof.
  assert (∀ sc, LoadConfig_wf sc.(sc_LoadConfig) → sc.(sc_Profiles) ≠ [] →
    runBenchmark.check_profiles sc.(sc_Profiles) = Ok tt → Scenario_wf sc) as H.
  { intros sc ? ? ?%check_profiles_Ok. done. }
  repeat (apply Forall_cons_2; [apply H; [|done|done]|]); [..|apply Forall_nil_2];
    (split; simpl; [lia|unfold time.Second, time.Millisecond, time.Microsecond, time.Nanosecond; lia|set_solver|lia|done|done]).
Qed.

Lemma check_profiles_safe ps : safe (runBenchmark.check_profiles ps).
Proof. induction ps as [|p ps IH]; simpl; [done|]. by destruct (DefaultProfiles !! p). Qed.

(** Every scenario of the table is well-formed. *)
Lemma DefaultScenarios_wf n sc : DefaultScenarios !! n = Some sc → Scenario_wf sc.
Proof.
  intros H%elem_of_list_to_map_2. pose proof DefaultScenarios_Forall as HF.
  rewrite Forall_forall in HF. exact (HF _ H).
Qed.

Lemma if_pos_wf v set lc :
  LoadConfig_wf lc → (∀ lc, 0 < v → LoadConfig_wf lc → LoadConfig_wf (set v lc)) →
  LoadConfig_wf (runBenchmark.if_pos v set lc).
Proof. intros Hlc Hset. unfold runBenchmark.if_pos. case_match; z_bools; auto. Qed.

(** Overriding with the flags keeps a configuration well-formed. *)
Lemma overrides_wf f lc :
  f.(runBenchmark.payloadSize) < 2 ^ 63 →
  LoadConfig_wf lc → LoadConfig_wf (runBenchmark.overrides f lc).
Proof.
  intros Hf Hlc. unfold runBenchmark.overrides.
  repeat (apply if_pos_wf; [|intros ? ? []; split; simpl in *; try lia; done || set_solver]).
  done.
Qed.

(** C29: whatever the flags are, [runBenchmark] either exits with a message or
    hands [RunScenario] a scenario of the table, a non-empty list of profiles of
    the table and a well-formed load configuration. *)
Theorem resolve_wf f :
  f.(runBenchmark.payloadSize) < 2 ^ 63 →
  match runBenchmark.resolve f with
  | Ok (n, ps, lc) =>
      is_Some (DefaultScenarios !! n) ∧ ps ≠ [] ∧
      Forall (λ p, is_Some (DefaultProfiles !! p)) ps ∧ LoadConfig_wf lc
  | Err (runBenchmark.UnknownScenario n) => DefaultScenarios !! n = None
  | Err (runBenchmark.UnknownProfile p) => DefaultProfiles !! p = None
  | _ => False
  end.
Proof.
  intros Hf. unfold runBenchmark.resolve.
  destruct (DefaultScenarios !! _) as [sc|] eqn:Hs; [|done].
  destruct (runBenchmark.check_profiles _) as [[]|e| |] eqn:Hc; simpl.
  - split; [done|]. split; [|split].
    + unfold runBenchmark.profile_list. intros H%map_eq_nil. by apply strings.Split_nonempty in H.
    + by apply check_profiles_Ok.
    + apply overrides_wf; [done|]. by apply (DefaultScenarios_wf _ _ Hs).
  - revert Hc. generalize (runBenchmark.profile_list f). induction l as [|p ps IH]; [done|].
    simpl. destruct (DefaultProfiles !! p) eqn:Hp; [done|]. by intros [= <-].
  - pose proof (check_profiles_safe (runBenchmark.profile_list f)) as H. by rewrite Hc in H.
  - pose proof (check_profiles_safe (runBenchmark.profile_list f)) as H. by rewrite Hc in H.
Qed.

Lemma resolve_wf_witness :
  runBenchmark.payloadSize (runBenchmark.mkFlags "rtt_scaling" "clean, lte" "grpc" "" "lo" "r"
    false 7 0 0 4 0 0 4000 3 0) < 2 ^ 63 ∧
  LoadConfig_wf (mkLoadConfig 7 1 16 4 "fixed" 4000 0 0 (15 * time.Second) (2 * time.Second)
    "echo" "" 3 0).
Proof.
  split; [done|].
  assert (runBenchmark.payloadSize (runBenchmark.mkFlags "rtt_scaling" "clean, lte" "grpc" "" "lo" "r"
    false 7 0 0 4 0 0 4000 3 0) < 2 ^ 63) as H by done.
  apply resolve_wf in H. vm_compute in H. vm_compute. apply H.
Defined.

(** ** Reading profiles *)

(** For every order in which the runtime ranges over the default profiles, a
    profile file overrides them and keeps those it does not mention. *)
Theorem LoadProfiles_union entries unmarshal data m :
  entries ≡ₚ map_to_list DefaultProfiles → unmarshal data = Some (Some m) →
  LoadProfiles entries unmarshal (inr data) = Ok (Some (m ∪ DefaultProfiles)).
Proof.
  intros Hp Hu. simpl. rewrite Hu. clear Hu.
  assert (NoDup entries.*1) as Hnd by (rewrite Hp; apply NoDup_fst_map_to_list).
  assert (fill_defaults entries (Some m) = Ok (Some (m ∪ list_to_map entries))) as ->.
  { clear Hp. revert m Hnd. induction entries as [|[k v] l IH]; intros m Hnd; simpl.
    - by rewrite (right_id_L ∅ (∪)).
    - inversion Hnd as [|?? Hk Hl]; subst.
      destruct (m !! k) as [w|] eqn:E; rewrite IH by done; do 2 f_equal; apply map_eq; intros i.
      + rewrite !lookup_union. destruct (decide (i = k)) as [->|?]; [|by rewrite lookup_insert_ne].
        rewrite E, lookup_insert_eq. by destruct (list_to_map l !! k).
      + rewrite !lookup_union. destruct (decide (i = k)) as [->|?]; [|by rewrite !lookup_insert_ne].
        rewrite !lookup_insert_eq, E. by destruct (list_to_map l !! k). }
  by rewrite (list_to_map_proper entries _ Hnd Hp), list_to_map_to_list.
Qed.

(** A profile file with the contents [null] makes [LoadProfiles] panic. *)
Theorem LoadProfiles_null entries unmarshal data :
  entries ≡ₚ map_to_list DefaultProfiles → unmarshal data = Some None →
  LoadProfiles entries unmarshal (inr data) = Panic.
Proof.
  intros Hp Hu. simpl. rewrite Hu. destruct entries as [|[k v] l]; [|done].
  symmetry in Hp. apply Permutation_nil_r in Hp. by vm_compute in Hp.
Qed.

(** [ProfileNames] lists each name of the map once. *)
Theorem ProfileNames_keys entries (m : gmap string NetworkProfile) :
  entries ≡ₚ map_to_list m →
  NoDup (ProfileNames entries) ∧ ∀ n, n ∈ ProfileNames entries ↔ is_Some (m !! n).
Proof.
  intros Hp. assert (ProfileNames entries = entries.*1) as ->.
  { unfold ProfileNames. cut (∀ l acc, foldl (λ names '(n, _), names ++ [n])%list acc l =
      (acc ++ (l : list (string * NetworkProfile)).*1)%list); [intros H; by rewrite H|].
    induction l as [|[n p] l IH]; intros acc; simpl; [by rewrite app_nil_r|].
    rewrite IH. by rewrite <- app_assoc. }
  split; [rewrite Hp; apply NoDup_fst_map_to_list|]. intros n. rewrite Hp, list_elem_of_fmap. split.
  - intros ([k v] & -> & H%elem_of_map_to_list). by eexists.
  - intros [v H]. exists (n, v). by rewrite elem_of_map_to_list.
Qed.

End wf.
