(* ===== verification/Metrics.v ===== *)
(** * The metrics collector of the stress tester

    [src/stress_tester/internal/metrics/collector.go]: the samples recorded by
    the workers and the report computed from them, with its [float64]
    percentiles and its latency distribution, and the files it is saved to.
    The clock is an argument.  A saved file is kept as its content before
    encoding: the report of a JSON file, the records of a CSV file. *)

From stdpp Require Import gmap sorting.
From S2P Require Import Prelude.
From S2P Require Import Float64.
From S2P Require Import GoTime.
From S2P Require Import BenchConfig.

#[local] Open Scope string_scope.
#[local] Open Scope Z_scope.

Module metrics.

(** ** Samples and reports *)

Record Sample := mkSample {
  s_Start : Z;
  s_Duration : Z;
  s_QueueTime : Z;
  s_NetworkTime : Z;
  s_Success : bool;
  s_Error : string;
  s_PayloadSize : Z;
  s_WorkerID : Z
}.

Record Report := mkReport {
  Timestamp : Z;
  Scenario : string;
  Profile : string;
  System : config.RPCSystem;
  LoadConfig : config.LoadConfig;
  TotalRequests : Z;
  SuccessCount : Z;
  ErrorCount : Z;
  SuccessRate : float64;
  RPS : float64;
  AvgLatency : Z;
  MinLatency : Z;
  MaxLatency : Z;
  P50 : Z;
  P90 : Z;
  P95 : Z;
  P99 : Z;
  P999 : Z;
  LatencyDist : gmap string Z;
  Elapsed : Z;
  RawSamples : list Sample
}.

Record Collector := mkCollector {
  samples : list Sample;
  started : Z;
  elapsed : Z
}.

(** ** The collector *)

Definition NewCollector : Collector := mkCollector [] 0 0.

Definition Record (s : Sample) (c : Collector) : Collector :=
  mkCollector (c.(samples) ++ [s]) c.(started) c.(elapsed).

Definition StartTimer (now : Z) (c : Collector) : Collector :=
  mkCollector c.(samples) now c.(elapsed).

Definition StopTimer (now : Z) (c : Collector) : Collector :=
  mkCollector c.(samples) c.(started) (now - c.(started)).

Definition get_Elapsed (c : Collector) : Z := c.(elapsed).

(** ** Percentiles *)

Definition percentile (sorted : list float64) (p : float64) : outcome Empty_set float64 :=
  if (len sorted =? 0)%Z then Ok 0%Q
  else if (p <=? 0)%F then index sorted 0
  else if (100 <=? p)%F then index sorted (len sorted - 1)
  else
    let idx := (p / 100 * of_int (len sorted - 1))%F in
    let i := to_int idx in
    let frac := (idx - of_int i)%F in
    if i + 1 <? len sorted then
      a ← index sorted i;
      b ← index sorted (i + 1);
      Ok (a + frac * (b - a))%F
    else index sorted i.

(** ** Distribution *)

Definition buckets : list (string * float64) := [
  ("<1ms", of_int time.Millisecond);
  ("1-5ms", of_int (5 * time.Millisecond));
  ("5-10ms", of_int (10 * time.Millisecond));
  ("10-25ms", of_int (25 * time.Millisecond));
  ("25-50ms", of_int (50 * time.Millisecond));
  ("50-100ms", of_int (100 * time.Millisecond));
  ("100-250ms", of_int (250 * time.Millisecond));
  ("250-500ms", of_int (500 * time.Millisecond));
  ("500ms-1s", of_int time.Second);
  ("1-2s", of_int (2 * time.Second));
  ("2-5s", of_int (5 * time.Second));
  (">5s", inject_Z ((2 ^ 53 - 1) * 2 ^ 971))
].

(** The inner loop: the first bucket with a larger limit is counted up. *)
Fixpoint count_bucket (bs : list (string * float64)) (l : float64) (dist : gmap string Z) :
    gmap string Z :=
  match bs with
  | [] => dist
  | (name, limit) :: bs =>
      if (l <? limit)%F then <[name := default 0 (dist !! name) + 1]> dist
      else count_bucket bs l dist
  end.

Definition buildDistribution (latencies : list float64) : gmap string Z :=
  foldl (λ dist l, count_bucket buckets l dist) ∅ latencies.

(** ** The report *)

(** The variables of the loop over the samples. *)
Record tally := mkTally {
  successCount : Z;
  errorCount : Z;
  totalLatency : Z;
  minLatency : Z;
  maxLatency : Z;
  latencies : list float64
}.

Definition tally_init : tally := mkTally 0 0 0 (2 ^ 63 - 1) 0 [].

Definition tally_sample (t : tally) (s : Sample) : tally :=
  if s.(s_Success) then
    mkTally (i64 (t.(successCount) + 1)) t.(errorCount)
      (i64 (t.(totalLatency) + s.(s_Duration)))
      (if s.(s_Duration) <? t.(minLatency) then s.(s_Duration) else t.(minLatency))
      (if t.(maxLatency) <? s.(s_Duration) then s.(s_Duration) else t.(maxLatency))
      (t.(latencies) ++ [of_int s.(s_Duration)])
  else
    mkTally t.(successCount) (i64 (t.(errorCount) + 1)) t.(totalLatency) t.(minLatency)
      t.(maxLatency) t.(latencies).

(** [sort.Float64s] *)
Definition Float64s (l : list float64) : list float64 := merge_sort Qle l.

(** [time.Duration.Seconds] *)
Definition Seconds (d : Z) : float64 :=
  (of_int (Z.quot d time.Second) + of_int (Z.rem d time.Second) / of_int 1000000000)%F.

(** [time.Duration(percentile(latencies, p))] *)
Definition percentile_duration (sorted : list float64) (p : float64) : outcome Empty_set Z :=
  v ← percentile sorted p; Ok (to_int v).

(** The latencies of the report: average, minimum, maximum, P50, P90, P95, P99
    and P99.9; zero when no request succeeded. *)
Definition latency_fields (t : tally) (sorted : list float64) :
    outcome Empty_set (Z * Z * Z * (Z * Z * Z * Z * Z)) :=
  if 0 <? len sorted then
    p50 ← percentile_duration sorted 50%Q;
    p90 ← percentile_duration sorted 90%Q;
    p95 ← percentile_duration sorted 95%Q;
    p99 ← percentile_duration sorted 99%Q;
    p999 ← percentile_duration sorted (rnd (999 # 10));
    Ok (Z.quot t.(totalLatency) (len sorted), t.(minLatency), t.(maxLatency),
        (p50, p90, p95, p99, p999))
  else Ok (0, 0, 0, (0, 0, 0, 0, 0)).

Definition report (now : Z) (scenario profile : string) (system : config.RPCSystem)
    (lc : config.LoadConfig) (saveRaw : bool) (c : Collector) : outcome Empty_set Report :=
  let samples := c.(samples) in
  let elapsed := c.(elapsed) in
  if (len samples =? 0)%Z then
    Ok (mkReport now scenario profile system config.LoadConfig_zero 0 0 0 0 0 0 0 0 0 0 0 0 0 ∅
          elapsed [])
  else
    let t := foldl tally_sample tally_init samples in
    let sorted := Float64s t.(latencies) in
    let rate := (of_int t.(successCount) / of_int (len samples) * 100)%F in
    let rps := if 0 <? elapsed then (of_int t.(successCount) / Seconds elapsed)%F else 0%Q in
    '(avg, lo, hi, (p50, p90, p95, p99, p999)) ← latency_fields t sorted;
    Ok (mkReport now scenario profile system lc (len samples) t.(successCount) t.(errorCount)
          rate rps avg lo hi p50 p90 p95 p99 p999 (buildDistribution sorted) elapsed
          (if saveRaw then samples else [])).

(** ** Saved files *)

Inductive file_content :=
| JSON (r : Report)
| CSV (records : list (list string)).

Inductive save_error := CreateDir | Marshal | WriteReport | CreateCSV.

(** The files, by directory and name. *)
Abbreviation files := (gmap (string * string) file_content).

(** Which calls into the operating system and [encoding/json] succeed; a write
    that fails leaves the contents of the file open ([torn]). *)
Record save_env := mkSaveEnv {
  MkdirAll_ok : bool;
  MarshalIndent_ok : bool;
  WriteFile_ok : bool;
  Create_ok : bool;
  Flush_ok : bool;
  torn : files → files
}.

Definition default_dir (outputDir : string) : string :=
  if bool_decide (outputDir = "") then "." else outputDir.

Definition json_name (r : Report) (prefix : string) : string :=
  let sys := if bool_decide (r.(System) = "") then "" else ("_" ++ r.(System))%string in
  (prefix ++ "_" ++ r.(Scenario) ++ "_" ++ r.(Profile) ++ sys
    ++ "_conn" ++ fmt_int r.(LoadConfig).(config.Connections)
    ++ "_pay" ++ fmt_int r.(LoadConfig).(config.PayloadSize) ++ ".json")%string.

Definition csv_name (r : Report) (prefix : string) : string :=
  (prefix ++ "_" ++ r.(Scenario) ++ "_" ++ r.(Profile) ++ "_" ++ r.(System)
    ++ "_conn" ++ fmt_int r.(LoadConfig).(config.Connections)
    ++ "_pay" ++ fmt_int r.(LoadConfig).(config.PayloadSize) ++ ".csv")%string.

Definition SaveJSON (env : save_env) (r : Report) (outputDir prefix : string) :
    prog_on files save_error (string * string) :=
  let outputDir := default_dir outputDir in
  if env.(MkdirAll_ok) then
    let filename := (outputDir, json_name r prefix) in
    if env.(MarshalIndent_ok) then
      if env.(WriteFile_ok) then modify <[filename := JSON r]>;; mret filename
      else modify env.(torn);; throw WriteReport
    else throw Marshal
  else throw CreateDir.

Definition csv_header : list string :=
  ["timestamp"; "scenario"; "profile"; "system";
   "workers"; "streams"; "workload"; "total"; "success"; "error";
   "success_rate"; "rps"; "avg_latency_ns"; "min_latency_ns";
   "max_latency_ns"; "p50_ns"; "p90_ns"; "p95_ns"; "p99_ns"; "p99_9_ns"].

Section csv.
(** [Time.Format] with the layouts [time.RFC3339] and [time.RFC3339Nano], which
    depend on the local time zone. *)
Variables RFC3339 RFC3339Nano : Z → string.

Definition csv_summary (r : Report) : list string :=
  [RFC3339 r.(Timestamp); r.(Scenario); r.(Profile); r.(System);
   fmt_int r.(LoadConfig).(config.Workers); fmt_int r.(LoadConfig).(config.Streams);
   r.(LoadConfig).(config.Workload);
   fmt_int r.(TotalRequests); fmt_int r.(SuccessCount); fmt_int r.(ErrorCount);
   fmt_fixed 4 r.(SuccessRate); fmt_fixed 2 r.(RPS);
   fmt_int r.(AvgLatency); fmt_int r.(MinLatency); fmt_int r.(MaxLatency);
   fmt_int r.(P50); fmt_int r.(P90); fmt_int r.(P95); fmt_int r.(P99); fmt_int r.(P999)].

Definition csv_sample (s : Sample) : list string :=
  let errStr := if s.(s_Success) then "" else s.(s_Error) in
  [RFC3339Nano s.(s_Start); fmt_int s.(s_Duration); fmt_int s.(s_QueueTime);
   fmt_int s.(s_NetworkTime); if s.(s_Success) then "true" else "false"; errStr;
   fmt_int s.(s_PayloadSize); fmt_int s.(s_WorkerID)].

(** The errors of the writer are not looked at: a flush that fails is not
    reported. *)
Definition SaveCSV (env : save_env) (r : Report) (outputDir prefix : string) :
    prog_on files save_error (string * string) :=
  let outputDir := default_dir outputDir in
  if env.(MkdirAll_ok) then
    let filename := (outputDir, csv_name r prefix) in
    if env.(Create_ok) then
      let records := csv_header :: csv_summary r :: map csv_sample r.(RawSamples) in
      modify (if env.(Flush_ok) then <[filename := CSV records]> else env.(torn));;
      mret filename
    else throw CreateCSV
  else throw CreateDir.
End csv.

End metrics.
