(* ===== verification/MetricsFacts.v ===== *)
(** * Correctness of the report

    The counts of a report, the order of its latencies (the percentiles are
    computed with [float64] interpolation), and its distribution as a partition
    of the successful samples. *)

From Stdlib Require Import Qround Lqa.
From stdpp Require Import gmap sorting.
From S2P Require Import Prelude.
From S2P Require Import Float64.
From S2P Require Import GoTime.
From S2P Require Import BenchConfig.
From S2P Require Import Metrics.

Import metrics.

(** ** Percentiles *)

#[local] Open Scope Q_scope.

(** A latency that [float64] represents: at most [2 ^ 53] ns, which is 104 days. *)
Definition exact (q : float64) : Prop := ∃ z, (0 <= z <= 2 ^ 53)%Z ∧ q == inject_Z z.

Lemma exact_sub a b : exact a → exact b → a <= b → (b - a)%F == b - a.
Proof.
  intros (x & Hx & Ea) (y & Hy & Eb) Hab. rewrite Ea, Eb, <- Zle_Qle in Hab.
  unfold fsub. rewrite Ea, Eb. unfold Qminus. rewrite <- inject_Z_opp, <- inject_Z_plus.
  apply of_int_exact. lia.
Qed.

Lemma exact_rnd a : exact a → rnd a == a.
Proof. intros (z & Hz & E). rewrite E. apply of_int_exact. lia. Qed.

Lemma exact_rnd_le a q : exact a → q <= a → rnd q <= a.
Proof. intros Ha H%rnd_mono. by rewrite (exact_rnd a Ha) in H. Qed.
Lemma exact_rnd_ge a q : exact a → a <= q → a <= rnd q.
Proof. intros Ha H%rnd_mono. by rewrite (exact_rnd a Ha) in H. Qed.

Lemma exact_0 : exact 0.
Proof. by exists 0%Z. Qed.
Lemma exact_1 : exact 1.
Proof. by exists 1%Z. Qed.
Lemma exact_of_int z : (0 <= z <= 2 ^ 53)%Z → exact (of_int z).
Proof. intros Hz. exists z. split; [done|]. apply of_int_exact. lia. Qed.
#[local] Hint Resolve exact_0 exact_1 exact_of_int : core.

Definition interp (frac a b : float64) : float64 := (a + frac * (b - a))%F.

(** Interpolation stays between its ends, in spite of three roundings. *)
Lemma interp_bounds frac a b :
  exact a → exact b → a <= b → 0 <= frac <= 1 → a <= interp frac a b <= b.
Proof.
  intros Ha Hb Hab Hf. unfold interp, fadd. pose proof (exact_sub a b Ha Hb Hab) as E.
  assert (exact (b - a)) as Hd.
  { destruct Ha as (x & Hx & Ea), Hb as (y & Hy & Eb). exists (y - x)%Z.
    rewrite Ea, Eb, <- Zle_Qle in Hab. split; [lia|].
    rewrite Ea, Eb. unfold Qminus. by rewrite <- inject_Z_opp, <- inject_Z_plus. }
  assert (0 <= (frac * (b - a))%F <= b - a) as [H0 H1].
  { unfold fmul. rewrite E. split; [apply exact_rnd_ge|apply exact_rnd_le]; auto; nra. }
  split; [apply exact_rnd_ge|apply exact_rnd_le]; auto; lra.
Qed.

Lemma interp_mono frac frac' a b :
  exact a → exact b → a <= b → frac <= frac' → interp frac a b <= interp frac' a b.
Proof.
  intros Ha Hb Hab Hf. unfold interp, fadd. apply rnd_mono.
  assert ((frac * (b - a))%F <= (frac' * (b - a))%F); [|lra].
  unfold fmul. apply rnd_mono. rewrite (exact_sub a b) by done. nra.
Qed.

Section percentile.
Context (sorted : list float64).
Context (Hsorted : StronglySorted Qle sorted).
Context (Hexact : Forall exact sorted).
Context (Hlen : (0 < len sorted <= 2 ^ 53)%Z).

Lemma sorted_lookup_le i j a b :
  (i <= j)%nat → sorted !! i = Some a → sorted !! j = Some b → a <= b.
Proof.
  intros Hij Ha Hb. destruct (decide (i = j)) as [->|?]; [simplify_eq; apply Qle_refl|].
  assert (∀ l, StronglySorted Qle l → ∀ i j a b, (i < j)%nat → l !! i = Some a →
    l !! j = Some b → a <= b) as H; [|by apply (H sorted Hsorted i j); try lia].
  clear. induction 1 as [|x l Hl IH Hx]; intros i j a b Hij Ha Hb; [done|].
  destruct j as [|j]; [lia|]. destruct i as [|i]; simpl in *.
  - simplify_eq. rewrite Forall_lookup in Hx. by apply (Hx j).
  - apply (IH i j); auto; lia.
Qed.

Lemma lookup_exact i a : sorted !! i = Some a → exact a.
Proof. intros H. by apply (Forall_lookup_1 _ _ i a Hexact). Qed.

(** The position of percentile [p] and its fraction. *)
Definition pos (p : float64) : float64 := (p / 100 * of_int (len sorted - 1))%F.
Definition pos_frac (p : float64) : float64 := (pos p - of_int (to_int (pos p)))%F.

Lemma pos_bounds p : 0 <= p <= 100 → 0 <= pos p <= inject_Z (len sorted - 1).
Proof.
  intros Hp. unfold pos, fmul, fdiv.
  assert (of_int (len sorted - 1) == inject_Z (len sorted - 1)) as E by (apply of_int_exact; lia).
  assert (0 <= inject_Z (len sorted - 1)) by (change 0 with (inject_Z 0); rewrite <- Zle_Qle; lia).
  assert (0 <= rnd (p / 100) <= 1) as [H1 H2].
  { split; [apply exact_rnd_ge|apply exact_rnd_le]; auto;
      [apply Qle_shift_div_l|apply Qle_shift_div_r]; lra. }
  change (inject_Z 0) with 0 in *. rewrite E.
  assert (exact (inject_Z (len sorted - 1))) by (exists (len sorted - 1)%Z; split; [lia|done]).
  split; [apply exact_rnd_ge|apply exact_rnd_le]; auto; nra.
Qed.

Lemma pos_mono p p' : 0 <= p → p <= p' → pos p <= pos p'.
Proof.
  intros H0 Hp. unfold pos, fmul, fdiv. apply rnd_mono.
  assert (0 <= of_int (len sorted - 1)) by (apply exact_rnd_ge; auto; change 0 with (inject_Z 0); rewrite <- Zle_Qle; lia).
  assert (rnd (p / 100) <= rnd (p' / 100)); [|nra].
  apply rnd_mono, Qmult_le_compat_r; done.
Qed.

Lemma pos_int p : 0 <= p <= 100 → (0 <= to_int (pos p) <= len sorted - 1)%Z.
Proof. intros Hp. by apply to_int_bounds, pos_bounds. Qed.

Lemma of_pos_int p : 0 <= p <= 100 → of_int (to_int (pos p)) == inject_Z (to_int (pos p)).
Proof. intros Hp%pos_int. apply of_int_exact. lia. Qed.

Lemma pos_frac_bounds p : 0 <= p <= 100 → 0 <= pos_frac p <= 1.
Proof.
  intros Hp. unfold pos_frac, fsub. rewrite (of_pos_int p Hp).
  destruct (to_int_floor (pos p)) as [H1 H2]; [by apply pos_bounds|].
  split; [apply exact_rnd_ge|apply exact_rnd_le]; auto; lra.
Qed.

(** The percentile is read between positions [i] and [i + 1], or at the last
    position; in both cases it does not panic. *)
Lemma percentile_eq p : 0 < p < 100 →
  let i := Z.to_nat (to_int (pos p)) in
  ∃ a, sorted !! i = Some a ∧
  ((∃ b, sorted !! S i = Some b ∧ percentile sorted p = Ok (interp (pos_frac p) a b)) ∨
   (i = (length sorted - 1)%nat ∧ percentile sorted p = Ok a)).
Proof.
  intros Hp i. assert (0 <= to_int (pos p) <= len sorted - 1)%Z as Hi by (apply pos_int; lra).
  assert (is_Some (sorted !! i)) as [a Ha] by (apply lookup_lt_is_Some; unfold len in *; lia).
  exists a. split; [done|].
  unfold percentile. rewrite (proj2 (Z.eqb_neq _ _)) by lia.
  rewrite (proj2 (fleb_false p 0)), (proj2 (fleb_false 100 p)) by lra.
  fold (pos p). fold (pos_frac p).
  assert (index sorted (to_int (pos p)) = Ok a) as -> by (apply index_Ok; split; [lia|done]).
  destruct (to_int (pos p) + 1 <? len sorted)%Z eqn:E; z_bools.
  - left. assert (is_Some (sorted !! S i)) as [b Hb] by (apply lookup_lt_is_Some; unfold len in *; lia).
    exists b. split; [done|]. simpl.
    assert (index sorted (to_int (pos p) + 1) = Ok b) as ->; [|done].
    apply index_Ok. split; [lia|]. by replace (Z.to_nat _) with (S i) by lia.
  - right. split; [unfold len in *; lia|done].
Qed.

(** Percentiles exist, are exact between the smallest and the largest latency,
    and grow with [p]. *)
Lemma percentile_bounds p lo hi :
  0 < p < 100 → sorted !! 0%nat = Some lo → last sorted = Some hi →
  ∃ v, percentile sorted p = Ok v ∧ lo <= v <= hi.
Proof.
  intros Hp Hlo Hhi. rewrite last_lookup in Hhi.
  destruct (percentile_eq p Hp) as (a & Ha & [(b & Hb & ->)|[_ ->]]).
  - eexists; split; [done|]. destruct (interp_bounds (pos_frac p) a b) as [H1 H2].
    + by eapply lookup_exact.
    + by eapply lookup_exact.
    + by eapply sorted_lookup_le; [|done..]; lia.
    + apply pos_frac_bounds. lra.
    + pose proof (sorted_lookup_le 0 _ lo a ltac:(lia) Hlo Ha).
      pose proof (lookup_lt_Some _ _ _ Hb).
      pose proof (sorted_lookup_le (S (Z.to_nat (to_int (pos p)))) (Nat.pred (length sorted)) b hi ltac:(lia) Hb Hhi). lra.
  - eexists; split; [done|]. pose proof (lookup_lt_Some _ _ _ Ha).
    pose proof (sorted_lookup_le 0 _ lo a ltac:(lia) Hlo Ha).
    pose proof (sorted_lookup_le (Z.to_nat (to_int (pos p))) (Nat.pred (length sorted)) a hi ltac:(lia) Ha Hhi). lra.
Qed.

Lemma percentile_mono p p' v v' :
  0 < p → p <= p' → p' < 100 → percentile sorted p = Ok v → percentile sorted p' = Ok v' → v <= v'.
Proof.
  intros H0 Hp H1 Hv Hv'.
  destruct (percentile_eq p) as (a & Ha & Hcase); [lra|].
  destruct (percentile_eq p') as (a' & Ha' & Hcase'); [lra|].
  pose proof (pos_mono p p' ltac:(lra) Hp) as Hm.
  assert (to_int (pos p) <= to_int (pos p'))%Z as Hi.
  { apply to_int_mono; [|done]. apply pos_bounds. lra. }
  pose proof (pos_int p ltac:(lra)). pose proof (pos_int p' ltac:(lra)).
  assert (a' <= v') as Ha'v'.
  { destruct Hcase' as [(b' & Hb' & E')|[_ E']]; rewrite E' in Hv'; injection Hv' as <-; [|apply Qle_refl].
    apply interp_bounds; eauto using lookup_exact.
    - eapply sorted_lookup_le; [|done..]; lia.
    - apply pos_frac_bounds. lra. }
  destruct Hcase as [(b & Hb & E)|[Hl E]]; rewrite E in Hv; injection Hv as <-.
  - destruct (decide (to_int (pos p) = to_int (pos p'))) as [Heq|Hne].
    + rewrite <- Heq in Ha', Hcase'. rewrite Ha in Ha'. injection Ha' as <-.
      destruct Hcase' as [(b' & Hb' & E')|[Hl' E']].
      * rewrite Hb in Hb'. injection Hb' as <-. rewrite E' in Hv'. injection Hv' as <-.
        apply interp_mono; eauto using lookup_exact; [eapply sorted_lookup_le; [|done..]; lia|].
        unfold pos_frac, fsub. apply rnd_mono. rewrite Heq. lra.
      * pose proof (lookup_lt_Some _ _ _ Hb). lia.
    + assert (interp (pos_frac p) a b <= b) as Hib.
      { apply interp_bounds; eauto using lookup_exact.
        - eapply sorted_lookup_le; [|done..]; lia.
        - apply pos_frac_bounds. lra. }
      pose proof (sorted_lookup_le (S (Z.to_nat (to_int (pos p)))) (Z.to_nat (to_int (pos p'))) b a' ltac:(lia) Hb Ha'). lra.
  - pose proof (sorted_lookup_le (Z.to_nat (to_int (pos p))) (Z.to_nat (to_int (pos p'))) a a' ltac:(lia) Ha Ha'). lra.
Qed.

End percentile.

(** ** The loop over the samples *)

#[local] Close Scope Q_scope.
#[local] Open Scope Z_scope.

(** The durations of the successful requests, in the order of recording. *)
Definition durations (ss : list Sample) : list Z :=
  omap (λ s, if s.(s_Success) then Some s.(s_Duration) else None) ss.

Definition sum (ds : list Z) : Z := foldl Z.add 0 ds.
Definition minimum (ds : list Z) : Z := foldl Z.min (2 ^ 63 - 1) ds.
Definition maximum (ds : list Z) : Z := foldl Z.max 0 ds.

Lemma durations_snoc ss s :
  durations (ss ++ [s]) = (durations ss ++ if s.(s_Success) then [s.(s_Duration)] else [])%list.
Proof. unfold durations. rewrite omap_app. simpl. by destruct (s_Success s). Qed.

Lemma len_durations ss : len (durations ss) ≤ len ss.
Proof.
  induction ss as [|s ss IH] using rev_ind; [done|].
  rewrite durations_snoc. case_match; len_lia.
Qed.

Lemma len_pos {A} (l : list A) : l ≠ [] → 0 < len l.
Proof. destruct l; [done|len_lia]. Qed.

Lemma sum_snoc ds d : sum (ds ++ [d]) = sum ds + d.
Proof. unfold sum. by rewrite foldl_app. Qed.

Lemma sum_nonneg ds : Forall (λ d, 0 ≤ d) ds → 0 ≤ sum ds.
Proof.
  induction ds as [|d ds IH] using rev_ind; [done|].
  rewrite Forall_app, Forall_singleton, sum_snoc. intros [? ?]. specialize (IH ltac:(done)). lia.
Qed.

(** What the loop computes, when the sum of the latencies fits an [int64]. *)
Lemma tally_spec ss :
  len ss < 2 ^ 63 → Forall (λ d, 0 ≤ d) (durations ss) → sum (durations ss) < 2 ^ 63 →
  foldl tally_sample tally_init ss =
    mkTally (len (durations ss)) (len ss - len (durations ss)) (sum (durations ss))
      (minimum (durations ss)) (maximum (durations ss)) (of_int <$> durations ss).
Proof.
  induction ss as [|s ss IH] using rev_ind; [done|]. rewrite foldl_snoc.
  rewrite durations_snoc. pose proof (len_durations ss) as Hd.
  unfold minimum, maximum. rewrite !foldl_app, fmap_app. intros Hl Hpos Hsum.
  apply Forall_app in Hpos as [Hpos Hs]. len_simpl.
  pose proof (sum_nonneg _ Hpos) as Hn. pose proof (len_nonneg (durations ss)).
  rewrite IH; [|lia|done|].
  - unfold tally_sample; simpl. destruct (s_Success s); simpl.
    + rewrite Forall_singleton in Hs. rewrite sum_snoc in Hsum |- *. len_simpl.
      rewrite (i64_id (len _ + 1)), (i64_id (sum _ + _)) by lia.
      unfold minimum, maximum. f_equal; try lia; case_match; z_bools; lia.
    + rewrite i64_id by lia. rewrite !app_nil_r. f_equal; len_lia.
  - destruct (s_Success s); [rewrite sum_snoc in Hsum; rewrite Forall_singleton in Hs; lia|].
    by rewrite app_nil_r in Hsum.
Qed.

Lemma minimum_spec ds :
  ds ≠ [] → Forall (λ d, d < 2 ^ 63) ds → minimum ds ∈ ds ∧ Forall (λ d, minimum ds ≤ d) ds.
Proof.
  induction ds as [|d ds IH] using rev_ind; [done|]. intros _ H.
  rewrite Forall_app, Forall_singleton in H. destruct H as [H Hd]. unfold minimum in *. rewrite foldl_app; simpl.
  destruct (decide (ds = [])) as [->|Hne].
  - simpl. rewrite Z.min_r by lia. split; [by left|by repeat constructor].
  - destruct (IH Hne H) as [Hin Hall]. rewrite elem_of_app, Forall_app, Forall_singleton.
    rewrite list_elem_of_singleton. split; [|split; [|lia]].
    + destruct (Z.min_spec (foldl Z.min (2 ^ 63 - 1) ds) d) as [[? ->]|[? ->]]; auto.
    + eapply Forall_impl; [exact Hall|]. simpl. lia.
Qed.

Lemma maximum_spec ds :
  ds ≠ [] → Forall (λ d, 0 ≤ d) ds → maximum ds ∈ ds ∧ Forall (λ d, d ≤ maximum ds) ds.
Proof.
  induction ds as [|d ds IH] using rev_ind; [done|]. intros _ H.
  rewrite Forall_app, Forall_singleton in H. destruct H as [H Hd]. unfold maximum in *. rewrite foldl_app; simpl.
  destruct (decide (ds = [])) as [->|Hne].
  - simpl. rewrite Z.max_r by lia. split; [by left|by repeat constructor].
  - destruct (IH Hne H) as [Hin Hall]. rewrite elem_of_app, Forall_app, Forall_singleton.
    rewrite list_elem_of_singleton. split; [|split; [|lia]].
    + destruct (Z.max_spec (foldl Z.max 0 ds) d) as [[? ->]|[? ->]]; auto.
    + eapply Forall_impl; [exact Hall|]. simpl. lia.
Qed.

Lemma sum_bounds ds lo hi :
  Forall (λ d, lo ≤ d) ds → Forall (λ d, d ≤ hi) ds → lo * len ds ≤ sum ds ≤ hi * len ds.
Proof.
  induction ds as [|d ds IH] using rev_ind; [unfold sum; simpl; rewrite len_nil; lia|].
  rewrite !Forall_app, !Forall_singleton, sum_snoc. len_simpl. intros [? ?] [? ?].
  specialize (IH ltac:(done) ltac:(done)). lia.
Qed.

(** ** The sorted latencies *)

Lemma Float64s_perm l : Float64s l ≡ₚ l.
Proof. apply merge_sort_Permutation. Qed.
Lemma Float64s_sorted l : StronglySorted Qle (Float64s l).
Proof. apply StronglySorted_merge_sort; apply _. Qed.
Lemma len_Float64s l : len (Float64s l) = len l.
Proof. unfold len. by rewrite Float64s_perm. Qed.

Lemma sorted_elem ds q :
  q ∈ Float64s (of_int <$> ds) → ∃ d, d ∈ ds ∧ q = of_int d.
Proof. rewrite Float64s_perm, list_elem_of_fmap. naive_solver. Qed.

(** The successful durations are values of [float64]. *)
Definition representable (ds : list Z) : Prop := Forall (λ d, 0 ≤ d ≤ 2 ^ 53) ds.

Lemma sorted_exact ds : representable ds → Forall exact (Float64s (of_int <$> ds)).
Proof.
  unfold representable. rewrite !Forall_forall. intros H q (d & Hd & ->)%sorted_elem.
  apply exact_of_int. by apply H.
Qed.

Lemma representable_bounds ds :
  representable ds → Forall (λ d, 0 ≤ d) ds ∧ Forall (λ d, d < 2 ^ 63) ds.
Proof. intros H. split; (eapply Forall_impl; [exact H|]); simpl; lia. Qed.

Section latencies.
Context (ds : list Z).
Context (Hds : representable ds) (Hne : ds ≠ []) (Hlen : len ds ≤ 2 ^ 53).

#[local] Abbreviation sorted := (Float64s (of_int <$> ds)).

Lemma sorted_len : 0 < len sorted ≤ 2 ^ 53.
Proof.
  rewrite len_Float64s. unfold len in *. rewrite length_fmap.
  destruct ds; [done|]. simpl in *. lia.
Qed.

Lemma sorted_range q :
  q ∈ sorted → (inject_Z (minimum ds) <= q <= inject_Z (maximum ds))%Q.
Proof.
  intros (d & Hd & ->)%sorted_elem. destruct (representable_bounds ds Hds) as [H0 H1].
  destruct (minimum_spec ds Hne H1) as [_ Hmin]. destruct (maximum_spec ds Hne H0) as [_ Hmax].
  unfold representable in Hds. rewrite Forall_forall in Hmin, Hmax, Hds.
  rewrite of_int_exact by (specialize (Hds d Hd); lia).
  rewrite <- !Zle_Qle. split; auto.
Qed.

Lemma minimum_nonneg : 0 ≤ minimum ds.
Proof.
  destruct (representable_bounds ds Hds) as [H0 H1].
  destruct (minimum_spec ds Hne H1) as [Hin _]. rewrite Forall_forall in H0. by apply H0.
Qed.

Lemma percentile_value p :
  (0 < p < 100)%Q →
  ∃ v, percentile sorted p = Ok v ∧ (inject_Z (minimum ds) <= v <= inject_Z (maximum ds))%Q.
Proof.
  intros Hp. pose proof sorted_len as Hl.
  assert (is_Some (sorted !! 0%nat)) as [lo Hlo] by (apply lookup_lt_is_Some; unfold len in Hl; lia).
  assert (is_Some (last sorted)) as [hi Hhi].
  { apply last_is_Some. intros E%(f_equal len). rewrite len_nil in E. lia. }
  destruct (percentile_bounds sorted (Float64s_sorted _) (sorted_exact _ Hds) Hl p lo hi Hp Hlo Hhi)
    as (v & Hv & Hb).
  exists v. split; [done|].
  apply list_elem_of_lookup_2, sorted_range in Hlo. apply last_Some_elem_of, sorted_range in Hhi.
  split; [apply (Qle_trans _ lo)|apply (Qle_trans _ hi)]; tauto.
Qed.

Lemma percentile_duration_bounds p :
  (0 < p < 100)%Q →
  ∃ z, percentile_duration sorted p = Ok z ∧ minimum ds ≤ z ≤ maximum ds.
Proof.
  intros (v & Hv & Hb)%percentile_value. exists (to_int v).
  unfold percentile_duration. rewrite Hv. split; [done|].
  apply to_int_bounds; [apply minimum_nonneg|done].
Qed.

Lemma percentile_duration_mono p p' z z' :
  (0 < p)%Q → (p <= p')%Q → (p' < 100)%Q →
  percentile_duration sorted p = Ok z → percentile_duration sorted p' = Ok z' → z ≤ z'.
Proof.
  intros H0 Hp H1. destruct (percentile_value p) as (v & Hv & Hb); [lra|].
  destruct (percentile_value p') as (v' & Hv' & _); [lra|].
  unfold percentile_duration. rewrite Hv, Hv'. intros [= <-] [= <-].
  apply to_int_mono; [|by apply (percentile_mono sorted (Float64s_sorted _) (sorted_exact _ Hds)
    sorted_len p p')].
  pose proof minimum_nonneg as Hm. rewrite Zle_Qle in Hm. change (inject_Z 0) with 0%Q in Hm. lra.
Qed.

Lemma average_bounds : minimum ds ≤ Z.quot (sum ds) (len ds) ≤ maximum ds.
Proof.
  destruct (representable_bounds ds Hds) as [H0 H1].
  destruct (minimum_spec ds Hne H1) as [_ Hmin]. destruct (maximum_spec ds Hne H0) as [_ Hmax].
  pose proof (sum_bounds ds _ _ Hmin Hmax). pose proof (sum_nonneg ds H0).
  pose proof (len_pos ds Hne).
  rewrite Z.quot_div_nonneg by lia. split; [apply Z.div_le_lower_bound|apply Z.div_le_upper_bound]; lia.
Qed.

(** All latency fields of the report at once. *)
Lemma latency_fields_spec t :
  t.(totalLatency) = sum ds → t.(minLatency) = minimum ds → t.(maxLatency) = maximum ds →
  ∃ p50 p90 p95 p99 p999,
    latency_fields t sorted =
      Ok (Z.quot (sum ds) (len ds), minimum ds, maximum ds, (p50, p90, p95, p99, p999)) ∧
    minimum ds ≤ p50 ≤ p90 ∧ p90 ≤ p95 ≤ p99 ∧ p99 ≤ p999 ≤ maximum ds.
Proof.
  intros Ht Hmin Hmax. unfold latency_fields.
  rewrite (proj2 (Z.ltb_lt _ _)) by apply sorted_len.
  assert (0 < rnd (999 # 10) < 100)%Q as H999 by (vm_compute; done).
  assert (99 <= rnd (999 # 10))%Q as H99 by (vm_compute; done).
  destruct (percentile_duration_bounds 50) as (p50 & E50 & B50); [lra|].
  destruct (percentile_duration_bounds 90) as (p90 & E90 & _); [lra|].
  destruct (percentile_duration_bounds 95) as (p95 & E95 & _); [lra|].
  destruct (percentile_duration_bounds 99) as (p99 & E99 & _); [lra|].
  destruct (percentile_duration_bounds (rnd (999 # 10))) as (p999 & E999 & B999); [done|].
  pose proof (percentile_duration_mono 50 90 _ _ ltac:(lra) ltac:(lra) ltac:(lra) E50 E90).
  pose proof (percentile_duration_mono 90 95 _ _ ltac:(lra) ltac:(lra) ltac:(lra) E90 E95).
  pose proof (percentile_duration_mono 95 99 _ _ ltac:(lra) ltac:(lra) ltac:(lra) E95 E99).
  pose proof (percentile_duration_mono 99 _ _ _ ltac:(lra) H99 ltac:(lra) E99 E999).
  rewrite E50, E90, E95, E99, E999. simpl. rewrite Ht, Hmin, Hmax.
  rewrite len_Float64s. unfold len at 1. rewrite length_fmap.
  eexists _, _, _, _, _. split; [reflexivity|]. lia.
Qed.
End latencies.

Lemma success_rate_bounds k n :
  0 ≤ k ≤ n → 0 < n ≤ 2 ^ 53 → (0 <= (of_int k / of_int n * 100)%F <= 100)%Q.
Proof.
  intros Hk Hn. assert (of_int n == inject_Z n)%Q as En by (apply of_int_exact; lia).
  assert (of_int k == inject_Z k)%Q as Ek by (apply of_int_exact; lia).
  unfold fmul, fdiv.
  assert (0 < inject_Z n)%Q by (change 0%Q with (inject_Z 0); rewrite <- Zlt_Qlt; lia).
  assert (0 <= inject_Z k <= inject_Z n)%Q as [Hk0 Hkn].
  { change 0%Q with (inject_Z 0). rewrite <- !Zle_Qle. lia. }
  assert (0 <= rnd (of_int k / of_int n) <= 1)%Q as [H1 H2].
  { rewrite En, Ek. split; [apply exact_rnd_ge|apply exact_rnd_le]; auto;
      [apply Qle_shift_div_l|apply Qle_shift_div_r]; lra. }
  assert (exact 100) by (by exists 100).
  split; [apply exact_rnd_ge|apply exact_rnd_le]; auto; lra.
Qed.

(** ** The distribution *)

(** The bucket a latency is counted in. *)
Fixpoint bucket_name (bs : list (string * float64)) (l : float64) : option string :=
  match bs with
  | [] => None
  | (name, limit) :: bs => if (l <? limit)%F then Some name else bucket_name bs l
  end.

Lemma count_bucket_eq bs l dist :
  count_bucket bs l dist =
    match bucket_name bs l with
    | Some n => <[n := default 0 (dist !! n) + 1]> dist
    | None => dist
    end.
Proof.
  induction bs as [|[n lim] bs IH]; [done|]. cbn [count_bucket bucket_name].
  by destruct (l <? lim)%F.
Qed.

(** The number of occurrences of a bucket, absent when it is zero. *)
Definition occurrences (n : string) (l : list float64) : Z :=
  len (filter (λ q, bucket_name buckets q = Some n) l).

Lemma occurrences_snoc n l q :
  occurrences n (l ++ [q]) =
    occurrences n l + if decide (bucket_name buckets q = Some n) then 1 else 0.
Proof.
  unfold occurrences. rewrite filter_app, len_app, filter_cons, filter_nil. by case_decide.
Qed.

Lemma occurrences_perm n l l' : l ≡ₚ l' → occurrences n l = occurrences n l'.
Proof. intros H. unfold occurrences, len. by rewrite H. Qed.

Lemma buildDistribution_lookup l n :
  buildDistribution l !! n = if occurrences n l =? 0 then None else Some (occurrences n l).
Proof.
  unfold buildDistribution. induction l as [|q l IH] using rev_ind; [done|].
  rewrite foldl_snoc, count_bucket_eq, occurrences_snoc.
  assert (0 ≤ occurrences n l) as Hpos by apply len_nonneg.
  generalize dependent (occurrences n l). intros k IH Hk.
  destruct (bucket_name buckets q) as [m|]; [|by rewrite Z.add_0_r].
  destruct (decide (m = n)) as [->|Hne].
  - rewrite decide_True, lookup_insert_eq, IH by done.
    rewrite (proj2 (Z.eqb_neq (k + 1) 0)) by lia. f_equal.
    destruct (k =? 0) eqn:E; z_bools; [|done]. simpl. lia.
  - rewrite decide_False, lookup_insert_ne by congruence. by rewrite Z.add_0_r.
Qed.

(** The number of latencies that a distribution counts. *)
Definition dist_total (dist : gmap string Z) : Z := map_fold (λ _ k t, k + t) 0 dist.

Lemma total_insert n k dist : dist !! n = None → dist_total (<[n := k]> dist) = k + dist_total dist.
Proof. intros H. unfold dist_total. apply map_fold_insert_L; [lia|done]. Qed.

Lemma total_count_up n dist : dist_total (<[n := default 0 (dist !! n) + 1]> dist) = dist_total dist + 1.
Proof.
  destruct (dist !! n) as [k|] eqn:E; simpl; [|rewrite total_insert by done; lia].
  rewrite <- (insert_delete_id dist n k E) at 2.
  rewrite <- (insert_delete_eq dist n (k + 1)).
  rewrite !total_insert by apply lookup_delete_eq. lia.
Qed.

Lemma total_buildDistribution l :
  Forall (λ q, is_Some (bucket_name buckets q)) l → dist_total (buildDistribution l) = len l.
Proof.
  unfold buildDistribution. induction l as [|q l IH] using rev_ind; [done|].
  rewrite Forall_app, Forall_singleton, foldl_snoc, count_bucket_eq, len_app.
  intros [Hl [n ->]]. by rewrite total_count_up, IH.
Qed.

(** The buckets as half-open ranges of nanoseconds. *)
Definition ranges : list (string * (Z * Z)) := [
  ("<1ms", (0, 1000000)); ("1-5ms", (1000000, 5000000)); ("5-10ms", (5000000, 10000000));
  ("10-25ms", (10000000, 25000000)); ("25-50ms", (25000000, 50000000));
  ("50-100ms", (50000000, 100000000)); ("100-250ms", (100000000, 250000000));
  ("250-500ms", (250000000, 500000000)); ("500ms-1s", (500000000, 1000000000));
  ("1-2s", (1000000000, 2000000000)); ("2-5s", (2000000000, 5000000000));
  (">5s", (5000000000, 2 ^ 63))
]%string.

Definition range_name (d : Z) : option string :=
  fst <$> List.find (λ '(_, (_, hi)), d <? hi) ranges.

Lemma fltb_of_int d k : 0 ≤ d ≤ 2 ^ 53 → 0 ≤ k ≤ 2 ^ 53 → (of_int d <? of_int k)%F = (d <? k).
Proof.
  intros Hd Hk. destruct (d <? k) eqn:E; z_bools.
  - apply fltb_true. rewrite !of_int_exact by lia. by rewrite <- Zlt_Qlt.
  - apply fltb_false. rewrite !of_int_exact by lia. by rewrite <- Zle_Qle.
Qed.

Lemma max_float_above d : 0 ≤ d ≤ 2 ^ 53 → (of_int d <? inject_Z ((2 ^ 53 - 1) * 2 ^ 971))%F = true.
Proof.
  intros Hd. apply fltb_true. rewrite of_int_exact, <- Zlt_Qlt by lia.
  assert (2 ^ 53 < (2 ^ 53 - 1) * 2 ^ 971) by (vm_compute; done). lia.
Qed.

Lemma bucket_name_range d : 0 ≤ d ≤ 2 ^ 53 → bucket_name buckets (of_int d) = range_name d.
Proof.
  intros Hd. unfold range_name, buckets, ranges, time.Second, time.Millisecond, time.Microsecond,
    time.Nanosecond. cbn [bucket_name List.find].
  rewrite !fltb_of_int, max_float_above by lia.
  rewrite (proj2 (Z.ltb_lt d (2 ^ 63))) by lia.
  repeat match goal with |- context [d <? ?k] =>
    let k' := eval vm_compute in k in progress change k with k' end.
  repeat (case_match; [done|]). done.
Qed.

Lemma range_name_iff d n lo hi :
  0 ≤ d ≤ 2 ^ 53 → (n, (lo, hi)) ∈ ranges → range_name d = Some n ↔ lo ≤ d < hi.
Proof.
  intros Hd Hin. unfold range_name, ranges. cbn [List.find].
  rewrite (proj2 (Z.ltb_lt d (2 ^ 63))) by lia.
  repeat (apply elem_of_cons in Hin as [[= -> -> ->]|Hin];
    [repeat (case_match; z_bools; [simpl; split; [intros [=]; lia|intros; try lia; done]|]);
     simpl; split; [intros [=]; lia|intros; try lia; done]|]).
  by apply not_elem_of_nil in Hin.
Qed.

Lemma occurrences_range ds n lo hi :
  representable ds → (n, (lo, hi)) ∈ ranges →
  occurrences n (of_int <$> ds) = len (filter (λ d, lo ≤ d < hi) ds).
Proof.
  intros Hds Hin. induction ds as [|d ds IH] using rev_ind; [done|].
  unfold representable in *. rewrite Forall_app, Forall_singleton in Hds. destruct Hds as [Hds Hd].
  rewrite fmap_app. simpl. rewrite occurrences_snoc, filter_app, len_app, filter_cons, filter_nil.
  rewrite (IH Hds), bucket_name_range by done.
  rewrite (decide_ext _ _ 1 0 (range_name_iff d n lo hi Hd Hin)). by case_decide.
Qed.

(** ** The theorems *)

(** The report exists, whatever the samples are. *)
Lemma report_total now scenario profile system lc saveRaw c :
  len c.(samples) ≤ 2 ^ 53 → representable (durations c.(samples)) →
  sum (durations c.(samples)) < 2 ^ 63 →
  ∃ r, report now scenario profile system lc saveRaw c = Ok r.
Proof.
  intros Hlen Hds Hsum. unfold report. destruct (len c.(samples) =? 0); [eauto|].
  pose proof (len_durations c.(samples)) as Hk. assert (len c.(samples) < 2 ^ 63) as Hl by lia.
  rewrite (tally_spec _ Hl (proj1 (representable_bounds _ Hds)) Hsum). cbn [latencies].
  destruct (decide (durations c.(samples) = [])) as [->|E]; [simpl; eauto|].
  edestruct (latency_fields_spec _ Hds E) as (p50 & p90 & p95 & p99 & p999 & -> & _);
    [lia|done..|]. simpl. eauto.
Qed.

(** C27: on any samples whose successful durations [float64] represents and
    whose sum fits an [int64], [Report] returns a report: its counts partition
    the samples, its success rate is a percentage, its extreme latencies are
    the smallest and largest recorded ones, the average lies between them, and
    the interpolated percentiles lie between them in increasing order. *)
Theorem report_correct now scenario profile system lc saveRaw c :
  let ds := durations c.(samples) in
  c.(samples) ≠ [] → len c.(samples) ≤ 2 ^ 53 → representable ds → sum ds < 2 ^ 63 →
  ∃ r, report now scenario profile system lc saveRaw c = Ok r ∧
    (r.(TotalRequests) = len c.(samples) ∧ r.(SuccessCount) = len ds ∧
     r.(SuccessCount) + r.(ErrorCount) = r.(TotalRequests)) ∧
    (0 <= r.(SuccessRate) <= 100)%Q ∧
    (ds ≠ [] →
      (r.(MinLatency) ∈ ds ∧ r.(MaxLatency) ∈ ds ∧
       Forall (λ d, r.(MinLatency) ≤ d ≤ r.(MaxLatency)) ds) ∧
      (r.(AvgLatency) = sum ds / len ds ∧ r.(MinLatency) ≤ r.(AvgLatency) ≤ r.(MaxLatency)) ∧
      (r.(MinLatency) ≤ r.(P50) ≤ r.(P90) ∧ r.(P90) ≤ r.(P95) ≤ r.(P99) ∧
       r.(P99) ≤ r.(P999) ≤ r.(MaxLatency))).
Proof.
  intros ds Hne Hlen Hds Hsum. destruct (representable_bounds ds Hds) as [H0 H1].
  pose proof (len_durations c.(samples)) as Hk. fold ds in Hk.
  pose proof (len_pos _ Hne) as Hpos.
  unfold report. rewrite (proj2 (Z.eqb_neq _ _)) by lia.
  rewrite tally_spec by (try done; lia). fold ds. cbn [successCount errorCount latencies].
  pose proof (success_rate_bounds (len ds) (len c.(samples)) ltac:(len_lia) ltac:(lia)) as Hrate.
  destruct (decide (ds = [])) as [E|E].
  - rewrite E. simpl. eexists. split; [reflexivity|]. simpl. rewrite E in Hrate.
    split_and!; try apply Hrate; try done; lia.
  - destruct (latency_fields_spec ds Hds E ltac:(lia)
      (mkTally (len ds) (len c.(samples) - len ds) (sum ds) (minimum ds) (maximum ds) (of_int <$> ds)))
      as (p50 & p90 & p95 & p99 & p999 & -> & Hp); [done..|].
    rewrite bind_Ok. eexists. split; [reflexivity|].
    cbn [TotalRequests SuccessCount ErrorCount SuccessRate MinLatency MaxLatency AvgLatency
      P50 P90 P95 P99 P999]. split; [split_and!; [done|done|lia]|].
    split; [done|]. intros _. destruct (minimum_spec ds E H1) as [Hmin Hmin'].
    destruct (maximum_spec ds E H0) as [Hmax Hmax'].
    pose proof (average_bounds ds Hds E) as Havg. pose proof (sum_nonneg ds H0).
    split; [split_and!; [done|done|]|split; [|exact Hp]].
    + rewrite Forall_forall in Hmin', Hmax' |- *. auto.
    + split; [|exact Havg]. apply Z.quot_div_nonneg; [done|]. by apply len_pos.
Qed.

(** A collector with three successful samples and a failed one. *)
Definition sample_at (d : Z) (ok : bool) : Sample := mkSample 0 d 0 0 ok "" 100 0.
Definition four_samples : Collector :=
  mkCollector [sample_at 3000000 true; sample_at 900000 true; sample_at 7 false;
    sample_at 40000000 true] 0 time.Second.

Lemma report_correct_witness :
  ∃ r, report 0 "rtt_scaling" "lte" "qrpc" config.LoadConfig_zero false four_samples = Ok r ∧
    r.(MinLatency) ≤ r.(P50) ≤ r.(P90).
Proof.
  destruct (report_correct 0 "rtt_scaling" "lte" "qrpc" config.LoadConfig_zero false four_samples)
    as (r & Hr & _ & _ & H).
  - done.
  - by vm_compute.
  - unfold representable. simpl. repeat (constructor; [lia|]). constructor.
  - by vm_compute.
  - exists r. split; [exact Hr|]. by apply H.
Defined.

(** The distribution is computed from the successful durations, sorted. *)
Lemma report_LatencyDist now scenario profile system lc saveRaw c r :
  let ds := durations c.(samples) in
  len c.(samples) ≤ 2 ^ 53 → representable ds → sum ds < 2 ^ 63 →
  report now scenario profile system lc saveRaw c = Ok r →
  r.(LatencyDist) = buildDistribution (Float64s (of_int <$> ds)) ∧ r.(SuccessCount) = len ds.
Proof.
  intros ds Hlen Hds Hsum Hr. destruct (decide (c.(samples) = [])) as [E|E].
  - unfold report in Hr. rewrite E in Hr. injection Hr as <-. unfold ds. by rewrite E.
  - unfold report in Hr. rewrite (proj2 (Z.eqb_neq _ _)) in Hr by (pose proof (len_pos _ E); lia).
    assert (len c.(samples) < 2 ^ 63) as Hl by lia.
    rewrite (tally_spec _ Hl (proj1 (representable_bounds _ Hds)) Hsum) in Hr.
    apply bind_Ok_inv in Hr as ([[[? ?] ?] [[[[? ?] ?] ?] ?]] & _ & Hr). by injection Hr as <-.
Qed.

Lemma range_name_total d : 0 ≤ d ≤ 2 ^ 53 → is_Some (range_name d).
Proof.
  intros Hd. unfold range_name, ranges. cbn [List.find].
  rewrite (proj2 (Z.ltb_lt d (2 ^ 63))) by lia. repeat (case_match; [by eexists|]). by eexists.
Qed.

Lemma occurrences_other n l : n ∉ ranges.*1 → occurrences n l = 0.
Proof.
  intros Hn. unfold occurrences. induction l as [|q l IH]; [done|]. rewrite filter_cons.
  rewrite decide_False; [done|]. intros H. apply Hn. clear -H.
  assert (∀ bs, bucket_name bs q = Some n → n ∈ bs.*1) as Hb; [|exact (Hb buckets H)].
  induction bs as [|[m lim] bs IH]; [done|]. cbn [bucket_name]. destruct (q <? lim)%F.
  - intros [= ->]. by left.
  - intros ?. right. by apply IH.
Qed.

(** Each bucket of the distribution of a report counts the successful
    samples whose duration lies in the range that the bucket's name states, a
    bucket without samples is absent, and no sample is lost. *)
Theorem report_distribution now scenario profile system lc saveRaw c r :
  let ds := durations c.(samples) in
  len c.(samples) ≤ 2 ^ 53 → representable ds → sum ds < 2 ^ 63 →
  report now scenario profile system lc saveRaw c = Ok r →
  (∀ n lo hi, (n, (lo, hi)) ∈ ranges →
    r.(LatencyDist) !! n =
      let k := len (filter (λ d, lo ≤ d < hi) ds) in if k =? 0 then None else Some k) ∧
  (∀ n, n ∉ ranges.*1 → r.(LatencyDist) !! n = None) ∧
  dist_total r.(LatencyDist) = r.(SuccessCount).
Proof.
  intros ds Hlen Hds Hsum Hr. destruct (report_LatencyDist _ _ _ _ _ _ _ _ Hlen Hds Hsum Hr) as [-> ->].
  fold ds. split_and!.
  - intros n lo hi Hn. rewrite buildDistribution_lookup, (occurrences_perm _ _ _ (Float64s_perm _)).
    by rewrite (occurrences_range ds n lo hi Hds Hn).
  - intros n Hn. rewrite buildDistribution_lookup. by rewrite occurrences_other.
  - rewrite total_buildDistribution; [by rewrite len_Float64s; unfold len; rewrite length_fmap|].
    apply Forall_forall. intros q (d & Hd & ->)%sorted_elem.
    pose proof (proj1 (Forall_forall _ _) Hds d Hd) as Hr'. simpl in Hr'.
    rewrite bucket_name_range by done. by apply range_name_total.
Qed.

Lemma report_distribution_witness :
  ∃ r, report 0 "rtt_scaling" "lte" "qrpc" config.LoadConfig_zero false four_samples = Ok r ∧
    r.(LatencyDist) !! "1-5ms"%string = Some 1.
Proof.
  destruct (report 0 "rtt_scaling" "lte" "qrpc" config.LoadConfig_zero false four_samples)
    as [r| | |] eqn:Hr; [|by vm_compute in Hr..].
  exists r. split; [done|].
  destruct (report_distribution 0 "rtt_scaling" "lte" "qrpc" config.LoadConfig_zero false
    four_samples r) as [H _].
  - by vm_compute.
  - unfold representable. simpl. repeat (constructor; [lia|]). constructor.
  - by vm_compute.
  - exact Hr.
  - apply (H "1-5ms"%string 1000000 5000000). right. left.
Defined.
