(* ===== verification/Loader.v ===== *)
(** * The load generator of the stress tester

    [src/stress_tester/internal/loader/loader.go].  The first part has the
    functions of the file: payloads, the retry loop of the client, the
    classification of a response, the stream pool, knee points and formatting.
    The second part is the generator as a step relation: the goroutines that
    run [workerLoop], and the goroutine that calls [Warmup] and [Run], in any
    interleaving.  Random draws, the clock and the results of the calls are
    inputs. *)

From Stdlib Require Import Strings.Byte.
From stdpp Require Import gmap.
From S2P Require Import Prelude.
From S2P Require Import Float64.
From S2P Require Import GoStrings.
From S2P Require Import GoTime.
From S2P Require Import BenchConfig.
From S2P Require Import Metrics.

#[local] Open Scope string_scope.
#[local] Open Scope Z_scope.

Module loader.
Import config.

(** ** Payloads *)

Abbreviation go := (outcome Empty_set).

(** [byte(i % 256)] for each index of the buffer. *)
Definition pattern (n : nat) : list byte :=
  map (λ i, byte_of_Z (Z.of_nat i mod 256)) (seq 0 n).

(** The largest allocation of the Go runtime on a 64-bit platform. *)
Definition maxAlloc : Z := 2 ^ 48.

(** [make([]byte, size)] panics for a negative size and for one above the limit of
    the runtime ("makeslice: len out of range"); [rand.Read] fills the buffer
    ([Some]) or fails. *)
Definition makePayload (size : Z) (read : option (nat → byte)) : go (list byte) :=
  if (size <? 0) || (maxAlloc <? size) then Panic
  else
    let n := Z.to_nat size in
    if size <=? 1024 then Ok (pattern n)
    else match read with
         | Some bytes => Ok (map bytes (seq 0 n))
         | None => Ok (pattern n)
         end.

(** [rng.Intn(n)], which panics unless [n] is positive; [r] is the draw. *)
Definition Intn (r n : Z) : go Z := if n <=? 0 then Panic else Ok (r mod n).

(** The random choices of one call of [nextPayload]. *)
Record draws := mkDraws {
  d_float : float64;
  d_int : Z;
  d_read : option (nat → byte)
}.

Definition nextPayload (cfg : LoadConfig) (d : draws) : go (list byte) :=
  if bool_decide (cfg.(Workload) = WorkloadFixed) then makePayload cfg.(PayloadSize) d.(d_read)
  else if bool_decide (cfg.(Workload) = WorkloadRandom) then
    r ← Intn d.(d_int) (i64 (cfg.(MaxPayload) - cfg.(MinPayload) + 1));
    makePayload (i64 (cfg.(MinPayload) + r)) d.(d_read)
  else if bool_decide (cfg.(Workload) = WorkloadMixed) then
    if (d.(d_float) <? rnd (8 # 10))%F then
      r ← Intn d.(d_int) (1024 - 64);
      makePayload (64 + r) d.(d_read)
    else
      r ← Intn d.(d_int) 10;
      let mb := 1 + r in
      makePayload (mb * 1024 * 1024) d.(d_read)
  else makePayload 1024 d.(d_read).

(** ** Client initialisation *)

(** A client: the library that dials, the address and the number of connections. *)
Inductive client := DialGRPC (addr : string) (conns : Z) | DialQRPC (addr : string) (conns : Z).

Inductive try_error := TlsConfig | DialFailed.

(** What the environment decides in one attempt: whether the context is done
    before a delay has passed (an attempt that follows another one waits first),
    whether there is a TLS configuration, and which clients can be dialed. *)
Record attempt := mkAttempt {
  done_within : Z → bool;
  tls_ok : bool;
  dials : client → bool
}.

Definition tryInitClient (cfg : LoadConfig) (addr : string) (e : attempt) : outcome try_error client :=
  if bool_decide (cfg.(System) = SystemGRPC) then
    let c := DialGRPC addr cfg.(Connections) in
    if e.(dials) c then Ok c else Err DialFailed
  else if e.(tls_ok) then
    let c := DialQRPC addr cfg.(Connections) in
    if e.(dials) c then Ok c else Err DialFailed
  else Err TlsConfig.

(** [ctx.Err()], or [errClientInitFailed] with the last error. *)
Inductive init_error := CtxErr | InitFailed (lastErr : option try_error).

Definition attempts_of (cfg : LoadConfig) : Z :=
  if cfg.(RetryAttempts) <? 1 then 1 else cfg.(RetryAttempts).
Definition delay_of (cfg : LoadConfig) : Z :=
  if cfg.(RetryDelay) <=? 0 then 500 * time.Millisecond else cfg.(RetryDelay).

(** [for attempt := 0; attempt < attempts; attempt++]: [n] attempts are left,
    [k] have been made, [env k] is what happens in attempt [k]. *)
Fixpoint init_loop (cfg : LoadConfig) (addr : string) (env : nat → attempt) (k n : nat)
    (lastErr : option try_error) : outcome init_error client :=
  match n with
  | O => Err (InitFailed lastErr)
  | S n =>
      if negb (Nat.eqb k 0) && (env k).(done_within) (delay_of cfg) then Err CtxErr
      else match tryInitClient cfg addr (env k) with
           | Ok c => Ok c
           | Err err => init_loop cfg addr env (S k) n (Some err)
           | Panic => Panic
           | NoFuel => NoFuel
           end
  end.

Definition initClient (cfg : LoadConfig) (addr : string) (env : nat → attempt) :
    outcome init_error client :=
  init_loop cfg addr env 0 (Z.to_nat (attempts_of cfg)) None.

(** ** One request *)

(** What [SendRequest] returned: an error, neither error nor response, or a
    response with its code. *)
Inductive call_result :=
| CallErr (msg : string)
| CallNil
| CallCode (code : Z).

(** The sample of a finished call, as the four branches of [workerLoop] fill it. *)
Definition sample_of (start latency : Z) (res : call_result) (payload : list byte) (id : Z) :
    metrics.Sample :=
  match res with
  | CallErr msg => metrics.mkSample start latency 0 0 false msg (len payload) id
  | CallNil => metrics.mkSample start latency 0 0 false "nil response without error" (len payload) id
  | CallCode code =>
      if code =? 200 then metrics.mkSample start latency 0 0 true "" (len payload) id
      else metrics.mkSample start latency 0 0 false
             ("unexpected code " ++ fmt_int code)%string (len payload) id
  end.

(** ** Stream pool *)

Record StreamPool := mkStreamPool { streams : list Z; acquired : Z }.

Definition NewStreamPool (count : Z) : go StreamPool :=
  if count <? 0 then Panic else Ok (mkStreamPool (replicate (Z.to_nat count) 0) 0).

(** One pass over the streams under the lock. *)
Fixpoint scan (i : nat) (l : list Z) : option nat :=
  match l with
  | [] => None
  | v :: l => if v =? 0 then Some i else scan (S i) l
  end.

Definition try_acquire (sp : StreamPool) : option (Z * StreamPool) :=
  i ← scan 0 sp.(streams);
  Some (Z.of_nat i, mkStreamPool (<[i := 1]> sp.(streams)) (sp.(acquired) + 1)).

Inductive pool_error := AcquireTimeout.

(** Each failed pass is followed by a reading of the clock and a pause, in
    which the other goroutines change the pool. *)
Fixpoint Acquire (rounds : list (Z * (StreamPool → StreamPool))) (deadline : Z)
    (sp : StreamPool) : outcome pool_error (Z * StreamPool) :=
  match try_acquire sp with
  | Some r => Ok r
  | None =>
      match rounds with
      | [] => NoFuel
      | (now, others) :: rounds =>
          if deadline <? now then Err AcquireTimeout
          else Acquire rounds deadline (others sp)
      end
  end.

Definition Release (idx : Z) (sp : StreamPool) : go StreamPool :=
  l ← set_index sp.(streams) idx 0;
  Ok (mkStreamPool l (sp.(acquired) - 1)).

(** ** Knee points *)

Record AggregatedResult := mkAggregatedResult {
  Scenario : string;
  Profile : string;
  ar_System : RPCSystem;
  Config : LoadConfig;
  Report : option metrics.Report;
  KneePoints : list (string * Z)
}.

Definition latencyForMetric (r : option metrics.Report) (metric : string) : Z :=
  match r with
  | None => 0
  | Some r =>
      if bool_decide (metric = "avg") then r.(metrics.AvgLatency)
      else if bool_decide (metric = "p50") then r.(metrics.P50)
      else if bool_decide (metric = "p95") then r.(metrics.P95)
      else if bool_decide (metric = "p99") then r.(metrics.P99)
      else r.(metrics.P95)
  end.

(** [points[k] = v] on a map from [float64]. *)
Fixpoint put_point (k v : float64) (points : list (float64 * float64)) : list (float64 * float64) :=
  match points with
  | [] => [(k, v)]
  | (k', v') :: points => if (k =? k')%F then (k, v) :: points else (k', v') :: put_point k v points
  end.

(** The value of the profile on the axis of the metric. *)
Definition profile_value (metric name : string) : float64 :=
  let profile := default NetworkProfile_zero (DefaultProfiles !! name) in
  if bool_decide (metric = "loss") then profile.(Loss)
  else if bool_decide (metric = "delay") then
    let d := default 0 (ParseDuration profile.(Delay)) in (metrics.Seconds d * 1000)%F
  else 0%Q.

(** The body of the loop at the middle one of three results. *)
Definition knee (metric : string) (r0 r1 r2 : AggregatedResult)
    (points : list (float64 * float64)) : list (float64 * float64) :=
  let prev := latencyForMetric r0.(Report) metric in
  let curr := latencyForMetric r1.(Report) metric in
  let next := latencyForMetric r2.(Report) metric in
  let prevSlope := i64 (curr - prev) in
  let nextSlope := i64 (next - curr) in
  if i64 (prevSlope * 2) <? nextSlope then
    let profileVal := profile_value metric r1.(Profile) in
    if (0 <? profileVal)%F then put_point profileVal (metrics.Seconds curr * 1000)%F points
    else points
  else points.

Fixpoint knees (metric : string) (rs : list AggregatedResult)
    (points : list (float64 * float64)) : list (float64 * float64) :=
  match rs with
  | r0 :: (r1 :: r2 :: _) as rest => knees metric rest (knee metric r0 r1 r2 points)
  | _ => points
  end.

Definition CalculateKneePoints (rs : list AggregatedResult) (metric : string) :
    option (list (float64 * float64)) :=
  if len rs <? 3 then None else Some (knees metric rs []).

(** ** Formatting *)

Definition FormatDuration (d : Z) : string :=
  if time.Second <=? d then (fmt_fixed 3 (metrics.Seconds d) ++ "s")%string
  else if time.Millisecond <=? d then
    (fmt_fixed 2 (of_int (Z.quot d 1000) / of_int 1000)%F ++ "ms")%string
  else if time.Microsecond <=? d then (fmt_fixed 2 (of_int d / of_int 1000)%F ++ "µs")%string
  else (fmt_int d ++ "ns")%string.

Definition FormatRPS (rps : float64) : string :=
  if (1000000 <=? rps)%F then (fmt_fixed 2 (rps / 1000000)%F ++ "M")%string
  else if (1000 <=? rps)%F then (fmt_fixed 2 (rps / 1000)%F ++ "K")%string
  else fmt_fixed 2 rps.

Definition FormatFloat (v : float64) : string :=
  if (v =? inject_Z (to_int v))%F then fmt_fixed 0 v else fmt_fixed 2 v.

End loader.

(** ** The generator and its goroutines *)

Module generator.
Import config loader.

(** Where a goroutine that runs [workerLoop] is: at the select at the top of the
    loop, inside [SendRequest], after it, before [Record], or gone. *)
Inductive loop_pc :=
| Check
| Calling (start : Z) (payload : list byte)
| Returned (start latency : Z) (res : call_result) (payload : list byte)
| Recording (s : metrics.Sample)
| Exited.

(** Where the goroutine is that calls [Warmup] and then [Run]: waiting for the
    warm-up, for the duration, before [lg.cancel()], at the last select, before
    [StopTimer], or after the return of [Run]. *)
Inductive main_pc := InWarmup | InRun | Cancelling | Waiting | Stopping | RunReturned.

Record LoadGenerator := mkGen {
  cfg : LoadConfig;
  collector : metrics.Collector;
  cancelled : bool;
  collecting : bool;
  crashed : bool;
  loops : list (Z * loop_pc);
  main : main_pc
}.

Definition set_loop (i : nat) (l : Z * loop_pc) (g : LoadGenerator) : LoadGenerator :=
  mkGen g.(cfg) g.(collector) g.(cancelled) g.(collecting) g.(crashed) (<[i := l]> g.(loops)) g.(main).
Definition set_collector c (g : LoadGenerator) : LoadGenerator :=
  mkGen g.(cfg) c g.(cancelled) g.(collecting) g.(crashed) g.(loops) g.(main).
Definition set_collecting b (g : LoadGenerator) : LoadGenerator :=
  mkGen g.(cfg) g.(collector) g.(cancelled) b g.(crashed) g.(loops) g.(main).
Definition set_main m (g : LoadGenerator) : LoadGenerator :=
  mkGen g.(cfg) g.(collector) g.(cancelled) g.(collecting) g.(crashed) g.(loops) m.
Definition cancel (g : LoadGenerator) : LoadGenerator :=
  mkGen g.(cfg) g.(collector) true g.(collecting) g.(crashed) g.(loops) g.(main).
Definition crash (g : LoadGenerator) : LoadGenerator :=
  mkGen g.(cfg) g.(collector) g.(cancelled) g.(collecting) true g.(loops) g.(main).

(** [worker]: the loops of worker [id], at least one. *)
Definition worker (c : LoadConfig) (id : Z) : list (Z * loop_pc) :=
  let pipelining := if c.(Pipelining) <? 1 then 1 else c.(Pipelining) in
  replicate (Z.to_nat pipelining) (id, Check).

(** [Start] once the client is there: the timer and the workers. *)
Definition spawn (c : LoadConfig) (now : Z) (coll : metrics.Collector) : LoadGenerator :=
  mkGen c (metrics.StartTimer now coll) false false false
    (mjoin (worker c <$> seqZ 0 c.(Workers))) InWarmup.

Definition Start (env : nat → attempt) (c : LoadConfig) (addr : string) (now : Z)
    (coll : metrics.Collector) : outcome init_error LoadGenerator :=
  _ ← initClient c addr env;
  Ok (spawn c now coll).

Definition all_exited (g : LoadGenerator) : bool :=
  forallb (λ '(_, pc), match pc with Exited => true | _ => false end) g.(loops).

(** One step of a process that has not crashed. *)
Inductive live_step (g : LoadGenerator) : LoadGenerator → Prop :=
| step_exit i id :
    g.(loops) !! i = Some (id, Check) → g.(cancelled) = true →
    live_step g (set_loop i (id, Exited) g)
| step_call i id d now payload :
    g.(loops) !! i = Some (id, Check) → g.(cancelled) = false →
    nextPayload g.(cfg) d = Ok payload →
    live_step g (set_loop i (id, Calling now payload) g)
| step_panic i id d :
    g.(loops) !! i = Some (id, Check) → g.(cancelled) = false →
    nextPayload g.(cfg) d = Panic →
    live_step g (crash g)
| step_return i id start latency res payload :
    g.(loops) !! i = Some (id, Calling start payload) → 0 ≤ latency →
    live_step g (set_loop i (id, Returned start latency res payload) g)
| step_skip i id start latency res payload :
    g.(loops) !! i = Some (id, Returned start latency res payload) → g.(collecting) = false →
    live_step g (set_loop i (id, Check) g)
| step_sample i id start latency res payload :
    g.(loops) !! i = Some (id, Returned start latency res payload) → g.(collecting) = true →
    live_step g (set_loop i (id, Recording (sample_of start latency res payload id)) g)
| step_record i id s :
    g.(loops) !! i = Some (id, Recording s) →
    live_step g (set_loop i (id, Check) (set_collector (metrics.Record s g.(collector)) g))
(** The context that [Start] was given is cancelled. *)
| step_interrupt :
    g.(cancelled) = false → live_step g (cancel g)
(** [Warmup]: the select waits for the context or the timer, in either case the
    collection starts. *)
| step_warmup :
    g.(main) = InWarmup → live_step g (set_main InRun (set_collecting true g))
(** [Run] *)
| step_run :
    g.(main) = InRun → live_step g (set_main Cancelling (set_collecting false g))
| step_cancel :
    g.(main) = Cancelling → live_step g (set_main Waiting (cancel g))
| step_wait_done :
    g.(main) = Waiting → all_exited g = true → live_step g (set_main Stopping g)
| step_wait_ctx :
    g.(main) = Waiting → g.(cancelled) = true → live_step g (set_main Stopping g)
| step_stop now :
    g.(main) = Stopping →
    live_step g (set_main RunReturned (set_collector (metrics.StopTimer now g.(collector)) g)).

(** A panic in a goroutine ends the process. *)
Inductive step (g g' : LoadGenerator) : Prop :=
| step_live : g.(crashed) = false → live_step g g' → step g g'.

End generator.
