(* ===== verification/LoaderFacts.v ===== *)
(** * Correctness of the load generator

    Payload sizes stay in the configured bounds and payloads never panic on a
    well-formed configuration; the samples are what the calls returned; after
    the context is cancelled every schedule brings all workers and [Run] to an
    end; but [Run] need not wait for the workers.  The stream pool hands a
    stream to one holder at a time. *)

From Stdlib Require Import Strings.Byte.
From stdpp Require Import gmap.
From S2P Require Import Prelude.
From S2P Require Import Float64.
From S2P Require Import GoTime.
From S2P Require Import BenchConfig.
From S2P Require Import Metrics.
From S2P Require Import Loader.

#[local] Open Scope Z_scope.

Import config loader.

(** ** Payloads *)

(** A size that is not negative gives a payload, or is above the limit. *)
Lemma makePayload_spec (n : Z) read : 0 ≤ n →
  match makePayload n read with Ok buf => len buf = n | Panic => maxAlloc < n | _ => False end.
Proof.
  intros Hn. unfold makePayload, pattern, len. rewrite (proj2 (Z.ltb_ge n 0)) by done. cbn [orb].
  destruct (maxAlloc <? n) eqn:E; [z_bools; lia|]. destruct (n <=? 1024), read; rewrite length_map, length_seq; lia.
Qed.

Lemma Intn_Ok r n : 0 < n → ∃ k, Intn r n = Ok k ∧ 0 ≤ k < n.
Proof.
  intros H. unfold Intn. rewrite (proj2 (Z.leb_gt _ _)) by done. eexists. split; [done|].
  by apply Z.mod_pos_bound.
Qed.

(** The sizes that a configuration allows. *)
Definition size_ok (c : LoadConfig) (n : Z) : Prop :=
  if bool_decide (c.(Workload) = WorkloadFixed) then n = c.(PayloadSize)
  else if bool_decide (c.(Workload) = WorkloadRandom) then c.(MinPayload) ≤ n ≤ c.(MaxPayload)
  else 64 ≤ n < 1024 ∨ ∃ mb, 1 ≤ mb ≤ 10 ∧ n = mb * 2 ^ 20.

(** The configured sizes are within the limit of the runtime. *)
Definition sizes_fit (c : LoadConfig) : Prop := c.(PayloadSize) ≤ maxAlloc ∧ c.(MaxPayload) ≤ maxAlloc.

(** Whatever is drawn, a well-formed configuration gives a payload of an allowed
    size, or asks for one that is above the limit. *)
Theorem nextPayload_sizes c d : wf.LoadConfig_wf c →
  match nextPayload c d with
  | Ok buf => size_ok c (len buf)
  | Panic => ¬ sizes_fit c
  | _ => False
  end.
Proof.
  intros [_ _ Hw Hs _ _]. unfold nextPayload, size_ok, sizes_fit.
  case_bool_decide as Hf; [|case_bool_decide as Hr; [|case_bool_decide as Hm]].
  - pose proof (makePayload_spec c.(PayloadSize) d.(d_read) ltac:(lia)). destruct (makePayload _ _); done || lia.
  - rewrite i64_id by lia.
    destruct (Intn_Ok d.(d_int) (c.(MaxPayload) - c.(MinPayload) + 1)) as (k & -> & Hk); [lia|].
    simpl. rewrite i64_id by lia.
    pose proof (makePayload_spec (c.(MinPayload) + k) d.(d_read) ltac:(lia)). destruct (makePayload _ _); done || lia.
  - destruct (_ <? _)%F.
    + destruct (Intn_Ok d.(d_int) (1024 - 64)) as (k & -> & Hk); [lia|]. simpl.
      pose proof (makePayload_spec (64 + k) d.(d_read) ltac:(lia)). unfold maxAlloc in *. destruct (makePayload _ _); try done; lia.
    + destruct (Intn_Ok d.(d_int) 10) as (k & -> & Hk); [lia|]. simpl.
      pose proof (makePayload_spec ((1 + k) * 1024 * 1024) d.(d_read) ltac:(lia)). unfold maxAlloc in *.
      destruct (makePayload _ _); try done; [right; exists (1 + k)|]; lia.
  - exfalso. rewrite !elem_of_cons, elem_of_nil in Hw. by destruct Hw as [|[|[|]]].
Qed.

(** ** Samples *)

(** A sample is successful exactly when the call returned a response with code
    200; otherwise it says why. *)
Lemma sample_of_Success start latency res payload id :
  let s := sample_of start latency res payload id in
  (s.(metrics.s_Success) = true ↔ res = CallCode 200) ∧
  (s.(metrics.s_Success) = true → s.(metrics.s_Error) = ""%string) ∧
  s.(metrics.s_Duration) = latency ∧ s.(metrics.s_PayloadSize) = len payload ∧
  s.(metrics.s_WorkerID) = id.
Proof.
  unfold sample_of. destruct res as [m| |code]; simpl; [naive_solver|naive_solver|].
  destruct (code =? 200) eqn:E; z_bools; simpl; naive_solver.
Qed.

(** ** Client initialisation *)

(** The retry loop makes at most [n] attempts and returns what the first attempt
    that does not fail returns; it gives up when all failed, with the error of
    the last one, or when the context is done in a wait between two of them. *)
Lemma init_loop_spec cfg addr env k n last :
  let fails i := ∃ e, tryInitClient cfg addr (env i) = Err e in
  match init_loop cfg addr env k n last with
  | Ok c => ∃ j, (k ≤ j < k + n)%nat ∧ tryInitClient cfg addr (env j) = Ok c ∧
      ∀ i, (k ≤ i < j)%nat → fails i
  | Err CtxErr => ∃ j, (k ≤ j < k + n)%nat ∧ j ≠ O ∧ (env j).(done_within) (delay_of cfg) = true ∧
      ∀ i, (k ≤ i < j)%nat → fails i
  | Err (InitFailed e) => (∀ i, (k ≤ i < k + n)%nat → fails i) ∧
      (n = O → e = last) ∧ (n ≠ O → ∃ e', e = Some e' ∧
        tryInitClient cfg addr (env (k + n - 1)%nat) = Err e')
  | _ => False
  end.
Proof.
  intros fails. revert k last. induction n as [|n IH]; intros k last; simpl; [split_and!; [lia|done|done]|].
  destruct (negb (Nat.eqb k 0) && done_within (env k) (delay_of cfg)) eqn:E.
  { apply andb_prop in E as [E1 E2]. exists k. apply negb_true_iff, Nat.eqb_neq in E1.
    split_and!; [lia|lia|done|done|]. lia. }
  destruct (tryInitClient cfg addr (env k)) as [c|e| |] eqn:Ht.
  - exists k. split_and!; [lia|lia|done|]. lia.
  - assert (∀ i j, (∀ i, (S k ≤ i < j)%nat → fails i) → (k ≤ i < j)%nat → fails i) as Hext.
    { intros i j H Hi. destruct (decide (i = k)) as [->|]; [by exists e|apply H; lia]. }
    specialize (IH (S k) (Some e)). destruct (init_loop cfg addr env (S k) n (Some e)) as [c|[|e']| |]; try done.
    + destruct IH as (j & ? & ? & ?). exists j. split_and!; [lia|lia|done|]. eauto.
    + destruct IH as (j & ? & ? & ? & ?). exists j. split_and!; [lia|lia|done|done|]. eauto.
    + destruct IH as (Hf & H0 & H1). split_and!; [|done|].
      * intros i Hi. apply (Hext i (S (k + n))); [|lia]. intros i' Hi'. apply Hf. lia.
      * intros _. destruct n as [|n].
        { rewrite (H0 eq_refl). exists e. by replace (k + 1 - 1)%nat with k by lia. }
        destruct H1 as (e'' & -> & H1); [done|]. exists e''. by replace (k + S (S n) - 1)%nat with (S k + S n - 1)%nat by lia.
  - unfold tryInitClient in Ht. by repeat case_match.
  - unfold tryInitClient in Ht. by repeat case_match.
Qed.

Lemma attempts_of_max c : attempts_of c = Z.max 1 c.(RetryAttempts).
Proof. unfold attempts_of. case_match; z_bools; lia. Qed.

(** [initClient] makes one attempt at least and [RetryAttempts] at most; the
    client it returns is one for the configured system, address and number of
    connections. *)
Theorem initClient_spec c addr env :
  match initClient c addr env with
  | Ok cl => ∃ j, (Z.of_nat j < Z.max 1 c.(RetryAttempts)) ∧ (env j).(dials) cl = true ∧
      cl = (if decide (c.(System) = SystemGRPC) then DialGRPC else DialQRPC) addr c.(Connections)
  | Err CtxErr => ∃ j, (0 < Z.of_nat j < Z.max 1 c.(RetryAttempts)) ∧
      (env j).(done_within) (delay_of c) = true
  | Err (InitFailed e) => is_Some e ∧
      ∀ i, (Z.of_nat i < Z.max 1 c.(RetryAttempts)) → ∃ e, tryInitClient c addr (env i) = Err e
  | _ => False
  end.
Proof.
  unfold initClient. rewrite attempts_of_max.
  pose proof (init_loop_spec c addr env 0 (Z.to_nat (Z.max 1 c.(RetryAttempts))) None) as H. simpl in H.
  destruct (init_loop _ _ _ _ _ _) as [cl|[|e]| |]; try done.
  - destruct H as (j & Hj & Ht & _). exists j. split; [lia|]. unfold tryInitClient in Ht.
    case_bool_decide; [rewrite decide_True by done|rewrite decide_False by done];
      repeat case_match; simplify_eq; done.
  - destruct H as (j & Hj & Hj0 & Hd & _). exists j. split; [lia|done].
  - destruct H as (Hf & _ & H1). destruct H1 as (e' & -> & _); [lia|]. split; [done|].
    intros i Hi. apply Hf. lia.
Qed.

(** ** The goroutines *)

Module generator_facts.
Import generator.

(** [P] is reached within [n] steps, whatever steps are taken. *)
Inductive inevitable {A} (R : relation A) (P : A → Prop) : nat → A → Prop :=
| inevitable_now n x : P x → inevitable R P n x
| inevitable_later n x :
    (∃ y, R x y) → (∀ y, R x y → inevitable R P n y) → inevitable R P (S n) x.

Lemma inevitable_le {A} (R : relation A) (P : A → Prop) n m x :
  (n ≤ m)%nat → inevitable R P n x → inevitable R P m x.
Proof.
  intros Hle H. revert m Hle. induction H as [n x Hx|n x Hx _ IH]; intros m Hle; [by constructor|].
  destruct m as [|m]; [lia|]. apply inevitable_later; [done|]. intros y Hy. apply IH; [done|lia].
Qed.

Definition loop_weight (pc : loop_pc) : nat :=
  match pc with
  | Exited => 0 | Check => 1 | Recording _ => 2 | Returned _ _ _ _ => 3 | Calling _ _ => 4
  end.
Definition main_weight (m : main_pc) : nat :=
  match m with
  | RunReturned => 0 | Stopping => 1 | Waiting => 2 | Cancelling => 3 | InRun => 4 | InWarmup => 5
  end.
Definition weight (g : LoadGenerator) : nat :=
  sum_list_with (λ l, loop_weight l.2) g.(loops) + main_weight g.(main).

Lemma sum_list_insert {A} (f : A → nat) (l : list A) i x y :
  l !! i = Some x → (sum_list_with f (<[i := y]> l) + f x = sum_list_with f l + f y)%nat.
Proof.
  revert i. induction l as [|z l IH]; intros [|i] H; simplify_eq/=; [lia|].
  specialize (IH i H). lia.
Qed.

Lemma set_loop_weight i id pc pc' g :
  g.(loops) !! i = Some (id, pc) →
  (weight (set_loop i (id, pc') g) + loop_weight pc = weight g + loop_weight pc')%nat.
Proof.
  intros H. unfold weight, set_loop; simpl.
  pose proof (sum_list_insert (λ l, loop_weight l.2) g.(loops) i _ (id, pc') H). simpl in *. lia.
Qed.

Lemma weight_bound g : (weight g ≤ 4 * length g.(loops) + 5)%nat.
Proof.
  unfold weight. assert (main_weight g.(main) ≤ 5)%nat by (destruct (main g); simpl; lia).
  induction g.(loops) as [|[id pc] l IH]; simpl; [lia|].
  assert (loop_weight pc ≤ 4)%nat by (destruct pc; simpl; lia). lia.
Qed.

(** After the cancellation every step makes progress towards the end. *)
Lemma cancelled_step_decreases g g' :
  step g g' → g.(cancelled) = true → (weight g' < weight g)%nat ∧ g'.(cancelled) = true.
Proof.
  intros [_ Hs] Hc. destruct Hs; try congruence; (split; [|done]);
    try (match goal with H : g.(loops) !! ?i = Some (?id, ?pc) |- context [set_loop _ (_, ?pc') ?h] =>
      pose proof (set_loop_weight i id pc pc' h H) end);
    unfold weight in *; simpl in *; try lia;
    (match goal with H : g.(main) = _ |- _ => rewrite H end); simpl; lia.
Qed.

(** The workers are gone and [Run] has returned. *)
Definition finished (g : LoadGenerator) : Prop :=
  all_exited g = true ∧ g.(main) = RunReturned.

#[export] Instance main_pc_eq_dec : EqDecision main_pc.
Proof. solve_decision. Defined.
#[export] Instance finished_dec g : Decision (finished g).
Proof. apply and_dec; apply _. Defined.

(** A generator that is cancelled and not finished has a step: a call returns,
    because its context is done. *)
Lemma cancelled_progress g :
  g.(crashed) = false → g.(cancelled) = true → ¬ finished g → ∃ g', step g g'.
Proof.
  intros Hcr Hc Hf. cut (∃ g', live_step g g'). { intros [g' ?]. exists g'. by constructor. }
  destruct (all_exited g) eqn:Ha.
  - destruct (g.(main)) eqn:Hm.
    + eexists. by apply step_warmup.
    + eexists. by apply step_run.
    + eexists. by apply step_cancel.
    + eexists. by apply step_wait_done.
    + eexists. by apply (step_stop g 0).
    + by destruct Hf.
  - unfold all_exited in Ha.
    assert (∃ i id pc, g.(loops) !! i = Some (id, pc) ∧ pc ≠ Exited) as (i & id & pc & Hi & Hpc).
    { clear -Ha. induction g.(loops) as [|[id pc] l IH]; [done|]. simpl in Ha.
      destruct pc; try (eexists O, id, _; by split).
      destruct (IH Ha) as (i & id' & pc & ? & ?). by exists (S i), id', pc. }
    destruct pc as [|start payload|start latency res payload|s|]; [..|done].
    + eexists. by eapply step_exit.
    + eexists. by apply (step_return g i id start 0 CallNil payload).
    + destruct g.(collecting) eqn:Hcol; eexists; [by eapply step_sample|by eapply step_skip].
    + eexists. by eapply step_record.
Qed.

(** What holds of every reachable state for a well-formed configuration. *)
Definition sample_ok (c : LoadConfig) (s : metrics.Sample) : Prop :=
  size_ok c s.(metrics.s_PayloadSize) ∧ 0 ≤ s.(metrics.s_WorkerID) < c.(Workers) ∧
  0 ≤ s.(metrics.s_Duration) ∧ (s.(metrics.s_Success) = true → s.(metrics.s_Error) = ""%string).

Definition loop_ok (c : LoadConfig) (l : Z * loop_pc) : Prop :=
  0 ≤ l.1 < c.(Workers) ∧
  match l.2 with
  | Calling _ payload => size_ok c (len payload)
  | Returned _ latency _ payload => size_ok c (len payload) ∧ 0 ≤ latency
  | Recording s => sample_ok c s
  | Check | Exited => True
  end.

Record inv (c : LoadConfig) (g : LoadGenerator) : Prop := {
  inv_cfg : g.(cfg) = c;
  inv_crashed : g.(crashed) = true → g.(cancelled) = false ∧ ¬ sizes_fit c;
  inv_samples : Forall (sample_ok c) g.(collector).(metrics.samples);
  inv_loops : Forall (loop_ok c) g.(loops);
  inv_cancelled : match g.(main) with
                  | Waiting | Stopping | RunReturned => g.(cancelled) = true
                  | _ => True
                  end;
  inv_collecting : g.(collecting) = true → g.(main) = InRun
}.

Lemma sample_of_ok c start latency res payload id :
  0 ≤ id < c.(Workers) → size_ok c (len payload) → 0 ≤ latency →
  sample_ok c (sample_of start latency res payload id).
Proof.
  intros Hid Hs Hl. destruct (sample_of_Success start latency res payload id) as (_ & He & Hd & Hp & Hw).
  unfold sample_ok. by rewrite Hd, Hp, Hw.
Qed.

Lemma inv_spawn c now coll :
  Forall (sample_ok c) coll.(metrics.samples) → inv c (spawn c now coll).
Proof.
  intros Hc. split; simpl; try done.
  apply Forall_forall. intros l (ls & Hl & Hin)%list_elem_of_join.
  apply list_elem_of_fmap in Hin as (id & -> & Hid%elem_of_seqZ).
  unfold worker in Hl. apply elem_of_replicate in Hl as [-> _].
  split; simpl; [lia|done].
Qed.

Lemma inv_set_loop c g i id pc :
  inv c g → loop_ok c (id, pc) → inv c (set_loop i (id, pc) g).
Proof. intros [] H. split; simpl; try done. by apply Forall_insert. Qed.

Lemma inv_step c g g' : wf.LoadConfig_wf c → step g g' → inv c g → inv c g'.
Proof.
  intros Hwf [Hnc Hs] Hg. pose proof Hg as [Hcfg Hcr Hsam Hlo Hca Hco].
  assert (∀ i l, g.(loops) !! i = Some l → loop_ok c l) as Hl.
  { intros i l Hi. by apply (Forall_lookup_1 _ _ i l Hlo). }
  destruct Hs as
    [i id Hi Hcc|i id d now payload Hi Hcc Hp|i id d Hi Hcc Hp|i id start latency res payload Hi Hlat
    |i id start latency res payload Hi Hcol|i id start latency res payload Hi Hcol|i id s Hi|Hcc|Hm|Hm|Hm
    |Hm Hall|Hm Hcc|now Hm];
    try (apply Hl in Hi as [Hid Hpc]; simpl in Hid, Hpc).
  - by apply inv_set_loop.
  - apply inv_set_loop; [done|]. split; [done|]. simpl. rewrite Hcfg in Hp.
    pose proof (nextPayload_sizes c d Hwf) as Hb. by rewrite Hp in Hb.
  - pose proof (nextPayload_sizes c d Hwf) as Hb. rewrite Hcfg in Hp. rewrite Hp in Hb. by split.
  - by apply inv_set_loop.
  - by apply inv_set_loop.
  - apply inv_set_loop; [done|]. split; [done|]. simpl. destruct Hpc. by apply sample_of_ok.
  - apply inv_set_loop; [|done]. split; simpl; try done.
    apply Forall_app. split; [done|]. by apply Forall_singleton.
  - split; simpl; try done; [by rewrite Hnc|by destruct (main g)].
  - split; simpl; done.
  - split; simpl; done.
  - split; simpl; try done; [by rewrite Hnc|]. intros Hx. specialize (Hco Hx). congruence.
  - rewrite Hm in Hca. split; simpl; try done. intros Hx. specialize (Hco Hx). congruence.
  - rewrite Hm in Hca. split; simpl; try done. intros Hx. specialize (Hco Hx). congruence.
  - rewrite Hm in Hca. split; simpl; try done. intros Hx. specialize (Hco Hx). congruence.
Qed.

Lemma Start_Ok env c addr now coll g : Start env c addr now coll = Ok g → g = spawn c now coll.
Proof. unfold Start. intros H. by apply bind_Ok_inv in H as (cl & _ & [= <-]). Qed.

(** The invariant holds in every state that a started generator reaches. *)
Lemma started_inv env c addr now g0 g :
  wf.LoadConfig_wf c → Start env c addr now metrics.NewCollector = Ok g0 → rtc step g0 g → inv c g.
Proof.
  intros Hwf ->%Start_Ok Hr.
  eapply (rtc_invariant _ (inv c)); [|by intros; eapply inv_step|exact Hr]. by apply inv_spawn.
Qed.

(** A run that has come to its end has not crashed. *)
Lemma started_no_crash env c addr now g0 g :
  wf.LoadConfig_wf c → Start env c addr now metrics.NewCollector = Ok g0 → rtc step g0 g →
  g.(main) = RunReturned → g.(crashed) = false.
Proof.
  intros Hwf H0 Hr Hm. destruct (started_inv _ _ _ _ _ _ Hwf H0 Hr) as [_ Hcr _ _ Hca _]. rewrite Hm in Hca.
  destruct g.(crashed); [|done]. destruct Hcr as [E _]; [done|]. congruence.
Qed.

(** C26: in any run of a well-formed configuration whose payload sizes the
    runtime can allocate no payload panics, and once
    [Run] has called [cancel], or the caller has cancelled the context, every
    schedule of the goroutines reaches, after at most [weight] further steps, a
    state in which all workers have left, [Run] has returned and every recorded
    sample is that of a request of a worker with an allowed payload size.  (A
    call whose context is done returns: that is a step like the others.) *)
Theorem cancelled_workers_finish env c addr now g0 g :
  wf.LoadConfig_wf c → sizes_fit c → Start env c addr now metrics.NewCollector = Ok g0 → rtc step g0 g →
  g.(crashed) = false ∧
  (g.(main) = Waiting ∨ g.(cancelled) = true →
   inevitable step (λ g', finished g' ∧ inv c g') (weight g) g ∧
   (weight g ≤ 4 * length g.(loops) + 5)%nat).
Proof.
  intros Hwf Hfit H0 Hr. pose proof (started_inv _ _ _ _ _ _ Hwf H0 Hr) as Hg.
  assert (∀ g, inv c g → g.(crashed) = false) as Hcr.
  { intros h [_ Hh _ _ _ _]. destruct h.(crashed); [|done]. by destruct Hh. }
  split; [by apply Hcr|]. intros Hc. assert (g.(cancelled) = true) as Hcc.
  { destruct Hc as [Hm|]; [|done]. pose proof (inv_cancelled _ _ Hg) as H. by rewrite Hm in H. }
  clear Hr Hc H0. split; [|by apply weight_bound].
  remember (weight g) as n eqn:Hn. revert g Hn Hg Hcc.
  induction n as [n IH] using lt_wf_ind. intros g -> Hg Hcc.
  destruct (decide (finished g)) as [Hf|Hf]; [by constructor|].
  destruct (weight g) as [|m] eqn:Hw.
  { destruct (cancelled_progress g (Hcr _ Hg) Hcc Hf) as [g' Hs].
    apply cancelled_step_decreases in Hs as [? _]; [lia|done]. }
  apply inevitable_later; [apply cancelled_progress; by try apply Hcr|].
  intros g' Hs. destruct (cancelled_step_decreases g g' Hs Hcc) as [Hlt Hcc'].
  apply (inevitable_le _ _ (weight g')); [lia|]. apply IH; [lia|done| |done]. by eapply inv_step.
Qed.

(** The configuration of the scenario "baseline_latency". *)
Definition baseline : LoadConfig := load 1 1 WorkloadFixed 1024 0 0 10 2.

Lemma baseline_wf : wf.LoadConfig_wf baseline.
Proof.
  apply (wf.DefaultScenarios_wf "baseline_latency" (mkScenario
    "Single worker, single stream, fixed 1KB payload — measures pure RPC latency" baseline
    ["clean"; "wifi"; "lte"]))%string. done.
Qed.

(** A network on which the first attempt to dial succeeds. *)
Definition reachable_server (k : nat) : attempt := mkAttempt (λ _, false) true (λ _, true).

Lemma cancelled_workers_finish_witness :
  ∃ g, g.(cancelled) = true ∧ all_exited g = false ∧
    inevitable step (λ g', finished g' ∧ inv baseline g') (weight g) g.
Proof.
  exists (cancel (spawn baseline 0 metrics.NewCollector)). split; [done|]. split; [done|].
  apply (cancelled_workers_finish reachable_server baseline "" 0 (spawn baseline 0 metrics.NewCollector)).
  - apply baseline_wf.
  - done.
  - reflexivity.
  - apply rtc_once. apply step_live; [done|by apply step_interrupt].
  - by right.
Defined.

Lemma first_loop c now coll :
  wf.LoadConfig_wf c → (spawn c now coll).(loops) !! O = Some (0, Check).
Proof.
  intros [(Hw & Hp & _) _ _ _ _ _]. simpl.
  rewrite seqZ_cons by lia. simpl. unfold worker.
  rewrite (proj2 (Z.ltb_ge _ _)) by lia.
  by destruct (Z.to_nat (Pipelining c)) as [|n] eqn:E; [lia|].
Qed.

Lemma insert_lookup_head {A} (x : A) (l : list A) : is_Some (l !! O) → <[O := x]> l !! O = Some x.
Proof. by destruct l as [|y l]; intros [z Hz]. Qed.

(** One step of a run, by the rule [r]. *)
Ltac take_step r := eapply rtc_l; [apply step_live; [done|r]|].

(** The first loop makes a call that succeeds and is about to record it. *)
Lemma first_call c payload d coll now :
  wf.LoadConfig_wf c → nextPayload c d = Ok payload →
  rtc step (spawn c now coll)
    (mkGen c (metrics.StartTimer now coll) false true false
       (<[O := (0, Recording (sample_of 0 1 (CallCode 200) payload 0))]> (spawn c now coll).(loops)) InRun).
Proof.
  intros Hwf Hp. pose proof (first_loop c now coll Hwf) as H0.
  take_step ltac:(by apply step_warmup).
  take_step ltac:(apply (step_call _ O 0 d 0 payload); [exact H0|done|exact Hp]).
  take_step ltac:(apply (step_return _ O 0 0 1 (CallCode 200) payload);
    [apply insert_lookup_head; exists (0, Check); exact H0|lia]).
  take_step ltac:(apply (step_sample _ O 0 0 1 (CallCode 200) payload); [apply insert_lookup_head|done]).
  { exists (0, Calling 0 payload). apply insert_lookup_head. exists (0, Check). exact H0. }
  lazy beta iota delta [set_main set_collector cancel set_collecting set_loop spawn
    loops cfg collector cancelled collecting crashed main].
  rewrite !list_insert_insert_eq. apply rtc_refl.
Qed.

(** [Run] comes to its end without waiting for a worker. *)
Lemma run_to_end g now :
  g.(crashed) = false → g.(main) = InRun →
  rtc step g (mkGen g.(cfg) (metrics.StopTimer now g.(collector)) true false false g.(loops) RunReturned).
Proof.
  intros Hcr Hm. destruct g as [c coll ca co cr lo m]; simpl in *; subst.
  take_step ltac:(by apply step_run). take_step ltac:(by apply step_cancel).
  take_step ltac:(by apply step_wait_ctx). take_step ltac:(by apply (step_stop _ now)).
  apply rtc_refl.
Qed.

(** The state in which [Run] has returned and a loop is about to record [s]. *)
Definition late_state (c : LoadConfig) (s : metrics.Sample) : LoadGenerator :=
  mkGen c (metrics.StopTimer 1 (metrics.StartTimer 0 metrics.NewCollector)) true false false
    (<[O := (0, Recording s)]> (spawn c 0 metrics.NewCollector).(loops)) RunReturned.

(** C39: [Run] does not wait for its workers: because it cancels the context
    before the select that waits for the workers or the context, for every
    well-formed configuration that gives a payload at all there is a run in which [Run] has returned while
    a worker still holds a successful sample, which it records afterwards: a
    report made when [Run] returns misses it. *)
Theorem run_returns_early env c addr g0 d payload :
  wf.LoadConfig_wf c → nextPayload c d = Ok payload → Start env c addr 0 metrics.NewCollector = Ok g0 →
  ∃ g g' s,
    rtc step g0 g ∧ step g g' ∧
    g.(main) = RunReturned ∧ all_exited g = false ∧
    g.(collector).(metrics.samples) = [] ∧
    g'.(collector).(metrics.samples) = [s] ∧ s.(metrics.s_Success) = true.
Proof.
  intros Hwf Hp ->%Start_Ok. pose proof (first_loop c 0 metrics.NewCollector Hwf) as H0.
  set (s := sample_of 0 1 (CallCode 200) payload 0).
  exists (late_state c s), (set_loop O (0, Check) (set_collector
    (metrics.Record s (late_state c s).(collector)) (late_state c s))), s.
  split; [|split; [|split; [reflexivity|split; [|split; [reflexivity|split; reflexivity]]]]].
  - etrans; [apply (first_call c payload _ _ _ Hwf Hp)|]. unfold late_state. refine (run_to_end (mkGen _ _ _ _ _ _ InRun) 1 _ _); done.
  - apply step_live; [done|]. apply (step_record _ O 0 s). apply insert_lookup_head. exists (0, Check). exact H0.
  - unfold late_state, all_exited. cbn [loops].
    destruct (spawn c 0 metrics.NewCollector).(loops) as [|x l]; [discriminate H0|reflexivity].
Qed.

Lemma run_returns_early_witness :
  ∃ g g', rtc step (spawn baseline 0 metrics.NewCollector) g ∧ step g g' ∧
    g.(main) = RunReturned ∧ all_exited g = false.
Proof.
  destruct (run_returns_early reachable_server baseline "" _ (mkDraws 0 0 None) _ baseline_wf eq_refl eq_refl)
    as (g & g' & s & H1 & H2 & H3 & H4 & _).
  by exists g, g'.
Defined.

(** A run in which no loop does anything. *)
Lemma no_sample_run c coll t0 t1 :
  rtc step (spawn c t0 coll)
    (mkGen c (metrics.StopTimer t1 (metrics.StartTimer t0 coll)) true false false (spawn c t0 coll).(loops) RunReturned).
Proof.
  take_step ltac:(by apply step_warmup). refine (run_to_end (mkGen _ _ _ _ _ _ InRun) t1 _ _); done.
Qed.

(** A run in which the first loop records one successful sample. *)
Lemma one_sample_run c payload d coll t0 t1 :
  wf.LoadConfig_wf c → nextPayload c d = Ok payload →
  rtc step (spawn c t0 coll)
    (mkGen c (metrics.StopTimer t1 (metrics.Record (sample_of 0 1 (CallCode 200) payload 0)
                                      (metrics.StartTimer t0 coll)))
       true false false (spawn c t0 coll).(loops) RunReturned).
Proof.
  intros Hwf Hp. pose proof (first_loop c t0 coll Hwf) as H0.
  etrans; [apply (first_call c payload _ _ _ Hwf Hp)|].
  take_step ltac:(eapply (step_record _ O 0); apply insert_lookup_head; exists (0, Check); exact H0).
  unfold set_loop, set_collector. cbn [loops]. rewrite list_insert_insert_eq.
  rewrite (list_insert_id (spawn c t0 coll).(loops) O (0, Check)) by exact H0.
  refine (run_to_end (mkGen _ _ _ _ _ _ InRun) t1 _ _); done.
Qed.

End generator_facts.

(** ** The stream pool *)

Module stream_pool.

(** The number of streams in use. *)
Definition in_use (sp : StreamPool) : Z := len (filter (λ v, v ≠ 0) sp.(streams)).
Definition pool_ok (sp : StreamPool) : Prop := sp.(acquired) = in_use sp.

(** The pass over the streams finds the first free one. *)
Lemma scan_spec i l :
  match scan i l with
  | Some j => (i ≤ j)%nat ∧ l !! (j - i)%nat = Some 0 ∧ ∀ k v, (k < j - i)%nat → l !! k = Some v → v ≠ 0
  | None => Forall (λ v, v ≠ 0) l
  end.
Proof.
  revert i. induction l as [|v l IH]; intros i; simpl; [constructor|].
  destruct (v =? 0) eqn:E; z_bools.
  - split_and!; [done|by rewrite Nat.sub_diag; simpl; f_equal|]. lia.
  - specialize (IH (S i)). destruct (scan (S i) l) as [j|]; [|by constructor].
    destruct IH as (Hij & Hj & Hlt). split_and!; [lia| |].
    + by replace (j - i)%nat with (S (j - S i)) by lia.
    + intros [|k] w Hk Hw; simplify_eq/=; [done|]. apply (Hlt k); [lia|done].
Qed.

Lemma in_use_insert (l : list Z) i v w :
  l !! i = Some v →
  len (filter (λ x, x ≠ 0) (<[i := w]> l)) + (if decide (v ≠ 0) then 1 else 0) =
  len (filter (λ x, x ≠ 0) l) + (if decide (w ≠ 0) then 1 else 0).
Proof.
  intros H. rewrite <- (take_drop_middle l i v H) at 2.
  rewrite insert_take_drop by by eapply lookup_lt_Some.
  rewrite !filter_app, !len_app, !filter_cons. repeat case_decide; len_simpl; lia.
Qed.

(** [Acquire] hands out the first free stream, marks it and counts it; it fails
    only when all streams are in use. *)
Theorem try_acquire_spec sp :
  pool_ok sp →
  match try_acquire sp with
  | Some (i, sp') =>
      0 ≤ i ∧ sp.(streams) !! Z.to_nat i = Some 0 ∧ sp'.(streams) = <[Z.to_nat i := 1]> sp.(streams) ∧
      (∀ k v, (k < Z.to_nat i)%nat → sp.(streams) !! k = Some v → v ≠ 0) ∧ pool_ok sp'
  | None => Forall (λ v, v ≠ 0) sp.(streams) ∧ sp.(acquired) = len sp.(streams)
  end.
Proof.
  unfold pool_ok, in_use, try_acquire. intros Hok. pose proof (scan_spec 0 sp.(streams)) as H.
  destruct (scan 0 sp.(streams)) as [j|]; simpl.
  - destruct H as (_ & Hj & Hlt). rewrite Nat.sub_0_r in *. rewrite Nat2Z.id.
    split_and!; [lia|done|done|done|].
    pose proof (in_use_insert _ j 0 1 Hj) as Hc. rewrite decide_False, decide_True in Hc by lia. lia.
  - split; [done|]. rewrite Hok. f_equal. clear -H. induction H as [|v l Hv _ IH]; [done|]. rewrite filter_cons, decide_True by done. by rewrite IH.
Qed.

(** Releasing a stream in use makes it free and keeps the count right. *)
Theorem Release_spec sp i v :
  pool_ok sp → 0 ≤ i → sp.(streams) !! Z.to_nat i = Some v → v ≠ 0 →
  ∃ sp', Release i sp = Ok sp' ∧ sp'.(streams) !! Z.to_nat i = Some 0 ∧ pool_ok sp'.
Proof.
  intros Hok Hi Hv Hne. unfold Release, set_index. pose proof (lookup_lt_Some _ _ _ Hv) as Hlt.
  rewrite (proj2 (Z.leb_le _ _)), (proj2 (Z.ltb_lt _ _)) by (unfold len; lia). simpl.
  eexists. split; [done|]. simpl. split; [by apply list_lookup_insert_eq|].
  unfold pool_ok, in_use in *. simpl. pose proof (in_use_insert _ _ v 0 Hv) as Hc.
  rewrite decide_True, decide_False in Hc by lia. lia.
Qed.

(** Releasing it once more makes the count of the pool wrong. *)
Theorem Release_twice sp sp' sp'' i :
  pool_ok sp' → Release i sp = Ok sp' → Release i sp' = Ok sp'' → ¬ pool_ok sp''.
Proof.
  unfold Release, set_index. intros Hok H1 H2. ok_inv. repeat case_match; simplify_eq; z_bools.
  unfold pool_ok, in_use in *. simpl in *. rewrite list_insert_insert_eq. lia.
Qed.

End stream_pool.
