(* ===== verification/Netem.v ===== *)
(** * Network emulation of the stress tester

    [src/stress_tester/internal/netem/netem.go]: the command lines with which
    the emulator installs and removes a netem queueing discipline, and the
    treatment of the outcomes of the program [tc].  [tc] itself is a parameter:
    it changes the world and returns its output and, when it fails, the text of
    the error; [TcLaws] is the documented behaviour that the theorems use. *)

From stdpp Require Import gmap.
From S2P Require Import Prelude.
From S2P Require Import Float64.
From S2P Require Import GoStrings.
From S2P Require Import GoTime.
From S2P Require Import BenchConfig.

#[local] Open Scope string_scope.
#[local] Open Scope Z_scope.

Module netem.
Import config.

Inductive error :=
| ErrNotPermitted
| CleanNetem (err out : string)
| CleanBeforeApply (e : error)
| CleanAfterConflict (e : error)
| ApplyAfterRetry (err out : string)
| ApplyNetem (err out : string)
| ShowQdisc (err : string).

(** [err.Error()] *)
Fixpoint Error (e : error) : string :=
  match e with
  | ErrNotPermitted => "operation not permitted"
  | CleanNetem err out => "clean netem: " ++ err ++ ": " ++ out
  | CleanBeforeApply e => "clean before apply: " ++ Error e
  | CleanAfterConflict e => "clean after conflict: " ++ Error e
  | ApplyAfterRetry err out => "apply after retry: " ++ err ++ ": " ++ out
  | ApplyNetem err out => "apply netem: " ++ err ++ ": " ++ out
  | ShowQdisc err => "show qdisc: " ++ err
  end%string.

(** [errors.Is(err, ErrNotPermitted)]: the wrapped errors are searched. *)
Fixpoint Is_ErrNotPermitted (e : error) : bool :=
  match e with
  | ErrNotPermitted => true
  | CleanBeforeApply e | CleanAfterConflict e => Is_ErrNotPermitted e
  | _ => false
  end.

Definition isNotPermitted (err : string) : bool :=
  strings.Contains err "Operation not permitted" || strings.Contains err "permission denied".

Definition isNotPermittedOutput (out : string) : bool :=
  strings.Contains out "Operation not permitted".

(** The arguments of [tc] for a profile. *)
Definition netem_params (profile : NetworkProfile) : list string :=
  (if negb (bool_decide (profile.(Delay) = "")) && negb (bool_decide (profile.(Delay) = "0ms")) then
     ["delay"; profile.(Delay)] ++
     (if negb (bool_decide (profile.(Jitter) = "")) && negb (bool_decide (profile.(Jitter) = "0ms")) then
        [profile.(Jitter)] ++
        (if (0 <? profile.(Correlation))%F then [fmt_fixed 2 profile.(Correlation)] else [])
      else [])
   else []) ++
  (if (0 <? profile.(Loss))%F then ["loss"; fmt_fixed 2 profile.(Loss)] else []) ++
  (if negb (bool_decide (profile.(Rate) = "")) then ["rate"; profile.(Rate)] else [])%list.

Definition add_args (iface : string) (profile : NetworkProfile) : list string :=
  ["qdisc"; "add"; "dev"; iface; "root"; "netem"] ++ netem_params profile.
Definition del_args (iface : string) : list string := ["qdisc"; "del"; "dev"; iface; "root"].

Section emulator.
(** The state of the machine and the program [tc]. *)
Context {W : Type} (tc : list string → W → W * (string * option string)).

Abbreviation prog := (prog_on W error).

(** [runOutput]: the output and the error of one execution of [tc]. *)
Definition runOutput (args : list string) : prog (string * option string) :=
  λ w, let '(w, r) := tc args w in (w, Ok r).

(** [run]: the error alone. *)
Definition run (args : list string) : prog (option string) :=
  '(_, err) ← runOutput args; mret err.

Definition Clean (iface : string) : prog unit :=
  '(out, err) ← runOutput (del_args iface);
  match err with
  | Some err =>
      if strings.Contains out "RTNETLINK answers: No such file or directory"
         || strings.Contains out "Cannot delete qdisc with handle of zero" then mret tt
      else if isNotPermitted err || isNotPermittedOutput out then throw ErrNotPermitted
      else throw (CleanNetem err out)
  | None => mret tt
  end.

(** [if err := e.Clean(); err != nil { return wrap(err) }] *)
Definition clean_or (wrap : error → error) (iface : string) : prog unit :=
  λ w, match Clean iface w with
       | (w, Err e) => (w, Err (wrap e))
       | r => r
       end.

Definition Apply (iface : string) (profile : NetworkProfile) : prog unit :=
  clean_or (λ err, if isNotPermitted (Error err) then ErrNotPermitted else CleanBeforeApply err) iface ;;
  let args := add_args iface profile in
  '(out, err) ← runOutput args;
  match err with
  | Some err =>
      if strings.Contains out "RTNETLINK answers: File exists" then
        clean_or CleanAfterConflict iface ;;
        '(out, err) ← runOutput args;
        match err with
        | Some err => throw (ApplyAfterRetry err out)
        | None => mret tt
        end
      else throw (ApplyNetem err out)
  | None => mret tt
  end.

Definition Show (iface : string) : prog string :=
  '(out, err) ← runOutput ["qdisc"; "show"; "dev"; iface];
  match err with
  | Some err => throw (ShowQdisc err)
  | None => mret out
  end.

(** What [tc(8)] documents: a successful [del] leaves no root discipline, and
    the two messages say that there was none; a successful [add] leaves the one
    that was asked for. *)
Class TcLaws (qdisc : string → W → option (list string)) := {
  tc_del iface w w' out err :
    tc (del_args iface) w = (w', (out, err)) →
    err = None ∨ strings.Contains out "RTNETLINK answers: No such file or directory" = true ∨
      strings.Contains out "Cannot delete qdisc with handle of zero" = true →
    qdisc iface w' = None;
  tc_add iface params w w' out :
    tc (["qdisc"; "add"; "dev"; iface; "root"; "netem"] ++ params)%list w = (w', (out, None)) →
    qdisc iface w' = Some params
}.

Section laws.
Context `{TcLaws qdisc}.

(** [Clean] succeeds only when the interface has no discipline any more. *)
Lemma Clean_removes iface w w' : Clean iface w = (w', Ok tt) → qdisc iface w' = None.
Proof.
  unfold Clean, runOutput, mbind, prog_on_bind.
  destruct (tc (del_args iface) w) as [w1 [out [err|]]] eqn:E; simpl.
  - destruct (_ || _) eqn:Hc; [|by repeat case_match].
    intros [= <-]. apply orb_true_iff in Hc. eapply tc_del; [exact E|by right].
  - intros [= <-]. eapply tc_del; [exact E|by left].
Qed.

(** [Apply] succeeds only when the interface has the discipline of the profile,
    also when another one was in the way. *)
Lemma Apply_installs iface profile w w' :
  Apply iface profile w = (w', Ok tt) → qdisc iface w' = Some (netem_params profile).
Proof.
  unfold Apply, clean_or, runOutput, mbind, prog_on_bind.
  destruct (Clean iface w) as [w1 [[]|e| |]]; try done.
  destruct (tc (add_args iface profile) w1) as [w2 [out [err|]]] eqn:E; simpl.
  - destruct (strings.Contains _ _); [|done].
    destruct (Clean iface w2) as [w3 [[]|e| |]]; try done.
    destruct (tc (add_args iface profile) w3) as [w4 [out' [err'|]]] eqn:E'; simpl; [done|].
    intros [= <-]. by eapply tc_add.
  - intros [= <-]. by eapply tc_add.
Qed.
End laws.

(** Neither operation panics or hangs. *)
Lemma Clean_safe iface w : safe (Clean iface w).2.
Proof.
  unfold Clean, runOutput, mbind, prog_on_bind.
  destruct (tc (del_args iface) w) as [w1 [out [err|]]]; simpl; [|done].
  by repeat (case_match; simpl).
Qed.

Lemma Apply_safe iface profile w : safe (Apply iface profile w).2.
Proof.
  unfold Apply, clean_or, runOutput, mbind, prog_on_bind.
  pose proof (Clean_safe iface w) as Hs. destruct (Clean iface w) as [w1 [[]|e| |]]; try done.
  destruct (tc (add_args iface profile) w1) as [w2 [out [err|]]]; simpl; [|done].
  destruct (strings.Contains _ _); [|done].
  pose proof (Clean_safe iface w2) as Hs'. destruct (Clean iface w2) as [w3 [[]|e| |]]; try done.
  by destruct (tc (add_args iface profile) w3) as [w4 [out' [err'|]]].
Qed.

(** Without the permission [Apply] does not return [ErrNotPermitted] itself,
    which its first branch means to: the text of that error is spelled in lower
    case, and [isNotPermitted] looks for a capital letter. *)
Theorem Apply_wraps_ErrNotPermitted iface profile w w' :
  Clean iface w = (w', Err ErrNotPermitted) →
  Apply iface profile w = (w', Err (CleanBeforeApply ErrNotPermitted)).
Proof. intros H. unfold Apply, mbind, prog_on_bind, clean_or. by rewrite H. Qed.

End emulator.

(** ** A model of [tc]

    Root disciplines by interface; [add] fails when there is one, [del] when
    there is none, with the messages of iproute2. *)
Abbreviation qdiscs := (gmap string (list string)).

Definition tc_model (args : list string) (w : qdiscs) : qdiscs * (string * option string) :=
  match args with
  | "qdisc" :: "add" :: "dev" :: iface :: "root" :: "netem" :: params =>
      match w !! iface with
      | Some _ => (w, ("RTNETLINK answers: File exists", Some "exit status 2"))
      | None => (<[iface := params]> w, ("", None))
      end
  | "qdisc" :: "del" :: "dev" :: iface :: "root" :: [] =>
      match w !! iface with
      | Some _ => (delete iface w, ("", None))
      | None => (w, ("Error: Cannot delete qdisc with handle of zero.", Some "exit status 2"))
      end
  | _ => (w, ("", None))
  end.

Definition qdisc_model (iface : string) (w : qdiscs) : option (list string) := w !! iface.

#[global] Instance tc_model_laws : TcLaws tc_model qdisc_model.
Proof.
  unfold qdisc_model. split.
  - intros iface w w' out err. simpl. destruct (w !! iface) eqn:E; intros [= <- <- <-] _; [|done].
    apply lookup_delete_eq.
  - intros iface params w w' out. simpl. destruct (w !! iface) eqn:E; intros [= <- <-].
    apply lookup_insert_eq.
Qed.

Example netem_params_ex :
  map (λ n, netem_params (default NetworkProfile_zero (DefaultProfiles !! n))) ["clean"; "wifi"; "lte"] =
  [["delay"; "1ms"; "rate"; "1000mbit"];
   ["delay"; "5ms"; "2ms"; "loss"; "0.10"; "rate"; "100mbit"];
   ["delay"; "30ms"; "10ms"; "loss"; "1.00"; "rate"; "50mbit"]].
Proof. vm_compute. reflexivity. Qed.

End netem.
