(* ===== verification/Scenarios.v ===== *)
(** * The scenario runner of the stress tester

    [src/stress_tester/internal/scenarios/runner.go]: a scenario is run once for
    each of its profiles; every run applies the profile, starts the load
    generator, lets it run, makes the report and saves it.  The machine with its
    program [tc] and the files are the state.  What the environment decides in
    the run of one profile is the record [visit]: whether the context is done
    before it, the attempts to dial, the schedule of the goroutines of the load
    generator, the clock, and which file operations succeed. *)

From stdpp Require Import gmap.
From S2P Require Import Prelude.
From S2P Require Import Float64.
From S2P Require Import GoTime.
From S2P Require Import BenchConfig.
From S2P Require Import Metrics.
From S2P Require Import MetricsFacts.
From S2P Require Import Loader.
From S2P Require Import LoaderFacts.
From S2P Require Import Netem.

#[local] Open Scope string_scope.
#[local] Open Scope Z_scope.

Module scenarios.
Import config.

Record Runner := mkRunner {
  iface : string;
  outputDir : string;
  saveRaw : bool;
  system : RPCSystem;
  serverAddr : string
}.

Definition NewRunner (iface outputDir : string) (saveRaw : bool) (system : RPCSystem)
    (serverAddr : string) : Runner :=
  mkRunner iface outputDir saveRaw system serverAddr.

(** [schedule] takes the generator as [Start] leaves it to the state in which
    [Run] returns: see [visit_ok]. *)
Record visit := mkVisit {
  ctx_done : bool;
  attempts : nat → loader.attempt;
  started : Z;
  schedule : generator.LoadGenerator → generator.LoadGenerator;
  now : Z;
  json_env : metrics.save_env;
  csv_env : metrics.save_env
}.

Inductive run_error := UnknownScenario | UnknownProfile | StartLoader | CtxErr.

Section runner.
Context {W : Type} (tc : list string → W → W * (string * option string)).
Variables RFC3339 RFC3339Nano : Z → string.

Record world := mkWorld { machine : W; disk : metrics.files }.

Abbreviation prog := (prog_on world run_error).

(** A call whose error is only logged. *)
Definition logged {S E A} (c : prog_on S E A) : S → S := λ s, (c s).1.
Definition on_machine (f : W → W) : prog unit := modify (λ s, mkWorld (f s.(machine)) s.(disk)).
Definition on_disk (f : metrics.files → metrics.files) : prog unit :=
  modify (λ s, mkWorld s.(machine) (f s.(disk))).

(** [defer]: the emulation is removed unless the body came to its end. *)
Definition defer_clean {A} (iface : string) (body : prog A) : prog A :=
  λ s, match body s with
       | (s, Ok a) => (s, Ok a)
       | (s, r) => ((on_machine (logged (netem.Clean tc iface)) s).1, r)
       end.

Definition save (v : visit) (r : Runner) (report : metrics.Report) : prog unit :=
  on_disk (logged (metrics.SaveJSON v.(json_env) report r.(outputDir) "bench")) ;;
  on_disk (logged (metrics.SaveCSV RFC3339 RFC3339Nano v.(csv_env) report r.(outputDir) "bench")).

(** A panic in a worker ends the process at once, without the deferred call. *)
Definition runSingle (v : visit) (r : Runner) (scenario profileName : string) (lc : LoadConfig) :
    prog metrics.Report :=
  match DefaultProfiles !! profileName with
  | None => throw UnknownProfile
  | Some profile =>
      on_machine (logged (netem.Apply tc r.(iface) profile)) ;;
      report ← defer_clean r.(iface) (
        let lc := runBenchmark.set_System r.(system) lc in
        with_err (generator.Start v.(attempts) lc r.(serverAddr) v.(started) metrics.NewCollector)
          (λ _, throw StartLoader)
          (λ lg,
            let lg := v.(schedule) lg in
            if lg.(generator.crashed) then mret None
            else
              report ← lift (Prelude.total (metrics.report v.(now) scenario profileName r.(system) lc
                                              r.(saveRaw) lg.(generator.collector)));
              save v r report ;;
              mret (Some report)));
      match report with
      | Some report => mret report
      | None => lift Panic
      end
  end.

(** The loop over the profiles; [k] counts them.  An error of a run is logged,
    a context that is done ends the loop. *)
Fixpoint run_profiles (env : nat → visit) (r : Runner) (scenario : string) (lc : LoadConfig)
    (k : nat) (profiles : list string) (reports : list metrics.Report) :
    prog (list metrics.Report * bool) :=
  match profiles with
  | [] => mret (reports, true)
  | p :: ps =>
      if (env k).(ctx_done) then mret (reports, false)
      else λ s,
        match runSingle (env k) r scenario p lc s with
        | (s, Ok report) => run_profiles env r scenario lc (S k) ps (reports ++ [report])%list s
        | (s, Err _) => run_profiles env r scenario lc (S k) ps reports s
        | (s, Panic) => (s, Panic)
        | (s, NoFuel) => (s, NoFuel)
        end
  end.

(** The reports, and whether the scenario was interrupted. *)
Definition RunScenario (env : nat → visit) (r : Runner) (scenarioName : string)
    (profiles : list string) (lc : LoadConfig) : prog (list metrics.Report * option run_error) :=
  match DefaultScenarios !! scenarioName with
  | None => throw UnknownScenario
  | Some scenarioCfg =>
      let profiles := if (len profiles =? 0)%Z then scenarioCfg.(sc_Profiles) else profiles in
      '(reports, completed) ← run_profiles env r scenarioName lc 0 profiles [];
      if completed : bool then
        on_machine (logged (netem.Clean tc r.(iface))) ;;
        mret (reports, None)
      else mret (reports, Some CtxErr)
  end.

(** The five entry points: the configuration of the table, or the one given. *)
Definition run_named (name : string) (env : nat → visit) (r : Runner) (lc : option LoadConfig) :
    prog (list metrics.Report * option run_error) :=
  let cfg := default (mkScenario "" LoadConfig_zero []) (DefaultScenarios !! name) in
  RunScenario env r name cfg.(sc_Profiles) (default cfg.(sc_LoadConfig) lc).
Definition RunBaselineLatency := run_named "baseline_latency".
Definition RunConcurrencyStress := run_named "concurrency_stress".
Definition RunMultiplexStress := run_named "multiplex_stress".
Definition RunLossSensitivity := run_named "loss_sensitivity".
Definition RunRTTScaling := run_named "rtt_scaling".

(** ** Facts *)

(** A collector that the report can be made of: see [report_total]. *)
Definition collector_ok (c : metrics.Collector) : Prop :=
  len c.(metrics.samples) ≤ 2 ^ 53 ∧ representable (durations c.(metrics.samples)) ∧
  sum (durations c.(metrics.samples)) < 2 ^ 63.

(** The schedule of a visit is a run of the goroutines until [Run] has returned,
    and the samples it leaves are bounded. *)
Definition visit_ok (v : visit) : Prop :=
  ∀ lc addr g, wf.LoadConfig_wf lc →
    generator.Start v.(attempts) lc addr v.(started) metrics.NewCollector = Ok g →
    rtc generator.step g (v.(schedule) g) ∧
    (v.(schedule) g).(generator.main) = generator.RunReturned ∧
    collector_ok (v.(schedule) g).(generator.collector).

(** The report of the visit of a profile, when there is one. *)
Definition report_of (v : visit) (r : Runner) (scenario profileName : string) (lc : LoadConfig) :
    option metrics.Report :=
  _ ← DefaultProfiles !! profileName;
  let lc := runBenchmark.set_System r.(system) lc in
  match generator.Start v.(attempts) lc r.(serverAddr) v.(started) metrics.NewCollector with
  | Ok lg =>
      match metrics.report v.(now) scenario profileName r.(system) lc r.(saveRaw)
              (v.(schedule) lg).(generator.collector) with
      | Ok rep => Some rep
      | _ => None
      end
  | _ => None
  end.

Lemma set_System_wf v lc : wf.LoadConfig_wf lc → wf.LoadConfig_wf (runBenchmark.set_System v lc).
Proof. by intros []. Qed.

(** [Start] returns or fails; a started visit does not crash and has a report. *)
Lemma visit_report v scenario p system lc saveRaw addr :
  visit_ok v → wf.LoadConfig_wf lc →
  match generator.Start v.(attempts) lc addr v.(started) metrics.NewCollector with
  | Ok g => (v.(schedule) g).(generator.crashed) = false ∧
      collector_ok (v.(schedule) g).(generator.collector) ∧
      ∃ rep, metrics.report v.(now) scenario p system lc saveRaw (v.(schedule) g).(generator.collector) = Ok rep
  | Err _ => True
  | _ => False
  end.
Proof.
  intros Hv Hwf. destruct (generator.Start _ _ _ _ _) as [g|e| |] eqn:E.
  - destruct (Hv lc addr g Hwf E) as (Hr & Hm & Hc). split; [|split; [done|]].
    + by eapply generator_facts.started_no_crash.
    + destruct Hc as (H1 & H2 & H3). by apply report_total.
  - done.
  - unfold generator.Start in E. pose proof (initClient_spec lc addr (attempts v)) as H.
    by destruct (loader.initClient lc addr (attempts v)).
  - unfold generator.Start in E. pose proof (initClient_spec lc addr (attempts v)) as H.
    by destruct (loader.initClient lc addr (attempts v)).
Qed.

Lemma runSingle_spec v r scenario p lc s :
  visit_ok v → wf.LoadConfig_wf lc →
  match report_of v r scenario p lc with
  | Some rep => ∃ d, runSingle v r scenario p lc s =
      (mkWorld (logged (netem.Apply tc r.(iface)
         (default NetworkProfile_zero (DefaultProfiles !! p))) s.(machine)) d, Ok rep)
  | None => ∃ s' e, runSingle v r scenario p lc s = (s', Err e)
  end.
Proof.
  intros Hv Hwf. unfold report_of, runSingle. destruct (DefaultProfiles !! p) as [pr|]; simpl; [|eauto].
  unfold mbind, prog_on_bind, defer_clean, on_machine, modify, with_err; simpl.
  pose proof (visit_report v scenario p (system r) _ (saveRaw r) (serverAddr r) Hv
    (set_System_wf (system r) lc Hwf)) as Hs.
  destruct (generator.Start _ _ _ _ _) as [g|e| |]; [|simpl; eauto|done|done].
  destruct Hs as (-> & _ & rep & ->). simpl. eauto.
Qed.

Lemma run_profiles_spec env r scenario lc k ps reports s :
  wf.LoadConfig_wf lc → (∀ i, (env i).(ctx_done) = false ∧ visit_ok (env i)) →
  ∃ s', run_profiles env r scenario lc k ps reports s =
    (s', Ok (reports ++ omap id (imap (λ i p, report_of (env (k + i)%nat) r scenario p lc) ps), true)%list).
Proof.
  intros Hwf He. revert k reports s. induction ps as [|p ps IH]; intros k reports s; simpl.
  { rewrite app_nil_r. by eexists. }
  rewrite (proj1 (He k)). rewrite Nat.add_0_r.
  pose proof (runSingle_spec (env k) r scenario p lc s (proj2 (He k)) Hwf) as Hs.
  assert (imap ((λ i p, report_of (env (k + i)%nat) r scenario p lc) ∘ S) ps =
          imap (λ i p, report_of (env (S k + i)%nat) r scenario p lc) ps) as ->.
  { apply imap_ext. intros i x _. simpl. by rewrite Nat.add_succ_r. }
  destruct (report_of (env k) r scenario p lc) as [rep|]; simpl.
  - destruct Hs as [d ->]. edestruct (IH (S k) (reports ++ [rep])%list) as [s'' ->].
    exists s''. by rewrite <- app_assoc.
  - destruct Hs as (s' & e & ->). apply IH.
Qed.

(** An uninterrupted scenario: the reports, and the [Clean] at its end. *)
Lemma RunScenario_spec env r name sc ps lc s :
  DefaultScenarios !! name = Some sc → wf.LoadConfig_wf lc →
  (∀ i, (env i).(ctx_done) = false ∧ visit_ok (env i)) →
  ∃ m d,
    RunScenario env r name ps lc s =
      (mkWorld (netem.Clean tc r.(iface) m).1 d,
       Ok (omap id (imap (λ i p, report_of (env i) r name p lc)
              (if decide (ps = []) then sc.(sc_Profiles) else ps)), None)).
Proof.
  intros Hsc Hwf He. unfold RunScenario. rewrite Hsc.
  replace (if len ps =? 0 then sc.(sc_Profiles) else ps) with
    (if decide (ps = []) then sc.(sc_Profiles) else ps) by (destruct ps; done).
  destruct (run_profiles_spec env r name lc 0 (if decide (ps = []) then sc.(sc_Profiles) else ps) [] s Hwf He)
    as [s' Hs]. exists s'.(machine), s'.(disk). by rewrite (prog_bind_Ok _ _ _ _ _ Hs).
Qed.

Context {qdisc : string → W → option (list string)} `{!netem.TcLaws tc qdisc}.

(** C28: for a well-formed configuration, a scenario that is not interrupted
    returns, for every schedule of the load generators, exactly one report for
    each profile whose generator could be started, in the order of the profiles,
    and ends by removing the network emulation: the machine it leaves is the one after a
    [Clean], and has no queueing discipline if that [Clean] succeeded. *)
Theorem RunScenario_completes env r name sc ps lc s :
  DefaultScenarios !! name = Some sc → wf.LoadConfig_wf lc →
  (∀ i, (env i).(ctx_done) = false ∧ visit_ok (env i)) →
  ∃ m d,
    RunScenario env r name ps lc s =
      (mkWorld (netem.Clean tc r.(iface) m).1 d,
       Ok (omap id (imap (λ i p, report_of (env i) r name p lc)
              (if decide (ps = []) then sc.(sc_Profiles) else ps)), None)) ∧
    ((netem.Clean tc r.(iface) m).2 = Ok tt → qdisc r.(iface) (netem.Clean tc r.(iface) m).1 = None).
Proof.
  intros Hsc Hwf He. destruct (RunScenario_spec env r name sc ps lc s Hsc Hwf He) as (m & d & Hrun).
  exists m, d. split; [exact Hrun|]. intros Hc. eapply netem.Clean_removes; [done|].
  destruct (netem.Clean tc (iface r) m) as [w o] eqn:E; simpl in *. by rewrite E, Hc.
Qed.

(** A context that is done before the second profile ends the scenario without
    the final [Clean]: the emulation of the first profile stays installed. *)
Theorem interrupted_keeps_emulation env r name sc p profile ps lc s rep :
  DefaultScenarios !! name = Some sc → DefaultProfiles !! p = Some profile → ps ≠ [] →
  wf.LoadConfig_wf lc →
  (env O).(ctx_done) = false → (env 1%nat).(ctx_done) = true →
  visit_ok (env O) → report_of (env O) r name p lc = Some rep →
  (netem.Apply tc r.(iface) profile s.(machine)).2 = Ok tt →
  ∃ s', RunScenario env r name (p :: ps) lc s = (s', Ok ([rep], Some CtxErr)) ∧
    qdisc r.(iface) s'.(machine) = Some (netem.netem_params profile).
Proof.
  intros Hsc Hp Hps Hwf H0 H1 Hv Hr Ha. unfold RunScenario. rewrite Hsc.
  rewrite (proj2 (Z.eqb_neq _ _)) by len_lia.
  pose proof (runSingle_spec (env O) r name p lc s Hv Hwf) as Hs. rewrite Hr, Hp in Hs.
  destruct Hs as [d Hs]. simpl in Hs. unfold logged in Hs.
  destruct (netem.Apply tc r.(iface) profile s.(machine)) as [w o] eqn:E. simpl in Ha, Hs. subst o.
  exists (mkWorld w d). split.
  - rewrite (prog_bind_Ok _ _ _ (mkWorld w d) ([rep], false)); [done|]. simpl. rewrite H0, Hs.
    destruct ps as [|q ps]; [done|]. simpl. by rewrite H1.
  - by eapply netem.Apply_installs.
Qed.

End runner.

(** ** A run on the model of [tc] *)

Definition env_ok : metrics.save_env := metrics.mkSaveEnv true true true true true id.

(** A schedule in which the first loop records one sample, when it can. *)
Definition one_sample (g : generator.LoadGenerator) : generator.LoadGenerator :=
  let c := g.(generator.cfg) in
  match loader.nextPayload c (loader.mkDraws 0 0 None) with
  | Ok payload =>
      generator.mkGen c (metrics.StopTimer 1 (metrics.Record
        (loader.sample_of 0 1 (loader.CallCode 200) payload 0) g.(generator.collector)))
        true false false g.(generator.loops) generator.RunReturned
  | _ => generator.mkGen c (metrics.StopTimer 1 g.(generator.collector)) true false false g.(generator.loops) generator.RunReturned
  end.

Definition short_visit (done : bool) : visit :=
  mkVisit done generator_facts.reachable_server 0 one_sample 0 env_ok env_ok.
Definition lo_runner : Runner := NewRunner "lo" "results" false "qrpc" "127.0.0.1:8081".
Definition clean_world : world := mkWorld (∅ : netem.qdiscs) ∅.

Lemma short_visit_ok b : visit_ok (short_visit b).
Proof.
  intros lc addr g Hwf ->%generator_facts.Start_Ok. simpl. unfold one_sample. cbn [generator.cfg generator.spawn].
  pose proof (nextPayload_sizes lc (loader.mkDraws 0 0 None) Hwf) as Hp. unfold collector_ok.
  destruct (loader.nextPayload lc _) as [payload| | |] eqn:E; [|done| |done].
  - split_and!; [|done|done|by repeat constructor|done]. by eapply (generator_facts.one_sample_run lc payload _ _ 0 1).
  - split_and!; [|done|done|by repeat constructor|done]. apply (generator_facts.no_sample_run lc _ 0 1).
Qed.

Lemma RunScenario_completes_witness :
  ∃ m d reports,
    RunScenario netem.tc_model (λ _, "") (λ _, "") (λ _, short_visit false) lo_runner "baseline_latency"
      ["clean"; "nope"; "lte"] generator_facts.baseline clean_world = (mkWorld m d, Ok (reports, None)) ∧
    map (λ r, (metrics.Profile r, metrics.SuccessCount r)) reports = [("clean", 1); ("lte", 1)] ∧
    m !! "lo" = None.
Proof.
  destruct (RunScenario_completes netem.tc_model (λ _, "") (λ _, "") (qdisc := netem.qdisc_model)
    (λ _, short_visit false) lo_runner "baseline_latency"
    (default (mkScenario "" LoadConfig_zero []) (DefaultScenarios !! "baseline_latency"))
    ["clean"; "nope"; "lte"] generator_facts.baseline clean_world) as (m & d & Hr & Hc).
  - by vm_compute.
  - apply generator_facts.baseline_wf.
  - intros i. split; [done|apply short_visit_ok].
  - eexists _, d, _. split; [exact Hr|]. split; [by vm_compute|]. apply Hc.
    unfold netem.Clean, netem.runOutput, mbind, prog_on_bind. simpl. by destruct (m !! "lo").
Defined.

End scenarios.
