(* ===== verification/Heatmap.v ===== *)
(** * The heat map report of all benchmark runs

    [src/runall_stress/main.go]: the matrix of runs, the reading of the JSON
    reports that the runs saved, their grouping into the cells of a heat map,
    and the HTML and console output.  The reports are read from the files that
    [Metrics.SaveJSON] writes; [decode] is what [encoding/json] makes of them in
    the tool's own [Report] type. *)

From Stdlib Require Import Ascii.
From stdpp Require Import gmap sorting.
From S2P Require Import Prelude.
From S2P Require Import Float64.
From S2P Require Import GoStrings.
From S2P Require Import GoTime.
From S2P Require Import BenchConfig.
From S2P Require Import Metrics.

#[local] Open Scope string_scope.
#[local] Open Scope Z_scope.

Module heatmap.

Definition profiles : list string := ["clean"; "wifi"; "lte"; "bad_lte"; "extreme"].
Definition payloadSizes : list string := ["100"; "4000"].
Definition connectionCounts : list Z := [1; 16].
Definition scenarios : list string :=
  ["baseline_latency"; "concurrency_stress"; "multiplex_stress"; "loss_sensitivity"; "rtt_scaling"].

(** ** Data *)

(** A value of a [map[string]any] that JSON was decoded into. *)
Inductive any := Num (q : float64) | Str (s : string).

Record Report := mkReport {
  Scenario : string;
  Profile : string;
  System : string;
  SuccessCount : Z;
  TotalRequests : Z;
  SuccessRate : float64;
  RPS : float64;
  AvgLatency : Z;
  MinLatency : Z;
  MaxLatency : Z;
  P50 : Z;
  P90 : Z;
  P95 : Z;
  P99 : Z;
  P999 : Z;
  LatencyDist : gmap string Z;
  Elapsed : Z;
  LoadConfig : gmap string any
}.

Record Cell := mkCell {
  c_Payload : string;
  c_Profile : string;
  c_RPS : float64;
  c_P95 : Z;
  c_P50 : Z;
  c_P99 : Z;
  c_Avg : Z;
  c_Success : float64;
  c_Total : Z;
  c_HasData : bool
}.

Record ScenarioData := mkScenarioData {
  sd_Name : string;
  sd_Cells : list Cell;
  sd_MaxRPS : float64;
  sd_MaxP95 : Z
}.

(** ** Decoding *)

Definition number (z : Z) : any := Num (of_int z).

(** The JSON object of a load configuration; the last three keys are omitted
    when they are empty. *)
Definition decode_load_config (lc : config.LoadConfig) : gmap string any :=
  list_to_map ([
    ("workers", number lc.(config.Workers));
    ("pipelining", number lc.(config.Pipelining));
    ("streams", number lc.(config.Streams));
    ("connections", number lc.(config.Connections));
    ("workload", Str lc.(config.Workload));
    ("payload_size", number lc.(config.PayloadSize));
    ("min_payload", number lc.(config.MinPayload));
    ("max_payload", number lc.(config.MaxPayload));
    ("duration", Str (duration_String lc.(config.Duration)));
    ("warmup", Str (duration_String lc.(config.Warmup)));
    ("method", Str lc.(config.Method))
  ] ++ (if bool_decide (lc.(config.System) = "") then [] else [("system", Str lc.(config.System))])
    ++ (if lc.(config.RetryAttempts) =? 0 then [] else
          [("retry_attempts", number lc.(config.RetryAttempts))])
    ++ (if lc.(config.RetryDelay) =? 0 then [] else
          [("retry_delay", Str (duration_String lc.(config.RetryDelay)))]))%list.

Definition decode (r : metrics.Report) : Report :=
  mkReport r.(metrics.Scenario) r.(metrics.Profile) r.(metrics.System) r.(metrics.SuccessCount)
    r.(metrics.TotalRequests) r.(metrics.SuccessRate) r.(metrics.RPS) r.(metrics.AvgLatency)
    r.(metrics.MinLatency) r.(metrics.MaxLatency) r.(metrics.P50) r.(metrics.P90) r.(metrics.P95)
    r.(metrics.P99) r.(metrics.P999) r.(metrics.LatencyDist) r.(metrics.Elapsed)
    (decode_load_config r.(metrics.LoadConfig)).

(** ** Root of the project *)

(** A path is the list of its components, the last one first: [filepath.Dir]
    removes it, and the directory of the root is the root. *)
Fixpoint findRoot (has_go_mod : list string → bool) (dir : list string) : option (list string) :=
  if has_go_mod dir then Some dir
  else match dir with
       | [] => None
       | _ :: parent => findRoot has_go_mod parent
       end.

(** ** The runs *)

Record run := mkRun { r_conn : Z; r_sc : string; r_prof : string; r_pay : string }.

(** The four nested loops of [main]. *)
Definition matrix : list run :=
  conn ← connectionCounts; sc ← scenarios; prof ← profiles; pay ← payloadSizes;
  [mkRun conn sc prof pay].

(** The arguments of one execution of the stress tester, after "run". *)
Definition run_args (resultsDir : string) (r : run) : list string :=
  ["-scenario"; r.(r_sc); "-profile"; r.(r_prof); "-payload-size"; r.(r_pay); "-streams"; "16";
   "-connections"; fmt_int r.(r_conn); "-pipelining"; "64"; "-duration"; "10s"; "-warmup"; "3s";
   "-addr"; "127.0.0.1:8181"; "-output"; resultsDir].

(** ** Reading the results *)

#[local] Instance name_le_dec : RelDecision (λ a b : string * metrics.file_content, String.le a.1 b.1).
Proof. intros a b. apply _. Defined.

(** [os.ReadDir]: the entries of the directory, sorted by name. *)
Definition ReadDir (dir : string) (disk : metrics.files) : list (string * metrics.file_content) :=
  merge_sort (λ a b, String.le a.1 b.1)
    (omap (λ '((d, name), content), if bool_decide (d = dir) then Some (name, content) else None)
       (map_to_list disk)).

(** Files that cannot be read or decoded are passed over; a directory that cannot
    be read ([None]) gives no reports. *)
Definition load_entry (readable : string → bool) (entry : string * metrics.file_content) : option Report :=
  let '(name, content) := entry in
  if negb (strings.HasPrefix name "bench_") || negb (strings.HasSuffix name ".json") then None
  else if readable name then
    match content with metrics.JSON r => Some (decode r) | metrics.CSV _ => None end
  else None.

Definition loadResults (readable : string → bool)
    (entries : option (list (string * metrics.file_content))) : list Report :=
  match entries with
  | None => []
  | Some entries => omap (load_entry readable) entries
  end.

Definition extractPayload (filename : string) : string :=
  let p := strings.TrimSuffix filename ".json" in
  match strings.Split p "_pay" with
  | [_; x] => x
  | _ => "?"
  end.

(** ** Grouping *)

Abbreviation go := (outcome Empty_set).
Abbreviation groups := (gmap (string * string * string) Report).

(** [fmt.Sprintf("%d", int(r.LoadConfig["payload_size"].(float64)))]: the type
    assertion panics when the key is missing. *)
Definition payload_key (r : Report) : go string :=
  match r.(LoadConfig) !! "payload_size" with
  | Some (Num q) => Ok (fmt_int (to_int q))
  | _ => Panic
  end.

(** [grouped[scenario][profile][pay] = r] *)
Definition group_one (grouped : groups) (r : Report) : go groups :=
  pay ← payload_key r;
  Ok (<[(r.(Scenario), r.(Profile), pay) := r]> grouped).

Fixpoint group (grouped : groups) (rs : list Report) : go groups :=
  match rs with
  | [] => Ok grouped
  | r :: rs => g ← group_one grouped r; group g rs
  end.

Definition empty_cell (pay prof : string) : Cell := mkCell pay prof 0 0 0 0 0 0 0 false.

Definition add_cell (grouped : groups) (sc prof pay : string) (sd : ScenarioData) : ScenarioData :=
  match grouped !! (sc, prof, pay) with
  | Some r =>
      let c := mkCell pay prof r.(RPS) r.(P95) r.(P50) r.(P99) r.(AvgLatency) r.(SuccessRate)
                 r.(TotalRequests) true in
      mkScenarioData sd.(sd_Name) (sd.(sd_Cells) ++ [c])
        (if (sd.(sd_MaxRPS) <? r.(RPS))%F then r.(RPS) else sd.(sd_MaxRPS))
        (if sd.(sd_MaxP95) <? r.(P95) then r.(P95) else sd.(sd_MaxP95))
  | None =>
      mkScenarioData sd.(sd_Name) (sd.(sd_Cells) ++ [empty_cell pay prof]) sd.(sd_MaxRPS) sd.(sd_MaxP95)
  end.

Definition scenario_data (grouped : groups) (sc : string) : ScenarioData :=
  foldl (λ sd prof, foldl (λ sd pay, add_cell grouped sc prof pay sd) sd payloadSizes)
    (mkScenarioData sc [] 0 0) profiles.

(** ** Colours and numbers *)

Definition rgba (r g b a : Z) : string :=
  let r := if 255 <? r then 255 else r in
  let g := if 255 <? g then 255 else g in
  let b := if 255 <? b then 255 else b in
  let a := if 100 <? a then 100 else a in
  let a := if a <? 0 then 0 else a in
  ("rgba(" ++ fmt_int r ++ "," ++ fmt_int g ++ "," ++ fmt_int b ++ ","
    ++ fmt_fixed 2 (of_int a / 100)%F ++ ")")%string.

(** The components that [heatColor] passes to [rgba]. *)
Definition heat (val min max : float64) (reverse : bool) : Z * Z * Z * Z :=
  if (max =? min)%F then (128, 255, 128, 30)
  else
    let ratio := ((val - min) / (max - min))%F in
    let ratio := if (1 <? ratio)%F then 1%Q else ratio in
    let ratio := if reverse then (1 - ratio)%F else ratio in
    (to_int (255 * (1 - ratio))%F, to_int (255 * ratio)%F, 80, 40 + to_int (60 * ratio)%F).

Definition heatColor (val min max : float64) (reverse : bool) : string :=
  let '(r, g, b, a) := heat val min max reverse in rgba r g b a.

Definition fmtLatency (ns : Z) : string :=
  if 1000000000 <=? ns then (fmt_fixed 2 (of_int ns / 1000000000)%F ++ "s")%string
  else if 1000000 <=? ns then (fmt_fixed 1 (of_int ns / 1000000)%F ++ "ms")%string
  else if 1000 <=? ns then (fmt_fixed 1 (of_int ns / 1000)%F ++ "µs")%string
  else (fmt_int ns ++ "ns")%string.

Definition fmtRPS (v : float64) : string :=
  if (1000000 <=? v)%F then (fmt_fixed 2 (v / 1000000)%F ++ "M")%string
  else if (1000 <=? v)%F then (fmt_fixed 1 (v / 1000)%F ++ "K")%string
  else fmt_fixed 0 v.

(** ** HTML *)

Definition dq : string := String (ascii_of_nat 34) "".
Definition nl : string := String (ascii_of_nat 10) "".
Definition tab : string := String (ascii_of_nat 9) "".
Fixpoint concat (l : list string) : string :=
  match l with [] => "" | x :: l => x ++ concat l end%string.

(** The first cell of the payload and the profile; the zero cell when there is
    none. *)
Definition find_cell (pay prof : string) (cells : list Cell) : Cell :=
  default (empty_cell "" "")
    (List.find (λ c, bool_decide (c.(c_Payload) = pay) && bool_decide (c.(c_Profile) = prof)) cells).

Definition render_cell (sd : ScenarioData) (pay prof : string) : string :=
  let c := find_cell pay prof sd.(sd_Cells) in
  if c.(c_HasData) then
    let rpsBg := heatColor c.(c_RPS) 0 sd.(sd_MaxRPS) false in
    let p95Bg := heatColor (of_int c.(c_P95)) 0 (of_int sd.(sd_MaxP95)) true in
    ("<td class=" ++ dq ++ "data-cell" ++ dq ++ ">" ++ nl ++
     strings.Repeat tab 4 ++ "<div class=" ++ dq ++ "rps" ++ dq ++ " style=" ++ dq ++ "background:" ++
     rpsBg ++ dq ++ ">" ++ fmtRPS c.(c_RPS) ++ "</div>" ++ nl ++
     strings.Repeat tab 4 ++ "<div class=" ++ dq ++ "p95" ++ dq ++ " style=" ++ dq ++ "background:" ++
     p95Bg ++ dq ++ ">P95 " ++ fmtLatency c.(c_P95) ++ "</div>" ++ nl ++
     strings.Repeat tab 3 ++ "</td>")%string
  else ("<td class=" ++ dq ++ "no-data" ++ dq ++ ">—</td>")%string.

Definition renderScenario (sd : ScenarioData) : string :=
  ("<div class=" ++ dq ++ "scenario" ++ dq ++ ">" ++ nl ++
   "<h2>" ++ sd.(sd_Name) ++ "</h2>" ++ nl ++ "<table>" ++ nl ++ "<thead><tr><th>Payload</th>" ++
   concat (map (λ prof, "<th class=" ++ dq ++ "rotated" ++ dq ++ "><span>" ++ prof ++ "</span></th>")
             profiles) ++
   "</tr></thead><tbody>" ++
   concat (map (λ pay,
     "<tr><td class=" ++ dq ++ "pay" ++ dq ++ ">" ++ pay ++ " B</td>" ++
     concat (map (render_cell sd pay) profiles) ++ "</tr>") payloadSizes) ++
   "</tbody></table></div>")%string.

(** The largest rate and the largest P95 of the cells of a profile. *)
Definition best (prof : string) (cells : list Cell) : float64 :=
  foldl (λ best c,
    if bool_decide (c.(c_Profile) = prof) && c.(c_HasData) && (best <? c.(c_RPS))%F
    then c.(c_RPS) else best) 0%Q cells.
Definition worst (prof : string) (cells : list Cell) : Z :=
  foldl (λ worst c,
    if bool_decide (c.(c_Profile) = prof) && c.(c_HasData) && (worst <? c.(c_P95))
    then c.(c_P95) else worst) 0 cells.

Definition best_text (sd : ScenarioData) (prof : string) : string :=
  let best := best prof sd.(sd_Cells) in if (0 <? best)%F then fmtRPS best else "—".
Definition worst_text (sd : ScenarioData) (prof : string) : string :=
  let worst := worst prof sd.(sd_Cells) in if 0 <? worst then fmtLatency worst else "—".

(** One of the two tables, which differ in their title and their cells. *)
Definition summary_part (title : string) (text : ScenarioData → string → string)
    (sds : list ScenarioData) : string :=
  ("<div class=" ++ dq ++ "scenario" ++ dq ++ "><h2>" ++ title ++ "</h2><table>" ++ nl ++
   "<thead><tr><th>Scenario</th>" ++
   concat (map (λ prof, "<th>" ++ prof ++ "</th>") profiles) ++
   "</tr></thead><tbody>" ++
   concat (map (λ sd, "<tr><td>" ++ sd.(sd_Name) ++ "</td>" ++
     concat (map (λ prof, "<td>" ++ text sd prof ++ "</td>") profiles) ++ "</tr>") sds) ++
   "</tbody></table></div>")%string.

Definition summaryTable (sds : list ScenarioData) : string :=
  (summary_part "Summary — RPS" best_text sds ++
   summary_part "Summary — P95 Latency" worst_text sds)%string.

(** ** Console *)

Definition println (s : string) : string := (s ++ nl)%string.

Definition console_header : string :=
  (strings.PadRight 22 "Scenario" ++ concat (map (λ p, " " ++ strings.PadLeft 12 p) profiles))%string.
Definition console_line (text : ScenarioData → string → string) (sd : ScenarioData) : string :=
  (strings.PadRight 22 sd.(sd_Name) ++
   concat (map (λ prof, " " ++ strings.PadLeft 12 (text sd prof)) profiles))%string.

Definition printConsoleSummary (sds : list ScenarioData) : string :=
  concat (map println (
    [(nl ++ strings.Repeat "=" 90)%string;
     "RESULTS SUMMARY (best RPS across payload sizes)";
     strings.Repeat "=" 90; console_header; strings.Repeat "-" 90]
    ++ map (console_line best_text) sds
    ++ [strings.Repeat "=" 90;
        (nl ++ "TAIL LATENCY (worst P95 across payload sizes)")%string;
        strings.Repeat "-" 90; console_header; strings.Repeat "-" 90]
    ++ map (console_line worst_text) sds
    ++ [strings.Repeat "-" 90])%list).

Definition htmlHeader : string :=
  ("<!DOCTYPE html>" ++ nl ++
   "<html lang=" ++ dq ++ "en" ++ dq ++ ">" ++ nl ++
   "<head><meta charset=" ++ dq ++ "utf-8" ++ dq ++ ">" ++ nl ++
   "<title>qRPC Benchmark Heatmap</title>" ++ nl ++
   "<style>" ++ nl ++
   "  body { font-family: -apple-system, BlinkMacSystemFont, 'Segoe UI', sans-serif;" ++ nl ++
   "         margin: 30px; background: #f8f9fa; color: #222; }" ++ nl ++
   "  h1 { border-bottom: 2px solid #4e79a7; padding-bottom: 8px; }" ++ nl ++
   "  h2 { color: #4e79a7; margin: 28px 0 12px; clear: both; }" ++ nl ++
   "  .scenario { margin-bottom: 40px; }" ++ nl ++
   "  table { border-collapse: collapse; font-size: 13px; }" ++ nl ++
   "  th, td { border: 1px solid #ccc; padding: 8px 12px; text-align: center; }" ++ nl ++
   "  th { background: #4e79a7; color: #fff; font-weight: 600; }" ++ nl ++
   "  th.rotated { height: 80px; white-space: nowrap; vertical-align: bottom; }" ++ nl ++
   "  th.rotated span { writing-mode: vertical-lr; transform: rotate(180deg); }" ++ nl ++
   "  td.pay { font-weight: 600; text-align: right; background: #e9ecef; }" ++ nl ++
   "  td.no-data { color: #aaa; font-style: italic; }" ++ nl ++
   "  .data-cell { padding: 0; }" ++ nl ++
   "  .data-cell div { padding: 4px 8px; }" ++ nl ++
   "  .rps { font-weight: 700; font-size: 14px; border-bottom: 1px solid rgba(0,0,0,0.1); }" ++ nl ++
   "  .p95 { font-size: 12px; color: #444; }" ++ nl ++
   "  tr:nth-child(even) td.pay { background: #dee2e6; }" ++ nl ++
   "  .summary-grid { display: flex; flex-wrap: wrap; gap: 20px; }" ++ nl ++
   "  .summary-grid table { flex: 0 0 auto; }" ++ nl ++
   "</style></head><body>" ++ nl ++
   "<h1>📊 qRPC Benchmark — Heatmap</h1>" ++ nl ++
   "<p>Payload sizes: 100 B / 4 KB &nbsp;|&nbsp; Connections: 1 / 16 &nbsp;|&nbsp; Pipelining: 64 &nbsp;|&nbsp; Duration: 10s + 3s warmup</p>" ++ nl)%string.

Definition htmlFooter : string := "</body></html>".

(** ** The report *)

(** The calls of [log.Fatalf], which end the process without deferred calls. *)
Inductive fatal := Getwd | RootNotFound | BuildFailed | ServerStart | CreateHTML.

(** The page and the console output; nothing is written without results. *)
Definition generateReport (readable : string → bool)
    (entries : option (list (string * metrics.file_content))) (create_ok : bool) :
    outcome fatal (option (string * string)) :=
  let reports := loadResults readable entries in
  if (len reports =? 0)%Z then Ok None
  else
    grouped ← Prelude.total (group ∅ reports);
    let allScenarios := map (scenario_data grouped) scenarios in
    if create_ok then
      Ok (Some ((htmlHeader ++ concat (map renderScenario allScenarios)
                  ++ summaryTable allScenarios ++ htmlFooter)%string,
                printConsoleSummary allScenarios))
    else Err CreateHTML.

(** ** The program *)

(** What the operating system answers: the working directory, where there is a
    go.mod, whether the build and the start of the server succeed, and the
    results directory after the runs.  A failed run is only logged. *)
Record env := mkEnv {
  wd : option (list string);
  has_go_mod : list string → bool;
  build_ok : bool;
  server_ok : bool;
  readable : string → bool;
  entries : option (list (string * metrics.file_content));
  create_ok : bool
}.

(** The commands that the program runs, in their order. *)
Inductive action :=
| GoBuild (root : list string)
| RunServer
| RunBench (args : list string)
| DeleteRules
| KillServer.

(** The deferred calls, the last one first. *)
Definition deferred : list action := [DeleteRules; KillServer].

Definition main (e : env) : list action * outcome fatal (option (string * string)) :=
  match e.(wd) with
  | None => ([], Err Getwd)
  | Some wd =>
      match findRoot e.(has_go_mod) wd with
      | None => ([], Err RootNotFound)
      | Some root =>
          if e.(build_ok) then
            if e.(server_ok) then
              let body := [GoBuild root; RunServer] ++ map (λ r, RunBench (run_args "results" r)) matrix in
              match generateReport e.(readable) e.(entries) e.(create_ok) with
              | Ok r => (body ++ deferred, Ok r)
              | Err err => (body, Err err)
              | Panic => (body ++ deferred, Panic)
              | NoFuel => (body, NoFuel)
              end
            else ([GoBuild root; RunServer], Err ServerStart)
          else ([GoBuild root], Err BuildFailed)
      end
  end%list.

End heatmap.
