(* ===== verification/HeatmapFacts.v ===== *)
(** * Correctness of the heat map report

    The hundred runs of the matrix are valid and save to a hundred different
    files; the colours of the cells are in range; but the report shows the runs
    with one connection only, because its groups do not tell connection counts
    apart. *)

From Stdlib Require Import Lqa.
From stdpp Require Import gmap sorting.
From S2P Require Import Prelude.
From S2P Require Import Float64.
From S2P Require Import GoStrings.
From S2P Require Import GoTime.
From S2P Require Import BenchConfig.
From S2P Require Import Metrics.
From S2P Require Import MetricsFacts.
From S2P Require Import Heatmap.

#[local] Open Scope string_scope.
#[local] Open Scope Z_scope.

Import heatmap.

#[export] Instance run_eq_dec : EqDecision run.
Proof. solve_decision. Defined.

(** ** The matrix of runs *)

(** A decimal flag value. *)
Definition parse_int (s : string) : option Z :=
  match leadingInt 0 s with Some (n, "") => Some n | _ => None end.

(** Package [flag] on "-name value" for the flags that the matrix passes. *)
Definition apply_flag (name value : string) (f : runBenchmark.Flags) : option runBenchmark.Flags :=
  let '(runBenchmark.mkFlags sc pr sy ad i o r w pi st co du wa ps ra rd) := f in
  let mk := runBenchmark.mkFlags in
  if bool_decide (name = "-scenario") then Some (mk value pr sy ad i o r w pi st co du wa ps ra rd)
  else if bool_decide (name = "-profile") then Some (mk sc value sy ad i o r w pi st co du wa ps ra rd)
  else if bool_decide (name = "-addr") then Some (mk sc pr sy value i o r w pi st co du wa ps ra rd)
  else if bool_decide (name = "-output") then Some (mk sc pr sy ad i value r w pi st co du wa ps ra rd)
  else if bool_decide (name = "-pipelining") then
    v ← parse_int value; Some (mk sc pr sy ad i o r w v st co du wa ps ra rd)
  else if bool_decide (name = "-streams") then
    v ← parse_int value; Some (mk sc pr sy ad i o r w pi v co du wa ps ra rd)
  else if bool_decide (name = "-connections") then
    v ← parse_int value; Some (mk sc pr sy ad i o r w pi st v du wa ps ra rd)
  else if bool_decide (name = "-payload-size") then
    v ← parse_int value; Some (mk sc pr sy ad i o r w pi st co du wa v ra rd)
  else if bool_decide (name = "-duration") then
    v ← ParseDuration value; Some (mk sc pr sy ad i o r w pi st co v wa ps ra rd)
  else if bool_decide (name = "-warmup") then
    v ← ParseDuration value; Some (mk sc pr sy ad i o r w pi st co du v ps ra rd)
  else None.

Fixpoint parse_flags (args : list string) (f : runBenchmark.Flags) : option runBenchmark.Flags :=
  match args with
  | [] => Some f
  | name :: value :: args => f ← apply_flag name value f; parse_flags args f
  | _ => None
  end.

(** The configuration that a run of the matrix asks for: the scenario's, with
    sixteen streams, pipelining of 64, ten seconds after three of warm-up, and
    a fixed payload. *)
Definition run_config (r : run) (sc : config.LoadConfig) : config.LoadConfig :=
  config.mkLoadConfig sc.(config.Workers) 64 16 r.(r_conn) config.WorkloadFixed
    (default 0 (parse_int r.(r_pay))) sc.(config.MinPayload) sc.(config.MaxPayload)
    (10 * time.Second) (3 * time.Second) sc.(config.Method) "" 3 (500 * time.Millisecond).

#[local] Instance LoadConfig_eq_dec : EqDecision config.LoadConfig.
Proof. solve_decision. Defined.

Definition run_valid (r : run) : bool :=
  match parse_flags (run_args "results" r) runBenchmark.default_flags with
  | Some f =>
      match runBenchmark.resolve f, config.DefaultScenarios !! r.(r_sc) with
      | Ok (n, ps, lc), Some sc =>
          bool_decide (n = r.(r_sc)) && bool_decide (ps = [r.(r_prof)]) &&
          bool_decide (lc = run_config r sc.(config.sc_LoadConfig))
      | _, _ => false
      end
  | None => false
  end.

(** Every run of the matrix passes the checks of the stress tester and asks it
    for the configuration [run_config]; the runs are different, and there are a
    hundred of them. *)
Theorem matrix_valid :
  forallb run_valid matrix = true ∧ NoDup matrix ∧ length matrix = 100%nat.
Proof.
  split_and!; [vm_compute; reflexivity| |vm_compute; reflexivity].
  apply (bool_decide_unpack _). vm_compute. exact I.
Qed.

(** ** Grouping *)

(** [rep] assigns to each run the report that it saved. *)
Definition reports_of_runs (rep : run → metrics.Report) : Prop :=
  ∀ r, r ∈ matrix →
    (rep r).(metrics.Scenario) = r.(r_sc) ∧ (rep r).(metrics.Profile) = r.(r_prof) ∧
    (rep r).(metrics.System) = config.SystemQRPC ∧
    (rep r).(metrics.LoadConfig).(config.Connections) = r.(r_conn) ∧
    Some (rep r).(metrics.LoadConfig).(config.PayloadSize) = parse_int r.(r_pay).

Definition file_name (r : run) : string :=
  ("bench_" ++ r.(r_sc) ++ "_" ++ r.(r_prof) ++ "_qrpc_conn" ++ fmt_int r.(r_conn)
    ++ "_pay" ++ r.(r_pay) ++ ".json")%string.

(** The runs in the order in which [os.ReadDir] lists their files. *)
Definition listed : list run :=
  merge_sort (λ a b, String.le (file_name a) (file_name b)) matrix.

Definition key (r : run) : string * string * string := (r.(r_sc), r.(r_prof), r.(r_pay)).

(** Of two files with the same group the later one wins, and the names of the
    runs with sixteen connections come first. *)
Lemma last_listed :
  forallb (λ r, bool_decide (last (filter (λ q, key q = key r) listed) =
                             Some (mkRun 1 r.(r_sc) r.(r_prof) r.(r_pay)))) matrix = true.
Proof. vm_compute. reflexivity. Qed.

Lemma matrix_elem r : r ∈ matrix →
  r.(r_conn) ∈ [1; 16] ∧ r.(r_sc) ∈ scenarios ∧ r.(r_prof) ∈ profiles ∧ r.(r_pay) ∈ payloadSizes.
Proof.
  unfold matrix, mbind, connectionCounts. rewrite list_elem_of_bind.
  intros (conn & H & ?). rewrite list_elem_of_bind in H. destruct H as (sc & H & ?).
  rewrite list_elem_of_bind in H. destruct H as (prof & H & ?).
  rewrite list_elem_of_bind in H. destruct H as (pay & ->%list_elem_of_singleton & ?). done.
Qed.

Lemma matrix_pay r : r ∈ matrix → r.(r_pay) = "100" ∨ r.(r_pay) = "4000".
Proof.
  intros (_ & _ & _ & Hp)%matrix_elem. unfold payloadSizes in Hp.
  rewrite !elem_of_cons, elem_of_nil in Hp. tauto.
Qed.

Section groups.
Context (rep : run → metrics.Report) (Hrep : reports_of_runs rep).

Lemma json_name_file r : r ∈ matrix → metrics.json_name (rep r) "bench" = file_name r.
Proof.
  intros Hr. destruct (Hrep r Hr) as (H1 & H2 & H3 & H4 & H5).
  unfold metrics.json_name. rewrite H1, H2, H3, H4.
  assert (fmt_int (rep r).(metrics.LoadConfig).(config.PayloadSize) = r.(r_pay)) as ->; [|done].
  destruct (matrix_pay r Hr) as [Hp|Hp]; rewrite Hp in *; injection H5 as ->; by vm_compute.
Qed.

Lemma payload_key_run r : r ∈ matrix → payload_key (decode (rep r)) = Ok r.(r_pay).
Proof.
  intros Hr. destruct (Hrep r Hr) as (_ & _ & _ & _ & H5).
  unfold payload_key, decode, decode_load_config; cbn [LoadConfig].
  rewrite !list_to_map_app, lookup_union, list_to_map_cons.
  repeat (rewrite list_to_map_cons || rewrite lookup_insert_ne by done).
  rewrite lookup_insert_eq, union_Some_l. unfold number.
  destruct (matrix_pay r Hr) as [Hp|Hp]; rewrite Hp in *; injection H5 as ->; by vm_compute.
Qed.

(** Grouping is inserting under the key of the run. *)
Lemma group_runs l g :
  (∀ r, r ∈ l → r ∈ matrix) →
  group g (map (decode ∘ rep) l) = Ok (foldl (λ g r, <[key r := decode (rep r)]> g) g l).
Proof.
  revert g. induction l as [|r l IH]; intros g Hl; [done|]. simpl. unfold group_one.
  assert (r ∈ matrix) as Hr by (apply Hl; left).
  rewrite payload_key_run by done. simpl. destruct (Hrep r Hr) as (H1 & H2 & _).
  rewrite H1, H2. apply IH. intros q Hq. apply Hl. by right.
Qed.

(** The last run of a group is the one that is kept. *)
Lemma foldl_insert_last l k :
  foldl (λ g r, <[key r := decode (rep r)]> g) (∅ : groups) l !! k =
    decode ∘ rep <$> last (filter (λ q, key q = k) l).
Proof.
  induction l as [|r l IH] using rev_ind; [done|].
  rewrite foldl_snoc, filter_app, filter_cons, filter_nil. case_decide as E.
  - subst. rewrite lookup_insert_eq. by rewrite last_snoc.
  - rewrite lookup_insert_ne by done. by rewrite app_nil_r.
Qed.

Definition entry (r : run) : string * metrics.file_content := (file_name r, metrics.JSON (rep r)).

(** The directory after the runs. *)
Definition results_disk : metrics.files :=
  list_to_map (map (λ r, (("results", metrics.json_name (rep r) "bench"), metrics.JSON (rep r))) matrix).

Lemma sorted_entries_unique (l1 l2 : list (string * metrics.file_content)) :
  NoDup l1.*1 → l1 ≡ₚ l2 → l1.*1 = l2.*1 → l1 = l2.
Proof.
  intros Hnd Hp Hf. apply list_eq. intros i.
  assert (length l1 = length l2) as Hlen by by rewrite Hp.
  destruct (l1 !! i) as [[n c]|] eqn:E1; [|symmetry; apply lookup_ge_None; apply lookup_ge_None in E1; lia].
  destruct (l2 !! i) as [[n' c']|] eqn:E2; [|apply lookup_ge_None in E2; apply lookup_lt_Some in E1; lia].
  assert (l1.*1 !! i = Some n) as F1 by by rewrite list_lookup_fmap, E1.
  assert (l2.*1 !! i = Some n') as F2 by by rewrite list_lookup_fmap, E2.
  rewrite Hf, F2 in F1. injection F1 as ->. f_equal. f_equal.
  apply list_elem_of_lookup_2 in E1, E2. rewrite <- Hp in E2.
  apply list_elem_of_lookup_1 in E1 as [j E1], E2 as [k E2].
  assert (j = k) as ->; [|congruence].
  apply (NoDup_lookup l1.*1 j k n); [done|by rewrite list_lookup_fmap, E1|by rewrite list_lookup_fmap, E2].
Qed.

Lemma file_names_NoDup : NoDup (map file_name matrix).
Proof. apply (bool_decide_unpack _). vm_compute. exact I. Qed.

Lemma file_names_sorted : map file_name listed = merge_sort String.le (map file_name matrix).
Proof. vm_compute. reflexivity. Qed.

Lemma listed_perm : listed ≡ₚ matrix.
Proof. apply merge_sort_Permutation. Qed.

Lemma ReadDir_results : ReadDir "results" results_disk = map entry listed.
Proof.
  assert (ReadDir "results" results_disk ≡ₚ map entry matrix) as Hp.
  { unfold ReadDir. rewrite merge_sort_Permutation. unfold results_disk.
    assert (map (λ r, (("results", metrics.json_name (rep r) "bench"), metrics.JSON (rep r))) matrix =
      map (λ r, (("results", file_name r), metrics.JSON (rep r))) matrix) as ->.
    { apply map_ext_in. intros r Hr%list_elem_of_In. by rewrite json_name_file. }
    rewrite map_to_list_to_map.
    - clear. induction matrix as [|r l IH]; [done|]. simpl. by constructor.
    - change (NoDup (map fst (map (λ r, (("results", file_name r), metrics.JSON (rep r))) matrix))).
      rewrite map_map. cbn [fst]. rewrite <- (map_map file_name (pair "results")).
      exact (NoDup_fmap_2 (pair "results") _ file_names_NoDup). }
  assert ((map entry listed).*1 = map file_name listed) as Hl by apply map_map.
  apply sorted_entries_unique.
  - rewrite Hp. change (NoDup (map fst (map entry matrix))). rewrite map_map. apply file_names_NoDup.
  - rewrite Hp. symmetry. apply fmap_Permutation, listed_perm.
  - rewrite Hl, file_names_sorted. apply (StronglySorted_unique String.le).
    + assert (StronglySorted (λ a b, String.le a.1 b.1) (ReadDir "results" results_disk)) as Hs.
      { apply StronglySorted_merge_sort; [intros a b c H1 H2; by trans b.1|].
        intros a b. apply String.le_total. }
      revert Hs. by apply StronglySorted_fmap.
    + apply StronglySorted_merge_sort; apply _.
    + rewrite merge_sort_Permutation, Hp. change (map fst (map entry matrix) ≡ₚ map file_name matrix).
      by rewrite map_map.
Qed.

(** The heat map shows the runs with one connection only: for every
    assignment of reports to the hundred runs, the group that the report keeps
    for a scenario, a profile and a payload size is the run with one
    connection; the reports of the runs with sixteen connections, which are in
    files of their own, are read and overwritten. *)
Theorem heatmap_drops_connections :
  ∃ g, group ∅ (loadResults (λ _, true) (Some (ReadDir "results" results_disk))) = Ok g ∧
    ∀ r, r ∈ matrix →
      g !! (r.(r_sc), r.(r_prof), r.(r_pay)) =
        Some (decode (rep (mkRun 1 r.(r_sc) r.(r_prof) r.(r_pay)))).
Proof.
  rewrite ReadDir_results.
  assert (loadResults (λ _, true) (Some (map entry listed)) = map (decode ∘ rep) listed) as ->.
  { assert (∀ r, r ∈ listed → strings.HasPrefix (file_name r) "bench_" &&
      strings.HasSuffix (file_name r) ".json" = true) as Hn.
    { assert (forallb (λ r, strings.HasPrefix (file_name r) "bench_" &&
        strings.HasSuffix (file_name r) ".json") listed = true) as H by (vm_compute; reflexivity).
      rewrite forallb_forall in H. intros r Hr%list_elem_of_In. by apply H. }
    clear -Hn. unfold loadResults. induction listed as [|r l IH]; [done|].
    cbn [map omap list_omap entry load_entry].
    destruct (andb_prop _ _ (Hn r ltac:(left))) as [-> ->]. cbn [negb orb]. f_equal. apply IH.
    intros q Hq. apply Hn. by right. }
  eexists. split; [apply group_runs; intros r; by rewrite listed_perm|].
  intros r Hr. rewrite foldl_insert_last.
  pose proof last_listed as H. rewrite forallb_forall in H.
  specialize (H r (proj1 (list_elem_of_In _ _) Hr)). apply bool_decide_eq_true in H.
  change (r_sc r, r_prof r, r_pay r) with (key r). by rewrite H.
Qed.
End groups.

(** Reports whose rate is the number of connections. *)
Definition conn_report (r : run) : metrics.Report :=
  metrics.mkReport 0 r.(r_sc) r.(r_prof) "qrpc"
    (run_config r config.LoadConfig_zero) 1 1 0 100 (of_int r.(r_conn)) 0 0 0 0 0 0 0 0 ∅ 1 [].

Lemma heatmap_drops_connections_witness :
  ∃ g r, group ∅ (loadResults (λ _, true) (Some (ReadDir "results" (results_disk conn_report)))) = Ok g ∧
    g !! ("rtt_scaling", "lte", "100") = Some r ∧ r.(RPS) = 1%Q.
Proof.
  destruct (heatmap_drops_connections conn_report) as (g & Hg & H).
  - intros r Hr. split_and!; try done. destruct (matrix_pay r Hr) as [Hp|Hp];
      unfold conn_report, run_config; simpl; by rewrite Hp.
  - exists g, (decode (conn_report (mkRun 1 "rtt_scaling" "lte" "100"))).
    split; [exact Hg|]. split; [|reflexivity].
    apply (H (mkRun 16 "rtt_scaling" "lte" "100")).
    apply (bool_decide_unpack _). vm_compute. exact I.
Defined.

(** ** Cells and colours *)

#[local] Open Scope Q_scope.

Lemma ratio_bounds val max :
  0 <= val → val <= max → 0 <= ((val - 0) / (max - 0))%F <= 1.
Proof.
  intros H0 H1. unfold fdiv, fsub.
  assert (0 <= rnd (val - 0)) as Hv by (apply exact_rnd_ge; [exact exact_0|lra]).
  assert (rnd (val - 0) <= rnd (max - 0)) as Hm by (apply rnd_mono; lra).
  set (v := rnd (val - 0)) in *. set (m := rnd (max - 0)) in *.
  destruct (Qlt_le_dec 0 m) as [Hpos|Hneg].
  - split; [apply exact_rnd_ge; [exact exact_0|]|apply exact_rnd_le; [exact exact_1|]];
      [apply Qle_shift_div_l|apply Qle_shift_div_r]; lra.
  - assert (v == 0) as -> by lra. split; [apply exact_rnd_ge; [exact exact_0|]|apply exact_rnd_le; [exact exact_1|]];
      unfold Qdiv; lra.
Qed.

Lemma scaled_bounds k ratio :
  (0 <= k <= 2 ^ 53)%Z → 0 <= ratio <= 1 → (0 <= to_int (inject_Z k * ratio)%F <= k)%Z.
Proof.
  intros Hk Hr. apply to_int_bounds; [done|]. change (inject_Z 0) with 0. unfold fmul.
  assert (0 <= inject_Z k) by (change 0 with (inject_Z 0); rewrite <- Zle_Qle; lia).
  split; [apply exact_rnd_ge; [exact exact_0|nra]|apply exact_rnd_le; [|nra]]. by exists k.
Qed.

(** The components of the colour of a value between zero and the maximum are in
    the ranges of [rgba()]: three of a byte, and an opacity in percent. *)
Theorem heat_in_range val max reverse :
  0 <= val → val <= max →
  let '(r, g, b, a) := heat val 0 max reverse in
  (0 <= r <= 255 ∧ 0 <= g <= 255 ∧ 0 <= b <= 255 ∧ 30 <= a <= 100)%Z.
Proof.
  intros H0 H1. unfold heat. destruct (max =? 0)%F; [lia|].
  pose proof (ratio_bounds val max H0 H1) as Hr. set (q := ((val - 0) / (max - 0))%F) in *.
  replace (if (1 <? q)%F then 1 else q) with q.
  2: { by rewrite (proj2 (fltb_false 1 q) (proj2 Hr)). }
  assert (∀ x, 0 <= x <= 1 → 0 <= (1 - x)%F <= 1) as Hsub.
  { intros x Hx. unfold fsub. split; [apply exact_rnd_ge; [exact exact_0|lra]|].
    apply exact_rnd_le; [exact exact_1|lra]. }
  set (ratio := if reverse then (1 - q)%F else q).
  assert (0 <= ratio <= 1) as Hratio by (unfold ratio; destruct reverse; auto).
  pose proof (scaled_bounds 255 _ ltac:(lia) (Hsub _ Hratio)).
  pose proof (scaled_bounds 255 _ ltac:(lia) Hratio). pose proof (scaled_bounds 60 _ ltac:(lia) Hratio).
  unfold inject_Z in *. lia.
Qed.

(** The maxima of a scenario bound its cells. *)
Definition covers (sd : ScenarioData) : Prop :=
  Forall (λ c, c.(c_HasData) = true → c.(c_RPS) <= sd.(sd_MaxRPS) ∧ (c.(c_P95) <= sd.(sd_MaxP95))%Z)
    sd.(sd_Cells).

Lemma add_cell_covers g sc prof pay sd : covers sd → covers (add_cell g sc prof pay sd).
Proof.
  unfold covers, add_cell. intros H. destruct (g !! _) as [r|]; cbn [sd_Cells sd_MaxRPS sd_MaxP95];
    apply Forall_app; (split; [|apply Forall_singleton]).
  - eapply Forall_impl; [exact H|]. simpl. intros c Hc Hd. destruct (Hc Hd) as [H1 H2].
    split; [destruct (_ <? _)%F eqn:E; f_bools; [|done]; lra|case_match; z_bools; lia].
  - simpl. intros _. split; [destruct (_ <? _)%F eqn:E; f_bools; [lra|done]|case_match; z_bools; lia].
  - done.
  - done.
Qed.

Theorem scenario_data_covers g sc : covers (scenario_data g sc).
Proof.
  unfold scenario_data. generalize profiles.
  assert (covers (mkScenarioData sc [] 0 0)) as H0 by constructor. revert H0.
  generalize (mkScenarioData sc [] 0 0). intros sd Hsd l. revert sd Hsd.
  induction l as [|prof l IH]; intros sd Hsd; simpl; [done|]. apply IH.
  by do 2 apply add_cell_covers.
Qed.

(** ** The program *)

(** The reports of the stress tester have a payload size, so grouping them does
    not panic. *)
Lemma group_Ok g (rs : list metrics.Report) : ∃ g', group g (map decode rs) = Ok g'.
Proof.
  revert g. induction rs as [|r rs IH]; intros g; simpl; [eauto|]. unfold group_one, payload_key.
  assert ((decode r).(LoadConfig) !! "payload_size" = Some (number r.(metrics.LoadConfig).(config.PayloadSize))) as ->.
  { unfold decode, decode_load_config; cbn [LoadConfig]. simplify_map_eq. done. }
  simpl. apply IH.
Qed.

Lemma loadResults_decode readable entries : ∃ rs, loadResults readable entries = map decode rs.
Proof.
  destruct entries as [l|]; [|by exists []]. simpl. induction l as [|[name content] l [rs IH]]; [by exists []|].
  cbn [omap list_omap]. rewrite IH. unfold load_entry. destruct (_ || _); [by exists rs|].
  destruct (readable name), content as [r|recs]; try (by exists rs). by exists (r :: rs).
Qed.

(** With a directory of files of the stress tester, the report is made, or its
    page cannot be created. *)
Lemma generateReport_total readable entries create_ok :
  match generateReport readable entries create_ok with
  | Ok r => r = None ↔ loadResults readable entries = []
  | Err e => e = CreateHTML ∧ create_ok = false ∧ loadResults readable entries ≠ []
  | _ => False
  end.
Proof.
  unfold generateReport. destruct (loadResults_decode readable entries) as [rs ->].
  destruct rs as [|r rs]; [done|]. replace (len (map decode (r :: rs)) =? 0)%Z with false.
  2: { symmetry. apply Z.eqb_neq. simpl. pose proof (len_nonneg (map decode rs)). rewrite len_cons. lia. }
  destruct (group_Ok ∅ (r :: rs)) as [g ->]. simpl. by destruct create_ok.
Qed.

(** Once the server runs, the rules are deleted and the server is killed at the
    end, after the hundred runs in the order of the matrix; except when the page
    cannot be created, because [log.Fatalf] skips the deferred calls. *)
Theorem main_cleans_up e root wd0 :
  e.(wd) = Some wd0 → findRoot e.(has_go_mod) wd0 = Some root → e.(build_ok) = true → e.(server_ok) = true →
  ∃ rest, (main e).1 = ([GoBuild root; RunServer] ++ map (λ r, RunBench (run_args "results" r)) matrix ++ rest)%list ∧
    match (main e).2 with
    | Ok _ => rest = deferred
    | Err err => err = CreateHTML ∧ rest = []
    | _ => False
    end.
Proof.
  intros Hwd Hr Hb Hs. unfold main. rewrite Hwd, Hr, Hb, Hs.
  pose proof (generateReport_total e.(readable) e.(entries) e.(create_ok)) as H.
  destruct (generateReport _ _ _) as [r|err| |]; try done.
  - exists deferred. by rewrite (assoc_L app).
  - exists []. rewrite app_nil_r. by destruct H as [-> _].
Qed.

(** [findRoot] returns the nearest directory upwards that has a go.mod. *)
Theorem findRoot_nearest has dir root :
  findRoot has dir = Some root ↔
  has root = true ∧ ∃ below, dir = (below ++ root)%list ∧
    ∀ i, (i < length below)%nat → has (drop i dir) = false.
Proof.
  induction dir as [|c dir IH]; simpl.
  - destruct (has []) eqn:E; split.
    + intros [= <-]. split; [done|]. exists []. split; [done|]. simpl. lia.
    + intros (H & below & Hb & _). by destruct below, root.
    + done.
    + intros (H & below & Hb & _). destruct below, root; simplify_eq. congruence.
  - destruct (has (c :: dir)) eqn:E; split.
    + intros [= <-]. split; [done|]. exists []. split; [done|]. simpl. lia.
    + intros (H & [|x below] & Hb & Hi); simplify_eq/=; [done|].
      specialize (Hi O ltac:(lia)). simpl in Hi. congruence.
    + intros (H & below & -> & Hi)%IH. split; [done|]. exists (c :: below). split; [done|].
      intros [|i] Hlt; [done|]. simpl in *. apply Hi. lia.
    + intros (H & [|x below] & Hb & Hi); simplify_eq/=; [congruence|].
      apply IH. split; [done|]. exists below. split; [done|].
      intros i Hlt. apply (Hi (S i)). lia.
Qed.
