(* ===== verification/Transport.v ===== *)
(** * Setting up the transport

    [src/stress_tester/internal/tls/tls.go]: the self-signed certificate and the
    two TLS configurations; [NewServer] of [src/server.go] and the dials of
    [NewClient] of [src/client.go] with their QUIC configurations.  The crypto
    packages of Go and QUIC are inputs ([Crypto], [Quic]); what is used of them is
    stated by [CryptoLaws] and [HandshakeLaws]. *)

From stdpp Require Import strings.
From S2P Require Import Prelude Ctx Server Client.

#[local] Open Scope Z_scope.

(** Durations are in nanoseconds. *)
Definition Second : Z := 1000000000.
Definition Hour : Z := 3600 * Second.

(** ** TLS *)

Inductive KeyUsage := KeyUsageKeyEncipherment | KeyUsageDigitalSignature.
Inductive ExtKeyUsage := ExtKeyUsageServerAuth | ExtKeyUsageClientAuth.
#[export] Instance ExtKeyUsage_eq_dec : EqDecision ExtKeyUsage.
Proof. solve_decision. Defined.

(** The fields of [x509.Certificate] that the code sets. *)
Record template : Type := mkTemplate {
  SerialNumber : Z;
  Organization : list string;
  CommonName : string;
  NotBefore : Z;
  NotAfter : Z;
  KeyUsages : list KeyUsage;
  ExtKeyUsages : list ExtKeyUsage;
  BasicConstraintsValid : bool;
  DNSNames : list string
}.

(** [tls.VersionTLS12], the oldest version without a [MinVersion], and
    [tls.VersionTLS13]. *)
Definition VersionTLS12 : Z := 0x0303.
Definition VersionTLS13 : Z := 0x0304.

Class Crypto := {
  entropy : Type;                 (* what [rand.Reader] gives *)
  priv : Type;
  pub : Type;
  Certificate : Type;
  crypto_error : Type;
  blob : Type;                    (* the byte slices, which the code only hands on *)
  GenerateKey : entropy → Z → outcome crypto_error priv;
  PublicKey : priv → pub;
  CreateCertificate : entropy → template → template → pub → priv → outcome crypto_error blob;
  EncodeToMemory : string → blob → blob;
  MarshalPKCS8PrivateKey : priv → outcome crypto_error blob;
  X509KeyPair : blob → blob → outcome crypto_error Certificate;
  (* what a peer sees of a certificate *)
  leaf : Certificate → option (template * pub);
  private_key : Certificate → priv
}.

Section tls.
Context `{Crypto}.

Record tls_Config : Type := mkTlsConfig {
  Certificates : list Certificate;
  InsecureSkipVerify : bool;
  NextProtos : list string;
  MinVersion : option Z
}.

(** [now] and [now'] are the results of the two calls of [time.Now]. *)
Definition cert_template (now now' : Z) : template :=
  mkTemplate 1 ["QRPC Test"]%string "localhost" now (now' + 24 * Hour)
    [KeyUsageKeyEncipherment; KeyUsageDigitalSignature] [ExtKeyUsageServerAuth; ExtKeyUsageClientAuth]
    true ["localhost"]%string.

Definition getCert (rnd rnd' : entropy) (now now' : Z) : outcome crypto_error Certificate :=
  priv ← GenerateKey rnd 2048;
  let template := cert_template now now' in
  derBytes ← CreateCertificate rnd' template template (PublicKey priv) priv;
  let certPEM := EncodeToMemory "CERTIFICATE" derBytes in
  privBytes ← MarshalPKCS8PrivateKey priv;
  let keyPEM := EncodeToMemory "PRIVATE KEY" privBytes in
  X509KeyPair certPEM keyPEM.

Definition GetQuicTLSConfig (rnd rnd' : entropy) (now now' : Z) : outcome crypto_error tls_Config :=
  cert ← getCert rnd rnd' now now';
  Ok (mkTlsConfig [cert] true ["qrpc"%string] (Some VersionTLS13)).

Definition GetGRPCTLSConfig (rnd rnd' : entropy) (now now' : Z) : outcome crypto_error tls_Config :=
  cert ← getCert rnd rnd' now now';
  Ok (mkTlsConfig [cert] true [] None).

(** What the packages document: a certificate that is created from a template for
    a key carries them, and a pair of PEM blocks of a certificate and of its
    private key is accepted and gives the two back. *)
Class CryptoLaws :=
  keypair_spec rnd t key der p8 :
    CreateCertificate rnd t t (PublicKey key) key = Ok der → MarshalPKCS8PrivateKey key = Ok p8 →
    ∃ cert, X509KeyPair (EncodeToMemory "CERTIFICATE" der) (EncodeToMemory "PRIVATE KEY" p8) = Ok cert ∧
      leaf cert = Some (t, PublicKey key) ∧ private_key cert = key.

(** A certificate for a server at time [t]. *)
Record serves (cert : Certificate) (host : string) (t : Z) : Prop := {
  sv_leaf : ∃ tmpl, leaf cert = Some (tmpl, PublicKey (private_key cert)) ∧
    NotBefore tmpl ≤ t ≤ NotAfter tmpl ∧ host ∈ DNSNames tmpl ∧ ExtKeyUsageServerAuth ∈ ExtKeyUsages tmpl
}.

(** ** The handshake *)

(** The protocol that a TLS 1.3 handshake of a client with a server agrees on. *)
Class Handshake := negotiate : tls_Config → tls_Config → option string.

Definition speaks13 (c : tls_Config) : bool :=
  match MinVersion c with Some v => v <=? VersionTLS13 | None => true end.

(** A handshake succeeds when the server has a certificate that the client
    accepts and both offer a protocol; it agrees on a protocol of both. *)
Class HandshakeLaws `{Handshake} := {
  negotiate_agrees c s p : negotiate c s = Some p → p ∈ NextProtos c ∧ p ∈ NextProtos s;
  negotiate_succeeds c s p : speaks13 c = true → speaks13 s = true → Certificates s ≠ [] →
    InsecureSkipVerify c = true → p ∈ NextProtos c → p ∈ NextProtos s → is_Some (negotiate c s)
}.

(** [getCert] returns a certificate for its key and its template, and fails only
    with an error of the library. *)
Lemma getCert_spec `{!CryptoLaws} rnd rnd' now now' cert : getCert rnd rnd' now now' = Ok cert →
  leaf cert = Some (cert_template now now', PublicKey (private_key cert)).
Proof.
  unfold getCert. intros (key & Hk & (der & Hder & (p8 & Hp8 & Hpair)%bind_Ok_inv)%bind_Ok_inv)%bind_Ok_inv.
  destruct (keypair_spec rnd' (cert_template now now') key der p8 Hder Hp8) as (cert' & Hc & Hl & Hpk).
  rewrite Hc in Hpair. injection Hpair as <-. by rewrite Hl, Hpk.
Qed.

Lemma getCert_available `{!CryptoLaws} rnd rnd' now now' key der p8 :
  GenerateKey rnd 2048 = Ok key →
  CreateCertificate rnd' (cert_template now now') (cert_template now now') (PublicKey key) key = Ok der →
  MarshalPKCS8PrivateKey key = Ok p8 → ∃ cert, getCert rnd rnd' now now' = Ok cert.
Proof.
  intros Hk Hder Hp8. destruct (keypair_spec rnd' _ key der p8 Hder Hp8) as (cert & Hc & _).
  exists cert. unfold getCert. rewrite Hk. cbn. rewrite Hder. cbn. by rewrite Hp8.
Qed.

Lemma getCert_serves `{!CryptoLaws} rnd rnd' now now' cert t : getCert rnd rnd' now now' = Ok cert →
  now ≤ t ≤ now' + 24 * Hour → serves cert "localhost" t.
Proof.
  intros Hc Ht. split. eexists. split; [by eapply getCert_spec|]. cbn. split; [done|]. split; by left.
Qed.

(** The benchmark client and server can connect.  Configurations that two
    runs of [GetQuicTLSConfig] return, one for the client and one for the server,
    at any times and with any randomness, agree on the protocol qrpc; the server
    has exactly one certificate, for localhost, of its own key and valid for the
    day that follows; with a configuration of [GetGRPCTLSConfig] on either side
    no protocol is agreed on. *)
Theorem quic_setup_agrees `{!CryptoLaws, !Handshake, !HandshakeLaws} rc rc' nc nc' rs rs' ns ns' c s :
  GetQuicTLSConfig rc rc' nc nc' = Ok c → GetQuicTLSConfig rs rs' ns ns' = Ok s →
  negotiate c s = Some "qrpc"%string ∧
  (∃ cert, Certificates s = [cert] ∧ ∀ t, ns ≤ t ≤ ns' + 24 * Hour → serves cert "localhost" t) ∧
  ∀ rg rg' ng ng' g, GetGRPCTLSConfig rg rg' ng ng' = Ok g → negotiate c g = None ∧ negotiate g s = None.
Proof.
  intros (cc & _ & [= <-])%bind_Ok_inv (cs & Hcs & [= <-])%bind_Ok_inv. split_and!.
  - destruct (negotiate_succeeds (mkTlsConfig [cc] true ["qrpc"%string] (Some VersionTLS13))
      (mkTlsConfig [cs] true ["qrpc"%string] (Some VersionTLS13)) "qrpc") as [p Hp]; try done; try (by left).
    rewrite Hp. apply negotiate_agrees in Hp as [Hp _]. cbn in Hp. by apply list_elem_of_singleton in Hp as ->.
  - exists cs. split; [done|]. intros t. by apply (getCert_serves rs rs' ns ns').
  - intros rg rg' ng ng' g (cg & _ & [= <-])%bind_Ok_inv.
    split; apply eq_None_not_Some; intros [p [Hc Hs]%negotiate_agrees]; cbn in *; by apply not_elem_of_nil in Hs || apply not_elem_of_nil in Hc.
Qed.
End tls.

(** ** QUIC *)

Record quic_Config : Type := mkQuicConfig {
  KeepAlivePeriod : Z;
  MaxIdleTimeout : Z;
  InitialStreamReceiveWindow : Z;
  MaxStreamReceiveWindow : Z;
  InitialConnectionReceiveWindow : Z;
  MaxConnectionReceiveWindow : Z;
  MaxIncomingStreams : Z;
  HandshakeIdleTimeout : Z;
  DisablePathMTUDiscovery : bool;
  InitialPacketSize : Z
}.

Definition server_quic_Config : quic_Config :=
  mkQuicConfig (15 * Second) (60 * Second) (Z.shiftl 8 20) (Z.shiftl 32 20) (Z.shiftl 16 20) (Z.shiftl 64 20)
    10000 (30 * Second) true 1452.
Definition client_quic_Config : quic_Config :=
  mkQuicConfig (15 * Second) (60 * Second) (Z.shiftl 8 20) (Z.shiftl 32 20) (Z.shiftl 16 20) (Z.shiftl 64 20)
    10000 (30 * Second) true 1452.

Section quic.
Context `{Crypto} {listener quic_error any : Type}.

(** [NewServer]: the listener, whose accept loop runs in a goroutine of its own
    from here on, and the server without handlers. *)
Definition NewServer (ListenAddr : string → tls_Config → quic_Config → outcome quic_error listener)
    (addr : string) (tls : tls_Config) : outcome quic_error (listener * QRPCServerImpl any) :=
  l ← ListenAddr addr tls server_quic_Config;
  Ok (l, newServer).

(** The dials of [NewClient]: the [i]th one returns a connection or fails. *)
Definition NewClient_dial (DialAddr : nat → string → tls_Config → quic_Config → option Z)
    (addr : string) (tls : tls_Config) (connsCount : Z) : list Z * option (list Z) :=
  NewClient (λ i, DialAddr i addr tls client_quic_Config) connsCount.
End quic.

(** The streams that a client opens on a connection are within what the server
    accepts, and the keep-alive keeps an idle connection open. *)
Lemma quic_configs_fit :
  streamsCount ≤ MaxIncomingStreams server_quic_Config ∧
  KeepAlivePeriod client_quic_Config < MaxIdleTimeout server_quic_Config ∧
  KeepAlivePeriod server_quic_Config < MaxIdleTimeout client_quic_Config.
Proof. by vm_compute. Qed.

(** ** Witness: a model of the packages *)

Inductive blob_model :=
| Der (t : template) (key : Z) | P8 (key : Z) | Pem (type : string) (b : blob_model).

#[local] Instance crypto_model : Crypto := {|
  entropy := Z; priv := Z; pub := Z; Certificate := template * Z; crypto_error := unit; blob := blob_model;
  GenerateKey rnd _ := Ok rnd;
  PublicKey key := key;
  CreateCertificate _ t _ p key := Ok (Der t p);
  EncodeToMemory := Pem;
  MarshalPKCS8PrivateKey key := Ok (P8 key);
  X509KeyPair c k := match c, k with
    | Pem _ (Der t p), Pem _ (P8 key) => if p =? key then Ok (t, key) else Err tt
    | _, _ => Err tt
    end;
  leaf c := Some c;
  private_key c := c.2
|}.

#[local] Instance crypto_model_laws : CryptoLaws.
Proof. intros rnd t key der p8 [= <-] [= <-]. exists (t, key). cbn. by rewrite Z.eqb_refl. Qed.

#[local] Instance handshake_model : Handshake := λ c s,
  if speaks13 c && speaks13 s && InsecureSkipVerify c && negb (bool_decide (Certificates s = []))
  then head (filter (λ p, p ∈ NextProtos s) (NextProtos c)) else None.

#[local] Instance handshake_model_laws : HandshakeLaws.
Proof.
  split.
  - intros c s p. unfold negotiate, handshake_model. case_match; [|done]. intros Hp.
    apply head_Some_elem_of in Hp. by apply list_elem_of_filter in Hp as [? ?].
  - intros c s p H1 H2 H3 H4 Hc Hs. unfold negotiate, handshake_model.
    rewrite H1, H2, H4, bool_decide_eq_false_2 by done. cbn.
    destruct (filter _ _) as [|q l] eqn:E; [|by eexists].
    exfalso. apply (not_elem_of_nil p). rewrite <- E. by apply list_elem_of_filter.
Qed.

Lemma quic_setup_agrees_witness :
  ∃ c s, @GetQuicTLSConfig crypto_model 11 12 0 1 = Ok c ∧ @GetQuicTLSConfig crypto_model 21 22 5 6 = Ok s ∧ negotiate c s = Some "qrpc"%string.
Proof.
  eexists _, _. split; [reflexivity|]. split; [reflexivity|].
  apply (@quic_setup_agrees crypto_model _ _ _ 11 12 0 1 21 22 5 6); reflexivity.
Defined.
