(* ===== verification/BenchServers.v ===== *)
(** * The benchmark servers and the gRPC baseline

    [src/stress_tester/internal/server/benchserver.go]: the handlers that the
    benchmark server registers, as handler programs of the qRPC server model;
    [src/stress_tester/internal/grpc/server.go]: the answer of the gRPC server;
    [src/stress_tester/internal/grpc/client.go]: the gRPC client with its
    connections in round robin; [src/stress_tester/internal/grpc/service.go]: the
    handler and the client of the service; and the wrapper of the load generator
    around the qRPC client.  Listening, serving, dialing, closing and invoking a
    method of a gRPC connection are inputs; [GrpcLaws] is what gRPC documents of
    the last. *)

From Stdlib Require Import Strings.Byte.
From stdpp Require Import gmap.
From S2P Require Import Prelude Wire WireInstance Schema SchemaFacts Encoder EncoderFacts.
From S2P Require Import Stream Ctx Server ServerFacts.
From S2P Require Import Float64 Metrics Loader Transport.

#[local] Open Scope Z_scope.

(** ** The qRPC benchmark server *)

(** [simulateCPU]: [n*100000] additions, whose sum is thrown away. *)
Fixpoint simulateCPU_loop (n : nat) (i : Z) (acc : float64) : float64 :=
  match n with
  | O => acc
  | S n => simulateCPU_loop n (i + 1) (acc + of_int i * rnd (1 # 1000000))%F
  end.
Definition simulateCPU (n : Z) : unit :=
  let _ := simulateCPU_loop (Z.to_nat (n * 100000)) 0 0%Q in tt.

(** [Call] of the gRPC server, which has the same load. *)
Definition Call (cpuLoad : bool) (req : Request) : Response :=
  let _ := if cpuLoad then simulateCPU 100 else tt in
  mkResponse (req_RequestId req) 200 [] (req_Method req) [] [].

Section bench_server.
Context `{Protohelpers, Zstd, Crypto} {listener quic_error : Type}.
Variable ListenAddr : string → tls_Config → quic_Config → outcome quic_error listener.

Definition method_echo : gostring := [x65; x63; x68; x6f].
Definition method_upload : gostring := [x75; x70; x6c; x6f; x61; x64].
Definition method_ping : gostring := [x70; x69; x6e; x67].

(** [wg], which nothing uses, is left out. *)
Record BenchServer := mkBenchServer {
  bs_addr : string;
  bs_qrpc : option (QRPCServerImpl unit);
  bs_cpuLoad : bool
}.
Definition NewBenchServer (addr : string) (cpuLoad : bool) : BenchServer := mkBenchServer addr None cpuLoad.

(** The handlers: the load, when there is one for the method, and the part that
    the three of them share. *)
Definition bench_handler (load : unit) : prog unit true :=
  CallSetCode 200 (CallSetBody [] (CallSetHeaders [] Return)).

Inductive start_error := TlsConfig (e : crypto_error) | NewServerFailed (e : quic_error).

(** [Start]: the handlers are registered when the server is there. *)
Definition BenchServer_Start (rnd rnd' : entropy) (now now' : Z) (s : BenchServer) : outcome start_error BenchServer :=
  match GetQuicTLSConfig rnd rnd' now now' with
  | Err e => Err (TlsConfig e)
  | Panic => Panic
  | NoFuel => NoFuel
  | Ok tlsCfg =>
      match NewServer ListenAddr s.(bs_addr) tlsCfg with
      | Err e => Err (NewServerFailed e)
      | Panic => Panic
      | NoFuel => NoFuel
      | Ok (_, server) =>
          let server := AddHandler method_echo (bench_handler (if s.(bs_cpuLoad) then simulateCPU 100 else tt)) server in
          let server := AddHandler method_upload (bench_handler (if s.(bs_cpuLoad) then simulateCPU 50 else tt)) server in
          let server := AddHandler method_ping (bench_handler tt) server in
          Ok (mkBenchServer s.(bs_addr) (Some server) s.(bs_cpuLoad))
      end
  end.

(** [Stop] logs a line; the listener, the connections and the streams stay. *)
Definition BenchServer_Stop (s : BenchServer) : BenchServer * option start_error := (s, None).

(** [RunServer]: the wait on [context.Background().Done()], a nil channel, never
    ends, so the only way to return is an error of [Start]. *)
Inductive run_result := RunReturned (e : start_error) | RunBlocked (s : BenchServer).
Definition RunServer (rnd rnd' : entropy) (now now' : Z) (addr : string) (cpuLoad : bool) : go run_result :=
  match BenchServer_Start rnd rnd' now now' (NewBenchServer addr cpuLoad) with
  | Ok s => Ok (RunBlocked s)
  | Err e => Ok (RunReturned e)
  | Panic => Panic
  | NoFuel => NoFuel
  end.

Lemma respond_bench load m :
  respond (bench_handler load) m = Ok (mkResponse (req_RequestId m) 200 [] [] [] []).
Proof. done. Qed.

(** A server that [Start] has made. *)
Definition started (s : BenchServer) (srv : QRPCServerImpl unit) : Prop :=
  bs_qrpc s = Some srv ∧ ∃ rnd rnd' now now' s0, BenchServer_Start rnd rnd' now now' s0 = Ok s.

Lemma bench_handlers s srv method : started s srv →
  eventHandlers srv = ∅ ∧
  if decide (method ∈ [method_echo; method_upload; method_ping])
  then ∃ load, handlers srv !! method = Some (bench_handler load) else handlers srv !! method = None.
Proof.
  intros (Hq & rnd & rnd' & now & now' & s0 & Hs). unfold BenchServer_Start, NewServer in Hs.
  destruct (GetQuicTLSConfig _ _ _ _) as [c| | |]; [|done..].
  destruct (ListenAddr _ _ _) as [l| | |]; [|done..]. cbn in Hs. injection Hs as <-. injection Hq as <-.
  split; [done|]. unfold AddHandler; cbn [handlers].
  destruct (decide (method = method_ping)) as [->|H1']; [rewrite lookup_insert_eq; by eexists|].
  rewrite lookup_insert_ne by done.
  destruct (decide (method = method_upload)) as [->|H2']; [rewrite lookup_insert_eq; by eexists|].
  rewrite lookup_insert_ne by done.
  destruct (decide (method = method_echo)) as [->|H3']; [rewrite lookup_insert_eq; by eexists|].
  rewrite lookup_insert_ne by done. rewrite decide_False; [done|].
  rewrite !elem_of_cons, elem_of_nil. tauto.
Qed.

Lemma bench_handler_at s srv method h : started s srv → handlers srv !! method = Some h →
  method ∈ [method_echo; method_upload; method_ping] ∧ ∃ load, h = bench_handler load.
Proof.
  intros Hs Hh. destruct (bench_handlers s srv method Hs) as [_ Hm].
  case_decide; [|congruence]. destruct Hm as [load Hm]. split; [done|]. exists load. congruence.
Qed.

Lemma bench_handlers_fit s srv : started s srv → handlers_fit srv.
Proof.
  intros Hs method h m r Hh Hl Hr. destruct (bench_handler_at s srv method h Hs Hh) as (_ & load & ->).
  rewrite respond_bench in Hr. injection Hr as <-.
  unfold fits, Response_wire, Request_wire, maxDecoded in *. cbn [resp_Headers resp_Method resp_RequestId
    resp_Body resp_Code resp_unknownFields] in *.
  assert (len (opt_varint x28 200) ≤ 10) by (by vm_compute). cbn [headers_wire opt_bytes].
  len_lia.
Qed.

Lemma bench_handlers_return s srv : started s srv → handlers_return srv.
Proof.
  intros Hs. split; intros method h m Hh.
  - destruct (bench_handler_at s srv method h Hs Hh) as (_ & load & ->). eauto using respond_bench.
  - destruct (bench_handlers s srv [] Hs) as [He _]. by rewrite He in Hh.
Qed.

(** The benchmark server never ends a stream because of a request for one of its
    methods, its answer carries the id of the request and code 200, which the
    load generator counts as a success, and in these the gRPC server agrees with
    it; other methods have no handler. *)
Theorem bench_server_correct s srv cpuLoad :
  started s srv →
  handlers_fit srv ∧ handlers_return srv ∧
  ∀ m, match handlers srv !! req_Method m with
       | Some h =>
           ∃ r, respond h m = Ok r ∧ resp_RequestId r = resp_RequestId (Call cpuLoad m) ∧
             resp_Code r = resp_Code (Call cpuLoad m) ∧
             ∀ start latency payload id,
               metrics.s_Success (loader.sample_of start latency (loader.CallCode (resp_Code r))
                                    payload id) = true
       | None => req_Method m ∉ [method_echo; method_upload; method_ping]
       end.
Proof.
  intros Hs. split; [by eapply bench_handlers_fit|]. split; [by eapply bench_handlers_return|].
  intros m. destruct (handlers srv !! req_Method m) as [h|] eqn:Hh.
  - destruct (bench_handler_at _ _ _ _ Hs Hh) as (_ & load & ->). eexists. split; [apply respond_bench|done].
  - intros Hin. destruct (bench_handlers _ _ (req_Method m) Hs) as [_ Hm]. rewrite decide_True in Hm by done.
    destruct Hm. congruence.
Qed.

End bench_server.

(** ** The wrapper around the qRPC client *)

(** [SendRequest] of [qrpcClientWrapper] fills the request before it sends it. *)
Definition wrapper_request {any} (method body : list byte) (headers : list (list byte))
    (req : RequestImpl any) : outcome Empty_set (RequestImpl any) :=
  req ← ri_SetMethod method req;
  req ← ri_SetBody body req;
  ri_SetHeaders headers req.

(** ** The gRPC client *)

Module grpc.

(** A connection is the number of the dial that made it. *)
Record Client := mkClient { pairs : list nat; cursor : Z }.

Inductive client_error := TlsErr | DialErr (i : nat).

(** [for i := 0; i < connsCount; i++]: [n] dials are left, [i] is the next one.
    A failed dial closes the connections made before it. *)
Fixpoint dial_loop (dial : nat → bool) (i n : nat) (pairs : list nat) :
    outcome client_error (list nat) * list nat :=
  match n with
  | O => (Ok pairs, [])
  | S n => if dial i then dial_loop dial (S i) n (pairs ++ [i]) else (Err (DialErr i), pairs)
  end.

(** The client, and the connections that were closed. *)
Definition NewClient (tls_ok : bool) (dial : nat → bool) (connsCount : Z) :
    outcome client_error Client * list nat :=
  let connsCount := if connsCount <? 1 then 1 else connsCount in
  if tls_ok then
    let '(r, closed) := dial_loop dial 0 (Z.to_nat connsCount) [] in
    (pairs ← r; Ok (mkClient pairs 0), closed)
  else (Err TlsErr, []).

(** The request goes to the connection whose turn it is; the response is wrapped
    by [qrpc.NewResponse], which takes its object from the pool of the client
    library. *)
Definition SendRequest {E} (call : nat → Request → outcome E Response) (method body : list byte)
    (headers : list (list byte)) (k : nat) :
    prog_on (Client * list ResponseImpl) E ResponseImpl := λ '(c, pool),
  let cur := u64 (c.(cursor) + 1) in
  let idx := u64 (cur - 1) in
  let c' := mkClient c.(pairs) cur in
  let req := mkRequest 0 headers method body [] in
  match (if (len c.(pairs) =? 0)%Z then Panic
         else p ← index c.(pairs) (idx mod len c.(pairs)); call p req) with
  | Ok resp => let '(r, pool) := NewResponse (Some resp) k pool in ((c', pool), Ok r)
  | Err e => ((c', pool), Err e)
  | Panic => ((c', pool), Panic)
  | NoFuel => ((c', pool), NoFuel)
  end.

(** [Close] closes all connections and returns the first error. *)
Fixpoint close_loop {E} (close : nat → option E) (pairs : list nat) (firstErr : option E) : option E :=
  match pairs with
  | [] => firstErr
  | p :: pairs =>
      close_loop close pairs
        (match close p, firstErr with Some e, None => Some e | _, _ => firstErr end)
  end.
Definition Close {E} (close : nat → option E) (c : Client) : option E := close_loop close c.(pairs) None.

Lemma grpc_dial_loop_spec dial i n ps :
  match dial_loop dial i n ps with
  | (Ok ps', closed) => ps' = ps ++ seq i n ∧ closed = [] ∧ ∀ j, (i ≤ j < i + n)%nat → dial j = true
  | (Err (DialErr j), closed) =>
      (i ≤ j < i + n)%nat ∧ dial j = false ∧ closed = ps ++ seq i (j - i)
  | _ => False
  end.
Proof.
  revert i ps. induction n as [|n IH]; intros i ps; simpl; [rewrite app_nil_r; split_and!; [done..|lia]|].
  destruct (dial i) eqn:E.
  - specialize (IH (S i) (ps ++ [i])). destruct (dial_loop dial (S i) n (ps ++ [i])) as [[ps'|[|j]| |] closed];
      try done.
    + destruct IH as (-> & -> & H). split_and!; [by rewrite <- app_assoc|done|].
      intros j Hj. destruct (decide (j = i)) as [->|]; [done|apply H; lia].
    + destruct IH as (H1 & H2 & ->). split_and!; [lia|lia|done|].
      replace (j - i)%nat with (S (j - S i)) by lia. by rewrite <- app_assoc.
  - split_and!; [lia|lia|done|]. by rewrite Nat.sub_diag, app_nil_r.
Qed.

(** [NewClient] makes the requested number of connections, at least one, or
    closes all those it made. *)
Theorem NewClient_all_or_none dial n :
  match NewClient true dial n with
  | (Ok c, closed) => pairs c = seq 0 (Z.to_nat (Z.max 1 n)) ∧ cursor c = 0 ∧ closed = []
  | (Err (DialErr j), closed) => dial j = false ∧ closed = seq 0 j
  | _ => False
  end.
Proof.
  unfold NewClient. replace (if n <? 1 then 1 else n) with (Z.max 1 n) by (case_match; z_bools; lia).
  pose proof (grpc_dial_loop_spec dial 0 (Z.to_nat (Z.max 1 n)) []) as H.
  destruct (dial_loop _ _ _ _) as [[ps|[|j]| |] closed]; simpl in *; try done.
  - by destruct H as (-> & -> & _).
  - destruct H as (_ & ? & ->). by rewrite Nat.sub_0_r.
Qed.

(** ** The service *)

Section service.
Context {E : Type}.
Abbreviation handler := (Request → outcome E Response).

Definition ServiceName : string := "bench.BenchService".

(** [_BenchService_Call_Handler]: the request is decoded and handed to the
    server, through the interceptor when there is one. *)
Definition Call_Handler (srv : handler) (dec : outcome E Request)
    (interceptor : option (handler → handler)) : outcome E Response :=
  req ← dec;
  match interceptor with
  | None => srv req
  | Some interceptor => interceptor (λ req, srv req) req
  end.

(** [benchServiceDesc]: the methods and their handlers. *)
Definition benchServiceDesc : list (string * (handler → outcome E Request → option (handler → handler) →
    outcome E Response)) := [("Call", Call_Handler)]%string.

(** [Call] of the generated client. *)
Definition client_Call (Invoke : string → handler) (req : Request) : outcome E Response :=
  Invoke "/bench.BenchService/Call"%string req.

(** The method of [UnimplementedBenchServiceServer], which [BenchServer] embeds
    and overrides. *)
Definition codes_Unimplemented : Z := 12.
Definition Unimplemented_Call (Errorf : Z → string → E) (req : Request) : outcome E Response :=
  Err (Errorf codes_Unimplemented "method Call not implemented"%string).

(** The server *)

(** The services of a [grpc.Server]. *)
Abbreviation Server := (gmap string handler).
Definition RegisterBenchServiceServer (s : Server) (srv : handler) : Server := <[ServiceName := srv]> s.

Record GrpcServer := mkGrpcServer { gs_addr : string; gs_srv : option Server; gs_cpuLoad : bool }.
Definition NewGrpcServer (addr : string) (cpuLoad : bool) : GrpcServer := mkGrpcServer addr None cpuLoad.

Inductive grpc_start_error := ListenErr (e : E) | TlsConfigErr (e : E) | ServeErr (e : E).

(** [Start]: [Serve] blocks until the server is stopped or fails.  The listener
    stays open when there is no TLS configuration. *)
Definition GrpcServer_Start {L tlsConfig} (Listen : string → outcome E L) (GetGRPCTLSConfig : outcome E tlsConfig)
    (Serve : Server → tlsConfig → L → option E) (s : GrpcServer) : GrpcServer * outcome grpc_start_error unit :=
  match Listen s.(gs_addr) with
  | Err e => (s, Err (ListenErr e))
  | Panic => (s, Panic)
  | NoFuel => (s, NoFuel)
  | Ok lis =>
      match GetGRPCTLSConfig with
      | Err e => (s, Err (TlsConfigErr e))
      | Panic => (s, Panic)
      | NoFuel => (s, NoFuel)
      | Ok tlsCfg =>
          let srv := RegisterBenchServiceServer ∅ (λ req, Ok (Call s.(gs_cpuLoad) req)) in
          (mkGrpcServer s.(gs_addr) (Some srv) s.(gs_cpuLoad),
           match Serve srv tlsCfg lis with Some e => Err (ServeErr e) | None => Ok tt end)
      end
  end.

(** [Stop]: the server that is stopped gracefully, if it was started. *)
Definition GrpcServer_Stop (s : GrpcServer) : option Server := s.(gs_srv).

Definition GrpcRunServer {L tlsConfig} (Listen : string → outcome E L) (GetGRPCTLSConfig : outcome E tlsConfig)
    (Serve : Server → tlsConfig → L → option E) (addr : string) (cpuLoad : bool) : outcome grpc_start_error unit :=
  (GrpcServer_Start Listen GetGRPCTLSConfig Serve (NewGrpcServer addr cpuLoad)).2.

(** What gRPC documents: an invocation of the path of a method of a registered
    service runs its handler on the request, for a server without interceptors. *)
Class GrpcLaws (srv : handler) (Invoke : string → handler) :=
  grpc_invoke name h req :
    (name, h) ∈ benchServiceDesc →
    Invoke ("/" ++ ServiceName ++ "/" ++ name)%string req = h srv (Ok req) None.
End service.

(** An implementation: the table of the service is searched. *)
Definition invoke_model {E} (unimplemented : E) (srv : Request → outcome E Response) (path : string)
    (req : Request) : outcome E Response :=
  match List.find (λ m, bool_decide (path = "/" ++ ServiceName ++ "/" ++ m.1)%string) benchServiceDesc with
  | Some m => m.2 srv (Ok req) None
  | None => Err unimplemented
  end.

#[export] Instance invoke_model_laws {E} (e : E) srv : GrpcLaws srv (invoke_model e srv).
Proof. by intros name h req [= -> ->]%list_elem_of_singleton. Qed.

(** Consecutive requests use the connections in turn. *)
Lemma SendRequest_round_robin {E} (call : nat → Request → outcome E Response) method body headers k c pool n r :
  pairs c = seq 0 n → (0 < n)%nat → 0 ≤ cursor c < 2 ^ 64 - 1 →
  call (Z.to_nat (cursor c mod Z.of_nat n)) (mkRequest 0 headers method body []) = Ok r →
  SendRequest call method body headers k (c, pool) =
    ((mkClient (pairs c) (cursor c + 1), (NewResponse (Some r) k pool).2), Ok (mkResponseImpl (Some r))).
Proof.
  intros Hp Hn Hc Hr. unfold SendRequest.
  rewrite (u64_id (cursor c + 1)) by lia. rewrite u64_id by lia.
  replace (cursor c + 1 - 1) with (cursor c) by lia.
  assert (len (pairs c) = Z.of_nat n) as Hl by (rewrite Hp; unfold len; by rewrite length_seq).
  rewrite Hl. rewrite (proj2 (Z.eqb_neq _ _)) by lia.
  pose proof (Z.mod_pos_bound (cursor c) (Z.of_nat n) ltac:(lia)) as Hm.
  assert (index (pairs c) (cursor c mod Z.of_nat n) = Ok (Z.to_nat (cursor c mod Z.of_nat n)) :> outcome E nat)
    as ->; [|simpl; rewrite Hr; unfold NewResponse; by destruct (pool_get _ _ _)].
  apply index_Ok. split; [lia|]. rewrite Hp. apply lookup_seq. lia.
Qed.

(** A server that was started serves its own [Call]. *)
Lemma started_service {E L tlsConfig} (Listen : string → outcome E L) (cfg : outcome E tlsConfig) Serve s s' r srv :
  GrpcServer_Start Listen cfg Serve s = (s', r) → gs_srv s = None → GrpcServer_Stop s' = Some srv →
  srv !! ServiceName = Some (λ req, Ok (Call (gs_cpuLoad s) req)).
Proof.
  intros Hs Hn Hsrv. unfold GrpcServer_Start in Hs. unfold GrpcServer_Stop in Hsrv.
  destruct (Listen _); [|simplify_eq; congruence..]. destruct cfg; [|simplify_eq; congruence..].
  simplify_eq. cbn in Hsrv. simplify_eq. apply lookup_insert_eq.
Qed.

(** The baseline works from end to end: a client of [n] connections, at least
    one, to a server that was started sends each request on the connection whose
    turn it is, the server answers it with code 200, and the load generator
    counts a success. *)
Theorem grpc_baseline_correct {E L tlsConfig} (Listen : string → outcome E L) (cfg : outcome E tlsConfig) Serve
    addr cpuLoad s' res services srv (Invoke : nat → string → Request → outcome E Response) dial n c closed
    method body headers k pool :
  GrpcServer_Start Listen cfg Serve (NewGrpcServer addr cpuLoad) = (s', res) → GrpcServer_Stop s' = Some services →
  services !! ServiceName = Some srv → (∀ p, GrpcLaws srv (Invoke p)) →
  NewClient true dial n = (Ok c, closed) →
  ∃ c' pool' r,
    SendRequest (λ p, client_Call (Invoke p)) method body headers k (c, pool) =
      ((c', pool'), Ok (mkResponseImpl (Some r))) ∧
    pairs c' = pairs c ∧ cursor c' = 1 ∧ resp_Method r = method ∧
    ∀ start latency payload id,
      metrics.s_Success (loader.sample_of start latency (loader.CallCode (resp_Code r)) payload id) = true.
Proof.
  intros Hstart Hstop Hsrv HI Hc. pose proof (started_service _ _ _ _ _ _ _ Hstart eq_refl Hstop) as Hs.
  rewrite Hs in Hsrv. injection Hsrv as <-. pose proof (NewClient_all_or_none dial n) as H. rewrite Hc in H.
  destruct H as (Hp & Hcur & _). eexists _, _, _. split.
  - apply (SendRequest_round_robin _ _ _ _ _ _ _ (Z.to_nat (Z.max 1 n))); [done|lia|lia|].
    unfold client_Call. by rewrite (grpc_invoke (GrpcLaws := HI _) "Call" Call_Handler) by left.
  - simpl. by rewrite Hcur.
Qed.

(** Both clients send the same message: the fields that the load generator
    gives, whatever the request object held. *)
Theorem same_message {any} method body headers (req : RequestImpl any) m :
  ri_req req = Some m → req_unknownFields m = [] →
  ∃ req' m', wrapper_request method body headers req = Ok req' ∧ ri_req req' = Some m' ∧
    m' = set_req_RequestId (req_RequestId m) (mkRequest 0 headers method body []).
Proof.
  intros Hr Hu. unfold wrapper_request, ri_SetMethod, ri_SetBody, ri_SetHeaders, ri_upd. rewrite Hr. cbn.
  eexists _, _. split; [done|]. split; [done|]. destruct m. cbn in *. by subst.
Qed.

(** [Close] reports the first error. *)
Lemma close_loop_spec {E} (close : nat → option E) ps e :
  close_loop close ps e = match e with Some e => Some e | None => head (omap close ps) end.
Proof.
  revert e. induction ps as [|p ps IH]; intros e; simpl; [by destruct e|].
  rewrite IH. destruct (close p) eqn:Hc, e; simpl; by rewrite ?Hc.
Qed.

End grpc.
