(* ===== verification/BenchEndToEnd.v ===== *)
(** * A call of the load generator, from end to end

    One iteration of the load generator's worker over qRPC: the wrapper fills a
    pooled request and starts the call, the benchmark server answers the frame,
    the read cycle delivers the answer, the call returns it and the worker looks
    at its code. *)

From Stdlib Require Import Strings.Byte.
From S2P Require Import Float64 Metrics Loader.
From S2P Require Import Prelude Wire WireInstance Schema SchemaFacts Encoder EncoderFacts ShardedMap Balancer.
From S2P Require Import Stream Ctx Server ServerFacts Batcher Multiplexer MultiplexerFacts Client ClientFacts EndToEnd.
From S2P Require Import Transport BenchServers.

#[local] Open Scope Z_scope.

Lemma pack_short `{Zstd} flag zflag d : len (pack flag zflag d).2 ≤ len d.
Proof. unfold pack. case_match eqn:E; cbn [snd]; [|lia]. apply andb_true_iff in E as [_ E]. z_bools. lia. Qed.

Section call.
Context `{Protohelpers, !ProtohelpersOk, Zstd, !ZstdOk, Crypto} {any M : Type} `{!IdMap M chan, !IdMapOk M chan}.
Context {listener quic_error : Type} (ListenAddr : string → tls_Config → quic_Config → outcome quic_error listener).
Implicit Types w : cworld any M.

(** [SendRequest] of the wrapper, up to the wait for the answer. *)
Definition wrapper_SendRequest_begin (e : env) (method body : list byte) (headers : list (list byte)) :
    prog_on (cworld any M) SendErr (Z * chan) :=
  req ← client_NewRequest e;
  req ← lift (total (wrapper_request method body headers req));
  SendRequest_begin e req.

(** From the receive in [waitResponse] to the return of [SendRequest]. *)
Definition SendRequest_end (e : env) (ch : chan) (resp : Response) : prog_on (cworld any M) SendErr ResponseImpl :=
  putChan ch;;
  wrapResponse e resp.

(** The answer of the benchmark server. *)
Definition bench_response (id : Z) : Response := mkResponse id 200 [] [] [] [].

Lemma bench_response_short id : len (Response_wire (bench_response id)) ≤ 22.
Proof.
  unfold Response_wire, bench_response. cbn [resp_Headers resp_Method resp_RequestId resp_Body resp_Code
    resp_unknownFields headers_wire opt_bytes].
  assert (len (opt_varint x28 200) ≤ 10) by (by vm_compute).
  pose proof (opt_varint_le x18 id). pose proof (varint_len id).
  len_lia.
Qed.

(** What the client keeps across the code around a send. *)
Record same_client w w' : Prop := {
  sc_muxes : c_muxes w' = c_muxes w;
  sc_counter : c_connCounter w' = c_connCounter w;
  sc_map : c_chansMap w' = c_chansMap w;
  sc_pool : c_chansPool w' = c_chansPool w;
  sc_next : c_nextChan w' = c_nextChan w;
  sc_closed : c_closed w' = c_closed w;
  sc_wire : c_wire w' = c_wire w
}.

Lemma same_client_turn e w w' : same_client w w' → next_mux w' = next_mux w ∧ next_chan e w' = next_chan e w.
Proof. intros [Hm Hc _ Hp Hn _ _]. unfold next_mux, next_chan. by rewrite Hm, Hc, Hp, Hn. Qed.

(** A new request is empty and has its locals. *)
Lemma client_NewRequest_spec e w : cworld_ok w →
  ∃ impl w', client_NewRequest e w = (w', Ok impl) ∧ ri_req impl = Some empty_Request ∧
    is_Some (ri_locals impl) ∧ cworld_ok w' ∧ same_client w w'.
Proof.
  intros Hw. unfold client_NewRequest, GetRequest, NewRequest.
  destruct (pool_get _ (e_msg e) (c_requests w)) as [req p] eqn:Ep.
  destruct (pool_get _ (e_ctx e) (c_reqCtxs w)) as [impl q] eqn:Eq.
  assert (req = empty_Request ∧ Forall (eq empty_Request) p) as [-> Hp].
  { destruct (pool_get_Forall (eq empty_Request) empty_Request (e_msg e) _ eq_refl (cok_requests _ Hw)) as [Hr Hp].
    change (pool_get empty_Request (e_msg e) (c_requests w) = (req, p)) in Ep. by rewrite Ep in Hr, Hp. }
  eexists _, _. split; [done|]. cbn. split; [done|]. split; [eauto|]. split; [|done]. by destruct Hw.
Qed.

(** The wrapper's call: the frame of its message is sent, and the id and the
    channel of the call are returned. *)
Lemma wrapper_begin_spec e method body headers w : cworld_ok w → c_closed w = false →
  e_deadline e = None → e_write e = Written → u64 (e_rand e) ≠ 0 →
  let m := mkRequest (u64 (e_rand e)) headers method body [] in Request_wf m →
  ∃ s w', wrapper_SendRequest_begin e method body headers w = (w', Ok (u64 (e_rand e), next_chan e w)) ∧
    c_wire w' = c_wire w ++ [(next_mux w, s, request_bytes m)] ∧ c_closed w' = false ∧ cworld_ok w' ∧
    im_view (c_chansMap w') = <[u64 (e_rand e) := next_chan e w]> (im_view (c_chansMap w)).
Proof.
  intros Hw Hcl Hdl Hwr Hid m Hwf. unfold wrapper_SendRequest_begin.
  destruct (client_NewRequest_spec e w Hw) as ([r l] & w1 & E1 & Hr & [l' Hl] & Hw1 & Hsame). cbn in Hr, Hl. subst r l.
  destruct (same_client_turn e w w1 Hsame) as [Hmux Hch]. destruct Hsame.
  run_call E1. unfold wrapper_request, ri_SetMethod, ri_SetBody, ri_SetHeaders, ri_upd. cbn.
  erewrite prog_bind_Ok by reflexivity. unfold SendRequest_begin. cbn. erewrite prog_bind_Ok by reflexivity. cbn.
  assert (with_id e m = m) as Hm by (unfold with_id, m; cbn; by rewrite (proj2 (Z.eqb_neq _ _))).
  destruct (sendRequestInternal_spec e m w1 Hw1 (eq_trans sc_closed0 Hcl) (eq_ind_r _ Hwf Hm) Hdl Hwr)
    as (s & w2 & E2 & _ & Hwire & Hv & _ & Hw2 & Hcl2 & _).
  rewrite Hm, Hmux, Hch in *. erewrite prog_bind_Ok; [|unfold finally, releaseImpl; change (set_req_RequestId _ _) with m; rewrite E2; reflexivity].
  eexists s, _. split; [reflexivity|]. cbn. rewrite Hwire, Hv, Hcl2. rewrite sc_wire0, sc_map0, sc_closed0.
  split_and!; try done. by destruct Hw2.
Qed.

Context (choose : nat → site → nat) (mchoose : nat → nat) (clock : nat → Z) (mwresult : nat → wres).

(** C25: a call of the load generator to the benchmark server succeeds.  For
    every open client with streams, every state of the pools on both sides and
    every method of the server: the wrapper's call writes one frame and returns
    the id and the channel it waits on; the server answers the frame; the read
    cycle puts the answer, and nothing else, into that channel; from it the call
    returns a response with code 200, puts the channel back, and the worker
    records a success. *)
Theorem bench_call_succeeds e method body headers w bs srv sw s :
  cworld_ok w → c_closed w = false → e_deadline e = None → e_write e = Written → u64 (e_rand e) ≠ 0 →
  let m := mkRequest (u64 (e_rand e)) headers method body [] in call_ok m (request_frame m) →
  started ListenAddr bs srv → method ∈ [method_echo; method_upload; method_ping] → world_ok sw →
  ∃ w' stream bytes ch,
    wrapper_SendRequest_begin e method body headers w = (w', Ok (u64 (e_rand e), ch)) ∧
    c_wire w' = c_wire w ++ [(next_mux w, stream, bytes)] ∧
  ∃ sw' reply, streamReadCycle choose (λ _, Written) srv 2 (mkCycle (mkIn bytes IoEOF) []) sw =
      (sw', Err (HeaderReadError IoEOF)) ∧ w_out sw' = w_out sw ++ reply ∧
  ∀ mw : mworld M, mworld_ok mw → m_chansMap mw = c_chansMap w' → default [] (m_chans mw !! ch) = [] →
  ∃ mw' resp, readCycle mchoose clock mwresult s 2 (mkCycle (mkIn reply IoEOF) []) mw =
      (mw', Err (HeaderReadError IoEOF)) ∧ m_chans mw' !! ch = Some [resp] ∧
  ∃ w'' impl code, SendRequest_end e ch resp w' = (w'', Ok impl) ∧ ch ∈ c_chansPool w'' ∧
    rs_Code impl = Ok code ∧
    ∀ start latency payload id,
      metrics.s_Success (loader.sample_of start latency (loader.CallCode code) payload id) = true.
Proof.
  intros Hw Hcl Hdl Hwr Hid m Hcall Hsrv Hmeth Hsw.
  destruct (wrapper_begin_spec e method body headers w Hw Hcl Hdl Hwr Hid (call_wf _ _ Hcall))
    as (stream & w' & E & Hwire & _ & _ & Hview).
  exists w', stream, (request_bytes m), (next_chan e w). split; [done|]. split; [done|].
  pose proof (bench_response_short (u64 (e_rand e))) as Hshort.
  pose proof (pack_short RESPONSE_FLAG RESPONSE_ZSTD_FLAG (Response_wire (bench_response (u64 (e_rand e))))) as Hpack.
  pose proof (bench_handlers_fit _ _ _ Hsrv) as Hfit.
  assert (Forall2 (answers srv) [m] [bench_response (u64 (e_rand e))]) as Hans.
  { constructor; [|constructor]. split; [done| |unfold maxDecoded; lia|unfold response_frame; lia].
    destruct (bench_handlers _ _ _ method Hsrv) as [_ Hh]. rewrite decide_True in Hh by done. destruct Hh as [load Hh].
    by exists (bench_handler load). }
  destruct (serve_calls choose srv _ _ 2 sw Hfit Hsw Hans) as (sw' & Es & Hout); [simpl; lia|].
  eexists sw', _. split; [by rewrite <- (app_nil_r (request_bytes m))|]. split; [exact Hout|]. intros mw Hmw Hmap Hbox.
  destruct (deliver_stream srv mchoose clock mwresult _ _ 2 s Hfit Hans ltac:(simpl; lia) (NoDup_singleton _) mw [next_chan e w] Hmw
    (NoDup_singleton _)) as (mw' & Er & Hb & _ & _).
  { constructor; [|constructor]. cbn. by rewrite Hmap, Hview, lookup_insert_eq. }
  apply Forall2_cons_1 in Hb as [Hb _]. exists mw', (bench_response (u64 (e_rand e))). split; [exact Er|]. split; [done|].
  unfold SendRequest_end, wrapResponse, NewResponse.
  destruct (pool_get new_ResponseImpl (e_ctx e) (c_respCtxs w')) as [x q] eqn:Eq.
  eexists _, _, 200. split; [erewrite prog_bind_Ok by reflexivity; cbn; rewrite Eq; reflexivity|].
  split; [cbn; by left|done].
Qed.
End call.

(** ** Witness: the sample client pings the benchmark server. *)

Definition ping_message : Request := mkRequest 300 [] method_ping [] [].

Lemma ping_call_ok : call_ok ping_message (request_frame ping_message).
Proof. split; [split; vm_compute; intuition congruence|by vm_compute|constructor|by vm_compute]. Qed.

(** A server that is started on a model of the transport. *)
Definition sample_bench : QRPCServerImpl unit :=
  AddHandler method_ping (bench_handler tt) (AddHandler method_upload (bench_handler tt)
    (AddHandler method_echo (bench_handler tt) newServer)).

Lemma sample_bench_started :
  started (H1:=crypto_model) (λ _ _ _, Ok tt : outcome unit unit) (mkBenchServer "addr" (Some sample_bench) false) sample_bench.
Proof. split; [done|]. by exists 1, 2, 0, 0, (NewBenchServer "addr" false). Qed.

Lemma bench_call_succeeds_witness :
  ∃ w' stream bytes ch,
    wrapper_SendRequest_begin (sample_env Written) method_ping [] [] sample_client = (w', Ok (300, ch)) ∧
    c_wire w' = [] ++ [(0%nat, stream, bytes)] ∧
  ∃ sw' reply, streamReadCycle sample_choose (λ _, Written) sample_bench 2 (mkCycle (mkIn bytes IoEOF) []) sample_world =
      (sw', Err (HeaderReadError IoEOF)) ∧ w_out sw' = [] ++ reply.
Proof.
  destruct (bench_call_succeeds (H3:=crypto_model) (λ _ _ _, Ok tt : outcome unit unit) sample_choose (λ _, 0%nat) (λ _, 0) (λ _, Written)
    (sample_env Written) method_ping [] [] sample_client (mkBenchServer "addr" (Some sample_bench) false) sample_bench sample_world 5 sample_client_ok)
    as (w' & stream & bytes & ch & E & Hw & sw' & reply & Es & Ho & _).
  - reflexivity.
  - reflexivity.
  - reflexivity.
  - discriminate.
  - exact ping_call_ok.
  - exact sample_bench_started.
  - do 2 right. left.
  - exact sample_world_ok.
  - exists w', stream, bytes, ch. split; [exact E|]. split; [exact Hw|]. exists sw', reply. split; [exact Es|exact Ho].
Defined.
