(* ===== verification/StressMain.v ===== *)
(** * The command line program of the stress tester

    [src/stress_tester/main.go]: the dispatch of the commands, the command
    "run" from its flags to the summary, "cleanup", "server", and the texts that
    are printed.  Package [flag] fills the record of flags; the lines that only
    log are left out. *)

From Stdlib Require Import Ascii.
From stdpp Require Import gmap.
From S2P Require Import Prelude.
From S2P Require Import Float64.
From S2P Require Import GoStrings.
From S2P Require Import GoTime.
From S2P Require Import BenchConfig.
From S2P Require Import Metrics.
From S2P Require Import MetricsFacts.
From S2P Require Import Loader.
From S2P Require Import Netem.
From S2P Require Import Scenarios.
From S2P Require Import Schema.
From S2P Require Import Server.
From S2P Require Import Transport.
From S2P Require Import BenchServers.

#[local] Open Scope string_scope.
#[local] Open Scope Z_scope.

Module stress_main.
Import config.

(** ** Commands *)

Inductive command :=
| CmdRun (args : list string)
| CmdServer (args : list string)
| CmdProfiles
| CmdScenarios
| CmdCleanup (args : list string)
| CmdHelp.

(** The commands that end with status 1 after the usage text. *)
Inductive usage_error := NoCommand | UnknownCommand (cmd : string).

Definition main (osArgs : list string) : outcome usage_error command :=
  match osArgs with
  | _ :: cmd :: args =>
      if bool_decide (cmd = "run") then Ok (CmdRun args)
      else if bool_decide (cmd = "server") then Ok (CmdServer args)
      else if bool_decide (cmd = "profiles") then Ok CmdProfiles
      else if bool_decide (cmd = "scenarios") then Ok CmdScenarios
      else if bool_decide (cmd = "cleanup") then Ok (CmdCleanup args)
      else if bool_decide (cmd ∈ ["help"; "--help"; "-h"]) then Ok CmdHelp
      else Err (UnknownCommand cmd)
  | _ => Err NoCommand
  end.

(** ** Text *)

Definition nl : string := String (ascii_of_nat 10) "".
Fixpoint concat (l : list string) : string :=
  match l with [] => "" | x :: l => x ++ concat l end%string.
Definition lines (l : list string) : string := concat (map (λ s, s ++ nl)%string l).

Definition usage : string :=
  lines [
    "qRPC Benchmark Framework — stress testing and network degradation analysis.";
    "";
    "Usage:";
    "  stress_test <command> [options]";
    "";
    "Commands:";
    "  run         Run a benchmark scenario";
    "  server      Start the benchmark server";
    "  profiles    List available network profiles";
    "  scenarios   List available test scenarios";
    "  cleanup     Clean network emulation rules";
    "";
    "Run 'stress_test <command> -h' for command-specific help."
  ].

Abbreviation cell w s := (strings.PadRight w s).

Definition profile_line (name : string) : string :=
  let p := default NetworkProfile_zero (DefaultProfiles !! name) in
  (cell 12 p.(Name) ++ " " ++ cell 10 p.(Delay) ++ " " ++ cell 10 p.(Jitter) ++ " "
    ++ cell 8 (fmt_fixed 1 p.(Loss)) ++ " " ++ p.(Description))%string.

Definition listProfiles : string :=
  lines ([
    "Available Network Profiles:";
    strings.Repeat "-" 60;
    (cell 12 "Name" ++ " " ++ cell 10 "Delay" ++ " " ++ cell 10 "Jitter" ++ " " ++ cell 8 "Loss%" ++ " "
      ++ "Description")%string;
    strings.Repeat "-" 60]
    ++ map profile_line ["clean"; "wifi"; "lte"; "bad_lte"; "extreme"]
    ++ [strings.Repeat "-" 60])%list.

(** The scenarios in the order in which the runtime ranges over the table. *)
Definition listScenarios (entries : list (string * Scenario)) : string :=
  lines ([
    "Available Test Scenarios:";
    strings.Repeat "-" 70]
    ++ mjoin (map (λ '(name, s), [
         (nl ++ "  " ++ name ++ ":")%string;
         ("    " ++ s.(sc_Description))%string;
         ("    Workers: " ++ fmt_int s.(sc_LoadConfig).(Workers) ++
          ", Pipelining: " ++ fmt_int s.(sc_LoadConfig).(Pipelining) ++
          ", Streams: " ++ fmt_int s.(sc_LoadConfig).(Streams) ++
          ", Connections: " ++ fmt_int s.(sc_LoadConfig).(Connections) ++
          ", Workload: " ++ s.(sc_LoadConfig).(Workload) ++
          ", Duration: " ++ duration_String s.(sc_LoadConfig).(Duration))%string;
         ("    Profiles: " ++ strings.Join s.(sc_Profiles) ", ")%string]) entries)
    ++ [strings.Repeat "-" 70])%list.

(** ** Summary *)

Definition summary_line (r : metrics.Report) : string :=
  (cell 12 r.(metrics.Profile) ++ " " ++ cell 12 (fmt_int r.(metrics.TotalRequests)) ++ " "
    ++ cell 11 (fmt_fixed 2 r.(metrics.SuccessRate)) ++ " "
    ++ cell 12 (loader.FormatRPS r.(metrics.RPS)) ++ " "
    ++ cell 12 (loader.FormatDuration r.(metrics.AvgLatency)) ++ " "
    ++ cell 12 (loader.FormatDuration r.(metrics.P50)) ++ " "
    ++ cell 12 (loader.FormatDuration r.(metrics.P95)) ++ " "
    ++ cell 12 (loader.FormatDuration r.(metrics.P99)))%string.

Definition tail_line (r : metrics.Report) : string :=
  (cell 12 r.(metrics.Profile) ++ " "
    ++ cell 12 (loader.FormatDuration r.(metrics.P95)) ++ " "
    ++ cell 12 (loader.FormatDuration r.(metrics.P99)) ++ " "
    ++ cell 12 (loader.FormatDuration r.(metrics.P999)) ++ " "
    ++ cell 12 (loader.FormatDuration r.(metrics.MaxLatency)))%string.

Definition bucket_names : list string :=
  ["<1ms"; "1-5ms"; "5-10ms"; "10-25ms"; "25-50ms"; "50-100ms"; "100-250ms"; "250-500ms";
   "500ms-1s"; "1-2s"; "2-5s"; ">5s"].

(** The percentage of a bucket and the length of its bar. *)
Definition bucket_pct (count success : Z) : float64 :=
  (of_int count / of_int success * 100)%F.
Definition bar_len (count success : Z) : Z := to_int (bucket_pct count success / 2)%F.

(** [strings.Repeat] panics on a negative count. *)
Definition bucket_line (r : metrics.Report) (bucket : string) : outcome Empty_set (list string) :=
  match r.(metrics.LatencyDist) !! bucket with
  | Some count =>
      if 0 <? count then
        let pct := bucket_pct count r.(metrics.SuccessCount) in
        let n := bar_len count r.(metrics.SuccessCount) in
        if n <? 0 then Panic
        else Ok [("    " ++ cell 10 bucket ++ " " ++ strings.PadLeft 8 (fmt_int count) ++ " ("
                   ++ strings.PadLeft 5 (fmt_fixed 1 pct) ++ "%) "
                   ++ strings.Repeat "█" (Z.to_nat n))%string]
      else Ok []
  | None => Ok []
  end.

Fixpoint bucket_lines (r : metrics.Report) (names : list string) : outcome Empty_set (list string) :=
  match names with
  | [] => Ok []
  | b :: names => l ← bucket_line r b; rest ← bucket_lines r names; Ok (l ++ rest)%list
  end.

Fixpoint distributions (reports : list metrics.Report) : outcome Empty_set (list string) :=
  match reports with
  | [] => Ok []
  | r :: reports =>
      l ← bucket_lines r bucket_names;
      rest ← distributions reports;
      Ok ((nl ++ "  " ++ r.(metrics.Profile) ++ ":")%string :: l ++ rest)%list
  end.

Definition printSummary (scenario : string) (reports : list metrics.Report) : outcome Empty_set string :=
  dist ← distributions reports;
  Ok (lines ([
    (nl ++ strings.Repeat "=" 70)%string;
    ("BENCHMARK SUMMARY: " ++ scenario)%string;
    strings.Repeat "=" 70;
    (nl ++ cell 12 "Profile" ++ " " ++ cell 12 "Total" ++ " " ++ cell 12 "Success%" ++ " " ++ cell 12 "RPS"
      ++ " " ++ cell 12 "Avg" ++ " " ++ cell 12 "P50" ++ " " ++ cell 12 "P95" ++ " " ++ cell 12 "P99")%string;
    strings.Repeat "-" 100]
    ++ map summary_line reports
    ++ [strings.Repeat "=" 100;
        (nl ++ "Tail Latency Analysis:")%string;
        (cell 12 "Profile" ++ " " ++ cell 12 "P95" ++ " " ++ cell 12 "P99" ++ " " ++ cell 12 "P99.9" ++ " "
          ++ cell 12 "Max")%string;
        strings.Repeat "-" 64]
    ++ map tail_line reports
    ++ [(nl ++ "Latency Distribution:")%string] ++ dist ++ [""])%list).

(** ** The command "server" *)

Record server_flags := mkServerFlags { sf_addr : string; sf_cpu : bool; sf_system : string }.
Definition default_server_flags : server_flags := mkServerFlags "0.0.0.0:8081" false "qrpc".

Section server.
Context `{Crypto} {listener quic_error E L tlsConfig : Type}.
Variable ListenAddr : string → tls_Config → quic_Config → outcome quic_error listener.
Variables (Listen : string → outcome E L) (grpcTLS : outcome E tlsConfig).
Variable Serve : gmap string (Request → outcome E Response) → tlsConfig → L → option E.

(** How [runServer] ends: it never does, it returns, or [log.Fatalf] ends the
    program. *)
Inductive server_end :=
| ServesForever (s : BenchServer)
| ServerReturns
| GrpcFatal (e : @grpc.grpc_start_error E)
| QrpcFatal (e : @start_error _ quic_error).

Definition runServer (rnd rnd' : entropy) (now now' : Z) (f : server_flags) : outcome Empty_set server_end :=
  if bool_decide (f.(sf_system) = SystemGRPC) then
    match grpc.GrpcRunServer Listen grpcTLS Serve f.(sf_addr) f.(sf_cpu) with
    | Ok _ => Ok ServerReturns
    | Err e => Ok (GrpcFatal e)
    | Panic => Panic
    | NoFuel => NoFuel
    end
  else
    match RunServer ListenAddr rnd rnd' now now' f.(sf_addr) f.(sf_cpu) with
    | Ok (RunBlocked s) => Ok (ServesForever s)
    | Ok (RunReturned e) => Ok (QrpcFatal e)
    | Err e => match e with end
    | Panic => Panic
    | NoFuel => NoFuel
    end.

(** The default server serves the benchmark handlers at the default address
    unless there is no certificate or the address cannot be listened on. *)
Lemma runServer_default rnd rnd' now now' c l :
  GetQuicTLSConfig rnd rnd' now now' = Ok c → ListenAddr "0.0.0.0:8081" c server_quic_Config = Ok l →
  ∃ s srv, runServer rnd rnd' now now' default_server_flags = Ok (ServesForever s) ∧ started ListenAddr s srv.
Proof.
  intros Hc Hl. unfold runServer, RunServer. cbn [default_server_flags sf_system sf_addr sf_cpu].
  rewrite bool_decide_eq_false_2 by done.
  destruct (BenchServer_Start ListenAddr rnd rnd' now now' (NewBenchServer "0.0.0.0:8081" false)) as [s| | |] eqn:Es;
    pose proof Es as Es'; unfold BenchServer_Start, NewServer in Es'; cbn [NewBenchServer bs_addr] in Es';
    rewrite Hc, Hl in Es'; cbn in Es'; [|done..].
  injection Es' as <-. eexists _, _. split; [done|]. split; [done|]. by eauto 10.
Qed.
End server.

(** ** The commands that act *)

Section commands.
Context {W : Type} (tc : list string → W → W * (string * option string)).
Variables RFC3339 RFC3339Nano : Z → string.

(** [runCleanup]: without the permission the cleanup is skipped, any other error
    ends the program. *)
Inductive cleanup_result := Cleaned | CleanupSkipped | CleanupFailed (e : netem.error).
Definition runCleanup (iface : string) (w : W) : W * cleanup_result :=
  match netem.Clean tc iface w with
  | (w, Err e) => (w, if netem.Is_ErrNotPermitted e then CleanupSkipped else CleanupFailed e)
  | (w, _) => (w, Cleaned)
  end.

Inductive exit := Usage (e : runBenchmark.exit_error) | BenchmarkFailed (e : scenarios.run_error).

(** [runBenchmark]: the flags are checked, the scenario is run, and the summary
    is printed unless the run failed or was interrupted. *)
Definition runBenchmark (env : nat → scenarios.visit) (f : runBenchmark.Flags) :
    prog_on (@scenarios.world W) exit string := λ w,
  match runBenchmark.resolve f with
  | Err e => (w, Err (Usage e))
  | Panic => (w, Panic)
  | NoFuel => (w, NoFuel)
  | Ok (scenario, profiles, lc) =>
      let r := scenarios.NewRunner f.(runBenchmark.iface) f.(runBenchmark.output) f.(runBenchmark.raw)
                 f.(runBenchmark.system) f.(runBenchmark.addr) in
      match scenarios.RunScenario tc RFC3339 RFC3339Nano env r scenario profiles lc w with
      | (w, Ok (reports, None)) => (w, Prelude.total (printSummary scenario reports))
      | (w, Ok (reports, Some e)) => (w, Err (BenchmarkFailed e))
      | (w, Err e) => (w, Err (BenchmarkFailed e))
      | (w, Panic) => (w, Panic)
      | (w, NoFuel) => (w, NoFuel)
      end
  end.

End commands.

(** ** Facts *)

(** The bar of a bucket has between zero and fifty blocks. *)
Lemma bar_len_bounds count success :
  0 ≤ count ≤ success → 0 < success ≤ 2 ^ 53 → 0 ≤ bar_len count success ≤ 50.
Proof.
  intros Hc Hs. pose proof (success_rate_bounds count success Hc Hs) as Hp.
  unfold bar_len, bucket_pct. set (pct := (of_int count / of_int success * 100)%F) in *.
  apply to_int_bounds; [done|]. unfold fdiv. destruct Hp as [H0 H1].
  split; [apply exact_rnd_ge; [exact exact_0|]|apply exact_rnd_le; [by exists 50|]].
  - apply Qle_shift_div_l; [done|]. by rewrite Qmult_0_l.
  - apply Qle_shift_div_r; [done|]. exact H1.
Qed.

(** A report whose distribution counts no more than its successes. *)
Definition dist_ok (r : metrics.Report) : Prop :=
  0 ≤ r.(metrics.SuccessCount) ≤ 2 ^ 53 ∧
  ∀ b k, r.(metrics.LatencyDist) !! b = Some k → k ≤ r.(metrics.SuccessCount).

Lemma bucket_lines_Ok r names : dist_ok r → ∃ l, bucket_lines r names = Ok l.
Proof.
  intros [Hs Hd]. induction names as [|b names [l IH]]; simpl; [eauto|]. rewrite IH.
  assert (∃ l', bucket_line r b = Ok l') as [l' ->]; [|simpl; eauto].
  unfold bucket_line. destruct (metrics.LatencyDist r !! b) as [k|] eqn:E; [|eauto].
  destruct (0 <? k) eqn:Hk; z_bools; [|eauto]. specialize (Hd b k E).
  pose proof (bar_len_bounds k r.(metrics.SuccessCount) ltac:(lia) ltac:(lia)).
  rewrite (proj2 (Z.ltb_ge _ _)) by lia. eauto.
Qed.

Lemma printSummary_Ok scenario reports :
  Forall dist_ok reports → ∃ text, printSummary scenario reports = Ok text.
Proof.
  intros Hr. unfold printSummary.
  assert (∃ d, distributions reports = Ok d) as [d ->]; [|simpl; eauto].
  induction Hr as [|r rs Hr _ [d IH]]; cbn [distributions]; [eauto|].
  destruct (bucket_lines_Ok r bucket_names Hr) as [l ->]. rewrite IH. simpl. eauto.
Qed.

Lemma resolve_safe f : safe (runBenchmark.resolve f).
Proof.
  unfold runBenchmark.resolve. destruct (DefaultScenarios !! _); [|done].
  apply bind_safe; [apply wf.check_profiles_safe|done].
Qed.

(** The reports of the collector are such. *)
Lemma report_dist_ok now scenario profile system lc raw c r :
  scenarios.collector_ok c → metrics.report now scenario profile system lc raw c = Ok r → dist_ok r.
Proof.
  intros (H1 & H2 & H3) Hr. destruct (report_LatencyDist _ _ _ _ _ _ _ _ H1 H2 H3 Hr) as [Hd Hs].
  unfold dist_ok. rewrite Hd, Hs. pose proof (len_durations c.(metrics.samples)).
  split; [len_lia|]. intros b k Hk. rewrite buildDistribution_lookup in Hk.
  case_match; simplify_eq. rewrite (occurrences_perm _ _ _ (Float64s_perm _)). unfold occurrences, len.
  rewrite <- (length_fmap of_int (durations _)). apply Nat2Z.inj_le, length_filter.
Qed.

Lemma report_of_dist_ok v r name p lc rep :
  scenarios.visit_ok v → wf.LoadConfig_wf lc → scenarios.report_of v r name p lc = Some rep → dist_ok rep.
Proof.
  intros Hv Hwf Hr. unfold scenarios.report_of in Hr. apply bind_Some in Hr as (pr & _ & Hr).
  pose proof (scenarios.visit_report v name p (scenarios.system r) _ (scenarios.saveRaw r)
    (scenarios.serverAddr r) Hv (scenarios.set_System_wf (scenarios.system r) lc Hwf)) as Hs.
  destruct (generator.Start _ _ _ _ _) as [g|e| |]; try done. destruct Hs as (_ & Hc & rep' & E).
  rewrite E in Hr. injection Hr as <-. by eapply report_dist_ok.
Qed.

(** The command "run", when it is not interrupted, prints a summary unless the
    flags name an unknown scenario or profile: no run of it panics. *)
Theorem runBenchmark_completes {W} (tc : list string → W → W * (string * option string))
    RFC3339 RFC3339Nano env f w :
  f.(runBenchmark.payloadSize) < 2 ^ 63 →
  (∀ i, (env i).(scenarios.ctx_done) = false ∧ scenarios.visit_ok (env i)) →
  match runBenchmark tc RFC3339 RFC3339Nano env f w with
  | (_, Ok text) => True
  | (_, Err (Usage e)) => runBenchmark.resolve f = Err e
  | _ => False
  end.
Proof.
  intros Hf He. unfold runBenchmark.
  destruct (runBenchmark.resolve f) as [[[name ps] lc]|e| |] eqn:Hres; try done.
  - unfold runBenchmark.resolve in Hres.
    destruct (DefaultScenarios !! runBenchmark.scenario f) as [sc|] eqn:Hsc; [|done].
    apply bind_Ok_inv in Hres as ([] & _ & Hres). injection Hres as <- <- <-.
    assert (wf.LoadConfig_wf (runBenchmark.overrides f sc.(sc_LoadConfig))) as Hwf.
    { apply wf.overrides_wf; [done|]. by apply (wf.DefaultScenarios_wf _ _ Hsc). }
    edestruct (@scenarios.RunScenario_spec W tc RFC3339 RFC3339Nano env) as (m & d & ->); [done|exact Hwf|done|].
    edestruct printSummary_Ok as [text ->]; [|done].
    apply Forall_forall. intros rep (o & Ho & Hid)%list_elem_of_omap.
    apply elem_of_lookup_imap_1 in Ho as (i & p & -> & _).
    eapply report_of_dist_ok; [apply (He i)|exact Hwf|exact Hid].
  - pose proof (resolve_safe f) as Hs. by rewrite Hres in Hs.
  - pose proof (resolve_safe f) as Hs. by rewrite Hres in Hs.
Qed.

End stress_main.
